(* ===== verification/_CoqProject ===== *)
-Q . S2P
Prelude.v
Errors.v
Pgdb.v
Sql.v
PgModel.v
Clients.v
Exclusive.v
Tokens.v
Race.v
Accounts.v
Migrate.v
MigRace.v
Export.v
Adapters.v
Mockdb.v
Drivers.v
Accept.v
Http.v
Cookies.v
Params.v
DecoderCache.v
CtxVals.v
Acctctx.v
Acctmw.v
AcctAuth.v
Inputs.v
AcctFlows.v
AcctExamples.v
AcctGuard.v
AcctRevoke.v
Middleware.v
Wrappers.v
Server.v
Webpages.v
Testdb.v
Pgcron.v
