(* ===== verification/Prelude.v ===== *)
(** * karbur: a verification development

    karbur is a collection of Go packages for web applications on PostgreSQL.
    This library translates the packages that carry its logic into Rocq and
    proves what makes them correct.

    ** The program and its parts

    - errors (src/errors/errors.go): error trees, tags and key-value metadata.
    - ctxvals (src/ctxvals/ctxvals.go): loggers, servers and log fields carried
      by a context.
    - pgdb (src/pgdb/database.go): transactions with rollback, retry with
      backoff on deadlocks, mapping of driver errors, SQL escapes.  The
      adapters (src/pgdb/pgxadapt, src/pgdb/sqladapt) are its drivers.
    - pgdb/migrate (src/pgdb/migrate/migrate.go): groups of versioned
      migrations, ordered by their dependencies and applied in a transaction.
    - pgdb/mockdb and pgdb/testdb (src/pgdb/mockdb, src/pgdb/testdb): doubles of
      the interfaces of pgdb, and temporary databases for tests.
    - tokens (src/tokens/tokens.go and its SQL): persistent random tokens,
      on pgdb.
    - server (src/server/server.go): a server with certificates and graceful
      shutdown; server/middleware: HTTP middleware, and the negotiation of the
      content type from an Accept header (gddo_header.go, gddo_negotiate.go);
      server/params (params.go): a decoder of path values, cookies, query
      strings and bodies into a struct, which it validates; server/webpages: a
      renderer of template pages from a file system.
    - accounts (src/accounts/accounts.go and its SQL): accounts, groups and
      memberships; accounts/acctctx: the account and the session of a request;
      accounts/acctmw: the handlers Session, Login, Logout, Register, Delete,
      Authorize and Deny.

    Tokens and the migrator send their statements through the interfaces of
    pgdb; a transaction travels in the context, so an operation called within
    one joins it.  The middleware uses ctxvals for the fields it logs and the
    header parser to choose a content type.  A session is a token whose value is
    a cookie; the handlers of acctmw decode their parameters with params, keep
    sessions in the tokens and in the context, and find accounts by the token's
    reference.

    ** The files

    - Prelude (this file): tactics and hint databases, machine integers, the
      effect monad [go], lenses, strings, code points, decimals, list lemmas.
    - Errors: the type [error] has a constructor per error type the code
      builds or receives.  A [taggedError] points to its metadata in a [heap],
      so that WithKeyValue, which writes in place, is seen through every error
      that shares the pointer.
    - Pgdb: the interfaces Queryer, Txer, BeginTxer and Connection as records
      of operations on a world [W]; doTx, Tx, EnsureTx, EnsureQueryer,
      calculateBackoff, QuoteEsc and LikeEsc as in database.go.  The class
      [TxLaws] states what a driver promises of begin, commit, rollback and
      statements, with the database as seen by everyone and by an open
      transaction; [EnvLaws] says that the clock, the randomness and the wait of
      the environment do not touch it.
    - Sql: a statement as the function it computes on the state, [SqlLaws], and
      what a statement does through Exec and QueryOne, in the transaction of the
      context or outside of one.
    - PgModel: an executable database (committed state, private states of the
      open transactions, clock, script of faults) that satisfies every law; the
      witnesses run on it.
    - Tokens: the table with the constraints of its migrations, its statements,
      and New, UpdateData, Rotate, Verify, Delete, DeleteByTypeRef, ResetIdle and
      Cleanup.
    - Clients: a driver that replays the answers a client got and stops at its
      next request, a server with row locks, advisory locks and statement or
      transaction snapshots, and a client as the tree of its requests.
      Exclusive: clients whose transactions take one advisory lock first.
    - Race: Verify called by any number of clients at once, each the definition
      of Tokens on the driver of Clients.
    - Migrate: Register, prepareMigrations, prepareMigrationsFS,
      orderMigrationGroups, migrateGroups and Migrate, with a reference
      implementation of the topological sort they call.  The class [Statements]
      has the statements the migrator sends, with the advisory lock.  MigRace:
      any number of migrators at once, on the server of Clients.
    - Export: Export of the migrator, with the paths of path/filepath, and the
      registrations of the migrations of tokens and accounts.
    - Adapters: conversions of transaction options.
    - Mockdb: the doubles of pgdb's interfaces (src/pgdb/mockdb): how the
      constructors read their arguments, and the methods of a mock.
    - Drivers: the pools, connections, transactions and cursors of the adapters
      src/pgdb/sqladapt and src/pgdb/pgxadapt, on the handles of their drivers.
    - Testdb: NewSQL, NewPqSQL and NewPgx of src/pgdb/testdb, the functions they
      register with t.Cleanup and run_test, a test from its start to the end of
      its cleanups; the statements on databases and roles, and a server that runs
      them.  Pgcron: the mock of pg_cron of the same file.
    - Accept: the octet table, the tokenizer and the parser of Accept headers
      with 64-bit wrapping integers and binary64 arithmetic, the negotiation.
    - Http: headers, response writers, the state reachable by the handlers of a
      request, handlers as functions on that state.
    - Cookies: the Cookie header of a request and the Set-Cookie header of a
      response, as net/http reads and prints them.
    - Params: Decoder.Decode and what it calls, over a description of the fields
      of the destination type; DecoderCache: its cache, shared by concurrent
      calls; Inputs: the theorems on Decode and on the inputs of the account
      handlers.
    - Accounts: the three tables with the constraints of their migrations, their
      statements and the functions of accounts.go.
    - Acctctx: WithAccount, WithSession, ResetSession, ReplaceSessionData; the
      sessions are addressed by pointers, since handlers write through them.
    - Acctmw: the handlers of the package, on a request's world that holds the
      database, the error metadata and the sessions (by [Lens], [Apart]).
      Session is [SessionMW]: load_token, load_session, the handler,
      save_session; Login is login, leave_session, enter_session.
    - AcctAuth (authorization, login, loading a session) and AcctFlows (logout,
      deletion, registration, saving a session, and the request that follows a
      login): their theorems.  AcctExamples: an application on PgModel where the
      theorems of the account packages are applied.  AcctGuard: Authorize behind
      Session, and two attempts to log in compared.  AcctRevoke: requests that
      follow a logout or a deletion.
    - CtxVals, Middleware: the packages of the same name; a middleware is a
      function from handlers to handlers, as in the code.  Wrappers: the
      middleware that hand the handler to another package.
    - Server: Build, and ListenAndServe as a transition system of two
      goroutines, where the store of a state and the call of its hook are two
      separate steps.
    - Webpages: the renderer of template pages (src/server/webpages), with the
      walk of the file system written out.

    ** How code becomes definitions

    A function of the code is a definition with its name.  Code with effects is
    in the monad [go W A], a function from a world to an outcome (a value or a
    panic) and the next world; a pair (value, error) is a [res].  Deferred
    functions are written with [defer], those that recover with [recover].  Integers are
    Z with the wrap-around of their width where the code can reach it
    ([i64]); time.Duration is in nanoseconds.  A map whose contents are
    shared by reference lives in the world.

    What is not under src/ is a parameter: drivers, text/template, html/template, the
    topological sort, the order in which a map is visited, httpsnoop, rs/cors,
    argon2id, gorilla/schema, encoding/json, the network.  What the code relies
    on is stated by a class of laws or a hypothesis, and each class has an
    instance.

    ** The theorems

    - Transactions (Pgdb): doTx is atomic on every way out of fn, a panic
      included ([Tx_atomic]); Tx is exactly a number of attempts, at most as many
      as it may make, each after the wait that follows a deadlock, and its outcome is that of the
      last one or of the wait ([Tx_attempts]); where the error of an attempt
      comes from, and what it still answers ([doTx_error]).
    - Tokens: each operation refines one atomic step of the table, whatever the
      driver does ([Verify_refines], and the lemmas [New_refines] and
      [Rotate_refines]); the table keeps its constraints ([tokens_invariant]);
      tokens verify until they pass ([New_Verify], [Cleanup_safe], and the lemma
      [Rotate_Verify]); a single-use token that a call of Verify returned is
      refused by every later call ([Verify_once]); sizes (the lemma [New_size]).
      The operations are steps one after the other there; with transactions that
      interleave, a single-use token is accepted once when transactions have
      snapshots, and can be accepted twice at READ COMMITTED ([Verify_race]).
    - Migrations: all or nothing ([Migrate_applies]), incremental (the lemma
      [plan_incremental]); at once, they are serial and all come to their end
      ([Migrate_serial]), and several instances of a program apply its
      migrations exactly once ([Migrate_once]); in an order of the dependencies
      or an error that says why there is none ([orderMigrationGroups_spec]); the
      registrations of the packages, in any order, lead to tokens before
      accounts ([RegisterMigrations_order]); the files that Export writes, and
      no others ([Export_exact]).
    - Accounts: the tables keep their constraints ([accounts_invariant]); a
      membership is what SetMembership was given ([SetMembership_exact]).
    - Sessions: who a handler sees, by a session that is valid at the time of
      the call ([Session_sound]), what Login, Register and Delete do to the database, the context, the cookie and the response on
      every path ([Login_sound], [Register_sound], [Delete_sound], and the lemma
      [Logout_sound]), what is saved afterwards ([session_saved_exact]), and
      that the cookie of a login brings back its account ([Login_Session]);
      Authorize and Deny against a reference predicate ([authorize_exact]);
      together, a handler behind Session and Authorize runs only for a live
      session of an account of the groups ([Session_Authorize]); an unknown
      email and a wrong password fail alike ([Login_no_enumeration]); a session
      that Logout or Delete ended is never served with an account again
      ([Session_revoked]). They hold for every driver, in or out of a
      transaction of the request's context.
    - Parameters: what a decoded input satisfies ([Decode_accepts]), what invalid
      inputs report ([Validate_reports]), cookies and base64 read back
      ([cookie_param_roundtrip]), sessions of a context (the lemma
      [session_writes]).
    - Server: for every interleaving, the hooks called when ListenAndServe
      returns ([hooks_at_return]); its runs end with its return, or in the
      Shutdown of the http.Server, which waits for busy connections or for the
      time the configuration allows, for ever if that is none
      ([ListenAndServe_returns]); Build runs once (the lemma [Build_once]).
    - Middleware: bodies, statuses and headers the client sees, and what the
      handler is given ([CustomErrors_calls], [LimitResponseBodyBytes_body], and
      the lemmas [Logging_fields], [CORS_credentials], [StripPrefix_exact],
      [Compress_spec] and [default_logFn_sorted]).
    - Pages and mocks: a renderer has exactly the pages of its files, each made
      of the common templates and its own text ([New_exact]); a mock of a value is
      that value, and of nothing answers the default (the lemma [mock_of_value]).
    - Test databases: a test leaves the databases and the roles of the server as
      they were, on every way out ([temp_database]); the jobs of the mock of
      pg_cron (the lemma [Schedule_Unschedule]).
    - Drivers: the two adapters return the same on drivers that answer alike,
      but for Close, where they differ in a stated way ([adapters_agree]).
    - Accept: the parser ends, reads what it should and chooses the best offer
      (the lemma [parseAccept_total], [parseAccept_print], [negotiate_best]); the
      exact quality, wrap-around included ([expectQuality_decimals]).
    - Errors and CtxVals: the reads and writes of metadata, with aliasing, and
      which tagged errors a query looks at.

    ** Fuel and bounds

    Walks of an error tree take the size of the tree as fuel, which each step
    decreases.  Clients of a server are finite trees.  The parser of a header value takes one more than its length,
    enough by [parse_value_fuel].  The loop of Tx is given maxAttempts (4), and
    always returns ([tx_loop_returns]).  The loop on a cursor is compared at
    every fuel; the walk of a file system is given any fuel above the depth of its
    directories ([finite_sub]).  The runs of the goroutines of ListenAndServe are finite
    by a measure on their state.

    ** Not modelled

    Drivers are those of [TxLaws] in the theorems on one client: a commit that
    fails leaves the committed state alone.  A commit whose answer is lost is a
    step of the server of Clients ([served_commit]); the theorems of MigRace and
    Race, on several clients, hold with it, those on one client do not speak of it.
    Templates that a migration file declares with define, each of which would be
    a statement of its own, are left out.  params: a destination that is not a pointer to a struct, or
    has fields that cannot be set, is a programming error that the types of the
    model exclude.  Informational (1xx) statuses are written like final ones.  A
    connection of the http.Server does not become busy once Shutdown was called.

    Log lines; the text of the statements of the mock of pg_cron, which are an
    enumeration; what the packages do that a middleware hands a handler to; the
    contents of the embedded migrations of tokens and accounts, beyond the tables
    they make; how long a comparison of passwords takes; surrogate keys and
    creation times that no statement reads.  The struct types of params
    have no embedded nil pointers.  Of html/template nothing is known but that its
    errors are not those that end a walk. *)

From Stdlib Require Import ZArith Ascii String Lia.
From stdpp Require Export base decidable option list gmap strings.
From stdpp Require Import countable.

#[global] Open Scope Z_scope.

(** ** Tactics and hint databases

    [karbur] collects the resolution hints of the components, [go_run] the
    rewrite rules that execute the effectful combinators below. *)

Create HintDb karbur discriminated.
Create Rewrite HintDb go_run.

(** Split every conjunction of the context and of the goal, and close the
    leaves that are immediate. *)
Ltac split_all := repeat match goal with
  | |- _ /\ _ => split
  | H : _ /\ _ |- _ => destruct H
  end.

(** Case analysis on the scrutinee of the innermost match of the goal. *)
Ltac case_goal := match goal with
  | |- context [match ?x with _ => _ end] =>
      lazymatch x with
      | context [match _ with _ => _ end] => fail
      | _ => let E := fresh "E" in destruct x eqn:E
      end
  end.

(** The same on a hypothesis. *)
Ltac case_in H := match type of H with
  | context [match ?x with _ => _ end] =>
      lazymatch x with
      | context [match _ with _ => _ end] => fail
      | _ => let E := fresh "E" in destruct x eqn:E
      end
  end.

(** Two hypotheses that give an expression its value agree on it. *)
Ltac same H H' := rewrite H in H'; injection H' as <-.

(** Turn boolean string tests of the context into (in)equalities. *)
Ltac string_tests := repeat match goal with
  | H : String.eqb _ _ = true |- _ => apply String.eqb_eq in H
  | H : String.eqb _ _ = false |- _ => apply String.eqb_neq in H
  end.

(** ** Machine integers

    Go's [int] and [int64] on a 64-bit platform, and [int32]: a [Z] with the
    wrap-around of two's complement written out. *)

Definition wrap (bits z : Z) : Z :=
  (z + 2 ^ (bits - 1)) mod 2 ^ bits - 2 ^ (bits - 1).
Definition i64 (z : Z) : Z := wrap 64 z.
Definition i32 (z : Z) : Z := wrap 32 z.
Definition MinInt64 : Z := - 2 ^ 63.
Definition MaxInt64 : Z := 2 ^ 63 - 1.

Lemma wrap_id bits z :
  0 < bits -> - 2 ^ (bits - 1) <= z < 2 ^ (bits - 1) -> wrap bits z = z.
Proof.
  intros Hb Hz. unfold wrap.
  assert (2 ^ bits = 2 * 2 ^ (bits - 1)) as E.
  { rewrite <- Z.pow_succ_r by lia. f_equal. lia. }
  rewrite Z.mod_small; lia.
Qed.

Lemma i64_id z : MinInt64 <= z <= MaxInt64 -> i64 z = z.
Proof. unfold MinInt64, MaxInt64. intros. apply wrap_id; lia. Qed.

Lemma i64_range z : MinInt64 <= i64 z <= MaxInt64.
Proof.
  unfold i64, wrap, MinInt64, MaxInt64.
  pose proof (Z.mod_pos_bound (z + 2 ^ (64 - 1)) (2 ^ 64) ltac:(lia)). lia.
Qed.

#[export] Hint Resolve i64_range : karbur.

(** Wrapping depends on the residue only, so it may be delayed. *)
Lemma wrap_mod bits z : wrap bits z mod 2 ^ bits = z mod 2 ^ bits.
Proof. unfold wrap. rewrite Zminus_mod_idemp_l. f_equal. lia. Qed.

Lemma wrap_eq bits x y : x mod 2 ^ bits = y mod 2 ^ bits -> wrap bits x = wrap bits y.
Proof.
  intros H. unfold wrap. rewrite <- (Zplus_mod_idemp_l x), H, Zplus_mod_idemp_l. done.
Qed.

Lemma wrap_add_l bits x y : wrap bits (wrap bits x + y) = wrap bits (x + y).
Proof. apply wrap_eq. now rewrite <- Zplus_mod_idemp_l, wrap_mod, Zplus_mod_idemp_l. Qed.

Lemma wrap_mul_l bits x y : wrap bits (wrap bits x * y) = wrap bits (x * y).
Proof. apply wrap_eq. now rewrite <- Zmult_mod_idemp_l, wrap_mod, Zmult_mod_idemp_l. Qed.

Lemma wrap_sub_l bits x y : wrap bits (wrap bits x - y) = wrap bits (x - y).
Proof. rewrite <- !Z.add_opp_r. apply wrap_add_l. Qed.

(** ** Results and effectful code

    [res E A] is a Go call that returns a value or an error.  [go W A] is a Go
    computation on a world [W]: it returns a value or panics, and the world it
    leaves holds the effects made up to that point either way. *)

Inductive res (E A : Type) : Type :=
| Ok (a : A)
| Err (e : E).
Arguments Ok {E A} a.
Arguments Err {E A} e.

Inductive outcome (A : Type) : Type :=
| Ret (a : A)
| Panicked (v : string).
Arguments Ret {A} a.
Arguments Panicked {A} v.

Definition go (W A : Type) : Type := W -> outcome A * W.

Section GoMonad.
Context {W : Type}.

Definition ret {A} (a : A) : go W A := fun w => (Ret a, w).

Definition bind {A B} (m : go W A) (k : A -> go W B) : go W B := fun w =>
  match m w with
  | (Ret a, w') => k a w'
  | (Panicked v, w') => (Panicked v, w')
  end.

Definition panic {A} (v : string) : go W A := fun w => (Panicked v, w).

Definition get : go W W := fun w => (Ret w, w).
Definition put (w' : W) : go W unit := fun _ => (Ret tt, w').
Definition gets {A} (f : W -> A) : go W A := fun w => (Ret (f w), w).
Definition modify (f : W -> W) : go W unit := fun w => (Ret tt, f w).

(** [defer d; m]: [d] runs when [m] returns and when it panics; a panic of
    [d] replaces the outcome. *)
Definition defer {A} (d : go W unit) (m : go W A) : go W A := fun w =>
  let '(o, w1) := m w in
  match d w1 with
  | (Ret _, w2) => (o, w2)
  | (Panicked v, w2) => (Panicked v, w2)
  end.

(** [recover]: a deferred function that handles a panic value. *)
Definition recover (m : go W unit) (h : string -> go W unit) : go W unit :=
  fun w => match m w with
  | (Ret u, w') => (Ret u, w')
  | (Panicked v, w') => h v w'
  end.

Lemma bind_ret {A B} (a : A) (k : A -> go W B) w : bind (ret a) k w = k a w.
Proof. reflexivity. Qed.

Lemma bind_run {A B} (m : go W A) (k : A -> go W B) w a w' :
  m w = (Ret a, w') -> bind m k w = k a w'.
Proof. intros E. unfold bind. now rewrite E. Qed.

Lemma bind_ext {A B} (m : go W A) (k k' : A -> go W B) w :
  (forall a w', k a w' = k' a w') -> bind m k w = bind m k' w.
Proof. intros E. unfold bind. by destruct (m w) as [[a|v] w']. Qed.

Lemma bind_assoc {A B C} (m : go W A) (k : A -> go W B) (l : B -> go W C) w :
  bind (bind m k) l w = bind m (fun a => bind (k a) l) w.
Proof. unfold bind. now destruct (m w) as [[] ?]. Qed.

Lemma bind_ret_inv {A B} (m : go W A) (k : A -> go W B) w b w' :
  bind m k w = (Ret b, w') ->
  exists a w1, m w = (Ret a, w1) /\ k a w1 = (Ret b, w').
Proof. unfold bind. destruct (m w) as [[a|v] w1]; [eauto|discriminate]. Qed.
End GoMonad.

#[export] Hint Rewrite @bind_ret @bind_assoc : go_run.

(** [if err != nil { return err }] after a call. *)
Definition bindE {W E A B} (m : go W (res E A)) (k : A -> go W (res E B)) : go W (res E B) :=
  bind m (fun r => match r with Ok a => k a | Err e => ret (Err e) end).

Declare Scope go_scope.
Delimit Scope go_scope with go.
Notation "'let!' x ':=' m 'in' k" := (bind m (fun x => k))
  (at level 10, x pattern, m at level 200, k at level 200, only parsing)
  : go_scope.
Notation "'let?' x ':=' m 'in' k" := (bindE m (fun x => k))
  (at level 10, x pattern, m at level 200, k at level 200, only parsing)
  : go_scope.
Notation "'do!' m 'in' k" := (bind m (fun _ => k))
  (at level 10, m at level 200, k at level 200, only parsing) : go_scope.

(** A call on a part of the world.  [Lens W S] is what a component asks of a
    larger world: a part it can read and replace. *)
Class Lens (W S : Type) := {
  view : W -> S;
  update : S -> W -> W;
  view_update : forall s w, view (update s w) = s;
  update_view : forall w, update (view w) w = w;
  update_update : forall s s' w, update s (update s' w) = update s w;
}.
#[export] Hint Rewrite @view_update @update_view @update_update : go_run.

#[export, refine] Instance Lens_refl {W} : Lens W W :=
  {| view := fun w => w; update := fun s _ => s |}.
Proof. all: reflexivity. Defined.

(** Two parts of a world that do not overlap. *)
Class Apart (W S T : Type) `{Lens W S, Lens W T} := {
  view_apart : forall (t : T) (w : W), view (S := S) (update t w) = view w;
  view_apart' : forall (s : S) (w : W), view (S := T) (update s w) = view w;
}.

Definition zoom {W S A} `{Lens W S} (m : go S A) : go W A := fun w =>
  let '(o, s) := m (view w) in (o, update s w).

Lemma zoom_run {W S A} `{Lens W S} (m : go S A) (w : W) o s :
  m (view w) = (o, s) -> zoom m w = (o, update s w).
Proof. intros E. unfold zoom. now rewrite E. Qed.

(** ** Strings

    Go strings are byte strings: [String.string]. *)

Fixpoint has_prefix (p s : string) : bool :=
  match p, s with
  | EmptyString, _ => true
  | String a p', String b s' => Ascii.eqb a b && has_prefix p' s'
  | _, _ => false
  end.

(** [s[n:]] for [n <= len s]. *)
Fixpoint drop_str (n : nat) (s : string) : string :=
  match n, s with
  | O, _ => s
  | S n', String _ s' => drop_str n' s'
  | S _, EmptyString => EmptyString
  end.

(** [s[:n]]. *)
Fixpoint take_str (n : nat) (s : string) : string :=
  match n, s with
  | S n', String a s' => String a (take_str n' s')
  | _, _ => EmptyString
  end.

Definition has_suffix (suf s : string) : bool :=
  (String.length suf <=? String.length s)%nat &&
  String.eqb (drop_str (String.length s - String.length suf) s) suf.

Lemma drop_str_length n s : (String.length (drop_str n s) <= String.length s)%nat.
Proof. revert s. induction n as [|n IH]; intros [|a s]; simpl; try lia. specialize (IH s). lia. Qed.
Lemma drop_str_length_eq n s : String.length (drop_str n s) = (String.length s - n)%nat.
Proof. revert s. induction n as [|n IH]; intros [|c s]; unfold drop_str; fold drop_str; simpl; done || apply IH. Qed.

#[global] Arguments has_prefix : simpl never.
#[global] Arguments drop_str : simpl never.
#[global] Arguments Ascii.eqb : simpl never.

Definition byte_val (c : ascii) : Z := Z.of_N (N_of_ascii c).

Fixpoint contains_byte (c : ascii) (s : string) : bool :=
  match s with
  | EmptyString => false
  | String a s' => Ascii.eqb a c || contains_byte c s'
  end.

Lemma str_app_cons a s t : (String a s +:+ t) = String a (s +:+ t).
Proof. reflexivity. Qed.

Lemma str_app_nil_l s : (EmptyString +:+ s) = s.
Proof. reflexivity. Qed.

Lemma str_app_nil_r s : (s +:+ EmptyString) = s.
Proof. induction s as [|a s IH]; [done|]. now rewrite str_app_cons, IH. Qed.

Lemma str_app_assoc s t u : (s +:+ (t +:+ u)) = ((s +:+ t) +:+ u).
Proof. induction s as [|a s IH]; [done|]. now rewrite !str_app_cons, IH. Qed.

Lemma length_app_str s t :
  String.length (s +:+ t) = (String.length s + String.length t)%nat.
Proof. induction s as [|a s IH]; [done|]. rewrite str_app_cons. simpl. lia. Qed.

#[export] Hint Rewrite str_app_cons str_app_nil_l str_app_nil_r : go_run.

Lemma has_prefix_spec p s :
  has_prefix p s = true <-> exists t, s = (p +:+ t).
Proof.
  revert s. induction p as [|a p IH]; intros s; unfold has_prefix; fold has_prefix.
  - split; [intros _; now exists s|done].
  - destruct s as [|b s]; [split; [done|intros [t [=]]]|].
    rewrite andb_true_iff, IH, Ascii.eqb_eq. split.
    + intros [-> [t ->]]. now exists t.
    + intros [t [= -> ->]]. eauto.
Qed.

Lemma drop_str_app s t : drop_str (String.length s) (s +:+ t) = t.
Proof. induction s; [done|]. rewrite str_app_cons. done. Qed.

Lemma take_str_all n s : (String.length s <= n)%nat -> take_str n s = s.
Proof. revert n. induction s as [|c s IH]; intros [|n] H; simpl in *; try lia; try done. rewrite IH; [done|lia]. Qed.

Lemma take_str_length n s : String.length (take_str n s) = Nat.min n (String.length s).
Proof. revert n. induction s as [|c s IH]; intros [|n]; simpl; try done. by rewrite IH. Qed.

Lemma take_str_app s t : take_str (String.length s) (s +:+ t) = s.
Proof. induction s as [|a s IH]; [by destruct t|]. rewrite str_app_cons. simpl. by rewrite IH. Qed.

Lemma take_drop_str n s : (take_str n s +:+ drop_str n s) = s.
Proof.
  revert s. induction n as [|n IH]; intros [|a s]; simpl; try done.
  now rewrite str_app_cons, IH.
Qed.

Lemma has_suffix_spec suf s :
  has_suffix suf s = true <-> exists t, s = (t +:+ suf).
Proof.
  unfold has_suffix. rewrite andb_true_iff, Nat.leb_le, String.eqb_eq. split.
  - intros [_ E]. exists (take_str (String.length s - String.length suf) s).
    pose proof (take_drop_str (String.length s - String.length suf) s) as Ht.
    now rewrite E in Ht.
  - intros [t ->]. rewrite length_app_str. split; [lia|].
    replace (String.length t + String.length suf - String.length suf)%nat
      with (String.length t) by lia. apply drop_str_app.
Qed.

Lemma string_cons_app_inv a s t u : String a s = (String t EmptyString +:+ u) -> a = t /\ s = u.
Proof. rewrite str_app_cons, str_app_nil_l. by intros [= -> ->]. Qed.

(** PostgreSQL's length(text) counts characters: the bytes that do not continue one. *)
Fixpoint char_length (s : string) : Z :=
  match s with
  | EmptyString => 0
  | String c s' =>
      (if (128 <=? byte_val c) && (byte_val c <? 192) then 0 else 1) + char_length s'
  end.

Lemma char_length_cons c s : byte_val c < 128 -> char_length (String c s) = 1 + char_length s.
Proof. intros H. simpl. destruct (Z.leb_spec 128 (byte_val c)); [lia|done]. Qed.

(** ** Decimal text

    [strconv.Itoa] and [strconv.Atoi] of the Go standard library on base ten:
    an optional sign, then at least one digit, nothing else.  [Atoi] reports a
    range error outside [int64] and then returns the nearest bound, and returns
    0 with a syntax error. *)

Definition digit (c : ascii) : option Z :=
  let v := byte_val c in
  if (48 <=? v) && (v <=? 57) then Some (v - 48) else None.

Definition digit_char (d : Z) : ascii := ascii_of_N (Z.to_N (48 + d)).

Fixpoint parse_digits (acc : Z) (s : string) : option Z :=
  match s with
  | EmptyString => Some acc
  | String c s' =>
      match digit c with
      | Some d => parse_digits (acc * 10 + d) s'
      | None => None
      end
  end.

(** The value [Atoi] returns and whether its error is nil. *)
Definition Atoi (s : string) : Z * bool :=
  let '(neg, body) :=
    match s with
    | String c s' =>
        if Ascii.eqb c "-" then (true, s')
        else if Ascii.eqb c "+" then (false, s') else (false, s)
    | EmptyString => (false, s)
    end in
  match body with
  | EmptyString => (0, false)
  | _ =>
      match parse_digits 0 body with
      | None => (0, false)
      | Some n =>
          let n := if (neg : bool) then - n else n in
          if n <? MinInt64 then (MinInt64, false)
          else if MaxInt64 <? n then (MaxInt64, false)
          else (n, true)
      end
  end.

(** Digits of [n], most significant first, in front of [acc]; the fuel is
    enough when [n < 10 ^ fuel]. *)
Fixpoint format_digits (fuel : nat) (n : Z) (acc : string) : string :=
  match fuel with
  | O => acc
  | S f =>
      let acc' := String (digit_char (n mod 10)) acc in
      if n / 10 =? 0 then acc' else format_digits f (n / 10) acc'
  end.

Definition Itoa (n : Z) : string :=
  if n <? 0 then String "-" (format_digits 20 (- n) EmptyString)
  else format_digits 20 n EmptyString.

(** hex.EncodeToString. *)
Definition hex_digit (n : Z) : ascii := if n <? 10 then digit_char n else ascii_of_N (Z.to_N (87 + n)).
Fixpoint hex_EncodeToString (b : list Z) : string :=
  match b with
  | [] => EmptyString
  | x :: b' => String (hex_digit (x / 16)) (String (hex_digit (x mod 16)) (hex_EncodeToString b'))
  end.

Lemma hex_length b : String.length (hex_EncodeToString b) = (2 * length b)%nat.
Proof. induction b as [|x b IH]; [done|]. simpl. rewrite IH. lia. Qed.

(** A decidable fact about the integers below a bound is checked on each of
    them. *)
Lemma every_below (n : nat) (P : Z -> Prop) `{!forall d, Decision (P d)} :
  forallb (fun i => bool_decide (P (Z.of_nat i))) (seq 0 n) = true ->
  forall d, 0 <= d < Z.of_nat n -> P d.
Proof.
  intros Hall d Hd. rewrite forallb_forall in Hall.
  specialize (Hall (Z.to_nat d)). rewrite Z2Nat.id in Hall by lia.
  apply (proj1 (bool_decide_eq_true (P d))), Hall, in_seq. lia.
Qed.

Lemma digit_digit_char d : 0 <= d < 10 -> digit (digit_char d) = Some d.
Proof.
  apply (every_below 10 (fun d => digit (digit_char d) = Some d)). by vm_compute.
Qed.

Lemma byte_digit_char d : 0 <= d < 10 -> byte_val (digit_char d) = 48 + d.
Proof.
  apply (every_below 10 (fun d => byte_val (digit_char d) = 48 + d)). by vm_compute.
Qed.

Lemma parse_format_digits fuel n acc a :
  0 <= n < 10 ^ Z.of_nat fuel ->
  exists k, parse_digits a (format_digits fuel n acc) =
    parse_digits (a * 10 ^ k + n) acc /\ 0 <= k.
Proof.
  revert n acc. induction fuel as [|f IH]; intros n acc Hn.
  { exists 0. simpl in *. split; [f_equal; lia|lia]. }
  simpl format_digits.
  pose proof (Z.div_mod n 10 ltac:(lia)) as Hdm.
  pose proof (Z.mod_pos_bound n 10 ltac:(lia)) as Hm.
  assert (Hlast : forall b, parse_digits b (String (digit_char (n mod 10)) acc)
                   = parse_digits (b * 10 + n mod 10) acc).
  { intros b. simpl. now rewrite digit_digit_char. }
  destruct (Z.eqb_spec (n / 10) 0) as [Hz|Hz].
  - exists 1. rewrite Hlast. split; [f_equal; lia|lia].
  - destruct (IH (n / 10) (String (digit_char (n mod 10)) acc)) as (k & Ek & Hk).
    { rewrite Nat2Z.inj_succ, Z.pow_succ_r in Hn by lia.
      split; [apply Z.div_pos; lia|apply Z.div_lt_upper_bound; lia]. }
    exists (k + 1). rewrite Ek, Hlast. split; [|lia].
    rewrite Z.pow_add_r, Z.pow_1_r by lia. f_equal.
    set (p := 10 ^ k) in *. nia.
Qed.

(** [format_digits] starts with a digit: never with a sign. *)
Lemma format_digits_head fuel n acc :
  (0 < fuel)%nat ->
  exists d s, format_digits fuel n acc = String (digit_char d) s /\ 0 <= d < 10.
Proof.
  revert n acc. induction fuel as [|f IH]; intros n acc Hf; [lia|].
  simpl. destruct (n / 10 =? 0).
  - exists (n mod 10), acc. split; [done|]. apply Z.mod_pos_bound. lia.
  - destruct f as [|f']; [simpl; exists (n mod 10), acc; split;
      [done|apply Z.mod_pos_bound; lia]|].
    apply IH. lia.
Qed.

Lemma digit_char_not_sign d :
  0 <= d < 10 ->
  Ascii.eqb (digit_char d) "-" = false /\ Ascii.eqb (digit_char d) "+" = false.
Proof.
  apply (every_below 10 (fun d => Ascii.eqb (digit_char d) "-" = false /\
    Ascii.eqb (digit_char d) "+" = false)). by vm_compute.
Qed.

Lemma Atoi_Itoa n : MinInt64 <= n <= MaxInt64 -> Atoi (Itoa n) = (n, true).
Proof.
  intros Hn. unfold Itoa. unfold MinInt64, MaxInt64 in Hn.
  assert (Hf : forall m, 0 <= m <= 2 ^ 63 ->
    parse_digits 0 (format_digits 20 m EmptyString) = Some m).
  { intros m Hm. destruct (parse_format_digits 20 m EmptyString 0) as (k & -> & _);
      [simpl; lia|]. simpl; f_equal; lia. }
  destruct (n <? 0) eqn:Hneg; [apply Z.ltb_lt in Hneg|apply Z.ltb_ge in Hneg].
  - specialize (Hf (- n) ltac:(lia)).
    destruct (format_digits_head 20 (- n) EmptyString) as (d & s & E & Hd); [lia|].
    rewrite E in *. unfold Atoi, MinInt64, MaxInt64.
    change (Ascii.eqb "-" "-") with true. cbv iota.
    rewrite Hf, Z.opp_involutive.
    destruct (Z.ltb_spec n (- 2 ^ 63)); [lia|].
    destruct (Z.ltb_spec (2 ^ 63 - 1) n); [lia|done].
  - specialize (Hf n ltac:(lia)).
    destruct (format_digits_head 20 n EmptyString) as (d & s & E & Hd); [lia|].
    rewrite E in *. destruct (digit_char_not_sign d Hd) as [Hm Hp].
    unfold Atoi, MinInt64, MaxInt64. rewrite Hm, Hp, Hf.
    destruct (Z.ltb_spec n (- 2 ^ 63)); [lia|].
    destruct (Z.ltb_spec (2 ^ 63 - 1) n); [lia|done].
Qed.

Lemma Atoi_range s : MinInt64 <= fst (Atoi s) <= MaxInt64.
Proof.
  unfold Atoi, MinInt64, MaxInt64.
  repeat case_goal; simpl; try lia;
  repeat match goal with
  | H : (_ <? _) = false |- _ => apply Z.ltb_ge in H
  end; lia.
Qed.

(** ** Lists *)

Lemma omap_cons {A B} (f : A -> option B) (x : A) (l : list A) :
  omap f (x :: l) = match f x with Some y => y :: omap f l | None => omap f l end.
Proof. reflexivity. Qed.

Lemma omap_ext_in {A B} (f g : A -> option B) (l : list A) :
  (forall x, x ∈ l -> f x = g x) -> omap f l = omap g l.
Proof.
  induction l as [|x l IH]; intros H; [done|]. rewrite !omap_cons, (H x) by left.
  rewrite IH by (intros; apply H; by right). done.
Qed.

(** The first success of a partial function along a list. *)
Lemma head_omap_Some {A B} (f : A -> option B) (l : list A) b :
  head (omap f l) = Some b ->
  exists l1 x l2, l = l1 ++ x :: l2 /\ f x = Some b /\ Forall (fun y => f y = None) l1.
Proof.
  induction l as [|x l IH]; [done|]. rewrite omap_cons. destruct (f x) eqn:E.
  - intros [= ->]. by exists [], x, l.
  - intros H. destruct (IH H) as (l1 & y & l2 & -> & Hy & Hl).
    exists (x :: l1), y, l2. split_and!; [done..|]. by constructor.
Qed.

(** The left-to-right search for a best element that only moves on a strict
    improvement keeps the first of the best ones. *)
Section FirstBest.
Context {A : Type} (P : A -> Prop) (beats : A -> A -> bool).
Hypothesis beats_weak : forall a b c, P a -> P b -> P c ->
  beats c b = true -> beats a b = false -> beats c a = true.
Hypothesis beats_asym : forall a b, P a -> P b -> beats a b = true -> beats b a = false.

Definition improve (b c : A) : A := if beats c b then c else b.

Lemma beats_trans a b c : P a -> P b -> P c ->
  beats a b = true -> beats b c = true -> beats a c = true.
Proof.
  intros Ha Hb Hc Hab Hbc. destruct (beats a c) eqn:E; [done|].
  apply (beats_weak a c b) in Hbc; [|done..].
  apply (beats_asym a b) in Hab; [|done..]. congruence.
Qed.

Lemma foldl_improve l b :
  P b -> Forall P l ->
  (foldl improve b l = b /\ Forall (fun d => beats d b = false) l) \/
  (exists l1 c l2, l = l1 ++ c :: l2 /\ foldl improve b l = c /\ beats c b = true /\
     Forall (fun d => beats c d = true) l1 /\ Forall (fun d => beats d c = false) l2).
Proof.
  intros Hb. induction l as [|x l IH] using rev_ind; [by left|].
  rewrite foldl_app, Forall_app, Forall_singleton. intros [Hl Hx]. simpl.
  destruct (IH Hl) as [[-> Hn]|(l1 & c & l2 & -> & -> & Hc & H1 & H2)]; unfold improve.
  - destruct (beats x b) eqn:E; [right|left; split; [done|]; apply Forall_app; by rewrite Forall_singleton].
    exists l, x, []. split_and!; [done..| |done].
    rewrite Forall_forall in *. intros d Hd. apply (beats_weak d b x); auto.
  - apply Forall_app in Hl as [Hl1 Hl2]. apply Forall_cons_1 in Hl2 as [Pc Hl2].
    right. destruct (beats x c) eqn:E.
    + exists (l1 ++ c :: l2), x, []. split_and!; [done|done|eapply (beats_trans x c b); done| |done].
      apply Forall_app. split; [|constructor; [done|]].
      * rewrite Forall_forall in H1, Hl1 |- *. intros d Hd. apply (beats_trans x c d); auto.
      * rewrite Forall_forall in H2, Hl2 |- *. intros d Hd. apply (beats_weak d c x); auto.
    + exists l1, c, (l2 ++ [x]). split_and!; [by rewrite <- app_assoc|done..|].
      apply Forall_app. by rewrite Forall_singleton.
Qed.
End FirstBest.
