(* ===== verification/Errors.v ===== *)
(** * Errors: the package errors (src/errors/errors.go)

    Error values and trees, the tagged errors with their key-value metadata,
    and the queries on them.  A tagged error is a pointer whose metadata map is
    written in place by [WithKeyValue], so the metadata lives in a [heap] and
    two error trees that hold the same pointer see each other's writes. *)

From Stdlib Require Import ZArith Ascii String Lia.
From stdpp Require Import relations sorting.
From S2P Require Import Prelude.

(** ** Data *)

(** The fields of the error types of the two postgresql drivers (third-party
    structs read by pgdb.SQLState and pgdb.AsProtocolError); the last field is
    what the library's [Error] method returns. *)
Record PgError := {
  pg_Severity : string; pg_Code : string; pg_Message : string;
  pg_Detail : string; pg_Hint : string; pg_Position : Z;
  pg_InternalPosition : Z; pg_InternalQuery : string; pg_Where : string;
  pg_SchemaName : string; pg_TableName : string; pg_ColumnName : string;
  pg_DataTypeName : string; pg_ConstraintName : string; pg_File : string;
  pg_Line : Z; pg_Routine : string; pg_errmsg : string;
}.

Record PqError := {
  pq_Severity : string; pq_Code : string; pq_Message : string;
  pq_Detail : string; pq_Hint : string; pq_Position : string;
  pq_InternalPosition : string; pq_InternalQuery : string; pq_Where : string;
  pq_Schema : string; pq_Table : string; pq_Column : string;
  pq_DataTypeName : string; pq_Constraint : string; pq_File : string;
  pq_Line : string; pq_Routine : string; pq_errmsg : string;
}.

Definition loc := nat.

(** Non-nil error values.  A Go [error] that may be nil is an [option error].
    [Sentinel] is a package-level variable made once by errors.New (for
    instance sql.ErrNoRows), [ErrorString] any other result of errors.New,
    [FmtError] the result of fmt.Errorf with one %w operand, [JoinError] the
    result of errors.Join on non-nil errors, [TaggedError] a pointer to a
    taggedError whose immutable fields are the tag and the wrapped error. *)
Inductive error : Type :=
| ConstError (s : string)
| Sentinel (msg : string)
| ErrorString (msg : string)
| FmtError (msg : string) (err : error)
| JoinError (errs : list error)
| TaggedError (l : loc) (tag : string) (err : error)
| PgErr (e : PgError)
| PqErr (e : PqError).

Section ErrorInd.
Variable P : error -> Prop.
Hypothesis HC : forall s, P (ConstError s).
Hypothesis HS : forall s, P (Sentinel s).
Hypothesis HE : forall s, P (ErrorString s).
Hypothesis HF : forall s e, P e -> P (FmtError s e).
Hypothesis HJ : forall es, Forall P es -> P (JoinError es).
Hypothesis HT : forall l t e, P e -> P (TaggedError l t e).
Hypothesis HG : forall e, P (PgErr e).
Hypothesis HQ : forall e, P (PqErr e).

(** Induction on error trees, with the hypothesis for every joined error. *)
Fixpoint error_tree_ind (e : error) : P e :=
  match e with
  | ConstError s => HC s
  | Sentinel s => HS s
  | ErrorString s => HE s
  | FmtError s e' => HF s e' (error_tree_ind e')
  | JoinError es => HJ es
      ((fix go (l : list error) : Forall P l :=
          match l with
          | [] => Forall_nil_2 P
          | x :: r => Forall_cons_2 P x r (error_tree_ind x) (go r)
          end) es)
  | TaggedError l t e' => HT l t e' (error_tree_ind e')
  | PgErr e' => HG e'
  | PqErr e' => HQ e'
  end.
End ErrorInd.

(** A taggedError pointer: its address and its immutable fields. *)
Record taggedError := { te_loc : loc; te_tag : string; te_err : error }.

(** The metadata maps, by address; [None] is the nil map. *)
Record heap := {
  h_next : loc;
  h_meta : gmap loc (option (gmap string string));
}.

(** [te.meta[key]], where a nil map has no key. *)
Definition te_meta (h : heap) (te : taggedError) : option (gmap string string) :=
  default None (h_meta h !! te_loc te).
Definition meta_get (h : heap) (te : taggedError) (key : string) : option string :=
  match te_meta h te with
  | Some m => m !! key
  | None => None
  end.

(** ** The standard library's functions the package re-exports *)

(** errors.Unwrap: only an [Unwrap() error] method is followed. *)
Definition Unwrap (err : error) : option error :=
  match err with
  | FmtError _ e => Some e
  | TaggedError _ _ e => Some e
  | _ => None
  end.

(** errors.Join: nil operands are dropped, and the join of none is nil. *)
Definition Join (errs : list (option error)) : option error :=
  match omap id errs with
  | [] => None
  | es => Some (JoinError es)
  end.

(** errors.AsType: the first error, depth first, whose type matches; [p] is
    the type test. *)
Fixpoint AsType {T} (p : error -> option T) (e : error) : option T :=
  match p e with
  | Some t => Some t
  | None =>
      match e with
      | FmtError _ e' => AsType p e'
      | TaggedError _ _ e' => AsType p e'
      | JoinError es =>
          (fix each (l : list error) : option T :=
             match l with
             | [] => None
             | x :: r =>
                 match AsType p x with
                 | Some t => Some t
                 | None => each r
                 end
             end) es
      | _ => None
      end
  end.

(** errors.As with a pointer to [target]: its result, and what is in the target
    afterwards. *)
Definition As {T} (p : error -> option T) (err : option error) (target : T) : bool * T :=
  match err with
  | None => (false, target)
  | Some e => match AsType p e with Some t => (true, t) | None => (false, target) end
  end.

(** fmt.Errorf with the formatted text and the operand of %w, if there is one. *)
Definition Errorf (text : string) (w : option error) : error :=
  match w with Some e => FmtError text e | None => ErrorString text end.

(** errors.Is for a target that is a ConstError (compared by value) or a
    package-level variable (compared by address, that is by name). *)
Definition same_target (target e : error) : option unit :=
  match target, e with
  | ConstError a, ConstError b => if String.eqb a b then Some tt else None
  | Sentinel a, Sentinel b => if String.eqb a b then Some tt else None
  | _, _ => None
  end.
Definition Is (err : option error) (target : error) : bool :=
  match err with
  | None => false
  | Some e => match AsType (same_target target) e with Some _ => true | None => false end
  end.

(** The loop of UnwrapAll, on the chain of a non-nil error. *)
Fixpoint unwrap_chain (last : error) : error :=
  match last with
  | FmtError _ e => unwrap_chain e
  | TaggedError _ _ e => unwrap_chain e
  | _ => last
  end.
Definition UnwrapAll (err : option error) : option error :=
  match err with
  | None => None
  | Some e => Some (unwrap_chain e)
  end.

(** ** Tagged errors *)

Definition as_tagged (e : error) : option taggedError :=
  match e with
  | TaggedError l t e' => Some {| te_loc := l; te_tag := t; te_err := e' |}
  | _ => None
  end.

Definition New (s : string) : error := ErrorString s.

(** The loop over the key-value arguments: the last key of an odd number of
    arguments gets an empty value, a repeated key its last value. *)
Fixpoint kv_loop (kvpairs : list string) (m : gmap string string) : gmap string string :=
  match kvpairs with
  | [] => m
  | [k] => <[k := EmptyString]> m
  | k :: v :: r => kv_loop r (<[k := v]> m)
  end.

Definition Tag (e : option error) (tag : string) (kvpairs : list string)
    : go heap (option error) :=
  match e with
  | None => ret None
  | Some err =>
      let m := match kvpairs with [] => None | _ => Some (kv_loop kvpairs ∅) end in
      fun h => (Ret (Some (TaggedError (h_next h) tag err)),
                {| h_next := S (h_next h);
                   h_meta := <[h_next h := m]> (h_meta h) |})
  end.

Definition TagNew (msg tag : string) (kvpairs : list string) : go heap (option error) :=
  Tag (Some (New msg)) tag kvpairs.

Definition TagOnce (e : option error) (tag : string) (kvpairs : list string)
    : go heap (option error) :=
  match e with
  | None => ret None
  | Some err =>
      match AsType as_tagged err with
      | Some _ => ret e
      | None => Tag e tag kvpairs
      end
  end.

Fixpoint err_size (e : error) : nat :=
  match e with
  | FmtError _ e' => S (err_size e')
  | TaggedError _ _ e' => S (err_size e')
  | JoinError es => S (sum_list_with err_size es)
  | _ => 1%nat
  end.

(** The three queries recurse from the first tagged error to the error it
    wraps.  The fuel is the size of the tree, which every step decreases; the
    equations [IsTag_eq], [HasKey_eq] and [KeyValue_eq] below are the code's. *)
Fixpoint is_tag (fuel : nat) (e : error) (tag : string) : bool :=
  match fuel with
  | O => false
  | S f =>
      match AsType as_tagged e with
      | Some te => if String.eqb (te_tag te) tag then true else is_tag f (te_err te) tag
      | None => false
      end
  end.
Definition IsTag (e : option error) (tag : string) : bool :=
  match e with None => false | Some err => is_tag (S (err_size err)) err tag end.

Fixpoint has_key (fuel : nat) (h : heap) (e : error) (key : string) : bool :=
  match fuel with
  | O => false
  | S f =>
      match AsType as_tagged e with
      | Some te =>
          match meta_get h te key with
          | Some _ => true
          | None => has_key f h (te_err te) key
          end
      | None => false
      end
  end.
Definition HasKey (h : heap) (e : option error) (key : string) : bool :=
  match e with None => false | Some err => has_key (S (err_size err)) h err key end.

Fixpoint key_value (fuel : nat) (h : heap) (e : error) (key : string) : string :=
  match fuel with
  | O => EmptyString
  | S f =>
      match AsType as_tagged e with
      | Some te =>
          match meta_get h te key with
          | Some v => v
          | None => key_value f h (te_err te) key
          end
      | None => EmptyString
      end
  end.
Definition KeyValue (h : heap) (e : option error) (key : string) : string :=
  match e with None => EmptyString | Some err => key_value (S (err_size err)) h err key end.

Definition WithKeyValue (e : option error) (key value : string) : go heap (option error) :=
  match e with
  | None => ret None
  | Some err =>
      match AsType as_tagged err with
      | Some te => fun h =>
          let m := default ∅ (te_meta h te) in
          (Ret e, {| h_next := h_next h;
                     h_meta := <[te_loc te := Some (<[key := value]> m)]> (h_meta h) |})
      | None => Tag e EmptyString [key; value]
      end
  end.

Definition CodeKey : string := "code".
Definition UserMessageKey : string := "usermsg".
Definition RootErrAsUserMsg : string := "/".

Definition Code (h : heap) (e : option error) : Z :=
  let '(n, ok) := Atoi (KeyValue h e CodeKey) in
  if (ok : bool) then n else 0.

(** The result of a function whose error is [err] and value [a]. *)
Definition nil_or {A} (err : option error) (a : A) : res error A :=
  match err with None => Ok a | Some e => Err e end.

(** ** Messages *)

Fixpoint join_strings (sep : string) (l : list string) : string :=
  match l with
  | [] => EmptyString
  | [x] => x
  | x :: r => x +:+ sep +:+ join_strings sep r
  end.

Definition sorted_keys (m : gmap string string) : list string :=
  merge_sort String.le (elements (dom m)).

(** The metadata part of taggedError.Error. *)
Definition meta_string (m : gmap string string) : string :=
  if decide (m = ∅) then EmptyString
  else " [" +:+ join_strings ", "
         ((fun k => k +:+ ": " +:+ default EmptyString (m !! k)) <$> sorted_keys m) +:+ "]".

Fixpoint Error (h : heap) (e : error) : string :=
  match e with
  | ConstError s => s
  | Sentinel s => s
  | ErrorString s => s
  | FmtError s _ => s
  | JoinError es => join_strings (String "010" EmptyString) (map (Error h) es)
  | TaggedError l tag err =>
      let buf := meta_string (default ∅ (default None (h_meta h !! l))) in
      if String.eqb tag EmptyString then Error h err +:+ buf
      else tag +:+ ": " +:+ Error h err +:+ buf
  | PgErr e => pg_errmsg e
  | PqErr e => pq_errmsg e
  end.

Definition UserMessage (h : heap) (e : option error) (defaultMsg : string) : string :=
  let msg := KeyValue h e UserMessageKey in
  if String.eqb msg EmptyString then
    if String.eqb defaultMsg RootErrAsUserMsg then
      match UnwrapAll e with
      | Some root => Error h root
      | None => EmptyString
      end
    else defaultMsg
  else msg.

(** ** Lemmas *)

Lemma AsType_join {T} (p : error -> option T) es :
  p (JoinError es) = None -> AsType p (JoinError es) = head (omap (AsType p) es).
Proof.
  intros Hp. simpl. rewrite Hp. clear Hp. induction es as [|x es IH]; [done|].
  simpl. rewrite IH. by destruct (AsType p x).
Qed.

Lemma AsType_size e te :
  AsType as_tagged e = Some te -> (err_size (te_err te) < err_size e)%nat.
Proof.
  revert te. induction e using error_tree_ind; intros te; simpl; try discriminate.
  - intros H. specialize (IHe _ H). lia.
  - rewrite (AsType_join as_tagged es eq_refl) || idtac.
    intros E. change (AsType as_tagged (JoinError es) = Some te) in E.
    rewrite AsType_join in E by done.
    destruct (head_omap_Some _ _ _ E) as (l1 & x & l2 & -> & Hx & _).
    rewrite Forall_app, Forall_cons in H. destruct H as (_ & H & _).
    specialize (H _ Hx). rewrite sum_list_with_app. simpl. lia.
  - intros [= <-]. simpl. lia.
Qed.

(** The tagged errors the queries visit, outermost first. *)
Fixpoint visits (fuel : nat) (e : error) : list taggedError :=
  match fuel with
  | O => []
  | S f =>
      match AsType as_tagged e with
      | Some te => te :: visits f (te_err te)
      | None => []
      end
  end.
Definition visited (e : error) : list taggedError := visits (S (err_size e)) e.

Lemma visits_fuel n m e :
  (err_size e < n)%nat -> (err_size e < m)%nat -> visits n e = visits m e.
Proof.
  revert m e. induction n as [|n IH]; intros [|m] e Hn Hm; try lia.
  simpl. destruct (AsType as_tagged e) as [te|] eqn:E; [|done].
  apply AsType_size in E. f_equal. apply IH; lia.
Qed.

Lemma visited_eq e :
  visited e = match AsType as_tagged e with
              | Some te => te :: visited (te_err te)
              | None => []
              end.
Proof.
  unfold visited at 1. simpl. destruct (AsType as_tagged e) as [te|] eqn:E; [|done].
  f_equal. apply visits_fuel; apply AsType_size in E; lia.
Qed.

Lemma is_tag_visits n e t :
  is_tag n e t = existsb (fun te => String.eqb (te_tag te) t) (visits n e).
Proof.
  revert e. induction n as [|n IH]; intros e; [done|]. simpl.
  destruct (AsType as_tagged e) as [te|]; [|done]. simpl. rewrite IH. by destruct (String.eqb _ _).
Qed.

Lemma has_key_visits n h e k :
  has_key n h e k = existsb (fun te => bool_decide (is_Some (meta_get h te k))) (visits n e).
Proof.
  revert e. induction n as [|n IH]; intros e; [done|]. simpl.
  destruct (AsType as_tagged e) as [te|]; [|done]. simpl. rewrite IH.
  by destruct (meta_get h te k).
Qed.

Lemma key_value_visits n h e k :
  key_value n h e k = default EmptyString (head (omap (fun te => meta_get h te k) (visits n e))).
Proof.
  revert e. induction n as [|n IH]; intros e; [done|]. simpl.
  destruct (AsType as_tagged e) as [te|]; [|done]. simpl. rewrite IH.
  by destruct (meta_get h te k).
Qed.

(** The queries in terms of the visited tagged errors. *)
Lemma IsTag_visited e t :
  IsTag (Some e) t = existsb (fun te => String.eqb (te_tag te) t) (visited e).
Proof. apply is_tag_visits. Qed.

Lemma HasKey_visited h e k :
  HasKey h (Some e) k = existsb (fun te => bool_decide (is_Some (meta_get h te k))) (visited e).
Proof. apply has_key_visits. Qed.

Lemma KeyValue_visited h e k :
  KeyValue h (Some e) k =
    default EmptyString (head (omap (fun te => meta_get h te k) (visited e))).
Proof. apply key_value_visits. Qed.

(** The equations of the source. *)
Lemma IsTag_eq e t :
  IsTag (Some e) t =
    match AsType as_tagged e with
    | Some te => if String.eqb (te_tag te) t then true else IsTag (Some (te_err te)) t
    | None => false
    end.
Proof.
  rewrite IsTag_visited, visited_eq. destruct (AsType as_tagged e) as [te|]; [|done].
  rewrite IsTag_visited. simpl. by destruct (String.eqb _ _).
Qed.

Lemma KeyValue_eq h e k :
  KeyValue h (Some e) k =
    match AsType as_tagged e with
    | Some te =>
        match meta_get h te k with
        | Some v => v
        | None => KeyValue h (Some (te_err te)) k
        end
    | None => EmptyString
    end.
Proof.
  rewrite KeyValue_visited, visited_eq. destruct (AsType as_tagged e) as [te|]; [|done].
  rewrite KeyValue_visited. simpl. by destruct (meta_get h te k).
Qed.

Lemma HasKey_eq h e k :
  HasKey h (Some e) k =
    match AsType as_tagged e with
    | Some te =>
        match meta_get h te k with
        | Some _ => true
        | None => HasKey h (Some (te_err te)) k
        end
    | None => false
    end.
Proof.
  rewrite HasKey_visited, visited_eq. destruct (AsType as_tagged e) as [te|]; [|done].
  rewrite HasKey_visited. simpl. by destruct (meta_get h te k).
Qed.

(** Two heaps that agree on the visited pointers answer alike. *)
Lemma KeyValue_frame h h' e k :
  (forall te, te ∈ visited e -> te_meta h' te = te_meta h te) ->
  KeyValue h' (Some e) k = KeyValue h (Some e) k.
Proof.
  intros Hf. rewrite !KeyValue_visited. do 2 f_equal. apply omap_ext_in.
  intros te Hte. unfold meta_get. by rewrite Hf.
Qed.

Definition set_meta (h : heap) (l : loc) (m : option (gmap string string)) : heap :=
  {| h_next := h_next h; h_meta := <[l := m]> (h_meta h) |}.

Lemma meta_get_set h l m te k :
  meta_get (set_meta h l (Some m)) te k =
    if decide (te_loc te = l) then m !! k else meta_get h te k.
Proof.
  unfold meta_get, te_meta, set_meta; simpl. rewrite lookup_insert.
  case_decide as E; case_decide; subst; by try congruence.
Qed.

(** [WithKeyValue] on an error that has a tagged error in its tree. *)
Lemma WithKeyValue_tagged e k v h te :
  AsType as_tagged e = Some te ->
  WithKeyValue (Some e) k v h =
    (Ret (Some e), set_meta h (te_loc te) (Some (<[k := v]> (default ∅ (te_meta h te))))).
Proof. intros E. unfold WithKeyValue. by rewrite E. Qed.

Lemma meta_get_default h te k : default ∅ (te_meta h te) !! k = meta_get h te k.
Proof. unfold meta_get. destruct (te_meta h te); simpl; [done|apply lookup_empty]. Qed.

Lemma te_loc_meta h te te' :
  te_loc te = te_loc te' -> forall k, meta_get h te k = meta_get h te' k.
Proof. intros E k. unfold meta_get, te_meta. by rewrite E. Qed.
#[export] Hint Resolve te_loc_meta : karbur.

(** The pointer the write goes to, seen through any alias. *)
Lemma meta_get_write h te te' k v k' :
  meta_get (set_meta h (te_loc te) (Some (<[k := v]> (default ∅ (te_meta h te))))) te' k' =
    if decide (te_loc te' = te_loc te /\ k = k') then Some v else meta_get h te' k'.
Proof.
  rewrite meta_get_set. destruct (decide (te_loc te' = te_loc te)) as [E|E].
  - rewrite lookup_insert. case_decide as Ek; case_decide as Ec; try naive_solver.
    rewrite meta_get_default. by apply te_loc_meta.
  - case_decide; naive_solver.
Qed.

(** ** Properties *)

(** What [WithKeyValue] promises for every key of the error it returns. *)
Definition reads_as (h : heap) (e : option error) (h' : heap) (e' : option error)
    (k v : string) : Prop :=
  forall k', KeyValue h' e' k' = (if String.eqb k k' then v else KeyValue h e k') /\
             HasKey h' e' k' = (String.eqb k k' || HasKey h e k').

Lemma head_omap_override (h h' : heap) (l : list taggedError) k v te k' :
  (forall te', meta_get h' te' k' =
     if decide (te_loc te' = te_loc te /\ k = k') then Some v else meta_get h te' k') ->
  default EmptyString (head (omap (fun t => meta_get h' t k') (te :: l))) =
    if String.eqb k k' then v
    else default EmptyString (head (omap (fun t => meta_get h t k') (te :: l))).
Proof.
  intros H. destruct (String.eqb_spec k k') as [<-|Hk].
  - simpl. rewrite H, decide_True by done. done.
  - do 2 f_equal. apply omap_ext_in. intros t _. rewrite H, decide_False by naive_solver. done.
Qed.

Lemma existsb_override (h h' : heap) (l : list taggedError) k v te k' :
  (forall te', meta_get h' te' k' =
     if decide (te_loc te' = te_loc te /\ k = k') then Some v else meta_get h te' k') ->
  existsb (fun t => bool_decide (is_Some (meta_get h' t k'))) (te :: l) =
    String.eqb k k' || existsb (fun t => bool_decide (is_Some (meta_get h t k'))) (te :: l).
Proof.
  intros H. destruct (String.eqb_spec k k') as [<-|Hk].
  - simpl. rewrite H, decide_True by done. done.
  - rewrite orb_false_l. induction (te :: l) as [|t l' IH]; [done|]. simpl. rewrite IH.
    f_equal. rewrite H, decide_False by naive_solver. done.
Qed.

(** A fresh tag around an error with no tagged error in its tree. *)
Lemma visited_Tagged l t e :
  visited (TaggedError l t e) = {| te_loc := l; te_tag := t; te_err := e |} :: visited e.
Proof. by rewrite visited_eq. Qed.

Lemma visited_FmtError s e : visited (FmtError s e) = visited e.
Proof. rewrite visited_eq, (visited_eq e). done. Qed.

(** WithKeyValue stores the pair so that it is the one every later query
    finds: on the error it returns, KeyValue and HasKey answer [v] for [k] and
    what they answered before for every other key, whether the pair went into
    the first tagged error of the tree or into a new one around [e]. *)
Lemma WithKeyValue_reads e k v h :
  exists e' h', WithKeyValue (Some e) k v h = (Ret (Some e'), h') /\
    reads_as h (Some e) h' (Some e') k v.
Proof.
  destruct (AsType as_tagged e) as [te|] eqn:E.
  - exists e. eexists. split; [by apply WithKeyValue_tagged|]. intros k'.
    rewrite !KeyValue_visited, !HasKey_visited, visited_eq, E.
    split; [apply head_omap_override|eapply existsb_override]; intros te'; apply meta_get_write.
  - unfold WithKeyValue, Tag. rewrite E. simpl. do 2 eexists. split; [done|]. intros k'.
    rewrite !KeyValue_visited, !HasKey_visited, visited_Tagged, visited_eq, E. simpl.
    unfold meta_get, te_meta. simpl. rewrite lookup_insert_eq. simpl.
    rewrite lookup_insert, lookup_empty. destruct (String.eqb_spec k k');
      [rewrite decide_True by done|rewrite decide_False by done]; done.
Qed.

(** The write of WithKeyValue goes to the tagged error shared by pointer:
    the error itself is returned, another error whose first tagged error is
    the same pointer now reads the value too, and an error whose queries visit
    no tagged error at that address is not affected. *)
Theorem WithKeyValue_aliases e te k v h :
  AsType as_tagged e = Some te ->
  exists h', WithKeyValue (Some e) k v h = (Ret (Some e), h') /\
    (forall e2 te2, AsType as_tagged e2 = Some te2 -> te_loc te2 = te_loc te ->
       KeyValue h' (Some e2) k = v) /\
    (forall e2 k', Forall (fun te2 => te_loc te2 <> te_loc te) (visited e2) ->
       KeyValue h' (Some e2) k' = KeyValue h (Some e2) k').
Proof.
  intros E. eexists. split; [by apply WithKeyValue_tagged|]. split.
  - intros e2 te2 E2 Hl. rewrite KeyValue_eq, E2, meta_get_write, decide_True by done. done.
  - intros e2 k' Hf. apply KeyValue_frame. intros te2 Hin.
    rewrite Forall_forall in Hf. specialize (Hf _ Hin).
    unfold te_meta, set_meta; simpl. by rewrite lookup_insert_ne by done.
Qed.

(** One step of a chain of wrapped errors. *)
Definition wraps (a b : error) : Prop := Unwrap a = Some b.

(** An error built without errors.Join: a chain. *)
Fixpoint join_free (e : error) : bool :=
  match e with
  | FmtError _ e' | TaggedError _ _ e' => join_free e'
  | JoinError _ => false
  | _ => true
  end.

Lemma rtc_wraps_inv (P : error -> Prop) e :
  (exists e', rtc wraps e e' /\ P e') <->
  P e \/ exists e1, Unwrap e = Some e1 /\ exists e', rtc wraps e1 e' /\ P e'.
Proof.
  split.
  - intros (e' & H & Hp). inversion H as [|? e1 ? H1 H2]; subst; [by left|].
    right. eauto.
  - intros [H|(e1 & H1 & e' & H2 & Hp)]; [by exists e; split; [apply rtc_refl|]|].
    exists e'. split; [by eapply rtc_l|done].
Qed.

(** IsTag, on a chain of wrapped errors, is true exactly when some error
    reachable by unwrapping is tagged with the tag. *)
Theorem IsTag_chain e t :
  join_free e = true ->
  IsTag (Some e) t = true <-> exists e', rtc wraps e e' /\ exists l e2, e' = TaggedError l t e2.
Proof.
  rewrite IsTag_visited.
  assert (Hleaf : forall a : error, Unwrap a = None -> visited a = [] ->
    (forall l e2, a <> TaggedError l t e2) ->
    existsb (fun te => String.eqb (te_tag te) t) (visited a) = true <->
    exists e', rtc wraps a e' /\ exists l e2, e' = TaggedError l t e2).
  { intros a Hu Hv Ht. rewrite rtc_wraps_inv, Hv, Hu. naive_solver. }
  induction e using error_tree_ind; intros Hj; try discriminate;
    try (apply Hleaf; done).
  - rewrite rtc_wraps_inv, visited_FmtError, IHe by done. naive_solver.
  - rewrite rtc_wraps_inv, visited_Tagged. simpl existsb.
    rewrite orb_true_iff, String.eqb_eq, IHe by done. naive_solver.
Qed.

(** On a tree made with errors.Join the search of IsTag does not come back
    to the later operands once an earlier one holds a tagged error: with two
    tagged operands it answers as if only the first were there, although the
    second is in the tree. *)
Theorem IsTag_join_first e1 e2 l2 t2 rest t :
  is_Some (AsType as_tagged e1) ->
  IsTag (Some (JoinError (e1 :: TaggedError l2 t2 e2 :: rest))) t = IsTag (Some e1) t.
Proof.
  intros [te E]. rewrite (IsTag_eq (JoinError _)), (IsTag_eq e1).
  rewrite AsType_join by done. simpl. by rewrite E.
Qed.

(** Reference: the value of the last pair with the key. *)
Fixpoint last_pair (kvpairs : list string) (k : string) : option string :=
  match kvpairs with
  | [] => None
  | [k'] => if String.eqb k' k then Some EmptyString else None
  | k' :: v :: r =>
      match last_pair r k with
      | Some v' => Some v'
      | None => if String.eqb k' k then Some v else None
      end
  end.

Lemma kv_loop_lookup n kv m k :
  (length kv <= n)%nat ->
  kv_loop kv m !! k = match last_pair kv k with Some v => Some v | None => m !! k end.
Proof.
  revert kv m. induction n as [|n IH]; intros [|k1 [|v1 r]] m Hn; simpl in *; try lia; try done.
  - rewrite lookup_insert. destruct (String.eqb_spec k1 k);
      [rewrite decide_True by done|rewrite decide_False by done]; done.
  - rewrite IH by lia. destruct (last_pair r k); [done|].
    rewrite lookup_insert. destruct (String.eqb_spec k1 k);
      [rewrite decide_True by done|rewrite decide_False by done]; done.
Qed.

(** The pointers of [e] were allocated in [h]. *)
Definition allocated (h : heap) (e : error) : Prop :=
  Forall (fun te => (te_loc te < h_next h)%nat) (visited e).

(** [Tag], on a non-nil error: what the new error's metadata answers. *)
Lemma Tag_run e tag kv h :
  exists h', Tag (Some e) tag kv h = (Ret (Some (TaggedError (h_next h) tag e)), h') /\
    h_next h' = S (h_next h) /\
    (forall te, te_loc te <> h_next h -> te_meta h' te = te_meta h te) /\
    (forall te k, te_loc te = h_next h -> meta_get h' te k = last_pair kv k).
Proof.
  eexists. split; [reflexivity|]. simpl. split_and!; [done|..].
  - intros te Hl. unfold te_meta. simpl. by rewrite lookup_insert_ne by done.
  - intros te k Hl. unfold meta_get, te_meta. simpl. rewrite Hl, lookup_insert_eq. simpl.
    destruct kv as [|k1 r]; [done|].
    rewrite (kv_loop_lookup (length (k1 :: r))), lookup_empty by done.
    by destruct (last_pair (k1 :: r) k).
Qed.

(** Tag gives the new error the last value of each key of its arguments,
    and leaves every other key to the error it wraps; with a "code" pair that
    prints an int64, Code reads back that integer. *)
Theorem Tag_KeyValue e tag kv h :
  allocated h e ->
  exists e' h', Tag (Some e) tag kv h = (Ret (Some e'), h') /\ allocated h' e' /\
    IsTag (Some e') tag = true /\
    (forall k, KeyValue h' (Some e') k = default (KeyValue h (Some e) k) (last_pair kv k)) /\
    (forall n, MinInt64 <= n <= MaxInt64 -> last_pair kv CodeKey = Some (Itoa n) ->
       Code h' (Some e') = n).
Proof.
  intros Ha. destruct (Tag_run e tag kv h) as (h' & E & Hn & Hf & Hk).
  exists (TaggedError (h_next h) tag e), h'. split; [done|].
  assert (HKV : forall k, KeyValue h' (Some (TaggedError (h_next h) tag e)) k =
                  default (KeyValue h (Some e) k) (last_pair kv k)).
  { intros k. rewrite KeyValue_eq. simpl. rewrite Hk by done.
    destruct (last_pair kv k); [done|]. simpl. apply KeyValue_frame.
    intros te Hte. apply Hf. unfold allocated in Ha. rewrite Forall_forall in Ha.
    specialize (Ha _ Hte). simpl in Ha. lia. }
  split_and!.
  - unfold allocated. rewrite visited_Tagged, Hn. constructor; [simpl; lia|].
    eapply Forall_impl; [apply Ha|]. simpl. intros; lia.
  - by rewrite IsTag_eq; simpl; rewrite String.eqb_refl.
  - done.
  - intros n Hr Hc. unfold Code. rewrite HKV, Hc. simpl. by rewrite Atoi_Itoa.
Qed.

Lemma Code_range h e : MinInt64 <= Code h e <= MaxInt64.
Proof.
  unfold Code. pose proof (Atoi_range (KeyValue h e CodeKey)) as H.
  destruct (Atoi _) as [n []]; [done|]. unfold MinInt64, MaxInt64. lia.
Qed.

(** UnwrapAll ends on the root of the chain: the one error reached by
    repeated Unwrap that does not unwrap further (for every error, joined or
    not); nil gives nil. *)
Theorem UnwrapAll_root e :
  exists r, UnwrapAll (Some e) = Some r /\ rtc wraps e r /\ Unwrap r = None /\
    (forall r', rtc wraps e r' -> Unwrap r' = None -> r' = r).
Proof.
  exists (unwrap_chain e). split; [done|].
  induction e using error_tree_ind; simpl.
  all: try (split_and!; [apply rtc_refl|done|];
            intros r' Hr Hn; inversion Hr as [|? ? ? H1]; subst; [done|by inversion H1]).
  all: destruct IHe as (H1 & H2 & H3);
       (split_and!; [by eapply rtc_l; [|apply H1]|done|]);
       intros r' Hr Hn; inversion Hr as [|? ? ? Hs Ht]; subst; [by inversion Hn|];
       injection Hs as <-; by apply H3.
Qed.

(** ** Witnesses *)

Definition ex_heap : heap := {| h_next := 1%nat; h_meta := {[ 0%nat := Some {[ "k" := "w" ]} ]} |}.
Definition ex_tagged : error := TaggedError 0%nat "test" (ConstError "an error").

Lemma WithKeyValue_aliases_witness :
  exists h', WithKeyValue (Some (FmtError "wrap" ex_tagged)) "k" "v" ex_heap =
      (Ret (Some (FmtError "wrap" ex_tagged)), h') /\
    KeyValue h' (Some ex_tagged) "k" = "v" /\
    KeyValue h' (Some (ConstError "an error")) "k" = KeyValue ex_heap (Some (ConstError "an error")) "k".
Proof.
  destruct (WithKeyValue_aliases (FmtError "wrap" ex_tagged)
              {| te_loc := 0%nat; te_tag := "test"; te_err := ConstError "an error" |}
              "k" "v" ex_heap eq_refl) as (h' & E & Ha & Hf).
  exists h'. split; [exact E|]. split.
  - exact (Ha ex_tagged _ eq_refl eq_refl).
  - apply Hf. constructor.
Defined.

Lemma IsTag_chain_witness :
  join_free (FmtError "wrap" ex_tagged) = true /\
  (IsTag (Some (FmtError "wrap" ex_tagged)) "test" = true <->
   exists e', rtc wraps (FmtError "wrap" ex_tagged) e' /\
     exists l e2, e' = TaggedError l "test" e2).
Proof. split; [reflexivity|]. apply (IsTag_chain (FmtError "wrap" ex_tagged) "test"). reflexivity. Defined.

Lemma IsTag_join_first_witness :
  IsTag (Some (JoinError [ex_tagged; TaggedError 1%nat "other" (ConstError "second")])) "other" = false.
Proof.
  rewrite (IsTag_join_first ex_tagged (ConstError "second") 1%nat "other" [] "other").
  - reflexivity.
  - eexists. reflexivity.
Defined.

Lemma Tag_KeyValue_witness :
  allocated ex_heap ex_tagged /\
  exists e' h', Tag (Some ex_tagged) "outer" ["code"; "409"; "x"] ex_heap = (Ret (Some e'), h') /\
    KeyValue h' (Some e') "x" = EmptyString /\ KeyValue h' (Some e') "k" = "w" /\
    Code h' (Some e') = 409.
Proof.
  assert (Ha : allocated ex_heap ex_tagged).
  { repeat constructor. }
  split; [exact Ha|].
  destruct (Tag_KeyValue ex_tagged "outer" ["code"; "409"; "x"] ex_heap Ha)
    as (e' & h' & E & _ & _ & Hk & Hc).
  exists e', h'. split; [exact E|]. split; [|split].
  - rewrite (Hk "x"). reflexivity.
  - rewrite (Hk "k"). reflexivity.
  - apply (Hc 409); [unfold MinInt64, MaxInt64; lia|reflexivity].
Defined.

(** The cases of the package's own tests. *)
Example Tag_odd_message :
  let '(e, h) := Tag (Some (ConstError "an error")) "test" ["x"; "1"; "y"] {| h_next := 0%nat; h_meta := ∅ |} in
  match e with Ret (Some e) => Error h e | _ => EmptyString end = "test: an error [x: 1, y: ]".
Proof. vm_compute. reflexivity. Qed.
