(* ===== verification/Pgdb.v ===== *)
(** * Pgdb: the transaction and text helpers of src/pgdb/database.go

    The database interfaces are records of operations on a world [W]; the
    transaction functions are composed from them as in the source.  The class
    [TxLaws] states what a driver promises, the theorems on transactions are
    proved against it, and PgModel discharges it for a reference database. *)

From Stdlib Require Import ZArith Ascii String Lia.
From S2P Require Import Prelude Errors.

(** ** Interfaces *)

(** sql.TxOptions and pgdb.TxOptions; the isolation level is Go's integer. *)
Record sqlTxOptions := { Isolation : Z; ReadOnly : bool }.
Definition zeroTxOptions : sqlTxOptions := {| Isolation := 0; ReadOnly := false |}.
#[export] Instance sqlTxOptions_eq_dec : EqDecision sqlTxOptions.
Proof. solve_decision. Defined.

Record TxOptions := { SqlTxOptions : sqlTxOptions; RetryDeadlock : bool }.

Section Interfaces.
Context {W : Type} {Stmt : Type -> Type}.

(** [Stmt A] is a SQL statement with its arguments whose result decodes to
    [A]; [Run] is the driver's execution of it.  The methods Exec, QueryOne
    and QueryMany are built on it below, as the adapters do. *)
Record Queryer := {
  Run : forall A, Stmt A -> go W (res error A);
}.

Record Txer := {
  tx_queryer : Queryer;
  Commit : go W (option error);
  Rollback : go W (option error);
}.

Record BeginTxer := {
  BeginTx : option sqlTxOptions -> go W (res error Txer);
}.

Record Connection := {
  conn_queryer : Queryer;
  conn_beginTxer : BeginTxer;
}.

(** The keys of context.Context that this package stores. *)
Record Ctx := { ctxTx : option Txer; ctxTxOpts : option TxOptions }.

(** What the retry loop uses of the standard library: the random jitter, the
    select between the cancellation of the context ([Some err]) and the
    elapsed backoff, and the log line. *)
Record Env := {
  Int63n : Z -> go W Z;
  SelectAfter : Z -> go W (option error);
  LogRetry : Z -> Z -> go W unit;
}.
End Interfaces.
Arguments Queryer : clear implicits.
Arguments Run {W Stmt} q {A} st : rename.
Arguments Txer : clear implicits.
Arguments BeginTxer : clear implicits.
Arguments Connection : clear implicits.
Arguments Ctx : clear implicits.
Arguments Env : clear implicits.

(** ** Methods of Queryer

    sql.ErrNoRows, and the adapters' methods on the driver's execution: Exec
    drops the result, QueryOne fails with an error that wraps sql.ErrNoRows when
    there is no row. *)

Definition ErrNoRows : error := Sentinel "sql: no rows in result set".

Section Methods.
Context {W : Type} {Stmt : Type -> Type} {A : Type} (q : Queryer W Stmt).
Local Open Scope go_scope.

Definition Exec (st : Stmt A) : go W (res error unit) :=
  let! r := Run q st in
  ret (match r with Ok _ => Ok tt | Err e => Err e end).

Definition QueryOne (st : Stmt (option A)) : go W (res error A) :=
  let! r := Run q st in
  ret (match r with
       | Ok (Some a) => Ok a
       | Ok None => Err (FmtError "not found: sql: no rows in result set" ErrNoRows)
       | Err e => Err e
       end).

Definition QueryMany (st : Stmt (list A)) : go W (res error (list A)) := Run q st.
End Methods.

(** ** Errors of the drivers *)

(** sqlstateError: the error types with a SQLState method. *)
Definition as_sqlstate (e : error) : option string :=
  match e with
  | PgErr p => Some (pg_Code p)
  | PqErr p => Some (pq_Code p)
  | _ => None
  end.

Definition SQLState (err : option error) : string :=
  match err with
  | None => EmptyString
  | Some e => default EmptyString (AsType as_sqlstate e)
  end.

Definition isDeadlock (err : option error) : bool :=
  let code := SQLState err in
  String.eqb code "40001" || String.eqb code "40P01".

Record ProtocolError := {
  Severity : string; pe_Code : string; Message : string; Detail : string;
  Hint_ : string; Position : Z; InternalPosition : Z; InternalQuery : string;
  Where : string; SchemaName : string; TableName : string; ColumnName : string;
  DataTypeName : string; ConstraintName : string; File : string; Line : Z;
  Routine : string; errmsg : string;
}.

Definition ProtocolError_Error (pe : ProtocolError) : string := errmsg pe.

Definition of_pgx (p : PgError) : ProtocolError :=
  {| Severity := pg_Severity p; pe_Code := pg_Code p; Message := pg_Message p;
     Detail := pg_Detail p; Hint_ := pg_Hint p; Position := pg_Position p;
     InternalPosition := pg_InternalPosition p; InternalQuery := pg_InternalQuery p;
     Where := pg_Where p; SchemaName := pg_SchemaName p; TableName := pg_TableName p;
     ColumnName := pg_ColumnName p; DataTypeName := pg_DataTypeName p;
     ConstraintName := pg_ConstraintName p; File := pg_File p; Line := pg_Line p;
     Routine := pg_Routine p; errmsg := pg_errmsg p |}.

(** The numbers of lib/pq are strings: strconv.Atoi with its error dropped,
    then a conversion to int32. *)
Definition of_pq (p : PqError) : ProtocolError :=
  let pos := fst (Atoi (pq_Position p)) in
  let ipos := fst (Atoi (pq_InternalPosition p)) in
  let line := fst (Atoi (pq_Line p)) in
  {| Severity := pq_Severity p; pe_Code := pq_Code p; Message := pq_Message p;
     Detail := pq_Detail p; Hint_ := pq_Hint p; Position := i32 pos;
     InternalPosition := i32 ipos; InternalQuery := pq_InternalQuery p;
     Where := pq_Where p; SchemaName := pq_Schema p; TableName := pq_Table p;
     ColumnName := pq_Column p; DataTypeName := pq_DataTypeName p;
     ConstraintName := pq_Constraint p; File := pq_File p; Line := i32 line;
     Routine := pq_Routine p; errmsg := pq_errmsg p |}.

Definition as_pgx (e : error) : option PgError :=
  match e with PgErr p => Some p | _ => None end.
Definition as_pq (e : error) : option PqError :=
  match e with PqErr p => Some p | _ => None end.

Definition AsProtocolError (err : option error) : option ProtocolError :=
  match err with
  | None => None
  | Some e =>
      match AsType as_pgx e with
      | Some p => Some (of_pgx p)
      | None =>
          match AsType as_pq e with
          | Some p => Some (of_pq p)
          | None => None
          end
      end
  end.

(** ** Retry configuration *)

Definition Millisecond : Z := 1000000.
Definition maxAttempts : Z := 4.
Definition baseBackoff : Z := 50 * Millisecond.
Definition maxBackoff : Z := 500 * Millisecond.
Definition maxJitter : Z := 50 * Millisecond.

Definition calculateBackoff {W} (int63n : Z -> go W Z) (attemptMinusOne : Z) : go W Z :=
  let backoff := Z.min (i64 (baseBackoff * i64 (Z.shiftl 1 attemptMinusOne))) maxBackoff in
  bind (int63n maxJitter) (fun r => ret (i64 (backoff + r))).

(** ** Transactions

    A function argument [fn] of the source returns an error and assigns the
    variables it captures; here it returns [Ok] of those variables when the
    error is nil.  Every caller reads them in that case only. *)

(** errors.Join(err, rberr) for a non-nil err. *)
Definition joined (err : error) (rberr : option error) : error :=
  match rberr with
  | None => JoinError [err]
  | Some r => JoinError [err; r]
  end.

Lemma Join_joined err rberr : Join [Some err; rberr] = Some (joined err rberr).
Proof. by destruct rberr. Qed.

Section Transactions.
Context {W : Type} {Stmt : Type -> Type}.
Local Notation Txer := (Txer W Stmt).
Local Notation Ctx := (Ctx W Stmt).
Local Notation BeginTxer := (BeginTxer W Stmt).
Local Notation Queryer := (Queryer W Stmt).
Local Open Scope go_scope.
Context (env : Env W).

Definition setCtxTx (ctx : Ctx) (tx : Txer) : Ctx :=
  {| ctxTx := Some tx; ctxTxOpts := ctxTxOpts ctx |}.

Definition WithTxOptions (ctx : Ctx) (opts : option TxOptions) : Ctx :=
  {| ctxTx := ctxTx ctx; ctxTxOpts := opts |}.

Definition doTx {A} (ctx : Ctx) (btx : BeginTxer) (sqlOpts : option sqlTxOptions)
    (fn : Ctx -> Txer -> go W (res error A)) : go W (res error A) :=
  let! r := BeginTx btx sqlOpts in
  match r with
  | Err err => ret (Err err)
  | Ok tx =>
      defer (do! Rollback tx in ret tt)
        (let ctx := setCtxTx ctx tx in
         let! r := fn ctx tx in
         match r with
         | Err err => let! rberr := Rollback tx in ret (Err (joined err rberr))
         | Ok a => let! err := Commit tx in ret (nil_or err a)
         end)
  end.

(** The loop of Tx; [tx_loop_attempts] below shows that the fuel is enough. *)
Fixpoint tx_loop {A} (fuel : nat) (attempts : Z) (retryDeadlock : bool) (ctx : Ctx)
    (btx : BeginTxer) (sqlOpts : option sqlTxOptions)
    (fn : Ctx -> Txer -> go W (res error A)) : go W (res error A) :=
  match fuel with
  | O => panic "out of fuel"
  | S f =>
      let attempts := attempts + 1 in
      let! r := doTx ctx btx sqlOpts fn in
      match r with
      | Err err =>
          if retryDeadlock && isDeadlock (Some err) && (attempts <? maxAttempts)
          then
            let! backoff := calculateBackoff (Int63n env) (attempts - 1) in
            do! LogRetry env attempts backoff in
            let! done := SelectAfter env backoff in
            match done with
            | Some ctxErr => ret (Err ctxErr)
            | None => tx_loop f attempts retryDeadlock ctx btx sqlOpts fn
            end
          else ret (Err err)
      | Ok a => ret (Ok a)
      end
  end.

(** The locals opts, sqlOpts and retryDeadlock of Tx. *)
Definition txOpts (ctx : Ctx) (opts : option TxOptions) : option TxOptions :=
  match opts with None => ctxTxOpts ctx | Some _ => opts end.
Definition txSqlOpts (opts : option TxOptions) : option sqlTxOptions :=
  match opts with
  | Some o => if decide (SqlTxOptions o = zeroTxOptions) then None else Some (SqlTxOptions o)
  | None => None
  end.
Definition txRetry (opts : option TxOptions) : bool :=
  match opts with Some o => RetryDeadlock o | None => false end.

Definition Tx {A} (ctx : Ctx) (btx : BeginTxer) (opts : option TxOptions)
    (fn : Ctx -> Txer -> go W (res error A)) : go W (res error A) :=
  let opts := txOpts ctx opts in
  tx_loop 4 0 (txRetry opts) ctx btx (txSqlOpts opts) fn.

Definition EnsureTx {A} (ctx : Ctx) (btx : BeginTxer)
    (fn : Ctx -> Txer -> go W (res error A)) : go W (res error A) :=
  match ctxTx ctx with
  | None => Tx ctx btx None fn
  | Some tx =>
      let! r := fn ctx tx in
      match r with
      | Err err => let! rberr := Rollback tx in ret (Err (joined err rberr))
      | Ok a => ret (Ok a)
      end
  end.

Definition EnsureQueryer {A} (ctx : Ctx) (q : Queryer) (fn : Ctx -> Queryer -> go W A) : go W A :=
  let q := match ctxTx ctx with Some tx => tx_queryer tx | None => q end in
  fn ctx q.

Definition ErrNoTx : error := ConstError "no current transaction".

Definition RequireTx {A} (ctx : Ctx) (fn : Ctx -> Txer -> go W (res error A))
    : go W (res error A) :=
  match ctxTx ctx with
  | None => ret (Err ErrNoTx)
  | Some tx =>
      let! r := fn ctx tx in
      match r with
      | Err err => let! rberr := Rollback tx in ret (Err (joined err rberr))
      | Ok a => ret (Ok a)
      end
  end.
End Transactions.

(** ** Text *)

(** strings.ReplaceAll with a one-byte pattern, and the one-byte replacer. *)
Fixpoint replace_bytes (f : ascii -> string) (s : string) : string :=
  match s with
  | EmptyString => EmptyString
  | String c s' => f c +:+ replace_bytes f s'
  end.

Definition QuoteEsc (s : string) : string :=
  "'" +:+ replace_bytes (fun c => if Ascii.eqb c "'" then "''" else String c EmptyString) s +:+ "'".

Definition likeEscReplacer (c : ascii) : string :=
  if Ascii.eqb c "\" then "\\"
  else if Ascii.eqb c "%" then "\%"
  else if Ascii.eqb c "_" then "\_"
  else String c EmptyString.
Definition LikeEsc (s : string) : string := replace_bytes likeEscReplacer s.

(** ** What a driver promises

    [db w] is the committed state and [work tx w] the private state of a
    transaction that can still commit; [clock w] is the database's time.  A
    transaction starts from the committed state; a commit that succeeds
    publishes the private state; anything else leaves the committed state
    alone (so an error of Commit is one of a commit that did not happen: a
    connection lost between the commit and its answer is outside these laws, and
    inside the server of Clients); Commit and Rollback close the transaction, and a commit of a closed
    transaction fails.  Time does not go backwards, and the errors a driver
    makes are its own ([faulty]): they wrap none of the constants of this
    module, nor sql.ErrNoRows. *)
Class TxLaws {W Stmt} (btx : BeginTxer W Stmt) (S : Type) := {
  db : W -> S;
  clock : W -> Z;
  work : Txer W Stmt -> W -> option S;
  txclock : Txer W Stmt -> Z;
  owned : Txer W Stmt -> Prop;
  faulty : error -> Prop;
  faulty_foreign : forall e, faulty e ->
    Is (Some e) ErrNoRows = false /\ forall s, Is (Some e) (ConstError s) = false;
  BeginTx_spec : forall opts w, exists r w', BeginTx btx opts w = (Ret r, w') /\
    db w' = db w /\ clock w <= clock w' /\
    match r with
    | Ok tx => owned tx /\ work tx w' = Some (db w) /\ clock w <= txclock tx <= clock w'
    | Err e => faulty e
    end;
  Commit_spec : forall tx w, owned tx -> exists e w', Commit tx w = (Ret e, w') /\
    work tx w' = None /\ clock w <= clock w' /\
    match e, work tx w with
    | None, Some s => db w' = s
    | None, None => False
    | Some e, _ => db w' = db w /\ faulty e
    end;
  Rollback_spec : forall tx w, owned tx -> exists e w', Rollback tx w = (Ret e, w') /\
    work tx w' = None /\ db w' = db w /\ clock w <= clock w' /\
    match e with Some e => faulty e | None => True end;
}.

(** The environment of the retry loop does not touch the database; the error
    of a cancelled context is foreign to this module too. *)
Class EnvLaws {W Stmt S} (env : Env W) (btx : BeginTxer W Stmt) `{!TxLaws btx S} := {
  Int63n_spec : forall n w, 0 < n -> exists r w', Int63n env n w = (Ret r, w') /\
    0 <= r < n /\ db w' = db w /\ clock w <= clock w';
  LogRetry_spec : forall a b w, exists w', LogRetry env a b w = (Ret tt, w') /\
    db w' = db w /\ clock w <= clock w';
  SelectAfter_spec : forall b w, exists e w', SelectAfter env b w = (Ret e, w') /\
    db w' = db w /\ clock w <= clock w' /\ match e with Some e => faulty e | None => True end;
}.

Section Atomicity.
Context {W : Type} {Stmt : Type -> Type} {S A : Type} (btx : BeginTxer W Stmt).
Context {TL : TxLaws btx S}.
Context (env : Env W) {EL : EnvLaws env btx}.
Context (ctx : Ctx W Stmt) (fn : Ctx W Stmt -> Txer W Stmt -> go W (res error A)).

(** [fn] reaches the database through its transaction only. *)
Definition tx_only : Prop :=
  forall tx w o w', owned tx -> fn (setCtxTx ctx tx) tx w = (o, w') ->
    db w' = db w /\ clock w <= clock w'.

(** The run of [fn] that committed: it started in a transaction begun at the
    committed state [s0] and returned [a]. *)
Definition committed_by (s0 : S) (t0 : Z) (a : A) (w' : W) : Prop :=
  exists tx w1 w2 s, owned tx /\ work tx w1 = Some s0 /\ db w1 = s0 /\
    t0 <= txclock tx <= clock w' /\
    fn (setCtxTx ctx tx) tx w1 = (Ret (Ok a), w2) /\ work tx w2 = Some s /\
    db w' = s /\ work tx w' = None.

(** Where an error comes from: the driver, or a run of [fn] in a transaction
    begun at the committed state. *)
Definition error_from (s0 : S) (t0 : Z) (e' : error) (w' : W) : Prop :=
  faulty e' \/
  exists tx w1 e w2 rb, owned tx /\ work tx w1 = Some s0 /\ db w1 = s0 /\
    t0 <= txclock tx <= clock w' /\
    fn (setCtxTx ctx tx) tx w1 = (Ret (Err e), w2) /\ e' = joined e rb /\
    match rb with Some r => faulty r | None => True end.

(** All or nothing, with the origin of the result. *)
Definition atomic (s0 : S) (t0 : Z) (o : outcome (res error A)) (w' : W) : Prop :=
  t0 <= clock w' /\
  match o with
  | Ret (Ok a) => committed_by s0 t0 a w'
  | Ret (Err e) => db w' = s0 /\ error_from s0 t0 e w'
  | Panicked _ => db w' = s0
  end.

Lemma doTx_atomic sqlOpts w o w' :
  tx_only -> doTx ctx btx sqlOpts fn w = (o, w') -> atomic (db w) (clock w) o w'.
Proof.
  intros Hfn. unfold doTx, bind at 1.
  destruct (BeginTx_spec sqlOpts w) as (r & w1 & -> & Hdb1 & Hc1 & Hr).
  destruct r as [tx|err]; [|intros [= <- <-]; split_and!; try done; by left].
  destruct Hr as (Hown & Hwork & Htx).
  unfold defer, bind. destruct (fn (setCtxTx ctx tx) tx w1) as [o2 w2] eqn:Efn.
  pose proof (Hfn tx w1 o2 w2 Hown Efn) as [Hdb2 Hc2].
  destruct o2 as [[a|e]|v].
  - destruct (Commit_spec tx w2 Hown) as (ce & w3 & -> & Hw3 & Hc3 & Hm). simpl.
    destruct (Rollback_spec tx w3 Hown) as (rb' & w4 & -> & Hn & Hdb4 & Hc4 & _). simpl.
    intros [= <- <-]. split; [lia|]. destruct ce as [ce|]; simpl.
    + destruct Hm. split; [congruence|by left].
    + destruct (work tx w2) as [s|] eqn:Ew; [|done].
      exists tx, w1, w2, s. split_and!; try done; try congruence; lia.
  - destruct (Rollback_spec tx w2 Hown) as (rb & w3 & -> & _ & Hdb3 & Hc3 & Hf). simpl.
    destruct (Rollback_spec tx w3 Hown) as (rb' & w4 & -> & _ & Hdb4 & Hc4 & _). simpl.
    intros [= <- <-]. split_and!; [lia|congruence|]. right.
    exists tx, w1, e, w2, rb. split_and!; try done; congruence || lia.
  - destruct (Rollback_spec tx w2 Hown) as (rb & w3 & -> & _ & Hdb3 & Hc3 & _). simpl.
    intros [= <- <-]. split; [lia|congruence].
Qed.

Lemma calculateBackoff_run n w :
  exists b w', calculateBackoff (Int63n env) n w = (Ret b, w') /\
    db w' = db w /\ clock w <= clock w'.
Proof.
  unfold calculateBackoff, bind.
  destruct (Int63n_spec maxJitter w) as (r & w' & -> & _ & Hdb); [done|].
  by do 2 eexists.
Qed.

Lemma atomic_mono s0 t0 t1 o w' : t0 <= t1 -> atomic s0 t1 o w' -> atomic s0 t0 o w'.
Proof.
  intros Ht [Hc H]. split; [lia|]. destruct o as [[a|e]|v]; try done.
  - destruct H as (tx & w1 & w2 & s & ? & ? & ? & ? & ?).
    exists tx, w1, w2, s. split_and!; try done; naive_solver lia.
  - destruct H as (Hdb & [Hf|(tx & w1 & e0 & w2 & rb & ? & ? & ? & ? & ?)]); split; [done|by left|done|].
    right. exists tx, w1, e0, w2, rb. split_and!; try done; naive_solver lia.
Qed.

Lemma tx_loop_atomic fuel attempts retry sqlOpts w o w' :
  tx_only -> tx_loop env fuel attempts retry ctx btx sqlOpts fn w = (o, w') ->
  atomic (db w) (clock w) o w'.
Proof.
  intros Hfn. revert attempts w. induction fuel as [|f IH]; intros attempts w.
  { by intros [= <- <-]. }
  simpl. unfold bind at 1. destruct (doTx ctx btx sqlOpts fn w) as [o1 w1] eqn:E1.
  pose proof (doTx_atomic sqlOpts w o1 w1 Hfn E1) as H1.
  destruct o1 as [[a|err]|v]; [by intros [= <- <-]| |by intros [= <- <-]].
  destruct (_ && _); [|by intros [= <- <-]].
  destruct H1 as (Hc1 & Hdb1 & _).
  destruct (calculateBackoff_run (attempts + 1 - 1) w1) as (b & w2 & Ec & Hdb2 & Hc2).
  rewrite (bind_run _ _ _ _ _ Ec).
  destruct (LogRetry_spec (attempts + 1) b w2) as (w3 & El & Hdb3 & Hc3).
  rewrite (bind_run _ _ _ _ _ El).
  destruct (SelectAfter_spec b w3) as (d & w4 & Es & Hdb4 & Hc4 & Hd).
  rewrite (bind_run _ _ _ _ _ Es).
  assert (db w4 = db w) as Hdb by congruence.
  destruct d as [ctxErr|]; [intros [= <- <-]; split_and!; [lia|done|by left]|].
  intros H. apply IH in H. rewrite Hdb in H. eapply atomic_mono; [|done]. lia.
Qed.

(** A run whose attempts all return (no panic of [fn]) returns. *)
Definition returns : Prop :=
  forall tx w, owned tx -> exists r w', fn (setCtxTx ctx tx) tx w = (Ret r, w').

Lemma doTx_returns sqlOpts w :
  returns -> exists r w', doTx ctx btx sqlOpts fn w = (Ret r, w').
Proof.
  intros Hfn. unfold doTx, bind at 1.
  destruct (BeginTx_spec sqlOpts w) as ([tx|err] & w1 & -> & _ & _ & Hr); [|by do 2 eexists].
  destruct Hr as (Hown & _). unfold defer, bind.
  destruct (Hfn tx w1 Hown) as ([a|e] & w2 & ->).
  - destruct (Commit_spec tx w2 Hown) as (ce & w3 & -> & _). simpl.
    destruct (Rollback_spec tx w3 Hown) as (rb & w4 & -> & _). by do 2 eexists.
  - destruct (Rollback_spec tx w2 Hown) as (rb & w3 & -> & _). simpl.
    destruct (Rollback_spec tx w3 Hown) as (rb' & w4 & -> & _). by do 2 eexists.
Qed.

Lemma tx_loop_returns fuel attempts retry sqlOpts w :
  returns -> (0 < fuel)%nat -> attempts + Z.of_nat fuel = maxAttempts ->
  exists r w', tx_loop env fuel attempts retry ctx btx sqlOpts fn w = (Ret r, w').
Proof.
  intros Hfn. revert attempts w. induction fuel as [|f IH]; intros attempts w Hpos Hf; [lia|].
  simpl. destruct (doTx_returns sqlOpts w Hfn) as ([a|err] & w1 & E1);
    rewrite (bind_run _ _ _ _ _ E1); [by do 2 eexists|].
  destruct (retry && isDeadlock (Some err) && (attempts + 1 <? maxAttempts)) eqn:Eb;
    [|by do 2 eexists].
  apply andb_true_iff in Eb as [_ Hlt%Z.ltb_lt].
  destruct (calculateBackoff_run (attempts + 1 - 1) w1) as (b & w2 & Ec & _).
  rewrite (bind_run _ _ _ _ _ Ec).
  destruct (LogRetry_spec (attempts + 1) b w2) as (w3 & El & _).
  rewrite (bind_run _ _ _ _ _ El).
  destruct (SelectAfter_spec b w3) as ([ce|] & w4 & Es & _);
    rewrite (bind_run _ _ _ _ _ Es); [by do 2 eexists|].
  apply IH; lia.
Qed.

Lemma Tx_run opts w :
  tx_only -> returns ->
  exists r w', Tx env ctx btx opts fn w = (Ret r, w') /\ atomic (db w) (clock w) (Ret r) w'.
Proof.
  intros Hfn Hret. unfold Tx.
  destruct (tx_loop_returns 4 0 (txRetry (txOpts ctx opts)) (txSqlOpts (txOpts ctx opts)) w)
    as (r & w' & E); [done|lia|done|].
  exists r, w'. split; [done|]. by eapply tx_loop_atomic.
Qed.

(** C1. A transaction is all or nothing: when Tx returns nil, the committed
    state is exactly the private state that one run of [fn], in a transaction
    begun at the state Tx found, left in it; when Tx returns an error or
    panics, whatever failed (BeginTx, [fn], Commit, Rollback, the retries or
    the context), the committed state is the one Tx found, and the error is
    the driver's or the error of [fn] joined with that of the rollback. *)
Theorem Tx_atomic opts w o w' :
  tx_only -> Tx env ctx btx opts fn w = (o, w') -> atomic (db w) (clock w) o w'.
Proof. intros Hfn. unfold Tx. by apply tx_loop_atomic. Qed.
End Atomicity.

(** ** Retries *)

Section Retries.
Context {W : Type} {Stmt : Type -> Type} {A : Type} (env : Env W) (btx : BeginTxer W Stmt).
Context (ctx : Ctx W Stmt) (fn : Ctx W Stmt -> Txer W Stmt -> go W (res error A)).
Context (sqlOpts : option sqlTxOptions).

(** The wait before the next attempt, after the [k]-th one: the backoff, the
    log entry and the select on the context and the timer. *)
Definition wait (k : Z) : go W (option error) :=
  (let! backoff := calculateBackoff (Int63n env) (k - 1) in
   do! LogRetry env k backoff in
   SelectAfter env backoff)%go.

(** How a run of the loop ends: with its last attempt, or in the wait after it. *)
Inductive ending := LastAttempt | InWait.

(** What the loop returns when the wait does not lead to another attempt: the
    error of the context, or the panic of the wait. *)
Inductive wait_ends : outcome (option error) -> outcome (res error A) -> Prop :=
| we_done ce : wait_ends (Ret (Some ce)) (Ret (Err ce))
| we_panic v : wait_ends (Panicked v) (Panicked v).

(** [attempts k n w o w' e]: from attempt number [k], exactly [n] runs of
    doTx, each starting in the world the one before and its wait left, take
    the world [w] to the outcome [o] and the world [w']. *)
Inductive attempts (retry : bool) : Z -> nat -> W -> outcome (res error A) -> W -> ending -> Prop :=
| att_last k w o w' :
    doTx ctx btx sqlOpts fn w = (o, w') ->
    (forall err, o = Ret (Err err) -> retry = true -> isDeadlock (Some err) = true ->
       k = maxAttempts) ->
    attempts retry k 1 w o w' LastAttempt
| att_wait k w e w1 oc o w' :
    retry = true -> k < maxAttempts ->
    doTx ctx btx sqlOpts fn w = (Ret (Err e), w1) -> isDeadlock (Some e) = true ->
    wait k w1 = (oc, w') -> wait_ends oc o ->
    attempts retry k 1 w o w' InWait
| att_retry k n w e w1 w2 o w' d :
    retry = true -> k < maxAttempts ->
    doTx ctx btx sqlOpts fn w = (Ret (Err e), w1) -> isDeadlock (Some e) = true ->
    wait k w1 = (Ret None, w2) ->
    attempts retry (k + 1) n w2 o w' d ->
    attempts retry k (S n) w o w' d.

(** One turn of the loop, with the wait as one step. *)
Lemma tx_loop_turn fuel k retry w :
  tx_loop env (S fuel) k retry ctx btx sqlOpts fn w =
  match doTx ctx btx sqlOpts fn w with
  | (Ret (Err e), w1) =>
      if retry && isDeadlock (Some e) && (k + 1 <? maxAttempts) then
        match wait (k + 1) w1 with
        | (Ret (Some ce), w2) => (Ret (Err ce), w2)
        | (Ret None, w2) => tx_loop env fuel (k + 1) retry ctx btx sqlOpts fn w2
        | (Panicked v, w2) => (Panicked v, w2)
        end
      else (Ret (Err e), w1)
  | r => r
  end.
Proof.
  simpl. unfold wait, bind. destruct (doTx _ _ _ _ w) as [[[a|e]|v] w1]; try done.
  destruct (_ && _); [|done].
  destruct (calculateBackoff _ _ w1) as [[b|v] w2]; [|done].
  destruct (LogRetry _ _ _ w2) as [[u|v] w3]; [|done].
  by destruct (SelectAfter _ _ w3) as [[[ce|]|v] w4].
Qed.

(** Everything a run of the loop is: the relation holds of its result, and of
    nothing else. *)
Lemma tx_loop_attempts fuel k retry w o w' :
  k + Z.of_nat fuel = maxAttempts -> (0 < fuel)%nat ->
  tx_loop env fuel k retry ctx btx sqlOpts fn w = (o, w') ->
  exists n d, (1 <= n <= fuel)%nat /\ attempts retry (k + 1) n w o w' d.
Proof.
  revert k w. induction fuel as [|f IH]; intros k w Hf Hpos; [lia|].
  rewrite tx_loop_turn. destruct (doTx ctx btx sqlOpts fn w) as [[[a|e]|v] w1] eqn:E1.
  1,3: intros [= <- <-]; exists 1%nat, LastAttempt; split; [lia|by apply att_last].
  destruct (retry && isDeadlock (Some e) && (k + 1 <? maxAttempts)) eqn:Eb.
  2: { intros [= <- <-]. exists 1%nat, LastAttempt. split; [lia|]. apply att_last; [done|].
       intros err [= <-] -> Hd. rewrite Hd in Eb.
       destruct (Z.ltb_spec (k + 1) maxAttempts); [done|lia]. }
  apply andb_true_iff in Eb as [[Hretry Hd]%andb_true_iff Hlt%Z.ltb_lt].
  destruct (wait (k + 1) w1) as [[[ce|]|v] w2] eqn:Ew.
  - intros [= <- <-]. exists 1%nat, InWait. split; [lia|]. eapply att_wait; eauto using wait_ends.
  - intros H. destruct (IH (k + 1) w2) as (n & d & Hn & Ha); [lia|lia|done|].
    exists (S n), d. split; [lia|]. by eapply att_retry.
  - intros [= <- <-]. exists 1%nat, InWait. split; [lia|]. eapply att_wait; eauto using wait_ends.
Qed.

Lemma wait_ends_no_retry o : ~ wait_ends (Ret None) o.
Proof. inversion 1. Qed.

(** Two equations for the same run have the same result. *)
Ltac same_run :=
  repeat match goal with
  | E : ?f ?w = (_, _), H : ?f ?w = (_, _) |- _ => rewrite E in H; simplify_eq
  end.

Lemma attempts_det retry k n w o w' d n2 o2 w2 d2 :
  attempts retry k n w o w' d -> attempts retry k n2 w o2 w2 d2 ->
  n2 = n /\ o2 = o /\ w2 = w' /\ d2 = d.
Proof.
  intros H. revert n2. induction H as [k w o w' E Hk|k w e w1 oc o w' Hr Hk E Hd Hw Ho
    |k n w e w1 w3 o w' d Hr Hk E Hd Hw H IH]; intros n2 H2; inversion H2; subst; same_run;
    try (by split_and!); try (exfalso; naive_solver lia);
    try (by edestruct wait_ends_no_retry).
  - split_and!; try done. destruct Ho; match goal with H : wait_ends _ o2 |- _ => by inversion H end.
  - match goal with H : attempts _ _ _ _ o2 _ _ |- _ => destruct (IH _ H) as (-> & -> & -> & ->) end. done.
Qed.

(** A deadlock that comes from the last attempt comes from attempt number
    maxAttempts. *)
Lemma attempts_deadlock retry k n w e w' :
  attempts retry k n w (Ret (Err e)) w' LastAttempt -> retry = true ->
  isDeadlock (Some e) = true -> k + Z.of_nat n = maxAttempts + 1.
Proof.
  intros H Hr Hd. remember (Ret (Err e)) as o. remember LastAttempt as d.
  induction H as [k w o w' E Hk| |k n w e' w1 w3 o w' d _ _ _ _ _ H IH]; subst; [|done|].
  - rewrite (Hk _ eq_refl eq_refl Hd). lia.
  - rewrite Nat2Z.inj_succ. specialize (IH eq_refl eq_refl). lia.
Qed.
End Retries.

(** C2. Tx ends: it runs its transaction between one and maxAttempts (4)
    times, each time in the world the run before and the wait after it left,
    a further time only after a deadlock or serialization error with
    RetryDeadlock set.  Its outcome and final world are those of its last
    attempt or, when the context is done (or a step panics) in a wait, the
    error of the context (or that panic) and the world the wait left;
    [attempts] holds of no other outcome.  Without RetryDeadlock it is one
    attempt; and a deadlock error that is the error of the last attempt, with
    RetryDeadlock, is the error of attempt number maxAttempts. *)
Theorem Tx_attempts {W Stmt A} (env : Env W) (btx : BeginTxer W Stmt) ctx opts
    (fn : Ctx W Stmt -> Txer W Stmt -> go W (res error A)) w o w' :
  Tx env ctx btx opts fn w = (o, w') ->
  let retry := txRetry (txOpts ctx opts) in
  let sqlOpts := txSqlOpts (txOpts ctx opts) in
  exists n d, (1 <= n <= Z.to_nat maxAttempts)%nat /\
    attempts env btx ctx fn sqlOpts retry 1 n w o w' d /\
    (forall n2 o2 w2 d2, attempts env btx ctx fn sqlOpts retry 1 n2 w o2 w2 d2 ->
       n2 = n /\ o2 = o /\ w2 = w' /\ d2 = d) /\
    (retry = false -> n = 1%nat /\ doTx ctx btx sqlOpts fn w = (o, w')) /\
    (forall e, o = Ret (Err e) -> d = LastAttempt -> retry = true ->
       isDeadlock (Some e) = true -> Z.of_nat n = maxAttempts).
Proof.
  intros H retry sqlOpts. unfold Tx in H.
  apply tx_loop_attempts in H as (n & d & Hn & Ha); [|done|lia].
  exists n, d. split; [done|]. split; [done|]. split_and!.
  - intros n2 o2 w2 d2. by apply attempts_det.
  - intros Hr. unfold retry in Hr. rewrite Hr in Ha. inversion Ha; subst; done.
  - intros e -> -> Hr Hd. pose proof (attempts_deadlock _ _ _ _ _ _ _ _ _ _ _ Ha Hr Hd). lia.
Qed.

(** ** Errors kept *)

Lemma AsType_join_first {T} (p : error -> option T) e rest t :
  (forall es, p (JoinError es) = None) ->
  AsType p e = Some t -> AsType p (JoinError (e :: rest)) = Some t.
Proof. intros Hp E. rewrite AsType_join by done. simpl. by rewrite E. Qed.

(** [e'] answers what callers ask of [e]: errors.Is, the SQL state and the tags. *)
Definition kept (e e' : error) : Prop :=
  (forall target, Is (Some e) target = true -> Is (Some e') target = true) /\
  (SQLState (Some e) <> EmptyString -> SQLState (Some e') = SQLState (Some e)) /\
  (forall t, IsTag (Some e) t = true -> IsTag (Some e') t = true).

(** The driver error that AsProtocolError finds in [e] joined with [rb]: a pgx
    error of either, [e] first, before a lib/pq error of either, [e] first. *)
Definition protocol_of (e : error) (rb : option error) : option ProtocolError :=
  let find {T} (p : error -> option T) :=
    match AsType p e with Some t => Some t | None => r ← rb; AsType p r end in
  match find as_pgx with
  | Some pe => Some (of_pgx pe)
  | None => option_map of_pq (find as_pq)
  end.

Lemma joined_first e rb : exists rest, joined e rb = JoinError (e :: rest).
Proof. destruct rb; eauto. Qed.

Lemma kept_join e rb : kept e (joined e rb).
Proof.
  destruct (joined_first e rb) as [rest ->]. split_and!.
  - intros target. unfold Is. destruct (AsType (same_target target) e) as [[]|] eqn:E; [|done].
    by rewrite (AsType_join_first _ e rest tt) by (done || by destruct target).
  - unfold SQLState. destruct (AsType as_sqlstate e) as [s|] eqn:E; [|done].
    intros _. by rewrite (AsType_join_first _ e rest s).
  - intros t. rewrite (IsTag_eq e), (IsTag_eq (JoinError _)).
    destruct (AsType as_tagged e) as [te|] eqn:E; [|done].
    by rewrite (AsType_join_first _ e rest te).
Qed.

Lemma AsType_joined {T} (p : error -> option T) e rb :
  (forall es, p (JoinError es) = None) ->
  AsType p (joined e rb) = match AsType p e with Some t => Some t | None => r ← rb; AsType p r end.
Proof.
  intros Hp. destruct rb as [r|]; unfold joined; rewrite AsType_join by done; simpl;
    destruct (AsType p e); try done; by destruct (AsType p r).
Qed.

Lemma protocol_joined e rb : AsProtocolError (Some (joined e rb)) = protocol_of e rb.
Proof.
  unfold AsProtocolError, protocol_of. rewrite !AsType_joined by done.
  destruct (match AsType as_pgx e with Some t => Some t | None => _ end); [done|].
  by destruct (match AsType as_pq e with Some t => Some t | None => _ end).
Qed.

(** Unless the rollback failed with a pgx error and [e] holds none, the driver
    error of [e] is the one found. *)
Lemma protocol_of_kept e rb pe :
  AsProtocolError (Some e) = Some pe ->
  (forall r, AsType as_pgx e = None -> rb = Some r -> AsType as_pgx r = None) ->
  protocol_of e rb = Some pe.
Proof.
  unfold AsProtocolError, protocol_of. intros He Hrb.
  destruct (AsType as_pgx e) as [p|]; [done|].
  destruct (AsType as_pq e) as [p|]; [|done]. simpl.
  destruct rb as [r|]; simpl; [|done]. by rewrite (Hrb r).
Qed.

(** C3. Where an error of a transaction attempt comes from: it is the error of
    BeginTx, or of Commit after [fn] returned nil, or else [fn] failed, the
    transaction was rolled back and the error is that of [fn] joined with
    that of the rollback: it still answers errors.Is, SQLState (hence the
    deadlock test) and IsTag as the error of [fn], and AsProtocolError finds
    the driver error of [fn], pgx or lib/pq, unless [fn] failed with a lib/pq
    error (or none) and the rollback with a pgx error, which then is the one
    found: [protocol_of] says which in every case. *)
Theorem doTx_error {W Stmt A} (btx : BeginTxer W Stmt) ctx sqlOpts
    (fn : Ctx W Stmt -> Txer W Stmt -> go W (res error A)) w e' w' :
  doTx ctx btx sqlOpts fn w = (Ret (Err e'), w') ->
  (exists w1, BeginTx btx sqlOpts w = (Ret (Err e'), w1)) \/
  (exists tx w1, BeginTx btx sqlOpts w = (Ret (Ok tx), w1) /\
    ((exists a w2 w3, fn (setCtxTx ctx tx) tx w1 = (Ret (Ok a), w2) /\
        Commit tx w2 = (Ret (Some e'), w3)) \/
     (exists e w2 rb w3, fn (setCtxTx ctx tx) tx w1 = (Ret (Err e), w2) /\
        Rollback tx w2 = (Ret rb, w3) /\ e' = joined e rb /\ kept e e' /\
        AsProtocolError (Some e') = protocol_of e rb /\
        (forall pe, AsProtocolError (Some e) = Some pe ->
           (forall r, AsType as_pgx e = None -> rb = Some r -> AsType as_pgx r = None) ->
           AsProtocolError (Some e') = Some pe)))).
Proof.
  unfold doTx. intros H. apply bind_ret_inv in H as (r & w1 & Hb & H). rewrite Hb.
  destruct r as [tx|err]; [|injection H as -> ->; left; by eexists].
  right. exists tx, w1. split; [done|]. unfold defer in H.
  match type of H with (let '(_, _) := ?m w1 in _) = _ => destruct (m w1) as [o w3] eqn:Em end.
  destruct (bind _ _ w3) as [[[]|v] w4]; [|done]. injection H as -> ->.
  apply bind_ret_inv in Em as (r & w2 & Hfn & Hm). rewrite Hfn.
  destruct r as [a|e].
  - left. apply bind_ret_inv in Hm as (ce & w5 & Hc & Hm). injection Hm as Hm _.
    exists a, w2, w5. split; [done|]. destruct ce; [|done]. by injection Hm as <-.
  - right. apply bind_ret_inv in Hm as (rb & w5 & Hrb & Hm). injection Hm as <- _.
    exists e, w2, rb, w5. rewrite protocol_joined.
    eauto 10 using kept_join, protocol_of_kept.
Qed.

(** ** Backoff *)

Lemma shiftl_1 n : 0 <= n -> Z.shiftl 1 n = 2 ^ n.
Proof. intros. rewrite Z.shiftl_mul_pow2 by lia. lia. Qed.

(** The backoff before retry [n + 1] is the exponential value 50ms * 2^n
    capped at 500ms plus the jitter, with no integer overflow for any number
    of retries up to 37 (the loop asks for at most 2): it stays between 50ms
    and 550ms. *)
Theorem calculateBackoff_bounds {W} (int63n : Z -> go W Z) n w r w' :
  0 <= n <= 37 -> int63n maxJitter w = (Ret r, w') -> 0 <= r < maxJitter ->
  exists b, calculateBackoff int63n n w = (Ret b, w') /\
    b = Z.min (baseBackoff * 2 ^ n) maxBackoff + r /\
    baseBackoff <= b < maxBackoff + maxJitter.
Proof.
  intros Hn Hr Hj. unfold calculateBackoff. rewrite (bind_run _ _ _ _ _ Hr). unfold ret.
  eexists. split; [reflexivity|]. rewrite shiftl_1 by lia.
  unfold baseBackoff, maxBackoff, maxJitter, Millisecond in *.
  assert (1 <= 2 ^ n) by (pose proof (Z.pow_pos_nonneg 2 n); lia).
  assert (2 ^ n <= 2 ^ 37) by (apply Z.pow_le_mono_r; lia).
  change (2 ^ 37) with 137438953472 in *.
  rewrite (i64_id (2 ^ n)) by (unfold MinInt64, MaxInt64; lia).
  rewrite (i64_id (50 * 1000000 * 2 ^ n)) by (unfold MinInt64, MaxInt64; lia).
  rewrite i64_id by (unfold MinInt64, MaxInt64; lia). lia.
Qed.

(** ** Escaping *)

(** The reader of a SQL string literal (standard_conforming_strings): the text
    up to the closing quote, where a doubled quote stands for one, and what
    follows the literal. *)
Fixpoint literal_body (s : string) : option (string * string) :=
  match s with
  | EmptyString => None
  | String c s' =>
      if Ascii.eqb c "'" then
        match s' with
        | String c' s'' =>
            if Ascii.eqb c' "'" then
              '(body, rest) ← literal_body s''; Some (String "'" body, rest)
            else Some (EmptyString, s')
        | EmptyString => Some (EmptyString, s')
        end
      else '(body, rest) ← literal_body s'; Some (String c body, rest)
  end.
Definition read_literal (s : string) : option (string * string) :=
  match s with
  | String c s' => if Ascii.eqb c "'" then literal_body s' else None
  | EmptyString => None
  end.

(** QuoteEsc produces one SQL string literal whose value is the argument,
    whatever quotes it holds: a reader of the statement gets exactly the
    argument and goes on after it, so no part of the argument escapes the
    literal. *)
Theorem QuoteEsc_literal s rest :
  has_prefix "'" rest = false -> read_literal (QuoteEsc s +:+ rest) = Some (s, rest).
Proof.
  intros Hr. unfold QuoteEsc. rewrite <- !str_app_assoc.
  change (literal_body (replace_bytes (fun c => if Ascii.eqb c "'" then "''" else String c EmptyString) s
    +:+ ("'" +:+ rest)) = Some (s, rest)).
  induction s as [|c s IH]; simpl replace_bytes.
  - rewrite str_app_nil_l. destruct rest as [|c rest]; [done|].
    unfold has_prefix in Hr. rewrite andb_true_r, Ascii.eqb_sym in Hr. simpl.
    change (Ascii.eqb "'" "'") with true. cbv iota. by rewrite Hr.
  - destruct (Ascii.eqb c "'") eqn:Ec.
    + apply Ascii.eqb_eq in Ec as ->. rewrite <- str_app_assoc.
      change (literal_body ("''" +:+ ?x)) with
        ('(body, rest0) ← literal_body x; Some (String "'" body, rest0)).
      by rewrite IH.
    + rewrite <- str_app_assoc, str_app_cons, str_app_nil_l. cbn [literal_body].
      rewrite Ec. by rewrite IH.
Qed.

(** LIKE on bytes: the suffixes of [s] from which the pattern matches to the
    end, with backslash as the escape character. *)
Fixpoint like_match (pat s : string) : bool :=
  match pat with
  | EmptyString => String.eqb s EmptyString
  | String p pat' =>
      if Ascii.eqb p "%" then
        (fix any (s : string) : bool :=
           like_match pat' s || match s with EmptyString => false | String _ s' => any s' end) s
      else if Ascii.eqb p "_" then
        match s with EmptyString => false | String _ s' => like_match pat' s' end
      else if Ascii.eqb p "\" then
        match pat', s with
        | String q pat'', String c s' => Ascii.eqb q c && like_match pat'' s'
        | _, _ => false
        end
      else match s with EmptyString => false | String c s' => Ascii.eqb p c && like_match pat' s' end
  end.

Lemma like_match_char c q s :
  like_match (likeEscReplacer c +:+ q) s = true <-> exists t, s = String c t /\ like_match q t = true.
Proof.
  assert (Hesc : forall t, like_match (String "\" (String c q)) t =
    match t with String d t' => Ascii.eqb c d && like_match q t' | EmptyString => false end) by done.
  assert (Hspec : match s with String d t' => Ascii.eqb c d && like_match q t' | EmptyString => false end
            = true <-> exists t, s = String c t /\ like_match q t = true).
  { destruct s as [|d t]; [split; [done|by intros (t & ? & _)]|].
    rewrite andb_true_iff, Ascii.eqb_eq. naive_solver. }
  unfold likeEscReplacer.
  destruct (Ascii.eqb c "\") eqn:E1; [apply Ascii.eqb_eq in E1 as ->; by rewrite <- Hspec, <- Hesc|].
  destruct (Ascii.eqb c "%") eqn:E2; [apply Ascii.eqb_eq in E2 as ->; by rewrite <- Hspec, <- Hesc|].
  destruct (Ascii.eqb c "_") eqn:E3; [apply Ascii.eqb_eq in E3 as ->; by rewrite <- Hspec, <- Hesc|].
  rewrite <- Hspec. rewrite str_app_cons, str_app_nil_l. cbn [like_match].
  by rewrite E1, E2, E3.
Qed.

(** In a LIKE pattern, LikeEsc p stands for the literal text p: the pattern
    LikeEsc p followed by any pattern q matches exactly the strings that are p
    followed by a match of q; in particular LikeEsc p alone matches p only. *)
Theorem LikeEsc_literal p q s :
  like_match (LikeEsc p +:+ q) s = true <-> exists t, s = (p +:+ t) /\ like_match q t = true.
Proof.
  revert s. induction p as [|c p IH]; intros s.
  - unfold LikeEsc; simpl. rewrite str_app_nil_l. naive_solver.
  - change (LikeEsc (String c p)) with (likeEscReplacer c +:+ LikeEsc p).
    rewrite <- str_app_assoc, like_match_char. setoid_rewrite IH. split.
    + intros (t & -> & u & -> & Hu). by exists u.
    + intros (t & -> & Ht). exists (p +:+ t). split; [done|]. by exists t.
Qed.

(** ** Witnesses *)

Example calculateBackoff_bounds_witness :
  exists b, calculateBackoff (fun n => ret (n - 1)) 2 tt = (Ret b, tt) /\
    b = Z.min (baseBackoff * 2 ^ 2) maxBackoff + 49999999 /\
    baseBackoff <= b < maxBackoff + maxJitter.
Proof.
  apply (calculateBackoff_bounds (W := unit) (fun n => ret (n - 1)) 2 tt 49999999 tt);
    [lia|reflexivity|split; reflexivity || discriminate].
Defined.

Example QuoteEsc_literal_witness :
  has_prefix "'" ", 1)" = false /\
  read_literal (QuoteEsc "it's" +:+ ", 1)") = Some ("it's", ", 1)")%string.
Proof. split; [reflexivity|]. apply (QuoteEsc_literal "it's" ", 1)"). reflexivity. Defined.
