(* ===== verification/Sql.v ===== *)
(** * Sql: statements as functions on a database state

    The packages of the repository send fixed SQL statements to the database.
    A statement is embedded as the function it computes: from the time now()
    and the state, either the decoded result and the new state, or the error of
    the server, in which case the state is unchanged.  [SqlLaws] adds to
    [TxLaws] what the driver promises about running one; the lemmas below say
    what a statement does under the helpers of Pgdb, whether or not the context
    carries a transaction. *)

From Stdlib Require Import ZArith String Lia.
From S2P Require Import Prelude Errors Pgdb.

Definition Sql (S A : Type) : Type := Z -> S -> res error (A * S).

(** The error of the server for a statement that violates a constraint. *)
Definition server_error (table code constraint : string) : error :=
  PgErr {| pg_Severity := "ERROR"; pg_Code := code; pg_Message := EmptyString;
    pg_Detail := EmptyString; pg_Hint := EmptyString; pg_Position := 0;
    pg_InternalPosition := 0; pg_InternalQuery := EmptyString; pg_Where := EmptyString;
    pg_SchemaName := "public"; pg_TableName := table; pg_ColumnName := EmptyString;
    pg_DataTypeName := EmptyString; pg_ConstraintName := constraint; pg_File := EmptyString;
    pg_Line := 0; pg_Routine := EmptyString; pg_errmsg := EmptyString |}.

(** A statement on one table of a larger database. *)
Definition on_table {D S A} `{Lens D S} (st : Sql S A) : Sql D A := fun now d =>
  match st now (view d) with
  | Ok (a, s) => Ok (a, update s d)
  | Err e => Err e
  end.

(** What executing a statement through a driver does.  On a connection it runs
    at some time of the call on the committed state, which it commits.  In a
    transaction it runs at the transaction's start time on its private state; an
    error of any kind leaves the transaction unusable. *)
Class SqlLaws {W S} (conn : Connection W (Sql S)) `{TL : !TxLaws (conn_beginTxer conn) S} := {
  conn_Run_spec : forall A (st : Sql S A) w, exists r w',
    Run (conn_queryer conn) st w = (Ret r, w') /\ clock w <= clock w' /\
    match r with
    | Ok a => exists t, clock w <= t <= clock w' /\ st t (db w) = Ok (a, db w')
    | Err e => db w' = db w /\
        (faulty e \/ exists t, clock w <= t <= clock w' /\ st t (db w) = Err e)
    end;
  tx_Run_spec : forall tx A (st : Sql S A) w, owned tx -> exists r w',
    Run (tx_queryer tx) st w = (Ret r, w') /\ clock w <= clock w' /\ db w' = db w /\
    match r with
    | Ok a => exists s s', work tx w = Some s /\ work tx w' = Some s' /\
        st (txclock tx) s = Ok (a, s')
    | Err e => work tx w' = None /\
        (faulty e \/ exists s, work tx w = Some s /\ st (txclock tx) s = Err e)
    end;
}.

Section Statements.
Context {W S : Type} (conn : Connection W (Sql S)).
Context {TL : TxLaws (conn_beginTxer conn) S} {SL : SqlLaws conn}.
Context (env : Env W) {EL : EnvLaws env (conn_beginTxer conn)}.
Local Notation Ctx := (Ctx W (Sql S)).
Local Open Scope go_scope.

(** The context's transaction, if any, is one of the driver. *)
Definition ctx_ok (ctx : Ctx) : Prop :=
  match ctxTx ctx with Some tx => owned tx | None => True end.

(** The state that statements under [ctx] read, and the times at which one
    that runs between [w] and [w'] may run. *)
Definition visible (ctx : Ctx) (w : W) : option S :=
  match ctxTx ctx with Some tx => work tx w | None => Some (db w) end.
Definition timed (ctx : Ctx) (t : Z) (w w' : W) : Prop :=
  match ctxTx ctx with
  | Some tx => t = txclock tx
  | None => clock w <= t <= clock w'
  end.

Lemma timed_from ctx t w w1 w' : clock w <= clock w1 -> timed ctx t w1 w' -> timed ctx t w w'.
Proof. unfold timed. destruct (ctxTx ctx); [done|lia]. Qed.

Lemma timed_to ctx t w w1 w' : clock w1 <= clock w' -> timed ctx t w w1 -> timed ctx t w w'.
Proof. unfold timed. destruct (ctxTx ctx); [done|lia]. Qed.

(** The errors a caller can see for the error [e0] of a call: itself, joined
    with that of a rollback, or wrapped by fmt.Errorf. *)
Inductive caused_by (e0 : error) : error -> Prop :=
| caused_self : caused_by e0 e0
| caused_join e rb : caused_by e0 e ->
    match rb with Some r => faulty r | None => True end -> caused_by e0 (joined e rb)
| caused_fmt msg e : caused_by e0 e -> caused_by e0 (FmtError msg e).

(** An error that goes back to a failure of the driver. *)
Definition fault (e : error) : Prop := exists e0, faulty e0 /\ caused_by e0 e.

(** [ran ctx p w r w']: a call under [ctx] did what the state function [p]
    says: on success it computed [p] at one moment; on failure nothing of it
    is visible (without a transaction the state is as before, with one the
    transaction can no longer commit), and the error is the driver's or
    the error of [p], possibly joined with that of a rollback. *)
Definition ran {A} (ctx : Ctx) (p : Sql S A) (w : W) (r : res error A) (w' : W) : Prop :=
  clock w <= clock w' /\ (ctxTx ctx <> None -> db w' = db w) /\
  match r with
  | Ok a => exists t s s', timed ctx t w w' /\ visible ctx w = Some s /\
      visible ctx w' = Some s' /\ p t s = Ok (a, s')
  | Err e =>
      (visible ctx w' = match ctxTx ctx with Some _ => None | None => visible ctx w end) /\
      exists e0, caused_by e0 e /\
        (faulty e0 \/ exists t s, timed ctx t w w' /\ visible ctx w = Some s /\ p t s = Err e0)
  end.

(** The constants that errors.Is looks for, none of which a driver returns. *)
Definition constant (target : error) : Prop :=
  target = ErrNoRows \/ exists s, target = ConstError s.

Lemma caused_by_Is e0 e target :
  constant target -> caused_by e0 e -> Is (Some e) target = Is (Some e0) target.
Proof.
  intros Ht. assert (forall r : error, faulty r -> AsType (same_target target) r = None) as Hf.
  { intros r Hr. assert (Is (Some r) target = false) as H.
    { destruct Ht as [->|[s ->]]; apply (faulty_foreign r Hr). }
    unfold Is in H. by destruct (AsType _ r). }
  assert (forall es, same_target target (JoinError es) = None) as Hj
    by (by destruct Ht as [->|[s ->]]).
  assert (forall msg e, same_target target (FmtError msg e) = None) as Hw
    by (by destruct Ht as [->|[s ->]]).
  induction 1 as [|e rb _ IH Hrb|msg e _ IH]; [done|..]; rewrite <- IH; unfold Is.
  - unfold joined. destruct rb as [r|]; rewrite AsType_join by done; simpl;
      destruct (AsType (same_target target) e); try done. by rewrite (Hf r Hrb).
  - simpl. by rewrite Hw.
Qed.

Lemma fault_foreign e target : constant target -> fault e -> Is (Some e) target = false.
Proof.
  intros Ht (e0 & Hf & Hc). rewrite (caused_by_Is e0 e target Ht Hc).
  destruct Ht as [->|[s ->]]; apply (faulty_foreign e0 Hf).
Qed.

Lemma faulty_fault e : faulty e -> fault e.
Proof. intros H. exists e. split; [done|constructor]. Qed.

Lemma ran_from {A} ctx (p : Sql S A) w w1 r w' :
  clock w <= clock w1 -> db w1 = db w -> visible ctx w1 = visible ctx w ->
  ran ctx p w1 r w' -> ran ctx p w r w'.
Proof.
  unfold ran, timed. intros Hc Hdb Hv (Hc' & Hdb' & Hr). rewrite Hv in Hr.
  split_and!; [lia|by rewrite <- Hdb|]. destruct r as [a|e].
  - destruct Hr as (t & s & s' & Ht & ? & ? & ?). exists t, s, s'. split_and!; try done.
    destruct (ctxTx ctx); [done|lia].
  - destruct Hr as (? & e0 & Hcb & Hr). split; [done|]. exists e0. split; [done|].
    destruct Hr as [Hf|(t & s & Ht & ? & ?)]; [by left|right]. exists t, s. split_and!; try done.
    destruct (ctxTx ctx); [done|lia].
Qed.

(** Changing only what is computed from the result. *)
Definition map_ok {A B} (f : A -> res error B) (st : Sql S A) : Sql S B := fun now s =>
  match st now s with
  | Ok (a, s') => match f a with Ok b => Ok (b, s') | Err e => Err e end
  | Err e => Err e
  end.
Definition exec_of {A} (st : Sql S A) : Sql S unit := map_ok (fun _ => Ok tt) st.

Definition done_ {A} (r : res error A) : Sql S A := fun _ s =>
  match r with Ok a => Ok (a, s) | Err e => Err e end.

(** One computation after another. *)
Definition sbind {A B} (p : Sql S A) (q : A -> Sql S B) : Sql S B := fun now s =>
  match p now s with Ok (a, s') => q a now s' | Err e => Err e end.

(** [tx_does tx p m]: in the transaction [tx], [m] does [p]. *)
Definition tx_does_at {A} (tx : Txer W (Sql S)) (p : Sql S A) (m : go W (res error A)) (w : W) : Prop :=
  exists r w', m w = (Ret r, w') /\ clock w <= clock w' /\ db w' = db w /\
    match r with
    | Ok a => exists s s', work tx w = Some s /\ work tx w' = Some s' /\ p (txclock tx) s = Ok (a, s')
    | Err e => fault e \/ exists s, work tx w = Some s /\ p (txclock tx) s = Err e
    end.
Definition tx_does {A} (tx : Txer W (Sql S)) (p : Sql S A) (m : go W (res error A)) : Prop :=
  forall w, tx_does_at tx p m w.

(** A call whose error is replaced by [f] of it, and whose result is passed on;
    the continuation runs in an open transaction. *)
Definition scase {A B} (f : error -> error) (p : Sql S A) (q : A -> Sql S B) : Sql S B := fun now s =>
  match p now s with Ok (a, s') => q a now s' | Err e => Err (f e) end.

Lemma tx_does_at_case {A B} tx (p : Sql S A) (q : A -> Sql S B) (f : error -> error) m k w :
  tx_does_at tx p m w -> (forall e, fault e -> fault (f e)) -> (forall e, k (Err e) = ret (Err (f e))) ->
  (forall a w', is_Some (work tx w') -> tx_does_at tx (q a) (k (Ok a)) w') ->
  tx_does_at tx (scase f p q) (bind m k) w.
Proof.
  intros ([a|e] & w1 & E & Hc & Hdb & Hr) Hf Hke Hk; unfold tx_does_at, scase;
    rewrite (bind_run _ _ _ _ _ E).
  - destruct Hr as (s & s1 & Hw & Hw1 & Hp).
    destruct (Hk a w1) as (r & w2 & E2 & Hc2 & Hdb2 & Hr2); [by exists s1|].
    exists r, w2. split_and!; [done|lia|congruence|]. destruct r as [b|e].
    + destruct Hr2 as (s1' & s2 & Hw1' & Hw2 & Hq). rewrite Hw1 in Hw1'. injection Hw1' as <-.
      exists s, s2. by rewrite Hp.
    + destruct Hr2 as [Hfe|(s1' & Hw1' & Hq)]; [by left|right].
      rewrite Hw1 in Hw1'. injection Hw1' as <-. exists s. by rewrite Hp.
  - rewrite Hke. exists (Err (f e)), w1. split_and!; [done..|].
    destruct Hr as [Hfe|(s & Hw & Hp)]; [left; by apply Hf|right]. exists s. by rewrite Hp.
Qed.

Lemma tx_does_at_bindE {A B} tx (p : Sql S A) (q : A -> Sql S B) m k w :
  tx_does_at tx p m w -> (forall a w', is_Some (work tx w') -> tx_does_at tx (q a) (k a) w') ->
  tx_does_at tx (sbind p q) (bindE m k) w.
Proof. intros Hm Hk. by apply (tx_does_at_case tx p q (fun e => e)). Qed.

(** A result that depends on the database only through what was read. *)
Lemma tx_does_ret {A} tx (r : res error A) w :
  is_Some (work tx w) -> tx_does_at tx (done_ r) (ret r) w.
Proof.
  intros [s Hs]. exists r, w. split_and!; [done|lia|done|].
  destruct r; [by exists s, s|right; by exists s].
Qed.

(** A call followed by a computation on its result. *)
Lemma tx_does_map {A B} tx (p : Sql S A) m (f : A -> res error B) :
  tx_does tx p m ->
  tx_does tx (map_ok f p) (bindE m (fun a => ret (f a))).
Proof.
  intros Hm w. unfold tx_does_at, bindE, map_ok.
  destruct (Hm w) as ([a|e] & w1 & E & Hc & Hdb & Hr); rewrite (bind_run _ _ _ _ _ E).
  - destruct Hr as (s & s1 & Hw & Hw1 & Hp). exists (f a), w1. split_and!; [done..|].
    destruct (f a) as [b|e] eqn:Ef.
    + exists s, s1. rewrite Hp, Ef. done.
    + right. exists s. rewrite Hp, Ef. done.
  - exists (Err e), w1. split_and!; [done..|].
    destruct Hr as [Hf|(s & Hw & Hp)]; [by left|right]. exists s. by rewrite Hp.
Qed.

Lemma tx_does_Run {A} tx (st : Sql S A) : owned tx -> tx_does tx st (Run (tx_queryer tx) st).
Proof.
  intros Hown w. destruct (tx_Run_spec tx A st w Hown) as (r & w' & E & Hc & Hdb & Hr).
  exists r, w'. split_and!; [done..|].
  destruct r as [a|e]; [done|]. destruct Hr as [_ [Hf|Hr]]; [left; by apply faulty_fault|by right].
Qed.

Lemma tx_does_ext {A} tx (p q : Sql S A) m :
  (forall t s, p t s = q t s) -> tx_does tx p m -> tx_does tx q m.
Proof.
  intros Hpq Hm w. destruct (Hm w) as (r & w' & E & Hc & Hdb & Hr).
  exists r, w'. split_and!; [done..|]. destruct r; by setoid_rewrite <- Hpq.
Qed.

Lemma tx_does_Exec_q {A} tx (st : Sql S A) :
  owned tx -> tx_does tx (exec_of st) (Exec (tx_queryer tx) st).
Proof.
  intros Hown.
  intros w. destruct (tx_does_Run tx st Hown w) as (r & w' & E & Hc & Hdb & Hr).
  unfold tx_does_at, Exec. rewrite (bind_run _ _ _ _ _ E). do 2 eexists. split; [reflexivity|].
  split_and!; [done..|]. unfold exec_of, map_ok. destruct r as [a|e].
  - destruct Hr as (s & s' & Hw & Hw' & Hst). exists s, s'. by rewrite Hst.
  - destruct Hr as [Hf|(s & Hs & Hst)]; [by left|right]. exists s. by rewrite Hst.
Qed.

Lemma tx_does_QueryOne {A} tx (st : Sql S (option A)) :
  owned tx ->
  tx_does tx (map_ok (fun o => match o with
      | Some a => Ok a
      | None => Err (FmtError "not found: sql: no rows in result set" ErrNoRows)
      end) st) (QueryOne (tx_queryer tx) st).
Proof.
  intros Hown w. destruct (tx_does_map tx st _ (fun o => match o with
      | Some a => Ok a
      | None => Err (FmtError "not found: sql: no rows in result set" ErrNoRows)
      end) (tx_does_Run tx st Hown) w) as (r & w' & E & H).
  exists r, w'. split; [|exact H]. rewrite <- E. unfold QueryOne, bindE, bind, ret.
  by destruct (Run _ _ w) as [[[[]|]|] ?].
Qed.

Lemma tx_does_Exec {A} ctx tx q (st : Sql S A) :
  ctxTx ctx = Some tx -> owned tx ->
  tx_does tx (exec_of st) (EnsureQueryer ctx q (fun _ q => Exec q st)).
Proof. intros Ectx Hown. unfold EnsureQueryer. rewrite Ectx. by apply tx_does_Exec_q. Qed.

Lemma ran_map_ok {A B} ctx (p : Sql S A) (f : A -> B) w r w' :
  ran ctx p w r w' ->
  ran ctx (map_ok (fun a => Ok (f a)) p) w
    (match r with Ok a => Ok (f a) | Err e => Err e end) w'.
Proof.
  intros (Hc & Hdb & Hr). split_and!; [done..|]. unfold map_ok. destruct r as [a|e].
  - destruct Hr as (t0 & s & s' & ? & ? & ? & Hp). exists t0, s, s'. by rewrite Hp.
  - destruct Hr as (Hv & e0 & Hcb & Hr). split; [done|]. exists e0. split; [done|].
    destruct Hr as [?|(t0 & s & ? & ? & Hp)]; [by left|right]. exists t0, s. by rewrite Hp.
Qed.

Lemma ran_ext {A} ctx (p q : Sql S A) w r w' :
  (forall now s, p now s = q now s) -> ran ctx p w r w' -> ran ctx q w r w'.
Proof.
  intros Hpq (Hc & Hdb & Hr). split_and!; [done..|]. destruct r as [a|e].
  - destruct Hr as (t0 & s & s' & ? & ? & ? & Hp). exists t0, s, s'. by rewrite <- Hpq.
  - destruct Hr as (Hv & e0 & Hcb & Hr). split; [done|]. exists e0. split; [done|].
    destruct Hr as [?|(t0 & s & ? & ? & Hp)]; [by left|right]. exists t0, s. by rewrite <- Hpq.
Qed.

(** The error is the driver's or that of [p], as it is. *)
Definition exact {A} (ctx : Ctx) (p : Sql S A) (w : W) (r : res error A) (w' : W) : Prop :=
  match r with
  | Ok _ => True
  | Err e => faulty e \/ exists t s, timed ctx t w w' /\ visible ctx w = Some s /\ p t s = Err e
  end.

(** A statement under EnsureQueryer. *)
Lemma EnsureQueryer_exact {A} ctx (st : Sql S A) w :
  ctx_ok ctx -> exists r w',
    EnsureQueryer ctx (conn_queryer conn) (fun _ q => Run q st) w = (Ret r, w') /\
    ran ctx st w r w' /\ exact ctx st w r w'.
Proof.
  unfold ctx_ok, EnsureQueryer, ran, exact, visible, timed.
  destruct (ctxTx ctx) as [tx|]; intros Hown.
  - destruct (tx_Run_spec tx A st w Hown) as (r & w' & E & Hc & Hdb & Hr).
    exists r, w'. split; [done|]. destruct r as [a|e].
    + destruct Hr as (s & s' & Hw & Hw' & Hst). split_and!; try done. by exists (txclock tx), s, s'.
    + destruct Hr as [Hw Hr].
      assert (faulty e \/ exists t s, t = txclock tx /\ work tx w = Some s /\ st t s = Err e) as Hx.
      { destruct Hr as [Hf|(s & Hs & Hst)]; [by left|right]. by exists (txclock tx), s. }
      split_and!; try done. exists e. split; [constructor|done].
  - destruct (conn_Run_spec A st w) as (r & w' & E & Hc & Hr).
    exists r, w'. split; [done|]. destruct r as [a|e].
    + destruct Hr as (t & Ht & Hst). split_and!; try done. by exists t, (db w), (db w').
    + destruct Hr as [Hdb Hr].
      assert (faulty e \/ exists t s, clock w <= t <= clock w' /\ Some (db w) = Some s /\ st t s = Err e) as Hx.
      { destruct Hr as [Hf|(t & Ht & Hst)]; [by left|right]. by exists t, (db w). }
      split_and!; try done; [by rewrite Hdb|]. exists e. split; [constructor|done].
Qed.

Lemma EnsureQueryer_Run {A} ctx (st : Sql S A) w :
  ctx_ok ctx -> exists r w',
    EnsureQueryer ctx (conn_queryer conn) (fun _ q => Run q st) w = (Ret r, w') /\
    ran ctx st w r w'.
Proof.
  intros Hctx. destruct (EnsureQueryer_exact ctx st w Hctx) as (r & w' & E & Hr & _). by exists r, w'.
Qed.

Lemma EnsureQueryer_Exec {A} ctx (st : Sql S A) w :
  ctx_ok ctx -> exists r w',
    EnsureQueryer ctx (conn_queryer conn) (fun _ q => Exec q st) w = (Ret r, w') /\
    ran ctx (exec_of st) w r w'.
Proof.
  intros Hctx. destruct (EnsureQueryer_Run ctx st w Hctx) as (r & w' & E & Hr).
  apply (ran_map_ok ctx _ (fun _ => tt)) in Hr. unfold EnsureQueryer in *.
  unfold Exec. rewrite (bind_run _ _ _ _ _ E). do 2 eexists. split; [reflexivity|].
  by destruct r.
Qed.

(** Nothing of a call is visible: without a transaction the state is as before,
    with one the transaction can no longer commit. *)
Definition unchanged (ctx : Ctx) (w w' : W) : Prop :=
  visible ctx w' = match ctxTx ctx with Some _ => None | None => visible ctx w end.

(** The error of QueryOne when there is no row. *)
Definition not_found : error := FmtError "not found: sql: no rows in result set" ErrNoRows.
Definition one_row {A} (r : res error (option A)) : res error A :=
  match r with Ok (Some a) => Ok a | Ok None => Err not_found | Err e => Err e end.

Lemma EnsureQueryer_QueryOne {A} ctx (st : Sql S (option A)) w :
  ctx_ok ctx -> exists r w',
    EnsureQueryer ctx (conn_queryer conn) (fun _ q => QueryOne q st) w = (Ret (one_row r), w') /\
    ran ctx st w r w' /\ exact ctx st w r w'.
Proof.
  intros Hctx. destruct (EnsureQueryer_exact ctx st w Hctx) as (r & w' & E & Hr).
  exists r, w'. split; [|done]. unfold EnsureQueryer in *. unfold QueryOne.
  rewrite (bind_run _ _ _ _ _ E). by destruct r as [[]|].
Qed.

(** A query that reads: no row is sql.ErrNoRows and any other error is the
    driver's. *)
Lemma EnsureQueryer_read {A} ctx (st : Sql S (option A)) (f : S -> option A) w :
  ctx_ok ctx -> (forall t s, st t s = Ok (f s, s)) ->
  exists r w', EnsureQueryer ctx (conn_queryer conn) (fun _ q => QueryOne q st) w = (Ret r, w') /\
    clock w <= clock w' /\
    match r with
    | Ok a => exists s, visible ctx w = Some s /\ visible ctx w' = Some s /\ f s = Some a
    | Err e =>
        (Is (Some e) ErrNoRows = true /\ exists s, visible ctx w = Some s /\ visible ctx w' = Some s /\ f s = None) \/
        (Is (Some e) ErrNoRows = false /\ faulty e /\ unchanged ctx w w')
    end.
Proof.
  intros Hctx Hst. destruct (EnsureQueryer_QueryOne ctx st w Hctx) as (r & w' & E & (Hc & _ & Hr) & Hx).
  exists (one_row r), w'. split; [done|]. split; [done|]. destruct r as [o|e]; simpl.
  - destruct Hr as (t & s & s' & _ & Hs & Hs' & Hp). rewrite Hst in Hp. injection Hp as <- <-.
    destruct (f s) as [x|] eqn:Ef; simpl; [by exists s|left]. split; [done|]. by exists s.
  - right. destruct Hr as [Hv _].
    destruct Hx as [Hf|(t & s & _ & _ & Hp)]; [|by rewrite Hst in Hp].
    split; [apply (faulty_foreign e Hf)|done].
Qed.

(** A statement that always succeeds, and one result. *)
Lemma EnsureQueryer_write ctx (st : Sql S unit) (f : Z -> S -> S) w :
  ctx_ok ctx -> (forall t s, st t s = Ok (tt, f t s)) ->
  exists r w', EnsureQueryer ctx (conn_queryer conn) (fun _ q => Exec q st) w = (Ret r, w') /\
    clock w <= clock w' /\
    match r with
    | Ok _ => exists t s, timed ctx t w w' /\ visible ctx w = Some s /\ visible ctx w' = Some (f t s)
    | Err e => fault e /\ unchanged ctx w w'
    end.
Proof.
  intros Hctx Hst. destruct (EnsureQueryer_Exec ctx st w Hctx) as (r & w' & E & Hc & _ & Hr).
  exists r, w'. split; [done|]. split; [done|]. destruct r as [[]|e].
  - destruct Hr as (t & s & s' & Ht & Hs & Hs' & Hp). unfold exec_of, map_ok in Hp.
    rewrite Hst in Hp. injection Hp as <-. by exists t, s.
  - destruct Hr as (Hv & e0 & Hcb & [Hf|(t & s & _ & _ & Hp)]).
    + split; [by exists e0|done].
    + unfold exec_of, map_ok in Hp. by rewrite Hst in Hp.
Qed.

(** A function under Tx: in a transaction of its own. *)
Lemma Tx_does {A} ctx opts (p : Sql S A) fn w :
  (forall ctx' tx, ctxTx ctx' = Some tx -> owned tx -> tx_does tx p (fn ctx' tx)) ->
  exists r w', Tx env ctx (conn_beginTxer conn) opts fn w = (Ret r, w') /\ clock w <= clock w' /\
    match r with
    | Ok a => exists t, clock w <= t <= clock w' /\ p t (db w) = Ok (a, db w')
    | Err e => db w' = db w /\ exists e0, caused_by e0 e /\
        (faulty e0 \/ exists t, clock w <= t <= clock w' /\ p t (db w) = Err e0)
    end.
Proof.
  intros Hfn.
  destruct (Tx_run (conn_beginTxer conn) env ctx fn opts w) as (r & w' & E & Hc & Ha).
  { intros tx w0 o w1 Ht E. destruct (Hfn (setCtxTx ctx tx) tx eq_refl Ht w0)
      as (r & w1' & E' & Hc & Hdb & _). rewrite E in E'. by injection E' as _ <-. }
  { intros tx w0 Ht. destruct (Hfn (setCtxTx ctx tx) tx eq_refl Ht w0) as (r & w1 & E & _).
    by exists r, w1. }
  exists r, w'. split; [done|]. split; [done|]. destruct r as [a|e].
  - destruct Ha as (tx & w1 & w2 & s & Ht & Hw1 & Hdb1 & Hclk & Efn & Hw2 & Hdb & _).
    destruct (Hfn (setCtxTx ctx tx) tx eq_refl Ht w1) as (r & w2' & E' & _ & _ & Hr).
    rewrite Efn in E'. injection E' as <- <-. destruct Hr as (s1 & s2 & Hs1 & Hs2 & Hp).
    exists (txclock tx). split; [lia|congruence].
  - destruct Ha as [Hdb He]. split; [done|].
    destruct He as [Hf|(tx & w1 & e0 & w2 & rb & Ht & Hw1 & Hdb1 & Hclk & Efn & -> & Hrb)];
      [exists e; split; [constructor|by left]|].
    destruct (Hfn (setCtxTx ctx tx) tx eq_refl Ht w1) as (r & w2' & E' & _ & _ & Hr).
    rewrite Efn in E'. injection E' as <- <-. destruct Hr as [(e1 & Hf & Hcb)|(s & Hs & Hp)].
    + exists e1. split; [by constructor|by left].
    + exists e0. split; [constructor; [constructor|done]|right].
      exists (txclock tx). split; [lia|congruence].
Qed.

(** A function under EnsureTx: in the context's transaction, or in one of its own. *)
Lemma EnsureTx_run {A} ctx (p : Sql S A) fn w :
  ctx_ok ctx ->
  (forall ctx' tx, ctxTx ctx' = Some tx -> owned tx -> tx_does tx p (fn ctx' tx)) ->
  exists r w', EnsureTx env ctx (conn_beginTxer conn) fn w = (Ret r, w') /\ ran ctx p w r w'.
Proof.
  unfold ctx_ok, EnsureTx, ran, visible, timed. intros Hown Hfn.
  destruct (ctxTx ctx) as [tx|] eqn:Ectx.
  - destruct (Hfn ctx tx Ectx Hown w) as ([a|e] & w1 & E & Hc & Hdb & Hr);
      rewrite (bind_run _ _ _ _ _ E).
    + destruct Hr as (s & s' & Hw & Hw' & Hp). exists (Ok a), w1. split_and!; try done.
      by exists (txclock tx), s, s'.
    + destruct (Rollback_spec tx w1 Hown) as (rb & w2 & E2 & Hw2 & Hdb2 & Hc2 & Hrb).
      rewrite (bind_run _ _ _ _ _ E2). do 2 eexists. split; [reflexivity|].
      split_and!; [lia|congruence|done|].
      destruct Hr as [(e1 & Hf & Hcb)|(s & Hs & Hp)].
      * exists e1. split; [by constructor|by left].
      * exists e. split; [constructor; [constructor|done]|right]. by exists (txclock tx), s.
  - destruct (Tx_does ctx None p fn w Hfn) as (r & w' & E & Hc & Hr).
    exists r, w'. split; [done|]. split_and!; [done|done|]. destruct r as [a|e].
    + destruct Hr as (t & Ht & Hp). by exists t, (db w), (db w').
    + destruct Hr as (Hdb & e0 & Hcb & Hr). split; [by rewrite Hdb|]. exists e0. split; [done|].
      destruct Hr as [Hf|(t & Ht & Hp)]; [by left|right]. by exists t, (db w).
Qed.
End Statements.
