(* ===== verification/PgModel.v ===== *)
(** * PgModel: a reference database

    An executable database behind the interfaces of Pgdb: one committed state,
    the private states of the open transactions, a clock that advances at every
    call and a script of faults.  It satisfies the laws the theorems ask of a
    driver; the witnesses run on it. *)

From Stdlib Require Import ZArith String Lia.
From S2P Require Import Prelude Errors Pgdb Sql.

(** The faults a driver call can meet. *)
Inductive fault := ConnLost | Deadlock | Canceled.

Definition pg_error (code msg : string) : error :=
  PgErr {| pg_Severity := "ERROR"; pg_Code := code; pg_Message := msg;
    pg_Detail := EmptyString; pg_Hint := EmptyString; pg_Position := 0;
    pg_InternalPosition := 0; pg_InternalQuery := EmptyString; pg_Where := EmptyString;
    pg_SchemaName := EmptyString; pg_TableName := EmptyString; pg_ColumnName := EmptyString;
    pg_DataTypeName := EmptyString; pg_ConstraintName := EmptyString; pg_File := EmptyString;
    pg_Line := 0; pg_Routine := EmptyString; pg_errmsg := msg |}.

Definition fault_error (f : fault) : error :=
  match f with
  | ConnLost => Sentinel "driver: bad connection"
  | Deadlock => pg_error "40P01" "deadlock detected"
  | Canceled => Sentinel "context canceled"
  end.
Definition ErrTxDone : error := Sentinel "sql: transaction has already been committed or rolled back".

Section Model.
Context {S : Type} (s0 : S).

Record world := {
  w_db : S;
  w_open : nat -> option S;
  w_next : nat;
  w_now : Z;
  w_faults : list (option fault);
}.

Definition start : world :=
  {| w_db := s0; w_open := fun _ => None; w_next := 0%nat; w_now := 0; w_faults := [] |}.

(** Every call takes a unit of time and meets the next entry of the script. *)
Definition tick (w : world) : world :=
  {| w_db := w_db w; w_open := w_open w; w_next := w_next w; w_now := w_now w + 1;
     w_faults := tail (w_faults w) |}.
Definition fault_of (w : world) : option fault :=
  match w_faults w with f :: _ => f | [] => None end.

Definition set_open (id : nat) (o : option S) (w : world) : world :=
  {| w_db := w_db w; w_open := fun i => if (i =? id)%nat then o else w_open w i;
     w_next := w_next w; w_now := w_now w; w_faults := w_faults w |}.
Definition set_db (s : S) (w : world) : world :=
  {| w_db := s; w_open := w_open w; w_next := w_next w; w_now := w_now w;
     w_faults := w_faults w |}.

Definition tx_run (id : nat) (t0 : Z) {A} (st : Sql S A) : go world (res error A) := fun w =>
  let w1 := tick w in
  match fault_of w, w_open w id with
  | Some f, _ => (Ret (Err (fault_error f)), set_open id None w1)
  | None, None => (Ret (Err ErrTxDone), w1)
  | None, Some s =>
      match st t0 s with
      | Ok (a, s') => (Ret (Ok a), set_open id (Some s') w1)
      | Err e => (Ret (Err e), set_open id None w1)
      end
  end.

Definition tx_commit (id : nat) : go world (option error) := fun w =>
  let w1 := set_open id None (tick w) in
  match fault_of w, w_open w id with
  | Some f, _ => (Ret (Some (fault_error f)), w1)
  | None, None => (Ret (Some ErrTxDone), w1)
  | None, Some s => (Ret None, set_db s w1)
  end.

Definition tx_rollback (id : nat) : go world (option error) := fun w =>
  let w1 := set_open id None (tick w) in
  match fault_of w, w_open w id with
  | Some f, _ => (Ret (Some (fault_error f)), w1)
  | None, None => (Ret (Some ErrTxDone), w1)
  | None, Some _ => (Ret None, w1)
  end.

Definition mk_tx (id : nat) (t0 : Z) : Txer world (Sql S) :=
  {| tx_queryer := {| Run := fun A st => tx_run id t0 st |};
     Commit := tx_commit id; Rollback := tx_rollback id |}.

Definition begin_tx (_ : option sqlTxOptions) : go world (res error (Txer world (Sql S))) := fun w =>
  let w1 := tick w in
  match fault_of w with
  | Some f => (Ret (Err (fault_error f)), w1)
  | None =>
      let id := w_next w in
      let w2 := set_open id (Some (w_db w)) w1 in
      (Ret (Ok (mk_tx id (w_now w))),
       {| w_db := w_db w2; w_open := w_open w2; w_next := Datatypes.S id; w_now := w_now w2;
          w_faults := w_faults w2 |})
  end.

Definition conn_run {A} (st : Sql S A) : go world (res error A) := fun w =>
  let w1 := tick w in
  match fault_of w with
  | Some f => (Ret (Err (fault_error f)), w1)
  | None =>
      match st (w_now w) (w_db w) with
      | Ok (a, s') => (Ret (Ok a), set_db s' w1)
      | Err e => (Ret (Err e), w1)
      end
  end.

Definition model_btx : BeginTxer world (Sql S) := {| BeginTx := begin_tx |}.
Definition model_conn : Connection world (Sql S) :=
  {| conn_queryer := {| Run := fun A st => conn_run st |}; conn_beginTxer := model_btx |}.

(** The environment: no jitter, and a wait that lets time pass or is cut
    short by a fault of the script. *)
Definition model_env : Env world :=
  {| Int63n := fun _ => ret 0;
     SelectAfter := fun b w =>
       match fault_of w with
       | Some f => (Ret (Some (fault_error Canceled)), tick w)
       | None => (Ret None, tick w)
       end;
     LogRetry := fun _ _ => ret tt |}.

(** The state of a transaction value is read by running a probe on a copy of
    the world without faults; its start time likewise. *)
Definition probe_world (w : world) : world :=
  {| w_db := w_db w; w_open := w_open w; w_next := w_next w; w_now := w_now w; w_faults := [] |}.
Definition probe (tx : Txer world (Sql S)) (w : world) : option (Z * S) :=
  match Run (tx_queryer tx) (fun now s => Ok ((now, s), s)) (probe_world w) with
  | (Ret (Ok r), _) => Some r
  | _ => None
  end.
Definition all_open : world :=
  {| w_db := s0; w_open := fun _ => Some s0; w_next := 0%nat; w_now := 0; w_faults := [] |}.

Definition model_work (tx : Txer world (Sql S)) (w : world) : option S := snd <$> probe tx w.
Definition model_txclock (tx : Txer world (Sql S)) : Z := default 0 (fst <$> probe tx all_open).
Definition model_owned (tx : Txer world (Sql S)) : Prop := exists id t0, tx = mk_tx id t0.
Definition model_faulty (e : error) : Prop := (exists f, e = fault_error f) \/ e = ErrTxDone.

Lemma work_mk_tx id t0 w : model_work (mk_tx id t0) w = w_open w id.
Proof. unfold model_work, probe; simpl. unfold tx_run; simpl. by destruct (w_open w id). Qed.

Lemma txclock_mk_tx id t0 : model_txclock (mk_tx id t0) = t0.
Proof. reflexivity. Qed.

Lemma model_faulty_foreign e : model_faulty e ->
  Is (Some e) ErrNoRows = false /\ forall s, Is (Some e) (ConstError s) = false.
Proof. intros [[[] ->]| ->]; split; reflexivity. Qed.

Hint Resolve model_faulty_foreign : core.
Local Hint Extern 1 (model_faulty _) => (left; by eexists) || (by right) : core.

Ltac run_model w := unfold tx_run, tx_commit, tx_rollback, begin_tx, conn_run;
  destruct (fault_of w) as [f|] eqn:Ef.

#[export, refine] Instance model_TxLaws : TxLaws model_btx S := {|
  db := w_db; clock := w_now; work := model_work; txclock := model_txclock;
  owned := model_owned; faulty := model_faulty |}.
Proof.
  - auto.
  - intros opts w. simpl. run_model w; do 2 eexists; (split; [reflexivity|]); simpl;
      (split; [done|]); (split; [lia|]); [auto|].
    rewrite work_mk_tx, txclock_mk_tx. simpl. rewrite Nat.eqb_refl.
    split_and!; [by do 2 eexists|done|lia|lia].
  - intros tx w (id & t0 & ->). rewrite work_mk_tx. simpl.
    run_model w; [|destruct (w_open w id) eqn:Eo]; do 2 eexists;
      (split; [reflexivity|]); rewrite work_mk_tx; simpl; rewrite Nat.eqb_refl;
      split_and!; auto; lia.
  - intros tx w (id & t0 & ->). simpl.
    run_model w; [|destruct (w_open w id) eqn:Eo]; do 2 eexists;
      (split; [reflexivity|]); rewrite work_mk_tx; simpl; rewrite Nat.eqb_refl;
      split_and!; auto; lia.
Defined.

#[export] Instance model_EnvLaws : EnvLaws model_env model_btx.
Proof.
  split.
  - intros n w Hn. exists 0, w. split_and!; (done || lia).
  - intros a b w. exists w. split_and!; (done || apply Z.le_refl).
  - intros b w. simpl. destruct (fault_of w); do 2 eexists; (split; [reflexivity|]);
      split_and!; try done; try (unfold clock; simpl; lia). by left; exists Canceled.
Qed.

#[export] Instance model_SqlLaws : SqlLaws model_conn.
Proof.
  split.
  - intros A st w. simpl. run_model w.
    { do 2 eexists. split; [reflexivity|]. simpl. split_and!; auto; lia. }
    destruct (st (w_now w) (w_db w)) as [[a s']|e] eqn:Est; do 2 eexists;
      (split; [reflexivity|]); simpl; (split; [lia|]).
    + exists (w_now w). split; [lia|done].
    + split; [done|]. right. exists (w_now w). split; [lia|done].
  - intros tx A st w (id & t0 & ->). simpl. rewrite txclock_mk_tx, work_mk_tx.
    unfold tx_run. destruct (fault_of w) as [f|] eqn:Ef; [|destruct (w_open w id) as [s|] eqn:Eo;
      [destruct (st t0 s) as [[a s']|e] eqn:Est|]]; do 2 eexists; (split; [reflexivity|]);
      rewrite work_mk_tx; simpl; rewrite ?Nat.eqb_refl; split_and!; auto; try lia.
    + by exists s, s'.
    + right. by exists s.
Qed.
End Model.
Arguments world : clear implicits.

(** ** Witnesses of the theorems of Pgdb *)

Definition no_ctx {W Stmt} : Ctx W Stmt := {| ctxTx := None; ctxTxOpts := None |}.

(** Add [n] to the state, an integer. *)
Definition add_stmt (n : Z) : Sql Z Z := fun _ s => Ok (s, s + n).

Definition ex_fn (_ : Ctx (world Z) (Sql Z)) (tx : Txer (world Z) (Sql Z)) :
    go (world Z) (res error Z) := Run (tx_queryer tx) (add_stmt 5).

(** A database whose second and fifth calls meet a deadlock. *)
Definition ex_world : world Z :=
  {| w_db := 1; w_open := fun _ => None; w_next := 0%nat; w_now := 0;
     w_faults := [None; Some Deadlock] |}.

Definition ex_retry : option TxOptions :=
  Some {| SqlTxOptions := zeroTxOptions; RetryDeadlock := true |}.

Definition ex_result : outcome (res error Z) * world Z :=
  Tx model_env no_ctx model_btx ex_retry ex_fn ex_world.

Lemma ex_result_run :
  Tx model_env no_ctx model_btx ex_retry ex_fn ex_world = (fst ex_result, snd ex_result).
Proof. unfold ex_result. apply surjective_pairing. Qed.

Example Tx_atomic_witness :
  fst ex_result = Ret (Ok 1) /\ w_db (snd ex_result) = 6 /\
  tx_only (TL := model_TxLaws 0) model_btx no_ctx ex_fn /\
  atomic (TL := model_TxLaws 0) model_btx no_ctx ex_fn
    (w_db ex_world) (w_now ex_world) (fst ex_result) (snd ex_result).
Proof.
  assert (tx_only (TL := model_TxLaws 0) model_btx no_ctx ex_fn) as Hfn.
  { intros tx w o w' (id & t0 & ->) E. unfold ex_fn in E. simpl in E. unfold tx_run in E.
    destruct (fault_of w); [by injection E as <- <-; simpl; split; [|lia]|].
    destruct (w_open w id); by injection E as <- <-; simpl; split; [|lia]. }
  split; [vm_compute; reflexivity|]. split; [vm_compute; reflexivity|]. split; [exact Hfn|].
  apply (Tx_atomic model_btx (TL := model_TxLaws 0) model_env (EL := model_EnvLaws 0) no_ctx ex_fn
    ex_retry ex_world (fst ex_result) (snd ex_result) Hfn ex_result_run).
Defined.

(** The deadlock of the first attempt is retried: two attempts. *)
Example Tx_attempts_witness :
  Tx model_env no_ctx model_btx ex_retry ex_fn ex_world = (fst ex_result, snd ex_result) /\
  (let retry := txRetry (txOpts (no_ctx (W := world Z) (Stmt := Sql Z)) ex_retry) in
   let sqlOpts := txSqlOpts (txOpts (no_ctx (W := world Z) (Stmt := Sql Z)) ex_retry) in
   exists n d, (1 <= n <= Z.to_nat maxAttempts)%nat /\
    attempts model_env model_btx no_ctx ex_fn sqlOpts retry 1 n ex_world
      (fst ex_result) (snd ex_result) d /\
    (forall n2 o2 w2 d2,
       attempts model_env model_btx no_ctx ex_fn sqlOpts retry 1 n2 ex_world o2 w2 d2 ->
       n2 = n /\ o2 = fst ex_result /\ w2 = snd ex_result /\ d2 = d) /\
    (retry = false -> n = 1%nat /\
       doTx no_ctx model_btx sqlOpts ex_fn ex_world = (fst ex_result, snd ex_result)) /\
    (forall e, fst ex_result = Ret (Err e) -> d = LastAttempt -> retry = true ->
       isDeadlock (Some e) = true -> Z.of_nat n = maxAttempts)).
Proof.
  split; [exact ex_result_run|].
  exact (Tx_attempts model_env model_btx no_ctx ex_retry ex_fn ex_world
    (fst ex_result) (snd ex_result) ex_result_run).
Defined.

Definition ex_attempt : outcome (res error Z) * world Z :=
  doTx no_ctx model_btx None ex_fn ex_world.
Definition ex_error : error := JoinError [fault_error Deadlock; ErrTxDone].

Lemma ex_attempt_run :
  doTx no_ctx model_btx None ex_fn ex_world = (Ret (Err ex_error), snd ex_attempt).
Proof.
  assert (fst ex_attempt = Ret (Err ex_error)) as <- by (vm_compute; reflexivity).
  unfold ex_attempt. apply surjective_pairing.
Qed.

Example doTx_error_witness :
  doTx no_ctx model_btx None ex_fn ex_world = (Ret (Err ex_error), snd ex_attempt) /\
  ((exists w1, BeginTx model_btx None ex_world = (Ret (Err ex_error), w1)) \/
   (exists tx w1, BeginTx model_btx None ex_world = (Ret (Ok tx), w1) /\
     ((exists a w2 w3, ex_fn (setCtxTx no_ctx tx) tx w1 = (Ret (Ok a), w2) /\
         Commit tx w2 = (Ret (Some ex_error), w3)) \/
      (exists e w2 rb w3, ex_fn (setCtxTx no_ctx tx) tx w1 = (Ret (Err e), w2) /\
         Rollback tx w2 = (Ret rb, w3) /\ ex_error = joined e rb /\ kept e ex_error /\
         AsProtocolError (Some ex_error) = protocol_of e rb /\
         (forall pe, AsProtocolError (Some e) = Some pe ->
            (forall r, AsType as_pgx e = None -> rb = Some r -> AsType as_pgx r = None) ->
            AsProtocolError (Some ex_error) = Some pe))))).
Proof.
  split; [exact ex_attempt_run|].
  exact (doTx_error model_btx no_ctx None ex_fn ex_world ex_error (snd ex_attempt) ex_attempt_run).
Defined.
