(* ===== verification/Clients.v ===== *)
(** * Clients: programs on a database with concurrent transactions

    The laws of a driver in Pgdb and Sql describe one transaction at a time.
    Here a program is a client of a server that other clients use at the same
    time.  A client is a definition of the library itself, run on a driver that
    replays the answers it has got so far and stops at the next request.  The
    server keeps the committed rows and what each open transaction has written,
    with the row locks, the advisory locks, the statement snapshots of READ
    COMMITTED and the transaction snapshots and conflicts of REPEATABLE READ and
    SERIALIZABLE.  The last part gives a client that is built from the monad's
    operations as the tree of its requests, on which its behaviour is read by
    structural recursion. *)

From Stdlib Require Import ZArith String Lia.
From stdpp Require Import fin_maps relations.
From S2P Require Import Prelude Errors Pgdb Sql PgModel.

(** ** A client *)

Section Replay.
Context {S : Type}.

(** What a client asks of the server; a statement is what it does to the state,
    or [None] when it is an error of the server. *)
Inductive request :=
| RBegin
| RStmt (f : Z -> S -> option S)
| RLock (id : Z)
| RCommit
| RRollback.

(** What the server answers: a statement ran at a time and in a state, from which
    the client's side computes its result. *)
Inductive answer :=
| ADone
| ARan (now : Z) (s : S)
| AFail (e : error).

(** The world of a client: the answers it has not consumed yet, and what it asks
    when there is none left. *)
Record replay := { rp_answers : list answer; rp_asked : option request }.

Definition mk (l : list answer) : replay := {| rp_answers := l; rp_asked := None |}.
Definition stopped : string := "waits for the server".
Definition ask (q : request) : go replay answer := fun w =>
  match rp_asked w, rp_answers w with
  | Some _, _ => (Panicked stopped, w)
  | None, [] => (Panicked stopped, {| rp_answers := []; rp_asked := Some q |})
  | None, x :: l => (Ret x, mk l)
  end.

(** The request of a statement, and its result from the answer. *)
Definition request_of {A} (st : Sql S A) : request :=
  RStmt (fun now s => match st now s with Ok (_, s') => Some s' | Err _ => None end).
Definition replay_run {A} (st : Sql S A) : go replay (res error A) :=
  bind (ask (request_of st)) (fun x =>
    match x with
    | ARan now s => ret (match st now s with Ok (a, _) => Ok a | Err e => Err e end)
    | AFail e => ret (Err e)
    | ADone => panic "not an answer to a statement"
    end).

(** A driver whose transactions submit a statement with [run]. *)
Context {Stmt : Type -> Type} (run : forall A, Stmt A -> go replay (res error A)).

Definition replay_end (q : request) : go replay (option error) :=
  bind (ask q) (fun x => match x with
    | ADone => ret None
    | AFail e => ret (Some e)
    | ARan _ _ => panic "not an answer to the end of a transaction"
    end).
Definition replay_tx : Txer replay Stmt :=
  {| tx_queryer := {| Run := run |};
     Commit := replay_end RCommit; Rollback := replay_end RRollback |}.
Definition replay_btx : BeginTxer replay Stmt :=
  {| BeginTx := fun _ => bind (ask RBegin) (fun x => match x with
       | ADone => ret (Ok replay_tx)
       | AFail e => ret (Err e)
       | ARan _ _ => panic "not an answer to the beginning of a transaction"
       end) |}.
Definition replay_conn : Connection replay Stmt :=
  {| conn_queryer := {| Run := fun A _ => panic "not in a transaction" |};
     conn_beginTxer := replay_btx |}.

(** Without RetryDeadlock in the context there is neither a wait nor a retry. *)
Definition replay_env : Env replay :=
  {| Int63n := fun _ => ret 0; LogRetry := fun _ _ => ret tt; SelectAfter := fun _ => ret None |}.
Definition replay_ctx : Ctx replay Stmt := {| ctxTx := None; ctxTxOpts := None |}.

(** What a client does next. *)
Inductive next (A : Type) := Asks (q : request) | Finished (r : A) | Stuck.
Arguments Asks {A} q.
Arguments Finished {A} r.
Arguments Stuck {A}.

Definition next_of {A} (x : outcome A * replay) : next A :=
  match x with
  | (Ret r, _) => Finished r
  | (Panicked _, w) => match rp_asked w with Some q => Asks q | None => Stuck end
  end.
End Replay.
Arguments request : clear implicits.
Arguments answer : clear implicits.
Arguments replay : clear implicits.
Arguments next : clear implicits.
Arguments Asks {S A} q.
Arguments Finished {S A} r.
Arguments Stuck {S A}.

(** ** The server *)

(** The rows that a transaction wrote: [Some None] is a row it deleted. *)
Notation writes_of K V := (gmap K (option V)).

Section Server.
Context {K V : Type} `{Countable K} `{!EqDecision V}.
Local Notation state := (gmap K V).
Local Notation writes := (writes_of K V).

Definition overlay (ws : writes) (tbl : state) : state :=
  merge (fun w b => match w with Some o => o | None => b end) ws tbl.
Definition changes (tbl tbl' : state) : writes :=
  merge (fun a b => if decide (a = b) then None else Some b) tbl tbl'.

Lemma overlay_lookup ws tbl k : overlay ws tbl !! k = match ws !! k with Some o => o | None => tbl !! k end.
Proof. unfold overlay. rewrite lookup_merge. by destruct (ws !! k), (tbl !! k). Qed.

Lemma changes_lookup tbl tbl' k : changes tbl tbl' !! k = if decide (tbl !! k = tbl' !! k) then None else Some (tbl' !! k).
Proof.
  unfold changes. rewrite lookup_merge. destruct (tbl !! k) as [r|], (tbl' !! k) as [r'|]; simpl; try done.
  all: repeat destruct (decide _); congruence.
Qed.

Lemma overlay_empty tbl : overlay ∅ tbl = tbl.
Proof. apply map_eq. intros i. by rewrite overlay_lookup, lookup_empty. Qed.

Lemma changes_same tbl : changes tbl tbl = ∅.
Proof. apply map_eq. intros i. rewrite changes_lookup, decide_True by done. by rewrite lookup_empty. Qed.

(** The writes of a statement, over those of the transaction so far. *)
Lemma overlay_changes ws tbl tbl' : overlay (changes (overlay ws tbl) tbl' ∪ ws) tbl = tbl'.
Proof.
  apply map_eq. intros i. rewrite overlay_lookup.
  destruct (decide (overlay ws tbl !! i = tbl' !! i)) as [E|E].
  - rewrite lookup_union_r by (by rewrite changes_lookup, decide_True). by rewrite <- E, overlay_lookup.
  - by rewrite (lookup_union_Some_l _ _ i (tbl' !! i)) by (by rewrite changes_lookup, decide_False).
Qed.

(** An open transaction: now() is its start; [x_snapshot] is the state that its
    statements read, from the first one on, when the level has one; [x_locks]
    are the advisory locks it holds. *)
Record txn := { x_start : Z; x_snapshot : option state; x_writes : writes; x_locks : list Z }.
Record server := { committed : state; time : Z; open_txs : gmap nat txn }.

Definition set_tx (i : nat) (o : option txn) (s : server) : server :=
  {| committed := committed s; time := time s; open_txs := partial_alter (fun _ => o) i (open_txs s) |}.

Definition begun_at (t : Z) : txn := {| x_start := t; x_snapshot := None; x_writes := ∅; x_locks := [] |}.

(** What a statement of the transaction [x] reads. *)
Definition base (snapshots : bool) (x : txn) (s : server) : state :=
  if snapshots then default (committed s) (x_snapshot x) else committed s.

Definition serialization_failure : error :=
  server_error EmptyString "40001" EmptyString.

(** The answers of the server to the client [i].  A statement waits while it would
    write a row that another open transaction wrote; with snapshots it fails if
    such a row was changed since the snapshot.  An advisory lock waits while
    another open transaction holds it; it is a statement of its own, so that with
    snapshots a transaction that waits for it keeps the state of before, and the
    clients that use one here run without.  A fault, at any time, ends the
    transaction, and so does a commit whose answer is lost; the end of a
    transaction that has ended is a fault (sql.ErrTxDone). *)
Inductive served (snapshots : bool) (i : nat) : request state -> server -> answer state -> server -> Prop :=
| served_begin s : open_txs s !! i = None ->
    served snapshots i RBegin s ADone (set_tx i (Some (begun_at (time s))) s)
| served_stmt f s x v v' : open_txs s !! i = Some x ->
    v = overlay (x_writes x) (base snapshots x s) -> f (x_start x) v = Some v' ->
    (forall j y k, j <> i -> open_txs s !! j = Some y -> is_Some (x_writes y !! k) -> changes v v' !! k = None) ->
    (snapshots = true -> forall k, is_Some (changes v v' !! k) -> x_writes x !! k = None ->
       committed s !! k = base snapshots x s !! k) ->
    served snapshots i (RStmt f) s (ARan (x_start x) v)
      (set_tx i (Some {| x_start := x_start x; x_snapshot := Some (base snapshots x s);
                         x_writes := changes v v' ∪ x_writes x; x_locks := x_locks x |}) s)
| served_conflict f s x v v' k : open_txs s !! i = Some x -> snapshots = true ->
    v = overlay (x_writes x) (base snapshots x s) -> f (x_start x) v = Some v' ->
    is_Some (changes v v' !! k) -> x_writes x !! k = None -> committed s !! k <> base snapshots x s !! k ->
    served snapshots i (RStmt f) s (AFail serialization_failure) (set_tx i None s)
| served_refused f s x v : open_txs s !! i = Some x ->
    v = overlay (x_writes x) (base snapshots x s) -> f (x_start x) v = None ->
    served snapshots i (RStmt f) s (ARan (x_start x) v) (set_tx i None s)
| served_lock id s x : snapshots = false -> open_txs s !! i = Some x ->
    (forall j y, j <> i -> open_txs s !! j = Some y -> id ∉ x_locks y) ->
    served snapshots i (RLock id) s ADone
      (set_tx i (Some {| x_start := x_start x; x_snapshot := x_snapshot x;
                         x_writes := x_writes x; x_locks := id :: x_locks x |}) s)
| served_commit s x x' : open_txs s !! i = Some x -> x' = ADone \/ (exists e, x' = AFail e) ->
    served snapshots i RCommit s x'
      (set_tx i None {| committed := overlay (x_writes x) (committed s); time := time s; open_txs := open_txs s |})
| served_rollback s : is_Some (open_txs s !! i) -> served snapshots i RRollback s ADone (set_tx i None s)
| served_fault q s e : served snapshots i q s (AFail e) (set_tx i None s).
End Server.
Arguments txn K V {_ _}.
Arguments server K V {_ _}.

Definition upd {A} (i : nat) (x : A) (f : nat -> A) : nat -> A := fun j => if decide (j = i) then x else f j.

(** A server and its clients, each with the answers it got. *)
Record system K V `{Countable K} := { srv : server K V; clients : nat -> list (answer (gmap K V)) }.
Arguments srv {K V _ _} s : rename.
Arguments clients {K V _ _} s _ : rename.
Definition start_at {K V} `{Countable K} (tbl : gmap K V) (now : Z) : system K V :=
  {| srv := {| committed := tbl; time := now; open_txs := ∅ |}; clients := fun _ => [] |}.

(** ** A client as the tree of its requests *)

Section Trees.
Context {S : Type}.
Local Notation replay := (replay S).
Local Notation request := (request S).
Local Notation answer := (answer S).

Inductive tree (A : Type) : Type :=
| Leaf (o : outcome A)
| Node (q : request) (k : answer -> tree A).
Arguments Leaf {A} o.
Arguments Node {A} q k.

Fixpoint run_tree {A} (t : tree A) (l : list answer) : outcome A * replay :=
  match t, l with
  | Leaf o, _ => (o, mk l)
  | Node q k, [] => (Panicked stopped, {| rp_answers := []; rp_asked := Some q |})
  | Node q k, x :: l => run_tree (k x) l
  end.

(** The computation [m] is the tree [t]. *)
Definition reflects {A} (m : go replay A) (t : tree A) : Prop := forall l, m (mk l) = run_tree t l.

Fixpoint tree_then {A B} (t : tree A) (k : outcome A -> tree B) : tree B :=
  match t with
  | Leaf o => k o
  | Node q f => Node q (fun x => tree_then (f x) k)
  end.
Definition tree_bind {A B} (t : tree A) (k : A -> tree B) : tree B :=
  tree_then t (fun o => match o with Ret a => k a | Panicked v => Leaf (Panicked v) end).
Definition tree_defer {A} (d : tree unit) (t : tree A) : tree A :=
  tree_then t (fun o => tree_then d (fun o' => match o' with
    | Ret _ => Leaf o
    | Panicked v => Leaf (Panicked v)
    end)).

(** A run stops with a request, or leaves the answers it did not need. *)
Lemma run_tree_world {A} (t : tree A) l :
  (exists o l', run_tree t l = (o, mk l')) \/
  (exists q, run_tree t l = (Panicked stopped, {| rp_answers := []; rp_asked := Some q |})).
Proof.
  revert l. induction t as [o|q k IH]; intros l; simpl; [eauto|].
  destruct l as [|x l]; [eauto|apply IH].
Qed.

Lemma run_tree_then {A B} (t : tree A) (k : outcome A -> tree B) l :
  run_tree (tree_then t k) l =
  match run_tree t l with
  | (o, w) => match rp_asked w with Some _ => (Panicked stopped, w) | None => run_tree (k o) (rp_answers w) end
  end.
Proof.
  revert l. induction t as [o|q f IH]; intros l; simpl; [done|].
  destruct l as [|x l]; [done|apply IH].
Qed.

Lemma reflects_ext {A} (m m' : go replay A) t : (forall w, m w = m' w) -> reflects m t -> reflects m' t.
Proof. intros E H l. by rewrite <- E. Qed.

Lemma reflects_ret {A} (a : A) : reflects (ret a) (Leaf (Ret a)).
Proof. done. Qed.

Lemma reflects_bind {A B} (m : go replay A) (k : A -> go replay B) t f :
  reflects m t -> (forall a, reflects (k a) (f a)) -> reflects (bind m k) (tree_bind t f).
Proof.
  intros Hm Hk l. unfold bind, tree_bind. rewrite Hm, run_tree_then.
  destruct (run_tree_world t l) as [(o & l' & ->)|[q ->]]; simpl; [|done].
  destruct o as [a|v]; [apply Hk|done].
Qed.

Lemma reflects_defer {A} (d : go replay unit) (m : go replay A) td t :
  reflects d td -> (forall w, rp_asked w <> None -> d w = (Panicked stopped, w)) -> reflects m t ->
  reflects (defer d m) (tree_defer td t).
Proof.
  intros Hd Hstall Hm l. unfold defer, tree_defer. rewrite Hm, run_tree_then.
  destruct (run_tree_world t l) as [(o & l' & ->)|[q ->]]; simpl; [|by rewrite Hstall].
  rewrite Hd, run_tree_then.
  by destruct (run_tree_world td l') as [([[]|v] & l2 & ->)|[q ->]].
Qed.

Lemma reflects_ask {A} (q : request) (k : answer -> go replay A) f :
  (forall x, reflects (k x) (f x)) -> reflects (bind (ask q) k) (Node q f).
Proof. intros Hk [|x l]; [done|]. apply (Hk x l). Qed.

(** The rest of a tree after some answers, and what it does next. *)
Definition tree_step {A} (t : tree A) (x : answer) : tree A :=
  match t with Leaf o => Leaf o | Node q k => k x end.
Definition walk {A} (t : tree A) (l : list answer) : tree A := foldl tree_step t l.
Definition next_tree {A} (t : tree A) : next S A :=
  match t with
  | Leaf (Ret r) => Finished r
  | Leaf (Panicked _) => Stuck
  | Node q _ => Asks q
  end.

Lemma next_walk {A} (m : go replay A) t l : reflects m t -> next_of (m (mk l)) = next_tree (walk t l).
Proof.
  intros ->. revert t. induction l as [|x l IH]; intros [[a|v]|q k]; try done;
    [apply (IH (Leaf (Ret a)))|apply (IH (Leaf (Panicked v)))|apply (IH (k x))].
Qed.

Lemma walk_snoc {A} (t : tree A) l x : walk t (l ++ [x]) = tree_step (walk t l) x.
Proof. unfold walk. by rewrite foldl_app. Qed.

(** ** A script of statements *)

(** The run of a tree in a transaction of its own that starts at [now] in the
    state [s], when every statement succeeds. *)
Fixpoint exec {A} (now : Z) (t : tree A) (s : S) : option (outcome A * S) :=
  match t with
  | Leaf o => Some (o, s)
  | Node (RStmt f) k =>
      match f now s with Some s' => exec now (k (ARan now s)) s' | None => None end
  | Node _ _ => None
  end.

(** A tree that runs statements, and returns whatever the server answers. *)
Fixpoint statements {A} (t : tree A) : Prop :=
  match t with
  | Leaf (Ret _) => True
  | Leaf (Panicked _) => False
  | Node (RStmt _) k => (forall now s, statements (k (ARan now s))) /\ (forall e, statements (k (AFail e)))
  | Node _ _ => False
  end.

Lemma exec_bind {A B} now (t : tree A) (k : A -> tree B) s :
  exec now (tree_bind t k) s =
  match exec now t s with
  | Some (Ret a, s') => exec now (k a) s'
  | Some (Panicked v, s') => Some (Panicked v, s')
  | None => None
  end.
Proof.
  unfold tree_bind. revert s. induction t as [[a|v]|q f IH]; intros s; simpl; [done..|].
  destruct q; try done. destruct (_ now s); [apply IH|done].
Qed.

Lemma statements_bind {A B} (t : tree A) (k : A -> tree B) :
  statements t -> (forall a, statements (k a)) -> statements (tree_bind t k).
Proof.
  unfold tree_bind. intros Ht Hk. induction t as [[a|v]|q f IH]; simpl in *; [done..|].
  destruct q; try done. destruct Ht as [H1 H2]. split; intros; by apply IH.
Qed.

(** [m] is a script of statements that computes [p] when it succeeds. *)
Record script {A} (p : Sql S A) (m : go replay (res error A)) : Type := {
  sc_tree : tree (res error A);
  sc_reflects : reflects m sc_tree;
  sc_statements : statements sc_tree;
  sc_exec : forall now s a s', exec now sc_tree s = Some (Ret (Ok a), s') -> p now s = Ok (a, s');
}.

Lemma script_ext {A} (p : Sql S A) m m' : (forall w, m w = m' w) -> script p m -> script p m'.
Proof. intros E [t H1 H2 H3]. exists t; [by apply (reflects_ext m)|done..]. Qed.

Lemma script_ret {A} (r : res error A) : script (done_ r) (ret r).
Proof. exists (Leaf (Ret r)); [done..|]. by intros now s a s' [= -> ->]. Qed.

(** A statement whose result is [g] of the answer's. *)
Lemma script_run {A B} (st : Sql S A) (g : res error A -> res error B) (p : Sql S B) :
  (forall now s a s' b, st now s = Ok (a, s') -> g (Ok a) = Ok b -> p now s = Ok (b, s')) ->
  script p (bind (replay_run st) (fun r => ret (g r))).
Proof.
  intros Hp. exists (Node (request_of st) (fun x => match x with
    | ARan now s => Leaf (Ret (g (match st now s with Ok (a, _) => Ok a | Err e => Err e end)))
    | AFail e => Leaf (Ret (g (Err e)))
    | ADone => Leaf (Panicked "not an answer to a statement")
    end)).
  - apply (reflects_ext (bind (ask (request_of st)) (fun x => bind (match x with
      | ARan now s => ret (match st now s with Ok (a, _) => Ok a | Err e => Err e end)
      | AFail e => ret (Err e)
      | ADone => panic "not an answer to a statement"
      end) (fun r => ret (g r))))); [intros w; unfold replay_run; by rewrite bind_assoc|].
    apply reflects_ask. by intros [| |].
  - done.
  - intros now s b s' H. simpl in H. destruct (st now s) as [[a s1]|e] eqn:E; [|done].
    injection H as Hg ->. by apply (Hp now s a s').
Qed.

(** A script whose error is replaced, and whose result is passed on. *)
Lemma script_case {A B} (f : error -> error) (p : Sql S A) (q : A -> Sql S B) m k :
  script p m -> (forall e, k (Err e) = ret (Err (f e))) -> (forall a, script (q a) (k (Ok a))) ->
  script (scase f p q) (bind m k).
Proof.
  intros [t H1 H2 H3] Hke Hk.
  set (kt := fun r => match r with Ok a => sc_tree _ _ (Hk a) | Err e => Leaf (Ret (Err (f e))) end).
  exists (tree_bind t kt).
  - apply reflects_bind; [done|]. intros [a|e]; simpl; [apply sc_reflects|]. by rewrite Hke.
  - apply statements_bind; [done|]. intros [a|e]; simpl; [apply sc_statements|done].
  - intros now s b s' H. rewrite exec_bind in H. unfold scase.
    destruct (exec now t s) as [[[[a|e]|v] s1]|] eqn:E; try done.
    rewrite (H3 _ _ _ _ E). by apply (sc_exec _ _ (Hk a)).
Qed.

Lemma script_bindE {A B} (p : Sql S A) (q : A -> Sql S B) m k :
  script p m -> (forall a, script (q a) (k a)) -> script (sbind p q) (bindE m k).
Proof. intros Hm Hk. by apply (script_case (fun e => e) p q m). Qed.
End Trees.
Arguments tree S A : clear implicits.
Arguments Leaf {S A} o.
Arguments Node {S A} q k.
