(* ===== verification/Exclusive.v ===== *)
(** * Exclusive: transactions under one advisory lock

    Clients of a server at READ COMMITTED, each a transaction of Pgdb that first
    takes the same advisory lock and then runs a script of statements.  Whatever
    the interleaving and the faults, the committed state is that of the scripts
    run one after the other; and every client can always go on to its end. *)

From Stdlib Require Import ZArith String Lia.
From stdpp Require Import fin_maps relations.
From S2P Require Import Prelude Errors Pgdb Sql Clients.

(** ** The tree of a transaction *)

Section Transaction.
Context {S A : Type} {Stmt : Type -> Type} (run : forall B, Stmt B -> go (replay S) (res error B)).
Local Notation tree := (tree S).

Definition end_of (q : request S) : tree (option error) :=
  Node q (fun x => match x with
    | ADone => Leaf (Ret None)
    | AFail e => Leaf (Ret (Some e))
    | ARan _ _ => Leaf (Panicked "not an answer to the end of a transaction")
    end).
Definition deferred : tree unit := tree_bind (end_of RRollback) (fun _ => Leaf (Ret tt)).
Definition ended (r : res error A) : tree (res error A) :=
  match r with
  | Err err => tree_bind (end_of RRollback) (fun rberr => Leaf (Ret (Err (joined err rberr))))
  | Ok a => tree_bind (end_of RCommit) (fun err => Leaf (Ret (nil_or err a)))
  end.
(** The rest of a transaction whose function is [t], and that of one which is over. *)
Definition in_tx (t : tree (res error A)) : tree (res error A) := tree_defer deferred (tree_bind t ended).
Definition over (r : res error A) : tree (res error A) := tree_defer deferred (Leaf (Ret r)).
Definition tx_tree (t : tree (res error A)) : tree (res error A) :=
  Node RBegin (fun x => match x with
    | ADone => in_tx t
    | AFail e => Leaf (Ret (Err e))
    | ARan _ _ => Leaf (Panicked "not an answer to the beginning of a transaction")
    end).

Lemma reflects_end q : reflects (replay_end q) (end_of q).
Proof. apply reflects_ask. by intros [| |]. Qed.

Lemma reflects_Tx fn t :
  reflects (fn (setCtxTx replay_ctx (replay_tx run)) (replay_tx run)) t ->
  reflects (Tx replay_env replay_ctx (replay_btx run) None fn) (tx_tree t).
Proof.
  intros Hfn. apply (reflects_ext (doTx replay_ctx (replay_btx run) None fn)).
  { intros w. unfold Tx. cbn [ctxTxOpts replay_ctx tx_loop txOpts txSqlOpts txRetry andb]. unfold bind at 1.
    by destruct (doTx _ _ _ _ w) as [[[a|e]|v] w']. }
  apply (reflects_ext (bind (ask RBegin) (fun x => match x with
    | ADone => defer (bind (replay_end RRollback) (fun _ => ret tt))
        (bind (fn (setCtxTx replay_ctx (replay_tx run)) (replay_tx run)) (fun r => match r with
          | Err err => bind (replay_end RRollback) (fun rberr => ret (Err (joined err rberr)))
          | Ok a => bind (replay_end RCommit) (fun err => ret (nil_or err a))
          end))
    | AFail e => ret (Err e)
    | ARan _ _ => panic "not an answer to the beginning of a transaction"
    end))).
  { intros w. unfold doTx. simpl. rewrite bind_assoc. apply bind_ext. by intros [| |] w'. }
  apply reflects_ask. intros [|now s|e]; [|done..].
  apply reflects_defer.
  - apply reflects_bind; [apply reflects_end|done].
  - intros [l [q|]] Hq; [done|by destruct Hq].
  - apply reflects_bind; [done|]. intros [a|e]; (apply reflects_bind; [apply reflects_end|done]).
Qed.
End Transaction.

(** ** Clients that take a lock first *)

Section Exclusive.
Context {K V : Type} `{Countable K} `{!EqDecision V} {A : Type}.
Local Notation S := (gmap K V).
Local Notation tree := (tree S (res error A)).
Local Notation txn := (txn K V).
Local Notation system := (system K V).
Context (id : Z).

(** The lock, then [t]. *)
Definition locked (t : tree) : tree :=
  Node (RLock id) (fun x => match x with
    | ADone => t
    | AFail e => Leaf (Ret (Err e))
    | ARan _ _ => Leaf (Panicked "not an answer to a lock")
    end).

(** A script of statements that computes [p] when it succeeds. *)
Definition sound (p : Sql S A) (t : tree) : Prop :=
  statements t /\ forall now s a s', exec now t s = Some (Ret (Ok a), s') -> p now s = Ok (a, s').

(** A client: it fails before it reaches the server, or it is the transaction of a
    locked script. *)
Inductive client_tree (p : Sql S A) : tree -> Prop :=
| client_failed e : client_tree p (Leaf (Ret (Err e)))
| client_locked t : sound p t -> client_tree p (tx_tree (locked t)).

Context (client : nat -> list (answer S) -> next S (res error A)) (p : nat -> Sql S A).

(** From here on the client does what [t] says. *)
Definition follows (i : nat) (l : list (answer S)) (t : tree) : Prop :=
  forall l', client i (l ++ l') = next_tree (walk t l').

Lemma follows_snoc i l t x : follows i l t -> follows i (l ++ [x]) (tree_step t x).
Proof. intros Hf l'. rewrite <- app_assoc. apply (Hf (x :: l')). Qed.

Lemma follows_next i l t : follows i l t -> client i l = next_tree t.
Proof. intros Hf. rewrite <- (app_nil_r l). apply (Hf []). Qed.

(** One answer to a client, or the passing of time. *)
Inductive sys_step : system -> system -> Prop :=
| step_client s i q x sv : client i (clients s i) = Asks q -> served false i q (srv s) x sv ->
    sys_step s {| srv := sv; clients := upd i (clients s i ++ [x]) (clients s) |}
| step_time s d : 0 <= d ->
    sys_step s {| srv := {| committed := committed (srv s); time := time (srv s) + d;
      open_txs := open_txs (srv s) |}; clients := clients s |}.

(** The server without faults as a function, [None] when the client has to wait, and
    the run of the clients in a given order. *)
Definition serve (i : nat) (q : request S) (s : server K V) : option (answer S * server K V) :=
  match q, open_txs s !! i with
  | RBegin, None => Some (ADone, set_tx i (Some (begun_at (time s))) s)
  | RStmt f, Some x =>
      let v := overlay (x_writes x) (committed s) in
      match f (x_start x) v with
      | None => Some (ARan (x_start x) v, set_tx i None s)
      | Some v' =>
          if decide (map_Forall (fun j y => j = i \/ map_Forall (fun k _ => changes v v' !! k = None) (x_writes y))
              (open_txs s))
          then Some (ARan (x_start x) v,
            set_tx i (Some {| x_start := x_start x; x_snapshot := Some (committed s);
                              x_writes := changes v v' ∪ x_writes x; x_locks := x_locks x |}) s)
          else None
      end
  | RLock n, Some x =>
      if decide (map_Forall (fun j y => j = i \/ n ∉ x_locks y) (open_txs s))
      then Some (ADone, set_tx i (Some {| x_start := x_start x; x_snapshot := x_snapshot x;
                                          x_writes := x_writes x; x_locks := n :: x_locks x |}) s)
      else None
  | RCommit, Some x =>
      Some (ADone, set_tx i None
        {| committed := overlay (x_writes x) (committed s); time := time s; open_txs := open_txs s |})
  | RRollback, Some x => Some (ADone, set_tx i None s)
  | _, _ => Some (AFail (Sentinel "sql: transaction has already been committed or rolled back"), set_tx i None s)
  end.

Lemma serve_served i q s x sv : serve i q s = Some (x, sv) -> served false i q s x sv.
Proof.
  destruct q as [|f|n| |]; simpl; destruct (open_txs s !! i) as [y|] eqn:Ey; try (intros [= <- <-]);
    try apply served_fault; try by constructor.
  - destruct (f (x_start y) _) as [v'|] eqn:Ef; [|intros [= <- <-]; by eapply served_refused].
    destruct (decide _) as [Hfree|]; [|done]. intros [= <- <-]. apply (served_stmt false i f s y _ v' Ey eq_refl Ef); [|done].
    intros j z k Hne Hz [o Ho]. destruct (Hfree j z Hz) as [->|Hk]; [done|]. by apply (Hk k o).
  - destruct (decide _) as [Hfree|]; [|done]. intros [= <- <-]. apply served_lock; [done..|].
    intros j z Hne Hz. by destruct (Hfree j z Hz).
  - apply served_commit; [done|by left].
Qed.

Fixpoint schedule (l : list nat) (s : system) : option system :=
  match l with
  | [] => Some s
  | i :: l =>
      match client i (clients s i) with
      | Asks q =>
          match serve i q (srv s) with
          | Some (x, sv) => schedule l {| srv := sv; clients := upd i (clients s i ++ [x]) (clients s) |}
          | None => None
          end
      | _ => None
      end
  end.

Lemma schedule_steps l s s' : schedule l s = Some s' -> rtc sys_step s s'.
Proof.
  revert s. induction l as [|i l IH]; intros s E; simpl in E; [by injection E as ->|].
  destruct (client i (clients s i)) as [q| |] eqn:Eq; try done.
  destruct (serve i q (srv s)) as [[x sv]|] eqn:Es; [|done].
  eapply rtc_l; [by eapply step_client, serve_served|by apply IH].
Qed.

(** The scripts of the clients in [h], each run alone, one after the other. *)
Fixpoint serial (h : list (nat * Z)) (c : S) : option S :=
  match h with
  | [] => Some c
  | (i, t) :: h => match p i t c with Ok (_, c') => serial h c' | Err _ => None end
  end.

Lemma serial_snoc h i t c :
  serial (h ++ [(i, t)]) c =
  match serial h c with
  | Some c' => match p i t c' with Ok (_, c2) => Some c2 | Err _ => None end
  | None => None
  end.
Proof.
  revert c. induction h as [|[j u] h IH]; intros c; simpl; [by destruct (p i t c) as [[? ?]|]|].
  destruct (p j u c) as [[? c']|]; [apply IH|done].
Qed.

(** What the client [i] is doing when [c] is committed and [h] is the history. *)
Inductive phase (i : nat) (c : S) (h : list (nat * Z)) : tree -> option txn -> Prop :=
| ph_fresh t : i ∉ h.*1 -> sound (p i) t -> phase i c h (tx_tree (locked t)) None
| ph_wait t x : i ∉ h.*1 -> sound (p i) t -> x_writes x = ∅ -> x_locks x = [] ->
    phase i c h (in_tx (locked t)) (Some x)
| ph_inside t x : i ∉ h.*1 -> statements t -> x_locks x = [id] ->
    (forall a s', exec (x_start x) t (overlay (x_writes x) c) = Some (Ret (Ok a), s') ->
       p i (x_start x) c = Ok (a, s')) ->
    phase i c h (in_tx t) (Some x)
| ph_lost t : i ∉ h.*1 -> statements t -> phase i c h (in_tx t) None
| ph_over t r : t = over r \/ t = Leaf (Ret r) -> (forall a, r = Ok a -> i ∈ h.*1) -> phase i c h t None.

Record inv (c0 : S) (s : system) (h : list (nat * Z)) : Prop := {
  inv_serial : serial h c0 = Some (committed (srv s));
  inv_once : NoDup h.*1;
  inv_phase : forall i, exists t, follows i (clients s i) t /\
    phase i (committed (srv s)) h t (open_txs (srv s) !! i);
  inv_lock : forall i j x y, i <> j -> open_txs (srv s) !! i = Some x -> open_txs (srv s) !! j = Some y ->
    id ∈ x_locks x -> id ∉ x_locks y;
}.

(** An answer to the client [i], which leaves the transaction [o], the committed
    state [c'] and the history [h']. *)
Lemma serial_inv_answer c0 s h i x t o c' h' :
  inv c0 s h -> follows i (clients s i) t -> phase i c' h' (tree_step t x) o ->
  serial h' c0 = Some c' -> NoDup h'.*1 ->
  (forall j t', j <> i -> phase j (committed (srv s)) h t' (open_txs (srv s) !! j) ->
     phase j c' h' t' (open_txs (srv s) !! j)) ->
  (forall y, o = Some y -> id ∈ x_locks y ->
     forall j z, j <> i -> open_txs (srv s) !! j = Some z -> id ∉ x_locks z) ->
  inv c0 {| srv := set_tx i o {| committed := c'; time := time (srv s); open_txs := open_txs (srv s) |};
            clients := upd i (clients s i ++ [x]) (clients s) |} h'.
Proof.
  intros Hi Hf Hp Hs Hd Hothers Hlock.
  assert (Hop : forall j, partial_alter (fun _ => o) i (open_txs (srv s)) !! j =
    if decide (j = i) then o else open_txs (srv s) !! j).
  { intros j. destruct (decide (j = i)) as [->|]; [by rewrite lookup_partial_alter_eq|].
    by rewrite lookup_partial_alter_ne. }
  split; simpl; [done..| |].
  - intros j. rewrite Hop. unfold upd. destruct (decide (j = i)) as [->|Hne].
    + exists (tree_step t x). split; [by apply follows_snoc|done].
    + destruct (inv_phase _ _ _ Hi j) as (t' & Hf' & Hp'). exists t'. auto.
  - intros j1 j2 y z Hne. rewrite !Hop. destruct (decide (j1 = i)) as [->|], (decide (j2 = i)) as [->|]; try done.
    + intros Hy Hz Hl. by apply (Hlock y Hy Hl j2 z).
    + intros Hy Hz Hl Hl'. by apply (Hlock z Hz Hl' j1 y).
    + by apply (inv_lock _ _ _ Hi).
Qed.

(** An answer that leaves the committed state and the history. *)
Lemma inv_same c0 s h i x t o :
  inv c0 s h -> follows i (clients s i) t -> phase i (committed (srv s)) h (tree_step t x) o ->
  (forall y, o = Some y -> id ∈ x_locks y ->
     forall j z, j <> i -> open_txs (srv s) !! j = Some z -> id ∉ x_locks z) ->
  inv c0 {| srv := set_tx i o (srv s); clients := upd i (clients s i ++ [x]) (clients s) |} h.
Proof. intros Hi Hf Hp Hl. by apply (serial_inv_answer c0 s h i x t o (committed (srv s)) h Hi Hf Hp); [apply Hi..|auto|]. Qed.

(** The answer to a statement, for a transaction that holds the lock. *)
Lemma statement_served s i x f k h c sv x0 :
  open_txs (srv s) !! i = Some x -> i ∉ h.*1 -> x_locks x = [id] -> statements (Node (RStmt f) k : tree) ->
  (forall a s', exec (x_start x) (Node (RStmt f) k : tree) (overlay (x_writes x) (committed (srv s))) =
     Some (Ret (Ok a), s') -> p i (x_start x) (committed (srv s)) = Ok (a, s')) ->
  c = committed (srv s) -> served false i (RStmt f) (srv s) x0 sv ->
  exists o, sv = set_tx i o (srv s) /\ phase i c h (in_tx (k x0)) o.
Proof.
  intros Hx Hh Hl [Hran Hfail] Hexec -> Hs.
  inversion Hs as [|? ? x1 v v' Hx1 Hv Hf _ _|? ? ? ? ? ? ? ?|? ? x1 v Hx1 Hv Hf| | | |]; subst; try done.
  - rewrite Hx in Hx1. injection Hx1 as <-. eexists. split; [done|].
    apply ph_inside; simpl; auto. intros a s' He. apply Hexec. simpl in *. rewrite Hf.
    by rewrite overlay_changes in He.
  - exists None. split; [done|]. apply ph_lost; auto.
  - exists None. split; [done|]. apply ph_lost; auto.
Qed.

Lemma not_held s h c0 i x : inv c0 s h -> open_txs (srv s) !! i = Some x -> x_locks x = [id] ->
  forall j y, j <> i -> open_txs (srv s) !! j = Some y -> id ∉ x_locks y.
Proof. intros Hi Hx Hl j y Hne Hy. apply (inv_lock _ _ _ Hi i j x y); [done..|]. rewrite Hl. by left. Qed.

(** While one client holds the lock, a commit and its place in the history matter
    to no other. *)
Lemma phase_commit c0 s h i x t c' :
  inv c0 s h -> open_txs (srv s) !! i = Some x -> x_locks x = [id] ->
  forall j t', j <> i -> phase j (committed (srv s)) h t' (open_txs (srv s) !! j) ->
    phase j c' (h ++ [(i, t)]) t' (open_txs (srv s) !! j).
Proof.
  intros Hi Hx Hl j t' Hne Hp. assert (Hnew : forall m, m <> i -> m ∉ h.*1 -> m ∉ (h ++ [(i, t)]).*1).
  { intros m Hm Hh. rewrite fmap_app, elem_of_app. simpl. intros [?|?%list_elem_of_singleton]; done. }
  remember (open_txs (srv s) !! j) as o eqn:Eo. destruct Hp as [t' Hh|t' y Hh|t' y Hh Hst Hy|t' Hh|t' r Ht Hr].
  - apply ph_fresh; auto.
  - apply ph_wait; auto.
  - exfalso. apply (not_held s h c0 i x Hi Hx Hl j y Hne); [done|]. rewrite Hy. by left.
  - apply ph_lost; auto.
  - apply (ph_over _ _ _ _ r); [done|]. intros a Ha. rewrite fmap_app, elem_of_app. left. by apply (Hr a).
Qed.

(** The commit of a transaction that ran its script. *)
Lemma serial_inv_commit c0 s h i x a x0 :
  inv c0 s h -> follows i (clients s i) (in_tx (Leaf (Ret (Ok a)))) -> open_txs (srv s) !! i = Some x ->
  i ∉ h.*1 -> x_locks x = [id] -> x0 = ADone \/ (exists e, x0 = AFail e) ->
  p i (x_start x) (committed (srv s)) = Ok (a, overlay (x_writes x) (committed (srv s))) ->
  inv c0 {| srv := set_tx i None {| committed := overlay (x_writes x) (committed (srv s)); time := time (srv s);
                                    open_txs := open_txs (srv s) |};
            clients := upd i (clients s i ++ [x0]) (clients s) |} (h ++ [(i, x_start x)]).
Proof.
  intros Hi Hf Hx Hh Hl Hx0 Hp. eapply (serial_inv_answer c0 s h i x0 _ None); [done..| | | | |done].
  - destruct Hx0 as [->|[e ->]].
    + apply (ph_over _ _ _ _ (Ok a)); [by left|]. intros _ _. rewrite fmap_app, elem_of_app. right. by left.
    + apply (ph_over _ _ _ _ (Err e)); [by left|done].
  - by rewrite serial_snoc, (inv_serial _ _ _ Hi), Hp.
  - rewrite fmap_app. apply NoDup_app. split; [apply Hi|]. split; [|apply NoDup_singleton].
    intros j Hj Hj'%list_elem_of_singleton. simpl in Hj'. by subst j.
  - by apply (phase_commit c0 s h i x).
Qed.

Lemma inv_client c0 s h i q x sv :
  inv c0 s h -> client i (clients s i) = Asks q -> served false i q (srv s) x sv ->
  exists h', inv c0 {| srv := sv; clients := upd i (clients s i ++ [x]) (clients s) |} h'.
Proof.
  intros Hi Hask Hs. destruct (inv_phase _ _ _ Hi i) as (t & Hf & Hp).
  rewrite (follows_next i _ t Hf) in Hask. remember (open_txs (srv s) !! i) as o eqn:Eo.
  destruct Hp as [t Hh Hsd|t y Hh Hsd Hw Hl|t y Hh Hst Hl He|t Hh Hst|t r Ht Hr].
  - injection Hask as <-. inversion Hs; subst; exists h; eapply inv_same; try done; simpl.
    + by apply ph_wait.
    + by intros ? [= <-] ?%not_elem_of_nil.
    + apply (ph_over _ _ _ _ (Err e)); [by right|done].
  - injection Hask as <-. inversion Hs as [| | | |? ? x1 _ Hx1 Hfree| | |]; subst; exists h; eapply inv_same; try done; simpl.
    + rewrite <- Eo in Hx1. injection Hx1 as <-. destruct Hsd as [Hst Hx]. rewrite Hl.
      apply ph_inside; simpl; [done..|]. rewrite Hw, overlay_empty. auto.
    + by apply (ph_lost _ _ _ (Leaf (Ret (Err e)))).
  - destruct t as [[[a|e]|v]|q0 k]; [| |done|].
    + injection Hask as <-. inversion Hs as [| | | | |? x1 ? Hx1 Hx0| |]; subst.
      * rewrite <- Eo in Hx1. injection Hx1 as <-. exists (h ++ [(i, x_start y)]). eapply serial_inv_commit; [done..|].
        by apply He.
      * exists h. eapply inv_same; [done..| |done]. apply (ph_over _ _ _ _ (Err e)); [by left|done].
    + injection Hask as <-. inversion Hs; subst; exists h; (eapply inv_same; [done..| |done]).
      * apply (ph_over _ _ _ _ (Err (joined e None))); [by left|done].
      * apply (ph_over _ _ _ _ (Err (joined e (Some e0)))); [by left|done].
    + destruct q0 as [|f| | |]; try done. injection Hask as <-.
      destruct (statement_served s i y f k h (committed (srv s)) sv x) as (o & -> & Hp); [done..|].
      exists h. eapply inv_same; [done..|]. intros z _ _. by apply (not_held s h c0 i y).
  - assert (Hnone : exists e, x = AFail e /\ sv = set_tx i None (srv s)).
    { destruct t as [[[a|e]|v]|[] k]; try done; injection Hask as <-; inversion Hs; subst; eauto; 
        try congruence; rewrite <- Eo in *; by destruct H0. }
    destruct Hnone as (e & -> & ->). exists h. eapply inv_same; [done..| |done].
    destruct t as [[[a|e1]|v]|[] k]; try done; simpl.
    + apply (ph_over _ _ _ _ (Err e)); [by left|done].
    + apply (ph_over _ _ _ _ (Err (joined e1 (Some e)))); [by left|done].
    + destruct Hst. by apply ph_lost.
  - destruct Ht as [->| ->]; [|done]. injection Hask as <-. inversion Hs; subst; [rewrite <- Eo in *; by destruct H0|].
    exists h. eapply inv_same; [done..| |done]. apply (ph_over _ _ _ _ r); [by right|done].
Qed.

(** ** Every interleaving is serial *)

Context (clients_are : forall i, exists t, client_tree (p i) t /\ forall l, client i l = next_tree (walk t l)).

Lemma serial_inv_start c0 now : inv c0 (start_at c0 now) [].
Proof.
  split; simpl; [done|constructor| |by intros i j x y _; rewrite lookup_empty].
  intros i. destruct (clients_are i) as (t & Ht & Hc). exists t. split; [intros l'; apply Hc|].
  rewrite lookup_empty. destruct Ht as [e|t Ht]; [apply (ph_over _ _ _ _ (Err e)); [by right|done]|].
  apply ph_fresh; [apply not_elem_of_nil|done].
Qed.

Lemma serial_inv_reachable c0 s s' h : rtc sys_step s s' -> inv c0 s h -> exists h', inv c0 s' h'.
Proof.
  intros Hs. revert h. induction Hs as [s|s s1 s' Hstep _ IH]; intros h Hi; [by exists h|].
  destruct Hstep as [s i q x sv Hask Hserved|s d _].
  - destruct (inv_client c0 s h i q x sv Hi Hask Hserved) as [h1 H1]. by apply (IH h1).
  - apply (IH h). by destruct Hi.
Qed.

Lemma phase_next i c h t o : phase i c h t o ->
  match next_tree t with
  | Asks _ => True
  | Finished r => o = None /\ forall a, r = Ok a -> i ∈ h.*1
  | Stuck => False
  end.
Proof.
  intros [t' Hh Hsd|t' y Hh Hsd|t' y Hh Hst|t' Hh Hst|t' r [->| ->] Hr]; simpl; try done;
    by destruct t' as [[[|]|]|[] k].
Qed.

(** The committed state is that of the scripts of some clients, each run alone,
    one after the other; every client that finished with a result is among them,
    once; and no client is stuck. *)
Lemma exclusive_serial c0 now s : rtc sys_step (start_at c0 now) s ->
  exists h, serial h c0 = Some (committed (srv s)) /\ NoDup h.*1 /\
    forall i, match client i (clients s i) with
      | Asks _ => True
      | Finished r => forall a, r = Ok a -> i ∈ h.*1
      | Stuck => False
      end.
Proof.
  intros Hs. destruct (serial_inv_reachable c0 _ s [] Hs (serial_inv_start c0 now)) as [h Hi].
  exists h. split; [apply Hi|]. split; [apply Hi|]. intros i.
  destruct (inv_phase _ _ _ Hi i) as (t & Hf & Hp). rewrite (follows_next i _ t Hf).
  apply phase_next in Hp. by destruct (next_tree t); [|destruct Hp|].
Qed.

(** ** Every client can finish *)

(** A step in which the server fails no transaction that is open. *)
Inductive calm_step : system -> system -> Prop :=
| calm s i q x sv : client i (clients s i) = Asks q -> served false i q (srv s) x sv ->
    (forall e, x = AFail e -> open_txs (srv s) !! i = None) ->
    calm_step s {| srv := sv; clients := upd i (clients s i ++ [x]) (clients s) |}.

(** The client [i] has come from [s] to the state [s'], and the others wait. *)
Record moved (i : nat) (s s' : system) : Prop := {
  mv_steps : rtc calm_step s s';
  mv_others : forall j, j <> i -> clients s' j = clients s j /\ open_txs (srv s') !! j = open_txs (srv s) !! j;
}.

Lemma calm_step_sys s s' : rtc calm_step s s' -> rtc sys_step s s'.
Proof. induction 1 as [|? ? ? [s0 i q x sv Hask Hs _] _ IH]; [done|]. eapply rtc_l; [by eapply step_client|done]. Qed.

Lemma moved_trans i s s1 s' : moved i s s1 -> moved i s1 s' -> moved i s s'.
Proof.
  intros [M1 O1] [M2 O2]. split; [by etrans|]. intros j Hj. destruct (O1 j Hj), (O2 j Hj). split; congruence.
Qed.

(** The client can go on to its end. *)
Definition can_end (i : nat) (s : system) : Prop :=
  exists s' r, moved i s s' /\ client i (clients s' i) = Finished r.

(** One answer, after which the client can go on. *)
Lemma answered i s t q x o c' :
  follows i (clients s i) t -> next_tree t = Asks q ->
  served false i q (srv s) x
    (set_tx i o {| committed := c'; time := time (srv s); open_txs := open_txs (srv s) |}) ->
  (forall e, x = AFail e -> open_txs (srv s) !! i = None) ->
  (forall s1, follows i (clients s1 i) (tree_step t x) -> committed (srv s1) = c' -> open_txs (srv s1) !! i = o -> moved i s s1 -> can_end i s1) ->
  can_end i s.
Proof.
  intros Hf Hq Hs Hcalm Hnext.
  set (s1 := {| srv := set_tx i o {| committed := c'; time := time (srv s); open_txs := open_txs (srv s) |};
                clients := upd i (clients s i ++ [x]) (clients s) |}).
  assert (Hm : moved i s s1).
  { split; [apply rtc_once, (calm s i q); [by rewrite (follows_next i _ t Hf)|done..]|].
    intros j Hj. simpl. unfold upd. by rewrite decide_False, lookup_partial_alter_ne by done. }
  destruct (Hnext s1) as (s' & r & Hm' & Hr).
  - simpl. unfold upd. rewrite decide_True by done. by apply follows_snoc.
  - done.
  - simpl. by rewrite lookup_partial_alter_eq.
  - done.
  - exists s', r. split; [by eapply moved_trans|done].
Qed.

Lemma ends i s r : follows i (clients s i) (Leaf (Ret r)) -> can_end i s.
Proof. intros Hf. exists s, r. split; [split; auto using rtc_refl|]. by rewrite (follows_next i _ _ Hf). Qed.

(** An answer that leaves the committed state. *)
Lemma answered_same i s t q x o :
  follows i (clients s i) t -> next_tree t = Asks q -> served false i q (srv s) x (set_tx i o (srv s)) ->
  (forall e, x = AFail e -> open_txs (srv s) !! i = None) ->
  (forall s1, follows i (clients s1 i) (tree_step t x) -> committed (srv s1) = committed (srv s) ->
     open_txs (srv s1) !! i = o -> moved i s s1 -> can_end i s1) ->
  can_end i s.
Proof. intros Hf Hq Hs Hcalm Hnext. by apply (answered i s t q x o (committed (srv s))). Qed.

(** A request outside a transaction fails. *)
Lemma failed i s t q :
  follows i (clients s i) t -> next_tree t = Asks q -> open_txs (srv s) !! i = None ->
  (forall e s1, follows i (clients s1 i) (tree_step t (AFail e)) -> open_txs (srv s1) !! i = None -> can_end i s1) ->
  can_end i s.
Proof.
  intros Hf Hq Ho Hnext. apply (answered_same i s t q (AFail (Sentinel "no transaction")) None Hf Hq); [apply served_fault|done|].
  eauto.
Qed.

Lemma end_over i s r : follows i (clients s i) (over r) -> open_txs (srv s) !! i = None -> can_end i s.
Proof. intros Hf Ho. eapply (failed i s); [done..|]. intros e s1 Hf1 _. by apply (ends i s1 r). Qed.

Lemma end_lost i t : statements t -> forall s, follows i (clients s i) (in_tx t) -> open_txs (srv s) !! i = None -> can_end i s.
Proof.
  induction t as [[[a|e]|v]|q k IH]; intros Hst s Hf Ho; try done.
  - eapply (failed i s); [done..|]. intros e s1 Hf1 Ho1. by apply (end_over i s1 (Err e)).
  - eapply (failed i s); [done..|]. intros e1 s1 Hf1 Ho1. by apply (end_over i s1 (Err (joined e (Some e1)))).
  - destruct q; try done. destruct Hst as [_ Hst].
    eapply (failed i s); [done..|]. intros e s1 Hf1 Ho1. by apply (IH (AFail e)).
Qed.

(** No other transaction wrote anything. *)
Definition quiet (i : nat) (s : system) : Prop :=
  forall j y, j <> i -> open_txs (srv s) !! j = Some y -> x_writes y = ∅.

Lemma end_inside i t : statements t -> forall s x, follows i (clients s i) (in_tx t) ->
  open_txs (srv s) !! i = Some x -> quiet i s -> can_end i s.
Proof.
  induction t as [[[a|e]|v]|q k IH]; intros Hst s x Hf Hx Hquiet; try done.
  - eapply (answered i s); [done|done|by apply served_commit; [|left]|done|].
    intros s1 Hf1 _ Ho1 _. by apply (end_over i s1 (Ok a)).
  - eapply (answered_same i s); [done|done|by apply served_rollback|done|].
    intros s1 Hf1 _ Ho1 _. by apply (end_over i s1 (Err (joined e None))).
  - destruct q as [|f| | |]; try done. destruct Hst as [Hran _].
    destruct (f (x_start x) (overlay (x_writes x) (committed (srv s)))) as [v'|] eqn:Ef.
    + eapply (answered_same i s _ _ (ARan _ _)); [done|done| |done|].
      * apply (served_stmt false i f (srv s) x _ v' Hx eq_refl Ef); [|done].
        intros j y k0 Hj Hy. rewrite (Hquiet j y Hj Hy), lookup_empty. by intros [].
      * intros s1 Hf1 _ Ho1 Hs1. eapply (IH (ARan _ _)); [apply Hran|exact Hf1|exact Ho1|].
        intros j y Hj Hy. apply (Hquiet j y Hj). by rewrite <- (proj2 (mv_others _ _ _ Hs1 j Hj)).
    + eapply (answered_same i s); [done|done|by apply (served_refused false i f (srv s) x _ Hx eq_refl Ef)|done|].
      intros s1 Hf1 _ Ho1 _. eapply end_lost; [|exact Hf1|done]. apply Hran.
Qed.

Lemma quiet_of c0 s h i : inv c0 s h ->
  (forall j y, j <> i -> open_txs (srv s) !! j = Some y -> id ∉ x_locks y) -> quiet i s.
Proof.
  intros Hi Hfree j y Hj Hy. destruct (inv_phase _ _ _ Hi j) as (t & _ & Hp). rewrite Hy in Hp.
  inversion Hp as [|? ? _ _ Hw _|? ? _ _ Hl _| |]; subst; [done|]. destruct (Hfree j y Hj Hy). rewrite Hl. by left.
Qed.

(** A client that waits for a lock that no other holds. *)
Lemma end_wait c0 s h i t x : inv c0 s h -> follows i (clients s i) (in_tx (locked t)) ->
  open_txs (srv s) !! i = Some x -> statements t ->
  (forall j y, j <> i -> open_txs (srv s) !! j = Some y -> id ∉ x_locks y) -> can_end i s.
Proof.
  intros Hi Hf Hx Hst Hfree. eapply (answered_same i s); [done|done|by apply (served_lock false i id _ x)|done|].
  intros s1 Hf1 _ Ho1 Hm. eapply (end_inside i t Hst s1); [exact Hf1|exact Ho1|].
  intros j y Hj. rewrite (proj2 (mv_others _ _ _ Hm j Hj)). by apply (quiet_of c0 s h i Hi Hfree).
Qed.

Lemma end_holder c0 s h i t x : inv c0 s h -> follows i (clients s i) (in_tx t) ->
  open_txs (srv s) !! i = Some x -> statements t -> x_locks x = [id] -> can_end i s.
Proof.
  intros Hi Hf Hx Hst Hl. apply (end_inside i t Hst s x Hf Hx), (quiet_of c0 s h i Hi). by apply (not_held s h c0 i x).
Qed.

(** The client waits, perhaps for one that holds the lock and that ends before it. *)
Lemma end_waiting c0 s h i t x : inv c0 s h -> follows i (clients s i) (in_tx (locked t)) ->
  open_txs (srv s) !! i = Some x -> statements t ->
  exists s' r, rtc calm_step s s' /\ client i (clients s' i) = Finished r.
Proof.
  intros Hi Hf Hx Hst.
  destruct (decide (map_Forall (fun j y => j = i \/ id ∉ x_locks y) (open_txs (srv s)))) as [Hall|Hsome].
  - destruct (end_wait c0 s h i t x) as (s' & r & [M _] & Hr); [done..| |by exists s', r].
    intros j y Hj Hy. by destruct (Hall j y Hy).
  - apply map_not_Forall in Hsome as (j & y & Hy & Hj); [|apply _].
    assert (j <> i /\ id ∈ x_locks y) as [Hne Hl].
    { split; [tauto|]. destruct (decide (id ∈ x_locks y)); tauto. }
    destruct (inv_phase _ _ _ Hi j) as (tj & Hfj & Hpj). rewrite Hy in Hpj.
    assert (can_end j s) as (s1 & rj & Hm & Hrj).
    { inversion Hpj as [|? ? _ _ _ Hnil|u ? _ Hstj Hlj _| |]; subst.
      - rewrite Hnil in Hl. by apply not_elem_of_nil in Hl.
      - by apply (end_holder c0 s h j u y). }
    destruct (serial_inv_reachable c0 s s1 h (calm_step_sys _ _ (mv_steps _ _ _ Hm)) Hi) as [h1 H1].
    destruct (mv_others _ _ _ Hm i) as [Hci Hoi]; [done|].
    assert (Hoj : open_txs (srv s1) !! j = None).
    { destruct (inv_phase _ _ _ H1 j) as (t1 & Hf1 & Hp1). rewrite (follows_next j _ t1 Hf1) in Hrj.
      apply phase_next in Hp1. rewrite Hrj in Hp1. apply Hp1. }
    destruct (end_wait c0 s1 h1 i t x) as (s' & r & [M _] & Hr); [done|by rewrite Hci|congruence|done| |].
    + intros m z Hmi Hz. destruct (decide (m = j)) as [->|Hmj]; [congruence|].
      rewrite (proj2 (mv_others _ _ _ Hm m Hmj)) in Hz. by apply (inv_lock _ _ _ Hi j m y z).
    + exists s', r. split; [|done]. etrans; [apply Hm|done].
Qed.

Lemma exclusive_ends c0 now s i : rtc sys_step (start_at c0 now) s ->
  exists s' r, rtc calm_step s s' /\ client i (clients s' i) = Finished r.
Proof.
  intros Hs. destruct (serial_inv_reachable c0 _ s [] Hs (serial_inv_start c0 now)) as [h Hi].
  destruct (inv_phase _ _ _ Hi i) as (t & Hf & Hp). remember (open_txs (srv s) !! i) as o eqn:Eo.
  assert (Hend : can_end i s -> exists s' r, rtc calm_step s s' /\ client i (clients s' i) = Finished r)
    by (intros (s' & r & [M _] & Hr); by exists s', r).
  destruct Hp as [t Hh [Hst _]|t x Hh [Hst _]|t x Hh Hst Hl|t Hh Hst|t r [->| ->] _].
  - set (x := begun_at (time (srv s)) : txn).
    set (s1 := {| srv := set_tx i (Some x) (srv s); clients := upd i (clients s i ++ [ADone]) (clients s) |}).
    assert (M : calm_step s s1).
    { apply (calm s i RBegin); [by rewrite (follows_next i _ _ Hf)|by apply served_begin|done]. }
    destruct (serial_inv_reachable c0 s s1 h (calm_step_sys _ _ (rtc_once _ _ M)) Hi) as [h1 H1].
    destruct (end_waiting c0 s1 h1 i t x) as (s' & r & M' & Hr); [done| | |done|].
    + simpl. unfold upd. rewrite decide_True by done. apply (follows_snoc i _ _ ADone Hf).
    + simpl. by rewrite lookup_partial_alter_eq.
    + exists s', r. split; [by eapply rtc_l|done].
  - by apply (end_waiting c0 s h i t x).
  - by apply Hend, (end_holder c0 s h i t x).
  - by apply Hend, (end_lost i t).
  - by apply Hend, (end_over i s r).
  - by apply Hend, (ends i s r).
Qed.
End Exclusive.
