(* ===== verification/Tokens.v ===== *)
(** * Tokens: src/tokens/tokens.go and its migrations

    The table of src/tokens/migrations, the statements of tokens.go on it, and
    the operations of the Tokens type composed as in the source.  Times are in
    microseconds, the resolution of TIMESTAMPTZ; durations in nanoseconds, as
    time.Duration.  The checks of the server on the encoding of text and JSON
    arguments are among the failures a driver call can have. *)

From Stdlib Require Import ZArith Ascii String Lia.
From S2P Require Import Prelude Errors Pgdb Sql PgModel.

(** ** The table *)

Definition uuid : Type := N.

Record token_row := {
  r_type : string;
  r_single_use : bool;
  r_ref_id : uuid;
  r_expiry : Z;
  r_idle : option Z;
  r_idle_duration : option Z;
  r_data : string;
  r_created : Z;
}.

(** tokens_tokens, by primary key. *)
Notation tokens_table := (gmap string token_row).

Definition violation : string -> string -> error := server_error "tokens_tokens".
Definition check_violation (constraint : string) : error := violation "23514" constraint.
Definition not_null_violation : error := violation "23502" EmptyString.
Definition unique_violation : error := violation "23505" "tokens_tokens_pkey".
Definition out_of_range : error := violation "22003" EmptyString.

(** The CHECK constraints of the table, in the order of their names. *)
Definition check_row (token : string) (r : token_row) : option error :=
  if negb (bool_decide (r_idle r = None)) && r_single_use r then
    Some (check_violation "chk_idle_multi_use_only")
  else if negb ((10 <=? char_length token) && (char_length token <=? 100)) then
    Some (check_violation "chk_token_length")
  else if negb ((0 <? char_length (r_type r)) && (char_length (r_type r) <=? 100)) then
    Some (check_violation "chk_type_length")
  else None.

(** The cast to the INTEGER column idle_duration. *)
Definition int4_ok (o : option Z) : bool :=
  match o with Some d => (- 2 ^ 31 <=? d) && (d <? 2 ^ 31) | None => true end.

(** now() + n * interval '1 second'. *)
Definition seconds (now n : Z) : Z := now + n * 1000000.

(** The entry of the unique index ("type", "ref_id") WHERE "single_use". *)
Definition find_single (tbl : tokens_table) (ty : string) (ref : uuid) : option (string * token_row) :=
  head (filter (fun p => r_single_use p.2 = true /\ r_type p.2 = ty /\ r_ref_id p.2 = ref)
          (map_to_list tbl)).

Definition set_expiry (expiry : Z) (r : token_row) : token_row :=
  {| r_type := r_type r; r_single_use := r_single_use r; r_ref_id := r_ref_id r;
     r_expiry := expiry; r_idle := r_idle r; r_idle_duration := r_idle_duration r;
     r_data := r_data r; r_created := r_created r |}.
Definition set_idle (idle : option Z) (r : token_row) : token_row :=
  {| r_type := r_type r; r_single_use := r_single_use r; r_ref_id := r_ref_id r;
     r_expiry := r_expiry r; r_idle := idle; r_idle_duration := r_idle_duration r;
     r_data := r_data r; r_created := r_created r |}.
Definition set_data (data : string) (r : token_row) : token_row :=
  {| r_type := r_type r; r_single_use := r_single_use r; r_ref_id := r_ref_id r;
     r_expiry := r_expiry r; r_idle := r_idle r; r_idle_duration := r_idle_duration r;
     r_data := data; r_created := r_created r |}.

(** Write [row] under [token] in a table without the entry [old], if any. *)
Definition write_row (old : option string) (token : string) (row : token_row)
    (tbl : tokens_table) : res error (unit * tokens_table) :=
  match check_row token row with
  | Some e => Err e
  | None =>
      let rest := match old with Some o => delete o tbl | None => tbl end in
      match rest !! token with
      | Some _ => Err unique_violation
      | None => Ok (tt, <[token := row]> rest)
      end
  end.

(** ** Statements *)

Definition insertToken (token ty : string) (single_use : bool) (ref : uuid) (absSecs : Z)
    (idleSecs : option Z) (data : string) : Sql tokens_table unit := fun now tbl =>
  if negb (int4_ok idleSecs) then Err out_of_range else
  let row := {| r_type := ty; r_single_use := single_use; r_ref_id := ref;
                r_expiry := seconds now absSecs; r_idle := seconds now <$> idleSecs;
                r_idle_duration := idleSecs; r_data := data; r_created := now |} in
  match check_row token row with
  | Some e => Err e
  | None =>
      match (if single_use then find_single tbl ty ref else None) with
      | Some (old, r0) => write_row (Some old) token (set_expiry (r_expiry row) r0) tbl
      | None => write_row None token row tbl
      end
  end.

Record Token := {
  t_Token : string; Type_ : string; SingleUse : bool; RefID : uuid; Expiry : Z;
  Idle : option Z; Data : string;
}.

Definition valid_row (now : Z) (r : token_row) : bool :=
  (now <? r_expiry r) && match r_idle r with None => true | Some i => now <? i end.

Definition to_Token (token : string) (r : token_row) : Token :=
  {| t_Token := token; Type_ := r_type r; SingleUse := r_single_use r; RefID := r_ref_id r;
     Expiry := r_expiry r; Idle := r_idle r; Data := r_data r |}.

Definition getToken (token : string) : Sql tokens_table (option Token) := fun now tbl =>
  Ok (match tbl !! token with
      | Some r => if valid_row now r then Some (to_Token token r) else None
      | None => None
      end, tbl).

Definition updateData (data : option string) (token : string) : Sql tokens_table unit := fun _ tbl =>
  match tbl !! token, data with
  | Some r, Some d => Ok (tt, <[token := set_data d r]> tbl)
  | Some _, None => Err not_null_violation
  | None, _ => Ok (tt, tbl)
  end.

Definition rotateToken (newToken : string) (ref : uuid) (absSecs : Z) (idleSecs : option Z)
    (data : option string) (oldToken : string) : Sql tokens_table unit := fun now tbl =>
  match tbl !! oldToken with
  | Some r =>
      if r_single_use r then Ok (tt, tbl)
      else if negb (int4_ok idleSecs) then Err out_of_range
      else
        let row := {| r_type := r_type r; r_single_use := r_single_use r; r_ref_id := ref;
                      r_expiry := seconds now absSecs; r_idle := seconds now <$> idleSecs;
                      r_idle_duration := idleSecs; r_data := default (r_data r) data;
                      r_created := r_created r |} in
        write_row (Some oldToken) newToken row tbl
  | None => Ok (tt, tbl)
  end.

Definition deleteToken (token : string) : Sql tokens_table unit := fun _ tbl =>
  Ok (tt, delete token tbl).

Definition deleteTokens (ref : uuid) (ty : string) : Sql tokens_table unit := fun _ tbl =>
  Ok (tt, filter (fun p => ~ (r_ref_id p.2 = ref /\ r_type p.2 = ty)) tbl).

Definition resetIdleToken (token : string) : Sql tokens_table unit := fun now tbl =>
  match tbl !! token with
  | Some r =>
      if r_single_use r then Ok (tt, tbl)
      else Ok (tt, <[token := set_idle (seconds now <$> r_idle_duration r) r]> tbl)
  | None => Ok (tt, tbl)
  end.

Definition cleanupTokens : Sql tokens_table unit := fun now tbl =>
  Ok (tt, filter (fun p => ~ r_expiry p.2 < now) tbl).

(** ** Base64 *)

(** base64.RawURLEncoding.EncodeToString: the URL alphabet without padding. *)
Definition b64_alphabet : string :=
  "ABCDEFGHIJKLMNOPQRSTUVWXYZabcdefghijklmnopqrstuvwxyz0123456789-_".
Definition b64_char (n : Z) : ascii := default Ascii.zero (String.get (Z.to_nat n) b64_alphabet).

Fixpoint EncodeToString (b : list Z) : string :=
  match b with
  | x :: y :: z :: b' =>
      String (b64_char (Z.shiftr x 2))
        (String (b64_char (Z.lor (Z.shiftl (Z.land x 3) 4) (Z.shiftr y 4)))
          (String (b64_char (Z.lor (Z.shiftl (Z.land y 15) 2) (Z.shiftr z 6)))
            (String (b64_char (Z.land z 63)) (EncodeToString b'))))
  | [x; y] =>
      String (b64_char (Z.shiftr x 2))
        (String (b64_char (Z.lor (Z.shiftl (Z.land x 3) 4) (Z.shiftr y 4)))
          (String (b64_char (Z.shiftl (Z.land y 15) 2)) EmptyString))
  | [x] =>
      String (b64_char (Z.shiftr x 2))
        (String (b64_char (Z.shiftl (Z.land x 3) 4)) EmptyString)
  | [] => EmptyString
  end.

(** ** Operations *)

Definition ErrInvalid : error := ConstError "invalid token".
Definition DefaultRawTokenSize : Z := 32.
Definition Second : Z := 1000000000.

Record TokenArgs {D : Type} := {
  a_Type : string; a_RefID : uuid; a_SingleUse : bool; AbsoluteExpiry : Z; IdleExpiry : Z;
  a_Data : option D;
}.
Arguments TokenArgs : clear implicits.

Section Operations.
Context {W DB : Type} `{!Lens DB tokens_table}.
Local Notation Ctx := (Ctx W (Sql DB)).
Local Open Scope go_scope.

Record Tokens := { Conn : Connection W (Sql DB); RawTokenSize : Z }.

(** The environment of the retry loop, crypto/rand's Read, and json.Marshal. *)
Context (env : Env W) (rand_Read : Z -> go W (list Z)).
Context {Any : Type} (json_Marshal : Any -> res error string).
Context (t : Tokens).

Definition generateNewToken : go W string :=
  let rawTokenSize := if RawTokenSize t <=? 0 then DefaultRawTokenSize else RawTokenSize t in
  let! b := rand_Read rawTokenSize in
  ret (EncodeToString b).

Definition exec (ctx : Ctx) (st : Sql tokens_table unit) : go W (res error unit) :=
  EnsureQueryer ctx (conn_queryer (Conn t)) (fun _ q => Exec q (on_table st)).

Definition New (ctx : Ctx) (args : TokenArgs Any) : go W (res error (string * string)) :=
  let! token := generateNewToken in
  let idleSecs := if negb (a_SingleUse args) && (0 <? IdleExpiry args)
                  then Some (Z.quot (IdleExpiry args) Second) else None in
  match (match a_Data args with None => Ok "null"%string | Some d => json_Marshal d end) with
  | Err err => ret (Err err)
  | Ok data =>
      let? _ := exec ctx (insertToken token (a_Type args) (a_SingleUse args) (a_RefID args)
                   (Z.quot (AbsoluteExpiry args) Second) idleSecs data) in
      ret (Ok (token, data))
  end.

Definition UpdateData (ctx : Ctx) (token : string) (data : option string) : go W (res error unit) :=
  exec ctx (updateData data token).

Definition Rotate (ctx : Ctx) (oldToken : string) (args : TokenArgs Any) : go W (res error string) :=
  let! newToken := generateNewToken in
  let idleSecs := if 0 <? IdleExpiry args then Some (Z.quot (IdleExpiry args) Second) else None in
  let absSecs := Z.quot (AbsoluteExpiry args) Second in
  match (match a_Data args with
         | None => Ok None
         | Some d => match json_Marshal d with Ok b => Ok (Some b) | Err e => Err e end
         end) with
  | Err err => ret (Err err)
  | Ok data =>
      let? _ := exec ctx (rotateToken newToken (a_RefID args) absSecs idleSecs data oldToken) in
      ret (Ok newToken)
  end.

Definition Delete (ctx : Ctx) (token : string) : go W (res error unit) :=
  exec ctx (deleteToken token).
Definition DeleteByTypeRef (ctx : Ctx) (ty : string) (ref : uuid) : go W (res error unit) :=
  exec ctx (deleteTokens ref ty).
Definition ResetIdle (ctx : Ctx) (token : string) : go W (res error unit) :=
  exec ctx (resetIdleToken token).
Definition Cleanup (ctx : Ctx) : go W (res error unit) := exec ctx cleanupTokens.

(** The function that Verify runs in its transaction. *)
Definition verify_fn (token : string) (ctx : Ctx) (tx : Txer W (Sql DB)) : go W (res error Token) :=
  let! r := QueryOne (tx_queryer tx) (on_table (getToken token)) in
  match r with
  | Err err => if Is (Some err) ErrNoRows then ret (Err ErrInvalid) else ret (Err err)
  | Ok tok =>
      if SingleUse tok then
        let? _ := Delete ctx token in ret (Ok tok)
      else
        match Idle tok with
        | Some _ => let? _ := ResetIdle ctx token in ret (Ok tok)
        | None => ret (Ok tok)
        end
  end.

Definition Verify (ctx : Ctx) (token : string) (vfn : option (Token -> option error))
    : go W (res error Token) :=
  let? tok := EnsureTx env ctx (conn_beginTxer (Conn t)) (verify_fn token) in
  match vfn with
  | Some f => match f tok with Some err => ret (Err err) | None => ret (Ok tok) end
  | None => ret (Ok tok)
  end.
End Operations.
Arguments Tokens : clear implicits.

Definition MustMatchType (ty : string) (tok : Token) : option error :=
  if String.eqb (Type_ tok) ty then None else Some ErrInvalid.

Definition MustMatchTypeAndRefID (ty : string) (ref : uuid) (tok : Token) : option error :=
  if negb (String.eqb (Type_ tok) ty) || negb (N.eqb (RefID tok) ref) then Some ErrInvalid else None.

(** ** Statements as data

    The statements of this file that write, to reason about their sequences. *)
Inductive table_op :=
| OpInsert (token ty : string) (single_use : bool) (ref : uuid) (absSecs : Z)
    (idleSecs : option Z) (data : string)
| OpUpdateData (data : option string) (token : string)
| OpRotate (newToken : string) (ref : uuid) (absSecs : Z) (idleSecs : option Z)
    (data : option string) (oldToken : string)
| OpDelete (token : string)
| OpDeleteByTypeRef (ref : uuid) (ty : string)
| OpResetIdle (token : string)
| OpCleanup.

Definition run_op (o : table_op) : Sql tokens_table unit :=
  match o with
  | OpInsert token ty su ref abs idle data => insertToken token ty su ref abs idle data
  | OpUpdateData data token => updateData data token
  | OpRotate new ref abs idle data old => rotateToken new ref abs idle data old
  | OpDelete token => deleteToken token
  | OpDeleteByTypeRef ref ty => deleteTokens ref ty
  | OpResetIdle token => resetIdleToken token
  | OpCleanup => cleanupTokens
  end.

(** A statement that fails leaves the table as it was. *)
Definition apply_op (tbl : tokens_table) (o : Z * table_op) : tokens_table :=
  match run_op o.2 o.1 tbl with Ok (_, tbl') => tbl' | Err _ => tbl end.
Definition apply_ops : tokens_table -> list (Z * table_op) -> tokens_table := foldl apply_op.

(** The token a statement writes a row under that need not have existed. *)
Definition issues (o : table_op) : option string :=
  match o with
  | OpInsert token _ _ _ _ _ _ => Some token
  | OpRotate new _ _ _ _ _ => Some new
  | _ => None
  end.

(** ** Invariant of the table *)

Definition row_ok (token : string) (r : token_row) : Prop :=
  check_row token r = None /\ (r_idle r = None <-> r_idle_duration r = None) /\
  int4_ok (r_idle_duration r) = true.

Definition same_slot (r1 r2 : token_row) : Prop :=
  r_single_use r1 = true /\ r_single_use r2 = true /\ r_type r1 = r_type r2 /\
  r_ref_id r1 = r_ref_id r2.

(** Every row satisfies the constraints and has an idle time exactly when it
    has an idle duration; a type and reference have one single-use token. *)
Definition tokens_ok (tbl : tokens_table) : Prop :=
  (forall t r, tbl !! t = Some r -> row_ok t r) /\
  (forall t1 t2 r1 r2, tbl !! t1 = Some r1 -> tbl !! t2 = Some r2 -> same_slot r1 r2 -> t1 = t2).

Lemma tokens_ok_sub tbl tbl' : tbl' ⊆ tbl -> tokens_ok tbl -> tokens_ok tbl'.
Proof.
  intros Hsub [Hr Hs]. split.
  - intros t r Ht. apply Hr. by apply (lookup_weaken tbl').
  - intros t1 t2 r1 r2 H1 H2. apply Hs; by apply (lookup_weaken tbl').
Qed.

Lemma tokens_ok_insert tbl token row :
  tokens_ok tbl -> row_ok token row ->
  (forall t r, t <> token -> tbl !! t = Some r -> ~ same_slot r row) ->
  tokens_ok (<[token := row]> tbl).
Proof.
  intros [Hr Hs] Hrow Hslot. split.
  - intros t r [[<- <-]|[Hne Ht]]%lookup_insert_Some; auto.
  - intros t1 t2 r1 r2 [[<- <-]|[Hn1 H1]]%lookup_insert_Some
      [[<- <-]|[Hn2 H2]]%lookup_insert_Some Hsame; eauto.
    + exfalso. apply (Hslot t2 r2); [done..|]. unfold same_slot in *. naive_solver.
    + exfalso. by apply (Hslot t1 r1).
Qed.

Lemma write_row_spec old token row tbl u tbl' :
  write_row old token row tbl = Ok (u, tbl') ->
  let rest := match old with Some o => delete o tbl | None => tbl end in
  check_row token row = None /\ rest !! token = None /\ tbl' = <[token := row]> rest.
Proof. unfold write_row. intros H. repeat case_in H; naive_solver. Qed.

Lemma find_single_Some tbl ty ref old r :
  find_single tbl ty ref = Some (old, r) ->
  tbl !! old = Some r /\ r_single_use r = true /\ r_type r = ty /\ r_ref_id r = ref.
Proof.
  unfold find_single. intros H. apply head_Some_elem_of in H.
  apply list_elem_of_filter in H as [H Hin]. by apply elem_of_map_to_list in Hin.
Qed.

Lemma find_single_None tbl ty ref t r :
  find_single tbl ty ref = None -> tbl !! t = Some r ->
  ~ (r_single_use r = true /\ r_type r = ty /\ r_ref_id r = ref).
Proof.
  unfold find_single. intros H Ht Hp.
  assert ((t, r) ∈ filter (fun p => r_single_use p.2 = true /\ r_type p.2 = ty /\ r_ref_id p.2 = ref)
    (map_to_list tbl)) as Hin by (apply list_elem_of_filter; split; [done|by apply elem_of_map_to_list]).
  destruct (filter _ _); [by apply not_elem_of_nil in Hin|done].
Qed.

Lemma insertToken_ok token ty su ref abs idle data now tbl u tbl' :
  tokens_ok tbl -> insertToken token ty su ref abs idle data now tbl = Ok (u, tbl') ->
  tokens_ok tbl'.
Proof.
  intros Hok. unfold insertToken. destruct (int4_ok idle) eqn:Ei; [simpl|done].
  set (row := {| r_type := ty |}).
  destruct (check_row token row) eqn:Ec; [done|].
  assert (Hidle : r_idle row = None <-> r_idle_duration row = None)
    by (simpl; destruct idle; naive_solver).
  destruct su eqn:Esu; [destruct (find_single tbl ty ref) as [[old r0]|] eqn:Ef|];
    intros (Hc & Hn & ->)%write_row_spec.
  - destruct (find_single_Some _ _ _ _ _ Ef) as (H0 & Hs0 & Ht0 & Hr0).
    apply tokens_ok_insert; [by apply (tokens_ok_sub tbl); [apply delete_subseteq|]| |].
    + destruct (proj1 Hok old r0 H0) as (_ & Hi & H4). by split_and!.
    + intros t r Hne [Hno Ht]%lookup_delete_Some Hsame. apply Hno. symmetry.
      apply (proj2 Hok t old r r0); [done..|]. unfold same_slot in *. naive_solver.
  - apply tokens_ok_insert; [done|by split_and!|]. intros t r _ Ht Hsame.
    apply (find_single_None _ _ _ _ _ Ef Ht). unfold same_slot in Hsame. naive_solver.
  - apply tokens_ok_insert; [done|by split_and!|]. intros t r _ Ht (_ & ? & _). done.
Qed.

Lemma update_row_ok tbl token r f :
  tokens_ok tbl -> tbl !! token = Some r -> row_ok token (f r) ->
  r_single_use (f r) = r_single_use r -> r_type (f r) = r_type r -> r_ref_id (f r) = r_ref_id r ->
  tokens_ok (<[token := f r]> tbl).
Proof.
  intros Hok Ht Hrow Hs Hty Href. apply tokens_ok_insert; [done..|].
  intros t r' Hne Ht' Hsame. apply Hne, (proj2 Hok t token r' r); [done..|].
  unfold same_slot in *. by rewrite <- Hs, <- Hty, <- Href.
Qed.

Lemma check_row_congr token r r' :
  (r_idle r' = None <-> r_idle r = None) -> r_single_use r' = r_single_use r ->
  r_type r' = r_type r -> check_row token r' = check_row token r.
Proof.
  intros Hi Hs Ht. unfold check_row. rewrite Hs, Ht.
  by rewrite (bool_decide_ext _ _ Hi).
Qed.

Lemma run_op_ok o now tbl u tbl' :
  tokens_ok tbl -> run_op o now tbl = Ok (u, tbl') -> tokens_ok tbl'.
Proof.
  intros Hok. destruct o; simpl.
  - by apply insertToken_ok.
  - unfold updateData. destruct (tbl !! token) as [r|] eqn:Et; [|by intros [= _ <-]].
    destruct data; [|done]. intros [= _ <-].
    apply (update_row_ok tbl token r (set_data s)); try done. exact (proj1 Hok token r Et).
  - unfold rotateToken. destruct (tbl !! oldToken) as [r|] eqn:Et; [|by intros [= _ <-]].
    destruct (r_single_use r) eqn:Es; [by intros [= _ <-]|].
    destruct (int4_ok idleSecs) eqn:Ei; [simpl|done].
    intros (Hc & Hn & ->)%write_row_spec.
    apply tokens_ok_insert; [by apply (tokens_ok_sub tbl); [apply delete_subseteq|]| |].
    + split_and!; [done|simpl; destruct idleSecs; naive_solver|done].
    + intros t r' _ _ (_ & Hf & _). by simpl in Hf.
  - intros [= _ <-]. apply (tokens_ok_sub tbl); [apply delete_subseteq|done].
  - intros [= _ <-]. apply (tokens_ok_sub tbl); [apply map_filter_subseteq|done].
  - unfold resetIdleToken. destruct (tbl !! token) as [r|] eqn:Et; [|by intros [= _ <-]].
    destruct (r_single_use r) eqn:Es; intros [= _ <-]; [done|].
    destruct (proj1 Hok _ _ Et) as (Hc & Hi & H4).
    assert (Hi' : seconds now <$> r_idle_duration r = None <-> r_idle r = None)
      by (rewrite fmap_None; symmetry; exact Hi).
    apply (update_row_ok tbl token r (set_idle (seconds now <$> r_idle_duration r))); try done.
    split_and!; [|apply fmap_None|done].
    by rewrite (check_row_congr token r).
  - intros [= _ <-]. apply (tokens_ok_sub tbl); [apply map_filter_subseteq|done].
Qed.

(** C20. Whatever the sequence of calls and whichever fail, the token table that
    starts empty keeps its invariant: every row satisfies the constraints of
    the migrations, idle time and idle duration are both set or both null, and
    each type and reference id has at most one single-use token. *)
Theorem tokens_invariant ops : tokens_ok (apply_ops ∅ ops).
Proof.
  assert (H : forall ops tbl, tokens_ok tbl -> tokens_ok (apply_ops tbl ops)).
  2: { apply H. split; intros *; by rewrite lookup_empty. }
  clear ops. intros ops. induction ops as [|[now o] ops IH]; intros tbl Hok; [done|].
  simpl. apply IH. unfold apply_op. simpl.
  destruct (run_op o now tbl) as [[u tbl']|e] eqn:E; [|done]. by eapply run_op_ok.
Qed.

(** ** The text of a token *)

Definition b64_val (c : ascii) : Z :=
  let v := byte_val c in
  if (65 <=? v) && (v <=? 90) then v - 65
  else if (97 <=? v) && (v <=? 122) then v - 71
  else if (48 <=? v) && (v <=? 57) then v + 4
  else if v =? 45 then 62 else 63.

(** All [n] below [k] satisfy a decidable property. *)
Fixpoint below (k : nat) (P : Z -> bool) : bool :=
  match k with
  | O => true
  | Datatypes.S k' => P (Z.of_nat k') && below k' P
  end.

Lemma below_spec k P n : below k P = true -> 0 <= n < Z.of_nat k -> P n = true.
Proof.
  induction k as [|k IH]; intros H Hn; [lia|]. simpl in H. apply andb_true_iff in H as [Hk H].
  destruct (Z.eq_dec n (Z.of_nat k)) as [->|Hne]; [done|]. apply IH; [done|lia].
Qed.

Lemma b64_val_char n : 0 <= n < 64 -> b64_val (b64_char n) = n /\ byte_val (b64_char n) < 128.
Proof.
  intros Hn.
  assert ((b64_val (b64_char n) =? n) && (byte_val (b64_char n) <? 128) = true) as H.
  { apply (below_spec 64 (fun n => (b64_val (b64_char n) =? n) && (byte_val (b64_char n) <? 128)));
      [vm_compute; reflexivity|exact Hn]. }
  apply andb_true_iff in H as [H1%Z.eqb_eq H2%Z.ltb_lt]. done.
Qed.

(** The four sextets of three bytes, by arithmetic. *)
Lemma sextet_1 x : 0 <= x < 256 -> Z.shiftr x 2 = x / 4 /\ 0 <= x / 4 < 64.
Proof. intros. rewrite Z.shiftr_div_pow2 by lia. split; [done|]. split; [apply Z.div_pos; lia|apply Z.div_lt_upper_bound; lia]. Qed.

Lemma land_mod x k : 0 <= k -> Z.land x (2 ^ k - 1) = x mod 2 ^ k.
Proof. intros. rewrite <- Z.land_ones by lia. f_equal. rewrite Z.ones_equiv. lia. Qed.

Lemma lor_join a b k : 0 <= k -> 0 <= b < 2 ^ k -> Z.lor (Z.shiftl a k) b = a * 2 ^ k + b.
Proof.
  intros Hk Hb. rewrite <- Z.shiftl_mul_pow2 by lia. symmetry. apply Z.add_nocarry_lor.
  apply Z.bits_inj'. intros n Hn. rewrite Z.land_spec, Z.bits_0.
  destruct (Z.lt_ge_cases n k); [rewrite Z.shiftl_spec_low by lia; done|].
  destruct (Z.eq_dec b 0) as [->|]; [rewrite Z.bits_0; by rewrite andb_false_r|].
  rewrite (Z.bits_above_log2 b); [by rewrite andb_false_r|lia|].
  apply Z.log2_lt_pow2; [lia|]. apply (Z.lt_le_trans _ (2 ^ k)); [lia|]. apply Z.pow_le_mono_r; lia.
Qed.

Lemma sextet_2 x y : 0 <= x < 256 -> 0 <= y < 256 ->
  Z.lor (Z.shiftl (Z.land x 3) 4) (Z.shiftr y 4) = x mod 4 * 16 + y / 16 /\
  0 <= x mod 4 * 16 + y / 16 < 64.
Proof.
  intros Hx Hy. change 3 with (2 ^ 2 - 1). rewrite land_mod, Z.shiftr_div_pow2 by lia.
  change (2 ^ 2) with 4. change (2 ^ 4) with 16.
  pose proof (Z.mod_pos_bound x 4 ltac:(lia)).
  assert (0 <= y / 16 < 16) by (split; [apply Z.div_pos; lia|apply Z.div_lt_upper_bound; lia]).
  rewrite lor_join by (simpl; lia). simpl. lia.
Qed.

Lemma sextet_3 y z : 0 <= y < 256 -> 0 <= z < 256 ->
  Z.lor (Z.shiftl (Z.land y 15) 2) (Z.shiftr z 6) = y mod 16 * 4 + z / 64 /\
  0 <= y mod 16 * 4 + z / 64 < 64.
Proof.
  intros Hy Hz. change 15 with (2 ^ 4 - 1). rewrite land_mod, Z.shiftr_div_pow2 by lia.
  change (2 ^ 4) with 16. change (2 ^ 6) with 64.
  pose proof (Z.mod_pos_bound y 16 ltac:(lia)).
  assert (0 <= z / 64 < 4) by (split; [apply Z.div_pos; lia|apply Z.div_lt_upper_bound; lia]).
  rewrite lor_join by (simpl; lia). simpl. lia.
Qed.

Lemma sextet_4 z : Z.land z 63 = z mod 64 /\ 0 <= z mod 64 < 64.
Proof. change 63 with (2 ^ 6 - 1). rewrite land_mod by lia. split; [done|]. apply Z.mod_pos_bound. lia. Qed.

Lemma sextet_2' x : 0 <= x < 256 ->
  Z.shiftl (Z.land x 3) 4 = x mod 4 * 16 /\ 0 <= x mod 4 * 16 < 64.
Proof.
  intros Hx. destruct (sextet_2 x 0 Hx) as [E ?]; [lia|]. rewrite Z.shiftr_0_l, Z.lor_0_r in E.
  rewrite E. change (0 / 16) with 0 in *. lia.
Qed.

Lemma sextet_3' y : 0 <= y < 256 ->
  Z.shiftl (Z.land y 15) 2 = y mod 16 * 4 /\ 0 <= y mod 16 * 4 < 64.
Proof.
  intros Hy. destruct (sextet_3 y 0 Hy) as [E ?]; [lia|]. rewrite Z.shiftr_0_l, Z.lor_0_r in E.
  rewrite E. change (0 / 64) with 0 in *. lia.
Qed.

(** The reader of the encoding. *)
Fixpoint DecodeString (s : string) : list Z :=
  match s with
  | String a (String b (String c (String d s'))) =>
      let '(va, vb, vc, vd) := (b64_val a, b64_val b, b64_val c, b64_val d) in
      (va * 4 + vb / 16) :: (vb mod 16 * 16 + vc / 4) :: (vc mod 4 * 64 + vd) :: DecodeString s'
  | String a (String b (String c EmptyString)) =>
      [b64_val a * 4 + b64_val b / 16; b64_val b mod 16 * 16 + b64_val c / 4]
  | String a (String b EmptyString) => [b64_val a * 4 + b64_val b / 16]
  | _ => []
  end.

Definition bytes (b : list Z) : Prop := Forall (fun x => 0 <= x < 256) b.

Lemma bytes_ind3 (P : list Z -> Prop) :
  P [] -> (forall x, P [x]) -> (forall x y, P [x; y]) ->
  (forall x y z b, P b -> P (x :: y :: z :: b)) -> forall b, P b.
Proof.
  intros H0 H1 H2 H3. fix IH 1. intros [|x [|y [|z b]]]; [exact H0|apply H1|apply H2|].
  apply H3, IH.
Qed.

(** Unfold a group of the encoding into its sextets, with [use] on the bounds of
    each. *)
Ltac sextets_with use := cbn [EncodeToString];
  repeat match goal with
  | Hx : 0 <= ?x < 256, Hy : 0 <= ?y < 256
    |- context [Z.lor (Z.shiftl (Z.land ?x 3) 4) (Z.shiftr ?y 4)] =>
      let E := fresh "E" in let B := fresh "B" in
      destruct (sextet_2 x y Hx Hy) as [E B]; rewrite E; use B
  | Hx : 0 <= ?x < 256, Hy : 0 <= ?y < 256
    |- context [Z.lor (Z.shiftl (Z.land ?x 15) 2) (Z.shiftr ?y 6)] =>
      let E := fresh "E" in let B := fresh "B" in
      destruct (sextet_3 x y Hx Hy) as [E B]; rewrite E; use B
  | Hx : 0 <= ?x < 256 |- context [Z.shiftl (Z.land ?x 3) 4] =>
      let E := fresh "E" in let B := fresh "B" in
      destruct (sextet_2' x Hx) as [E B]; rewrite E; use B
  | Hx : 0 <= ?x < 256 |- context [Z.shiftl (Z.land ?x 15) 2] =>
      let E := fresh "E" in let B := fresh "B" in
      destruct (sextet_3' x Hx) as [E B]; rewrite E; use B
  | |- context [Z.land ?x 63] =>
      let E := fresh "E" in let B := fresh "B" in
      destruct (sextet_4 x) as [E B]; rewrite E; use B
  | Hx : 0 <= ?x < 256 |- context [Z.shiftr ?x 2] =>
      let E := fresh "E" in let B := fresh "B" in
      destruct (sextet_1 x Hx) as [E B]; rewrite E; use B
  end.
Ltac sextets := sextets_with ltac:(fun B => apply b64_val_char in B as []).

Lemma Decode_Encode b : bytes b -> DecodeString (EncodeToString b) = b.
Proof.
  induction b as [|x|x y|x y z b IH] using bytes_ind3; intros Hb; [done|..];
    repeat (apply Forall_cons in Hb as [? Hb]); sextets; cbn [DecodeString];
    repeat match goal with H : b64_val _ = _ |- _ => rewrite H; clear H end.
  - f_equal. Z.to_euclidean_division_equations; lia.
  - repeat f_equal; Z.to_euclidean_division_equations; lia.
  - rewrite (IH Hb). repeat f_equal; Z.to_euclidean_division_equations; lia.
Qed.

(** Distinct random values give distinct tokens: encoding byte sequences is
    injective. *)
Theorem EncodeToString_inj b1 b2 :
  bytes b1 -> bytes b2 -> EncodeToString b1 = EncodeToString b2 -> b1 = b2.
Proof. intros H1 H2 E. rewrite <- (Decode_Encode b1), <- (Decode_Encode b2) by done. by rewrite E. Qed.

Lemma char_length_Encode b :
  bytes b -> char_length (EncodeToString b) = (4 * Z.of_nat (length b) + 2) / 3.
Proof.
  induction b as [|x|x y|x y z b IH] using bytes_ind3; intros Hb; [done|..];
    repeat (apply Forall_cons in Hb as [? Hb]); sextets;
    rewrite !char_length_cons by done; [done|done|].
  rewrite (IH Hb). cbn [length]. rewrite !Nat2Z.inj_succ.
  Z.to_euclidean_division_equations; lia.
Qed.

(** ** Operations on the table *)

(** What Verify promises: a token that is present and in its validity times is
    returned; a single-use one is deleted, the idle time of another restarts;
    anything else is ErrInvalid and changes nothing. *)
Definition verify_sql (token : string) : Sql tokens_table Token := fun now tbl =>
  match tbl !! token with
  | Some r =>
      if valid_row now r then
        Ok (to_Token token r,
            if r_single_use r then delete token tbl
            else match r_idle r with
                 | Some _ => <[token := set_idle (seconds now <$> r_idle_duration r) r]> tbl
                 | None => tbl
                 end)
      else Err ErrInvalid
  | None => Err ErrInvalid
  end.

(** The extra validation. *)
Definition accept (vfn : option (Token -> option error)) (tok : Token) : res error Token :=
  match vfn with
  | Some f => match f tok with Some err => Err err | None => Ok tok end
  | None => Ok tok
  end.

(** crypto/rand does not touch the database. *)
Class RandLaws {W Stmt S} (btx : BeginTxer W Stmt) `{!TxLaws btx S}
    (rand_Read : Z -> go W (list Z)) := {
  rand_Read_spec : forall n w, 0 < n -> exists b w', rand_Read n w = (Ret b, w') /\
    Z.of_nat (length b) = n /\ Forall (fun x => 0 <= x < 256) b /\
    db w' = db w /\ clock w <= clock w' /\ forall tx, owned tx -> work tx w' = work tx w;
}.

Section Refinement.
Context {W DB : Type} `{!Lens DB tokens_table}.
Context (t : Tokens W DB) (env : Env W).
Context {TL : TxLaws (conn_beginTxer (Conn t)) DB} {SL : SqlLaws (Conn t)}.
Context {EL : EnvLaws env (conn_beginTxer (Conn t))}.
Context (rand_Read : Z -> go W (list Z)) {RL : RandLaws (conn_beginTxer (Conn t)) rand_Read}.
Context {Any : Type} (json_Marshal : Any -> res error string).
Local Notation Ctx := (Ctx W (Sql DB)).

Lemma verify_fn_does token ctx tx :
  ctxTx ctx = Some tx -> owned tx ->
  tx_does (Conn t) tx (on_table (verify_sql token)) (verify_fn t token ctx tx).
Proof.
  intros Ectx Hown.
  pose (then_ok (tok : Token) (st : Sql tokens_table unit) := map_ok (fun _ => Ok tok) (exec_of (on_table (D := DB) st))).
  eapply tx_does_ext; [|intros w; unfold verify_fn; apply (tx_does_at_case _ _ _
    (fun tok => if SingleUse tok then then_ok tok (deleteToken token)
       else match Idle tok with
            | Some _ => then_ok tok (resetIdleToken token)
            | None => done_ (Ok tok)
            end)
    (fun e => if Is (Some e) ErrNoRows then ErrInvalid else e) _ _
    w (tx_does_QueryOne (Conn t) tx (on_table (getToken token)) Hown w))].
  - intros now s. unfold scase, then_ok, map_ok, exec_of, map_ok, on_table, getToken, verify_sql.
    rewrite update_view. destruct (view s !! token) as [row|] eqn:Erow; [|done].
    destruct (valid_row now row); [|done]. simpl.
    destruct (r_single_use row) eqn:Esu; [done|].
    destruct (r_idle row) eqn:Ei; unfold resetIdleToken, done_; [|by rewrite update_view].
    by rewrite Erow, Esu.
  - intros e He. by rewrite (fault_foreign (Conn t) e ErrNoRows) by (done || by left).
  - intros e. by destruct (Is (Some e) ErrNoRows).
  - intros tok w' Hopen. destruct (SingleUse tok); [|destruct (Idle tok)].
    + apply tx_does_map, (tx_does_Exec (Conn t)); done.
    + apply tx_does_map, (tx_does_Exec (Conn t)); done.
    + by apply tx_does_ret.
Qed.

Lemma Verify_run ctx token vfn w :
  ctx_ok (Conn t) ctx ->
  exists r w', Verify env t ctx token vfn w =
      (Ret (match r with Ok tok => accept vfn tok | Err e => Err e end), w') /\
    ran (Conn t) ctx (on_table (verify_sql token)) w r w'.
Proof.
  intros Hctx.
  destruct (EnsureTx_run (Conn t) env ctx (on_table (verify_sql token)) (verify_fn t token) w Hctx
    (verify_fn_does token)) as (r & w' & E & Hran).
  exists r, w'. unfold Verify, bindE. rewrite (bind_run _ _ _ _ _ E). split; [|done].
  unfold accept. destruct r as [tok|e]; [destruct vfn as [f|]; [destruct (f tok)|]|]; done.
Qed.

(** What a result of Verify says of its cause. *)
Lemma verify_origin ctx token w r w' :
  ran (Conn t) ctx (on_table (verify_sql token)) w r w' ->
  match r with
  | Ok tok => t_Token tok = token
  | Err e => exists e0, caused_by (Conn t) e0 e /\
      ((faulty e0 /\ Is (Some e) ErrInvalid = false) \/
       (e0 = ErrInvalid /\ Is (Some e) ErrInvalid = true))
  end.
Proof.
  intros Hran.
  destruct Hran as (_ & _ & Hr). destruct r as [tok|e].
  - destruct Hr as (t0 & s & s' & _ & _ & _ & Hp). unfold on_table, verify_sql in Hp.
    repeat case_in Hp; naive_solver.
  - destruct Hr as (_ & e0 & Hcb & Hr). exists e0. split; [done|]. unfold ErrInvalid.
    rewrite (caused_by_Is (Conn t) e0 e (ConstError _)) by (done || right; by eexists).
    destruct Hr as [Hf|(t0 & s & _ & _ & Hp)]; [left|right].
    + split; [done|]. apply (proj2 (faulty_foreign e0 Hf)).
    + assert (e0 = ErrInvalid) as -> by
        (unfold on_table, verify_sql in Hp; repeat case_in Hp; congruence).
      done.
Qed.

(** C4. Verify refines its specification, in the context's transaction or in one
    of its own with its retries: in one atomic step at a time of the call it
    either returns the stored token and consumes it or restarts its idle time,
    or fails and has no visible effect; the validation function is applied to
    the token that was found.  Without validation, an error is ErrInvalid (in
    the sense of errors.Is) exactly when it is not the driver's: when the token
    is unknown or expired. *)
Theorem Verify_refines ctx token vfn w :
  ctx_ok (Conn t) ctx ->
  exists r w', Verify env t ctx token vfn w =
      (Ret (match r with Ok tok => accept vfn tok | Err e => Err e end), w') /\
    ran (Conn t) ctx (on_table (verify_sql token)) w r w' /\
    match r with
    | Ok tok => t_Token tok = token
    | Err e => exists e0, caused_by (Conn t) e0 e /\
        ((faulty e0 /\ Is (Some e) ErrInvalid = false) \/
         (e0 = ErrInvalid /\ Is (Some e) ErrInvalid = true))
    end.
Proof.
  intros Hctx. destruct (Verify_run ctx token vfn w Hctx) as (r & w' & E & Hran).
  exists r, w'. split_and!; [done..|]. by eapply verify_origin.
Qed.

(** The number of random bytes of a token. *)
Definition raw_size : Z := if RawTokenSize t <=? 0 then DefaultRawTokenSize else RawTokenSize t.

(** A token as generateNewToken makes them. *)
Definition generated (token : string) : Prop :=
  exists b, bytes b /\ Z.of_nat (length b) = raw_size /\ token = EncodeToString b.

Lemma generateNewToken_run ctx w :
  ctx_ok (Conn t) ctx ->
  exists token w1, generateNewToken rand_Read t w = (Ret token, w1) /\ generated token /\
    clock w <= clock w1 /\ db w1 = db w /\ visible (Conn t) ctx w1 = visible (Conn t) ctx w.
Proof.
  intros Hctx. unfold generateNewToken. fold raw_size.
  assert (0 < raw_size) as Hpos.
  { unfold raw_size, DefaultRawTokenSize. destruct (Z.leb_spec (RawTokenSize t) 0); lia. }
  destruct (rand_Read_spec raw_size w Hpos) as (b & w1 & E & Hlen & Hb & Hdb & Hc & Hwork).
  rewrite (bind_run _ _ _ _ _ E). exists (EncodeToString b), w1. split_and!; [done| |done|done|].
  - by exists b.
  - unfold visible, ctx_ok in *. destruct (ctxTx ctx) as [tx|]; [by apply Hwork|by rewrite Hdb].
Qed.

(** A statement followed by a result of the program. *)
Definition stmt_then {A} (st : Sql tokens_table unit) (a : A) : Sql DB A :=
  map_ok (fun _ => Ok a) (on_table st).

(** The common end of New and Rotate. *)
Lemma exec_then {A} ctx st (a : A) w :
  ctx_ok (Conn t) ctx ->
  exists r w', bindE (exec t ctx st) (fun _ => ret (Ok a)) w = (Ret r, w') /\
    ran (Conn t) ctx (stmt_then st a) w r w'.
Proof.
  intros Hctx. destruct (EnsureQueryer_Exec (Conn t) ctx (on_table st) w Hctx) as (r & w' & E & Hr).
  apply (ran_map_ok (Conn t) ctx _ (fun _ => a)) in Hr.
  exists (match r with Ok _ => Ok a | Err e => Err e end), w'. split.
  - unfold bindE, exec. rewrite (bind_run _ _ _ _ _ E). by destruct r.
  - eapply ran_ext; [|exact Hr]. intros now s. unfold stmt_then, exec_of, map_ok, on_table.
    by destruct (st now (view s)) as [[[]]|].
Qed.

Definition marshaled (o : option Any) (none : string) : res error string :=
  match o with None => Ok none | Some d => json_Marshal d end.

Definition new_sql (token : string) (args : TokenArgs Any) (data : string)
    : Sql tokens_table unit :=
  insertToken token (a_Type args) (a_SingleUse args) (a_RefID args)
    (Z.quot (AbsoluteExpiry args) Second)
    (if negb (a_SingleUse args) && (0 <? IdleExpiry args)
     then Some (Z.quot (IdleExpiry args) Second) else None) data.

(** New returns the error of the JSON encoder without touching the database,
    and otherwise does one insertion, in the context's transaction or on its
    own, under a token made of the configured number of random bytes: on
    success it returns that token and the data; on failure there is no
    visible effect. *)
Lemma New_refines ctx args w :
  ctx_ok (Conn t) ctx ->
  exists r w', New rand_Read json_Marshal t ctx args w = (Ret r, w') /\
    match marshaled (a_Data args) "null" with
    | Err e => r = Err e /\ db w' = db w /\ visible (Conn t) ctx w' = visible (Conn t) ctx w
    | Ok data => exists token, generated token /\
        ran (Conn t) ctx (stmt_then (new_sql token args data) (token, data)) w r w'
    end.
Proof.
  intros Hctx. unfold New.
  destruct (generateNewToken_run ctx w Hctx) as (token & w1 & E & Hgen & Hc & Hdb & Hv).
  rewrite (bind_run _ _ _ _ _ E). fold (marshaled (a_Data args) "null").
  destruct (marshaled (a_Data args) "null") as [data|e]; [|by exists (Err e), w1].
  destruct (exec_then ctx (new_sql token args data) (token, data) w1 Hctx) as (r & w' & E2 & Hr).
  exists r, w'. split; [exact E2|]. exists token. split; [done|].
  by apply (ran_from _ _ _ w w1).
Qed.

Definition rotate_sql (newToken : string) (args : TokenArgs Any) (data : option string)
    (oldToken : string) : Sql tokens_table unit :=
  rotateToken newToken (a_RefID args) (Z.quot (AbsoluteExpiry args) Second)
    (if 0 <? IdleExpiry args then Some (Z.quot (IdleExpiry args) Second) else None) data oldToken.

(** Rotate, likewise: the error of the encoder, or one update of the old
    token's row under a freshly generated token, which is returned.  The token
    is returned whether or not a row was updated. *)
Lemma Rotate_refines ctx oldToken args w :
  ctx_ok (Conn t) ctx ->
  exists r w', Rotate rand_Read json_Marshal t ctx oldToken args w = (Ret r, w') /\
    match marshaled (a_Data args) EmptyString with
    | Err e => r = Err e /\ db w' = db w /\ visible (Conn t) ctx w' = visible (Conn t) ctx w
    | Ok data => exists token, generated token /\
        ran (Conn t) ctx (stmt_then (rotate_sql token args ((fun _ => data) <$> a_Data args) oldToken) token) w r w'
    end.
Proof.
  intros Hctx. unfold Rotate.
  destruct (generateNewToken_run ctx w Hctx) as (token & w1 & E & Hgen & Hc & Hdb & Hv).
  rewrite (bind_run _ _ _ _ _ E). unfold marshaled.
  destruct (a_Data args) as [d|]; [destruct (json_Marshal d) as [data|e]; [|by exists (Err e), w1]|].
  - destruct (exec_then ctx (rotate_sql token args (Some data) oldToken) token w1 Hctx)
      as (r & w' & E2 & Hr). exists r, w'. split; [exact E2|]. exists token. split; [done|].
    by apply (ran_from _ _ _ w w1).
  - destruct (exec_then ctx (rotate_sql token args None oldToken) token w1 Hctx)
      as (r & w' & E2 & Hr). exists r, w'. split; [exact E2|]. exists token. split; [done|].
    by apply (ran_from _ _ _ w w1).
Qed.

Lemma generated_length token : generated token -> char_length token = (4 * raw_size + 2) / 3.
Proof. intros (b & Hb & Hlen & ->). by rewrite char_length_Encode, Hlen. Qed.

(** The size limits of the table: with a RawTokenSize of 7 to 75 bytes, or
    the default, a generated token always satisfies the length constraint; with
    1 to 6 bytes or more than 75, New never succeeds, whatever its arguments. *)
Theorem New_size ctx args w r w' token :
  ctx_ok (Conn t) ctx -> New rand_Read json_Marshal t ctx args w = (Ret r, w') ->
  generated token ->
  if bool_decide (RawTokenSize t <= 0 \/ 7 <= RawTokenSize t <= 75)
  then 10 <= char_length token <= 100
  else exists e, r = Err e.
Proof.
  intros Hctx E Hgen. case_bool_decide as Hs.
  - rewrite (generated_length token Hgen). unfold raw_size, DefaultRawTokenSize.
    destruct (Z.leb_spec (RawTokenSize t) 0); [split; reflexivity || discriminate|].
    Z.to_euclidean_division_equations; lia.
  - destruct r as [[tok data]|e]; [exfalso|by exists e].
    unfold New in E.
    destruct (generateNewToken_run ctx w Hctx) as (token' & w1 & E1 & Hgen' & _).
    rewrite (bind_run _ _ _ _ _ E1) in E. fold (marshaled (a_Data args) "null") in E.
    destruct (marshaled (a_Data args) "null") as [data'|e]; [|done].
    destruct (exec_then ctx (new_sql token' args data') (token', data') w1 Hctx) as (r & w2 & E2 & Hr).
    change (bindE (exec t ctx (new_sql token' args data')) (fun _ => ret (Ok (token', data'))) w1
      = (Ret (Ok (tok, data)), w')) in E.
    rewrite E2 in E. injection E as -> ->. destruct Hr as (_ & _ & t0 & s & s' & _ & _ & _ & Hp).
    apply generated_length in Hgen'. unfold raw_size in Hgen'.
    destruct (Z.leb_spec (RawTokenSize t) 0) as [|Hpos]; [naive_solver lia|].
    assert (check_row_length : forall row, check_row token' row <> None).
    { intros row Hrow. unfold check_row in Hrow. rewrite Hgen' in Hrow.
      repeat case_in Hrow; try done.
      match goal with H : negb ((10 <=? _) && _) = false |- _ =>
        apply negb_false_iff, andb_true_iff in H as [H10%Z.leb_le H100%Z.leb_le] end.
      apply Hs. right. Z.to_euclidean_division_equations; lia. }
    unfold stmt_then, map_ok, on_table, new_sql, insertToken in Hp.
    destruct (negb _); [done|]. simpl in Hp.
    match type of Hp with context [check_row token' ?row] =>
      specialize (check_row_length row); by destruct (check_row token' row) end.
Qed.
End Refinement.

(** ** The life of a token *)

Lemma verify_sql_Some token now tbl r :
  tbl !! token = Some r -> valid_row now r = true ->
  exists tbl2, verify_sql token now tbl = Ok (to_Token token r, tbl2).
Proof. intros E V. unfold verify_sql. rewrite E, V. by eexists. Qed.

Lemma verify_sql_None token now tbl :
  tbl !! token = None -> verify_sql token now tbl = Err ErrInvalid.
Proof. intros E. unfold verify_sql. by rewrite E. Qed.

Lemma single_use_idle token r : row_ok token r -> r_single_use r = true -> r_idle r = None.
Proof.
  intros (Hc & _) Hs. unfold check_row in Hc. rewrite Hs, andb_true_r in Hc.
  case_bool_decide; [done|]. by simpl in Hc.
Qed.

(** C23. From New to Verify: until its expiry and idle time a new token verifies
    and gives back its type, reference id and expiry.  The data is that of the
    insertion, except that a single-use token that replaces another one keeps
    the data stored with the token it replaces; the replaced token never
    verifies. *)
Theorem New_Verify token ty su ref abs idle data t1 t2 tbl tbl1 :
  tokens_ok tbl ->
  insertToken token ty su ref abs idle data t1 tbl = Ok (tt, tbl1) ->
  t2 < seconds t1 abs -> (forall n, idle = Some n -> t2 < seconds t1 n) ->
  (exists tok tbl2, verify_sql token t2 tbl1 = Ok (tok, tbl2) /\
    t_Token tok = token /\ Type_ tok = ty /\ SingleUse tok = su /\ RefID tok = ref /\
    Expiry tok = seconds t1 abs /\
    Data tok = match (if su then find_single tbl ty ref else None) with
               | Some (_, r0) => r_data r0
               | None => data
               end) /\
  (forall old r0, su = true -> tbl !! old = Some r0 -> r_single_use r0 = true ->
     r_type r0 = ty -> r_ref_id r0 = ref -> old <> token ->
     forall t3, verify_sql old t3 tbl1 = Err ErrInvalid).
Proof.
  intros Hok. unfold insertToken. destruct (int4_ok idle); [simpl|done].
  set (row := {| r_type := ty |}). destruct (check_row token row) eqn:Hc; [done|].
  intros Hins Habs Hidle. apply Z.ltb_lt in Habs as Habs'.
  destruct (if su then find_single tbl ty ref else None) as [[old r0]|] eqn:Ef;
    apply write_row_spec in Hins as (_ & Hn & ->).
  - destruct su; [|done]. destruct (find_single_Some _ _ _ _ _ Ef) as (H0 & Hs0 & Ht0 & Hr0).
    split.
    + destruct (verify_sql_Some token t2 (<[token:=set_expiry (r_expiry row) r0]> (delete old tbl))
        (set_expiry (r_expiry row) r0)) as [tbl2 E2]; [by rewrite lookup_insert_eq| |].
      { unfold valid_row. simpl. rewrite Habs'.
        by rewrite (single_use_idle old r0 (proj1 Hok old r0 H0) Hs0). }
      do 2 eexists. split; [exact E2|]. by split_and!.
    + intros o r _ Ho Hs Ht Hr Hne t3. apply verify_sql_None.
      assert (o = old) as -> by (apply (proj2 Hok o old r r0); [done..|]; split_and!; congruence).
      by rewrite lookup_insert_ne, lookup_delete_eq.
  - split.
    + destruct (verify_sql_Some token t2 (<[token:=row]> tbl) row) as [tbl2 E2];
        [by rewrite lookup_insert_eq| |].
      { unfold valid_row. simpl. rewrite Habs'. destruct idle as [n|]; [|done]. simpl.
        by apply Z.ltb_lt, Hidle. }
      do 2 eexists. split; [exact E2|]. by split_and!.
    + intros o r -> Ho Hs Ht Hr _. by destruct (find_single_None _ _ _ _ _ Ef Ho).
Qed.

Lemma write_row_absent token old new row tbl u tbl' :
  token <> new -> tbl !! token = None -> write_row old new row tbl = Ok (u, tbl') ->
  tbl' !! token = None.
Proof.
  intros Hne Hn (_ & _ & ->)%write_row_spec. rewrite lookup_insert_ne by done.
  destruct old; [|done]. apply lookup_delete_None. by right.
Qed.

Lemma run_op_absent token o now tbl u tbl' :
  issues o <> Some token -> tbl !! token = None -> run_op o now tbl = Ok (u, tbl') ->
  tbl' !! token = None.
Proof.
  intros Hi Hn. destruct o; simpl in *.
  - unfold insertToken. intros H. repeat case_in H; try done;
      eapply write_row_absent; eauto; congruence.
  - unfold updateData. intros H. repeat case_in H; try done; injection H as _ <-; [|done].
    rewrite lookup_insert_ne; congruence.
  - unfold rotateToken. intros H. repeat case_in H; try done; try (by injection H as _ <-).
    eapply write_row_absent; eauto; congruence.
  - intros [= _ <-]. apply lookup_delete_None. by right.
  - intros [= _ <-]. apply map_lookup_filter_None. by left.
  - unfold resetIdleToken. intros H. repeat case_in H; injection H as _ <-; try done.
    rewrite lookup_insert_ne; congruence.
  - intros [= _ <-]. apply map_lookup_filter_None. by left.
Qed.

(** A token that no statement issues stays absent. *)
Lemma apply_ops_absent token tbl ops :
  Forall (fun o => issues o.2 <> Some token) ops -> tbl !! token = None -> apply_ops tbl ops !! token = None.
Proof.
  intros Hops. revert tbl. induction Hops as [|[t0 o] ops Hi _ IH]; intros tbl Hn; [done|].
  simpl. apply IH. unfold apply_op. simpl in *.
  destruct (run_op o t0 tbl) as [[u tbl']|e] eqn:E; [|done]. by eapply run_op_absent.
Qed.

Section Once.
Context {W DB : Type} `{!Lens DB tokens_table}.
Context (t : Tokens W DB) (env : Env W).
Context {TL : TxLaws (conn_beginTxer (Conn t)) DB} {SL : SqlLaws (Conn t)}.
Context {EL : EnvLaws env (conn_beginTxer (Conn t))}.
Local Notation Ctx := (Ctx W (Sql DB)).

(** A call of Verify that returns a single-use token takes its row away. *)
Lemma Verify_consumes (ctx : Ctx) token vfn w tok w' :
  ctx_ok (Conn t) ctx -> Verify env t ctx token vfn w = (Ret (Ok tok), w') -> SingleUse tok = true ->
  exists s', visible (Conn t) ctx w' = Some s' /\ (view s' : tokens_table) !! token = None.
Proof.
  intros Hctx E Hsu. destruct (Verify_run t env ctx token vfn w Hctx) as (r & w1 & E1 & Hran).
  rewrite E1 in E. injection E as Er ->. destruct r as [tok'|e]; [|done].
  assert (tok' = tok) as -> by (unfold accept in Er; repeat case_in Er; congruence).
  destruct Hran as (_ & _ & t0 & s & s' & _ & _ & Hs' & Hp). exists s'. split; [done|].
  unfold on_table, verify_sql in Hp. repeat case_in Hp; try done; simplify_eq; rewrite view_update.
  - apply lookup_delete_eq.
  - simpl in Hsu. congruence.
  - simpl in Hsu. congruence.
Qed.

(** A call of Verify that finds no row of the token fails: with ErrInvalid or
    for a failure of the driver. *)
Lemma Verify_absent (ctx : Ctx) token vfn w s :
  ctx_ok (Conn t) ctx -> visible (Conn t) ctx w = Some s -> (view s : tokens_table) !! token = None ->
  exists e w', Verify env t ctx token vfn w = (Ret (Err e), w') /\
    (Is (Some e) ErrInvalid = true \/ Sql.fault (Conn t) e).
Proof.
  intros Hctx Hs Hn. destruct (Verify_run t env ctx token vfn w Hctx) as (r & w' & E & Hran).
  pose proof (verify_origin t _ _ _ _ _ Hran) as Horig. destruct r as [tok|e].
  - exfalso. destruct Hran as (_ & _ & t0 & s0 & s' & _ & Hs0 & _ & Hp). same Hs Hs0.
    unfold on_table in Hp. by rewrite verify_sql_None in Hp.
  - exists e, w'. split; [done|]. destruct Horig as (e0 & Hcb & [[Hf _]|[_ Hi]]); [right; by exists e0|by left].
Qed.

(** C21. A single-use token is used at most once: after a call of Verify that
    returned it, in whatever transaction, every later call of Verify on that
    token fails, with ErrInvalid or for a failure of the driver, and never
    returns it, whatever the validations are and whatever statements on tokens
    took the table from the state that the first call left to the one that the
    second finds, as long as none of them issues the same token again. *)
Theorem Verify_once (ctx ctx' : Ctx) token vfn vfn' w tok w1 s1 ops w2 s2 :
  ctx_ok (Conn t) ctx -> ctx_ok (Conn t) ctx' ->
  Verify env t ctx token vfn w = (Ret (Ok tok), w1) -> SingleUse tok = true ->
  visible (Conn t) ctx w1 = Some s1 -> visible (Conn t) ctx' w2 = Some s2 ->
  Forall (fun o => issues o.2 <> Some token) ops ->
  (view s2 : tokens_table) = apply_ops (view s1) ops ->
  exists e w3, Verify env t ctx' token vfn' w2 = (Ret (Err e), w3) /\
    (Is (Some e) ErrInvalid = true \/ Sql.fault (Conn t) e).
Proof.
  intros Hctx Hctx' E Hsu Hs1 Hs2 Hops Hv. apply (Verify_absent ctx' token vfn' w2 s2); [done..|].
  destruct (Verify_consumes ctx token vfn w tok w1 Hctx E Hsu) as (s & Hs & Hn). same Hs Hs1.
  rewrite Hv. by apply apply_ops_absent.
Qed.
End Once.

(** C25. Cleanup deletes exactly the tokens whose absolute expiry has passed, and
    changes no answer of Verify from then on: it never deletes a token that
    could still be accepted.  (A token past its idle time alone stays.) *)
Theorem Cleanup_safe now tbl :
  exists tbl', cleanupTokens now tbl = Ok (tt, tbl') /\
    (forall token r, tbl' !! token = Some r <-> tbl !! token = Some r /\ now <= r_expiry r) /\
    forall token now', now <= now' ->
      match verify_sql token now' tbl, verify_sql token now' tbl' with
      | Ok (tok, _), Ok (tok', _) => tok = tok'
      | Err e, Err e' => e = e'
      | _, _ => False
      end.
Proof.
  unfold cleanupTokens. eexists. split; [reflexivity|].
  assert (forall token r, filter (fun p => ~ r_expiry p.2 < now) tbl !! token = Some r <->
    tbl !! token = Some r /\ now <= r_expiry r) as Hf.
  { intros token r. rewrite map_lookup_filter_Some. simpl. by rewrite Z.nlt_ge. }
  split; [exact Hf|]. intros token now' Hle. unfold verify_sql.
  destruct (tbl !! token) as [r|] eqn:Er.
  - destruct (Z.le_gt_cases now (r_expiry r)) as [Hv|Hv].
    + rewrite (proj2 (Hf token r) (conj Er Hv)). by destruct (valid_row now' r).
    + assert (valid_row now' r = false) as -> by
        (unfold valid_row; apply andb_false_iff; left; apply Z.ltb_ge; lia).
      destruct (filter _ tbl !! token) as [r'|] eqn:Ef; [|done].
      apply Hf in Ef as [Ef ?]. assert (r' = r) as -> by congruence. lia.
  - destruct (filter _ tbl !! token) as [r'|] eqn:Ef; [|done].
    apply Hf in Ef as [Ef ?]. congruence.
Qed.

(** Rotate on the table: a multi-use token moves to the new token, with its
    type and creation time, the new reference id, times and (if given) data;
    from then on the old token does not verify and the new one does until its
    times pass.  For an unknown or single-use token nothing changes, and
    the new token, unless it is already in use, never verifies. *)
Theorem Rotate_Verify new ref abs idle data old t1 t2 tbl tbl1 :
  rotateToken new ref abs idle data old t1 tbl = Ok (tt, tbl1) -> old <> new ->
  match tbl !! old with
  | Some r =>
      if r_single_use r then tbl1 = tbl else
      verify_sql old t2 tbl1 = Err ErrInvalid /\
      (t2 < seconds t1 abs -> (forall n, idle = Some n -> t2 < seconds t1 n) ->
       exists tok tbl2, verify_sql new t2 tbl1 = Ok (tok, tbl2) /\
         Type_ tok = r_type r /\ RefID tok = ref /\ Expiry tok = seconds t1 abs /\
         SingleUse tok = false /\ Data tok = default (r_data r) data)
  | None => tbl1 = tbl
  end /\
  (match tbl !! old with Some r => r_single_use r | None => true end = true ->
   tbl !! new = None -> verify_sql new t2 tbl1 = Err ErrInvalid).
Proof.
  unfold rotateToken. destruct (tbl !! old) as [r|] eqn:Er;
    [|intros [= <-] _; split; [done|intros _; apply verify_sql_None]].
  destruct (r_single_use r) eqn:Es; [intros [= <-] _; split; [done|intros _; apply verify_sql_None]|].
  destruct (int4_ok idle); [simpl|done]. set (row := {| r_type := r_type r |}).
  intros (_ & Hn & ->)%write_row_spec Hne. split; [|done]. split.
  { apply verify_sql_None. rewrite lookup_insert_ne by done. apply lookup_delete_eq. }
  intros Habs Hidle. apply Z.ltb_lt in Habs as Habs'.
  destruct (verify_sql_Some new t2 (<[new:=row]> (delete old tbl)) row) as [tbl2 E2];
    [by rewrite lookup_insert_eq| |].
  { unfold valid_row. simpl. rewrite Habs'. destruct idle as [n|]; [|done]. simpl.
    by apply Z.ltb_lt, Hidle. }
  do 2 eexists. split; [exact E2|]. by split_and!.
Qed.

(** ** Witnesses *)

(** Random bytes of the reference database: a counter. *)
Definition model_rand {S} (n : Z) : go (world S) (list Z) := fun w =>
  (Ret ((fun i => Z.of_nat i mod 256) <$> seq 0 (Z.to_nat n)), w).

#[export] Instance model_RandLaws {S} (s0 : S) :
  RandLaws (TxLaws0 := model_TxLaws s0) model_btx model_rand.
Proof.
  split. intros n w Hn. do 2 eexists. split; [reflexivity|]. split_and!; try done.
  - rewrite length_fmap, length_seq. lia.
  - apply Forall_fmap, Forall_forall. intros i _. simpl. apply Z.mod_pos_bound. lia.
Qed.

Definition ex_tokens : Tokens (world tokens_table) tokens_table :=
  {| Conn := model_conn; RawTokenSize := 0 |}.
Definition ex_marshal (s : string) : res error string := Ok s.
Definition ex_args : TokenArgs string :=
  {| a_Type := "pwdreset"; a_RefID := 7%N; a_SingleUse := true;
     AbsoluteExpiry := 60 * Second; IdleExpiry := 0; a_Data := Some "{}"%string |}.
Definition ex_old_row : token_row :=
  {| r_type := "pwdreset"; r_single_use := true; r_ref_id := 7%N; r_expiry := 100000000;
     r_idle := None; r_idle_duration := None; r_data := "1"; r_created := 0 |}.
Definition ex_session_row : token_row :=
  {| r_type := "session"; r_single_use := false; r_ref_id := 7%N; r_expiry := 100000000;
     r_idle := Some 10000000; r_idle_duration := Some 10; r_data := "null"; r_created := 0 |}.
Definition ex_table : tokens_table :=
  <["0123456789"%string := ex_old_row]> {["abcdefghij"%string := ex_session_row]}.

Lemma ex_table_ok : tokens_ok ex_table.
Proof.
  assert (tokens_ok ∅) as H0 by (split; intros *; by rewrite lookup_empty).
  unfold ex_table. apply tokens_ok_insert; [|by split_and!|].
  - apply tokens_ok_insert; [done|by split_and!|]. intros t r _. by rewrite lookup_empty.
  - intros t r _ [<- <-]%lookup_singleton_Some (Hs & _). done.
Qed.

Example Verify_refines_witness :
  ctx_ok (TL := model_TxLaws ex_table) model_conn no_ctx /\
  exists r w', Verify model_env ex_tokens no_ctx "0123456789" None (start ex_table) =
      (Ret (match r with Ok tok => accept None tok | Err e => Err e end), w') /\
    ran (TL := model_TxLaws ex_table) model_conn no_ctx (on_table (verify_sql "0123456789"))
      (start ex_table) r w' /\
    match r with
    | Ok tok => t_Token tok = "0123456789"%string
    | Err e => exists e0, caused_by (TL := model_TxLaws ex_table) model_conn e0 e /\
        ((model_faulty e0 /\ Is (Some e) ErrInvalid = false) \/
         (e0 = ErrInvalid /\ Is (Some e) ErrInvalid = true))
    end.
Proof.
  split; [exact I|].
  exact (Verify_refines ex_tokens model_env (TL := model_TxLaws ex_table)
    (SL := model_SqlLaws ex_table) (EL := model_EnvLaws ex_table) no_ctx "0123456789" None
    (start ex_table) I).
Defined.

Example New_refines_witness :
  ctx_ok (TL := model_TxLaws ex_table) model_conn no_ctx /\
  exists r w', New model_rand ex_marshal ex_tokens no_ctx ex_args (start ex_table) = (Ret r, w') /\
    exists token, generated ex_tokens token /\
      ran (TL := model_TxLaws ex_table) model_conn no_ctx
        (stmt_then (new_sql token ex_args "{}") (token, "{}"%string)) (start ex_table) r w'.
Proof.
  split; [exact I|].
  exact (New_refines ex_tokens (TL := model_TxLaws ex_table) (SL := model_SqlLaws ex_table)
    model_rand (RL := model_RandLaws ex_table) ex_marshal no_ctx ex_args (start ex_table) I).
Defined.

Example Rotate_refines_witness :
  ctx_ok (TL := model_TxLaws ex_table) model_conn no_ctx /\
  exists r w', Rotate model_rand ex_marshal ex_tokens no_ctx "abcdefghij" ex_args (start ex_table)
      = (Ret r, w') /\
    exists token, generated ex_tokens token /\
      ran (TL := model_TxLaws ex_table) model_conn no_ctx
        (stmt_then (rotate_sql token ex_args (Some "{}"%string) "abcdefghij") token)
        (start ex_table) r w'.
Proof.
  split; [exact I|].
  exact (Rotate_refines ex_tokens (TL := model_TxLaws ex_table) (SL := model_SqlLaws ex_table)
    model_rand (RL := model_RandLaws ex_table) ex_marshal no_ctx "abcdefghij" ex_args
    (start ex_table) I).
Defined.

Definition ex_short : Tokens (world tokens_table) tokens_table :=
  {| Conn := model_conn; RawTokenSize := 6 |}.
Definition ex_short_new := New model_rand ex_marshal ex_short no_ctx ex_args (start ex_table).
Definition ex_short_result : res error (string * string) := Err (check_violation "chk_token_length").

Lemma ex_short_run :
  New model_rand ex_marshal ex_short no_ctx ex_args (start ex_table) =
  (Ret ex_short_result, snd ex_short_new).
Proof.
  assert (fst ex_short_new = Ret ex_short_result) as <- by (vm_compute; reflexivity).
  unfold ex_short_new. apply surjective_pairing.
Qed.

Example New_size_witness : exists e, ex_short_result = Err e.
Proof.
  refine (New_size ex_short (TL := model_TxLaws ex_table) (SL := model_SqlLaws ex_table)
    model_rand (RL := model_RandLaws ex_table) ex_marshal no_ctx ex_args (start ex_table)
    ex_short_result (snd ex_short_new) (EncodeToString [0; 1; 2; 3; 4; 5]) I ex_short_run _).
  exists [0; 1; 2; 3; 4; 5]. split_and!; [|reflexivity|reflexivity].
  repeat (constructor; [lia|]). constructor.
Defined.

Example EncodeToString_inj_witness :
  bytes [255; 0; 127] /\ EncodeToString [255; 0; 127] = "_wB_"%string /\
  (EncodeToString [255; 0; 127] = EncodeToString [255; 0; 127] -> [255; 0; 127] = [255; 0; 127]).
Proof.
  assert (bytes [255; 0; 127]) as Hb by (repeat (constructor; [lia|]); constructor).
  split; [exact Hb|]. split; [vm_compute; reflexivity|].
  intros E. exact (EncodeToString_inj [255; 0; 127] [255; 0; 127] Hb Hb E).
Defined.

(** The replacement of a single-use token keeps the old data "1". *)
Example New_Verify_witness :
  exists tbl1, insertToken "ABCDEFGHIJ" "pwdreset" true 7%N 60 None "{}" 0 ex_table = Ok (tt, tbl1) /\
  (exists tok tbl2, verify_sql "ABCDEFGHIJ" 1000 tbl1 = Ok (tok, tbl2) /\
    t_Token tok = "ABCDEFGHIJ"%string /\ Type_ tok = "pwdreset"%string /\ SingleUse tok = true /\
    RefID tok = 7%N /\ Expiry tok = 60000000 /\ Data tok = "1"%string) /\
  (forall old r0, true = true -> ex_table !! old = Some r0 -> r_single_use r0 = true ->
     r_type r0 = "pwdreset"%string -> r_ref_id r0 = 7%N -> old <> "ABCDEFGHIJ"%string ->
     forall t3, verify_sql old t3 tbl1 = Err ErrInvalid).
Proof.
  eexists. split; [vm_compute; reflexivity|].
  apply (New_Verify "ABCDEFGHIJ" "pwdreset" true 7%N 60 None "{}" 0 1000 ex_table);
    [exact ex_table_ok|vm_compute; reflexivity|reflexivity|discriminate].
Defined.

(** The token is verified once; then the idle time of another is restarted,
    and the token is verified again, for another type. *)
Definition ex_once := Verify model_env ex_tokens no_ctx "0123456789" None (start ex_table).
Definition ex_once_token : Token := to_Token "0123456789" ex_old_row.
Definition ex_between : list (Z * table_op) := [(6, OpResetIdle "abcdefghij")].
Definition ex_once_table : tokens_table := w_db (snd ex_once).
Definition ex_again_world := start (apply_ops ex_once_table ex_between).

Lemma ex_once_run :
  Verify model_env ex_tokens no_ctx "0123456789" None (start ex_table) = (Ret (Ok ex_once_token), snd ex_once).
Proof.
  assert (fst ex_once = Ret (Ok ex_once_token)) as <- by (vm_compute; reflexivity).
  unfold ex_once. apply surjective_pairing.
Qed.

Example Verify_once_witness :
  fst ex_once = Ret (Ok ex_once_token) /\ SingleUse ex_once_token = true /\
  exists e w3, Verify model_env ex_tokens no_ctx "0123456789" (Some (MustMatchType "session")) ex_again_world
      = (Ret (Err e), w3) /\
    (Is (Some e) ErrInvalid = true \/ Sql.fault (TL := model_TxLaws ex_table) model_conn e).
Proof.
  split; [vm_compute; reflexivity|]. split; [reflexivity|].
  apply (Verify_once ex_tokens model_env (TL := model_TxLaws ex_table) (SL := model_SqlLaws ex_table)
    (EL := model_EnvLaws ex_table) no_ctx no_ctx "0123456789" None (Some (MustMatchType "session")) (start ex_table)
    ex_once_token (snd ex_once) ex_once_table ex_between ex_again_world (apply_ops ex_once_table ex_between)
    I I ex_once_run); [reflexivity|reflexivity|reflexivity|repeat constructor; discriminate|reflexivity].
Defined.

Example Rotate_Verify_witness :
  exists tbl1, rotateToken "ABCDEFGHIJ" 7%N 60 (Some 5) None "abcdefghij" 0 ex_table = Ok (tt, tbl1) /\
  verify_sql "abcdefghij" 1000 tbl1 = Err ErrInvalid /\
  exists tok tbl2, verify_sql "ABCDEFGHIJ" 1000 tbl1 = Ok (tok, tbl2) /\
    Type_ tok = "session"%string /\ RefID tok = 7%N /\ Expiry tok = 60000000 /\
    SingleUse tok = false /\ Data tok = "null"%string.
Proof.
  eexists. split; [vm_compute; reflexivity|].
  destruct (Rotate_Verify "ABCDEFGHIJ" 7%N 60 (Some 5) None "abcdefghij" 0 1000 ex_table _ eq_refl)
    as [[Hold Hnew] _]; [discriminate|].
  split; [exact Hold|]. apply Hnew; [reflexivity|by intros n [= <-]].
Defined.
