(* ===== verification/Race.v ===== *)
(** * Race: the operations of Tokens on a database with concurrent transactions

    Several clients call Verify on one PostgreSQL table, each in a transaction of
    its own, and their statements interleave.  A client is the definition of
    Tokens itself, run on the replay driver of Clients against its server. *)

From Stdlib Require Import ZArith String Lia.
From stdpp Require Import fin_maps relations.
From S2P Require Import Prelude Errors Pgdb Sql PgModel Clients Tokens.

(** ** A client *)

Local Notation request := (request tokens_table).
Local Notation answer := (answer tokens_table).
Local Notation replay := (replay tokens_table).
Local Notation next := (next tokens_table (res error Token)).
Local Notation replay_tx := (replay_tx (fun A => @replay_run tokens_table A)).
Local Notation replay_conn := (replay_conn (fun A => @replay_run tokens_table A)).
Local Notation replay_ctx := (@replay_ctx tokens_table (Sql tokens_table)).
Local Notation writes := (writes_of string token_row).
Local Notation txn := (txn string token_row).
Local Notation server := (server string token_row).
Local Notation system := (system string token_row).
#[export] Instance token_row_eq_dec : EqDecision token_row.
Proof. solve_decision. Defined.

Definition replay_tokens : Tokens replay tokens_table := {| Conn := replay_conn; RawTokenSize := 0 |}.

(** What a client that verifies [token] does after the answers [l]. *)
Definition client (token : string) (l : list answer) : next :=
  next_of (Verify replay_env replay_tokens replay_ctx token None (mk l)).

(** The request of a statement. *)
Definition stmt_request (st : Sql tokens_table unit) : request := request_of (on_table st).
Definition read_request (k : string) : request := request_of (on_table (getToken k)).

(** What the query finds. *)
Definition found (k : string) (now : Z) (tbl : tokens_table) : option token_row :=
  match tbl !! k with Some r => if valid_row now r then Some r else None | None => None end.

Lemma getToken_found k now tbl : getToken k now tbl = Ok (to_Token k <$> found k now tbl, tbl).
Proof. unfold getToken, found. destruct (tbl !! k) as [r|]; [|done]. by destruct (valid_row now r). Qed.

(** ** The phases of a client

    [Failing]: it rolls back and ends with an error.  [Multi]: it found a token
    that is not for a single use. *)
Inductive phase := Fresh | Open | Reading | Deleted | Committed | Failing | Multi.

Definition advance (k : string) (p : phase) (x : answer) : phase :=
  match p, x with
  | Fresh, ADone => Open
  | Open, ARan t s =>
      match found k t s with Some r => if r_single_use r then Reading else Multi | None => Failing end
  | Reading, ARan _ _ => Deleted
  | Deleted, ADone => Committed
  | Committed, _ => Committed
  | Multi, _ => Multi
  | _, _ => Failing
  end.
Definition phase_of (k : string) (l : list answer) : phase := foldl (advance k) Fresh l.

Definition does (k : string) (p : phase) (n : next) : Prop :=
  match p with
  | Fresh => n = Asks RBegin
  | Open => n = Asks (read_request k)
  | Reading => n = Asks (stmt_request (deleteToken k))
  | Deleted => n = Asks RCommit
  | Committed => n = Asks RRollback \/ (exists tok, n = Finished (Ok tok)) \/ n = Stuck
  | Failing => n = Asks RRollback \/ (exists e, n = Finished (Err e)) \/ n = Stuck
  | Multi => True
  end.

(** A client is the transaction of Verify, without retries. *)
Lemma client_doTx k l :
  client k l = next_of (doTx replay_ctx (conn_beginTxer replay_conn) None (verify_fn replay_tokens k) (mk l)).
Proof.
  unfold client, Verify, EnsureTx, Tx, bindE. cbn [ctxTx Clients.replay_ctx tx_loop txOpts ctxTxOpts txSqlOpts txRetry andb].
  unfold bind at 1 2. fold (mk l). change (Conn replay_tokens) with replay_conn.
  by destruct (doTx _ _ _ _ (mk l)) as [[[tok|e]|v] w].
Qed.

(** The end of a transaction, by what its function did. *)
Definition ended (k : string) (x : outcome (res error Token) * replay) (n : next) : Prop :=
  match x with
  | (Ret (Ok tok), w) => forall l, w = mk l ->
      match l with [] => does k Deleted n | ADone :: _ => does k Committed n | _ => does k Failing n end
  | (Ret (Err _), w) => forall l, w = mk l -> does k Failing n
  | (Panicked _, w) => match rp_asked w with
      | Some q => n = Asks q
      | None => forall l, w = mk l -> does k Failing n
      end
  end.

(** The answer to BEGIN runs the function, and then the end of the transaction. *)
Lemma doTx_run (fn : Ctx replay (Sql tokens_table) -> Txer replay (Sql tokens_table) -> go replay (res error Token)) l :
  doTx replay_ctx (conn_beginTxer replay_conn) None fn (mk (ADone :: l)) =
  defer (bind (Rollback replay_tx) (fun _ => ret tt))
    (bind (fn (setCtxTx replay_ctx replay_tx) replay_tx) (fun r => match r with
       | Err err => bind (Rollback replay_tx) (fun rberr => ret (Err (joined err rberr)))
       | Ok a => bind (Commit replay_tx) (fun err => ret (nil_or err a))
       end)) (mk l).
Proof. done. Qed.

Lemma in_tx k (fn : Ctx replay (Sql tokens_table) -> Txer replay (Sql tokens_table) -> go replay (res error Token)) l :
  ended k (fn (setCtxTx replay_ctx replay_tx) replay_tx (mk l))
    (next_of (doTx replay_ctx (conn_beginTxer replay_conn) None fn (mk (ADone :: l)))).
Proof.
  rewrite doTx_run. set (m := fn (setCtxTx replay_ctx replay_tx) replay_tx).
  unfold defer, bind. destruct (m (mk l)) as [[[tok|e]|v] w]; simpl.
  - intros l' ->. destruct l' as [|[|? ?|?] [|[|? ?|?] l']]; simpl;
      first [reflexivity | left; reflexivity | right; left; eexists; reflexivity | right; right; reflexivity].
  - intros l' ->. destruct l' as [|[|? ?|?] [|[|? ?|?] l']]; simpl;
      first [reflexivity | left; reflexivity | right; left; eexists; reflexivity | right; right; reflexivity].
  - destruct w as [l' [q|]]; simpl; [done|]. intros ? [= ->].
    destruct l0 as [|[|? ?|?] l0]; simpl; 
      first [reflexivity | left; reflexivity | right; left; eexists; reflexivity | right; right; reflexivity].
Qed.

Ltac settles := first [reflexivity | left; reflexivity | right; left; eexists; reflexivity | right; right; reflexivity].

Lemma read_run k t s l :
  QueryOne (tx_queryer replay_tx) (on_table (getToken k)) (mk (ARan t s :: l)) =
  (Ret (one_row (Ok (to_Token k <$> found k t s))), mk l).
Proof.
  assert (forall st : Sql tokens_table (option Token), QueryOne (tx_queryer replay_tx) st (mk (ARan t s :: l)) =
    (Ret (one_row (match st t s with Ok (a, _) => Ok a | Err e => Err e end)), mk l)) as ->.
  { intros st. unfold QueryOne, bind. simpl. unfold replay_run, bind. simpl. by destruct (st t s) as [[[] ?]|]. }
  unfold on_table. by rewrite getToken_found.
Qed.

(** The function of Verify on the answers to its statements. *)
Lemma verify_fn_read k l :
  let m := verify_fn replay_tokens k (setCtxTx replay_ctx replay_tx) replay_tx in
  match l with
  | [] => m (mk l) = (Panicked stopped, {| rp_answers := []; rp_asked := Some (read_request k) |})
  | ARan t s :: l' =>
      match found k t s with
      | None => exists e, m (mk l) = (Ret (Err e), mk l')
      | Some r =>
          if r_single_use r then
            match l' with
            | [] => m (mk l) = (Panicked stopped, {| rp_answers := []; rp_asked := Some (stmt_request (deleteToken k)) |})
            | ARan _ _ :: l2 => exists tok, m (mk l) = (Ret (Ok tok), mk l2)
            | AFail e :: l2 => m (mk l) = (Ret (Err e), mk l2)
            | ADone :: l2 => exists v, m (mk l) = (Panicked v, mk l2)
            end
          else True
      end
  | AFail _ :: l' => exists e, m (mk l) = (Ret (Err e), mk l')
  | ADone :: l' => exists v, m (mk l) = (Panicked v, mk l')
  end.
Proof.
  intros m. destruct l as [|[|t s|e] l]; [reflexivity|by eexists| |].
  - assert (Hm : m (mk (ARan t s :: l)) = match one_row (Ok (to_Token k <$> found k t s)) with
      | Err err => if Is (Some err) ErrNoRows then (Ret (Err ErrInvalid), mk l) else (Ret (Err err), mk l)
      | Ok tok => if SingleUse tok then bindE (Tokens.Delete replay_tokens (setCtxTx replay_ctx replay_tx) k)
            (fun _ => ret (Ok tok)) (mk l)
          else m (mk (ARan t s :: l))
      end).
    { unfold m, verify_fn at 1. rewrite (bind_run _ _ _ _ _ (read_run k t s l)).
      destruct (found k t s) as [r|] eqn:Ef; simpl; [|done]. destruct (r_single_use r) eqn:Es; [done|].
      unfold m, verify_fn. rewrite (bind_run _ _ _ _ _ (read_run k t s l)), Ef. simpl. by rewrite Es. }
    destruct (found k t s) as [r|]; [destruct (r_single_use r) eqn:Es; [|done]|]; rewrite Hm; simpl.
    + rewrite Es. destruct l as [|[|? ?|?] l]; try eexists; reflexivity.
    + exists ErrInvalid. reflexivity.
  - unfold m, verify_fn, QueryOne. simpl. unfold bind, replay_run, bind. simpl.
    destruct (AsType (same_target ErrNoRows) e); eexists; reflexivity.
Qed.

Lemma client_does k l : does k (phase_of k l) (client k l).
Proof.
  assert (Hend : forall p l, p = Committed \/ p = Failing \/ p = Multi -> foldl (advance k) p l = p).
  { intros p l' Hp. induction l' as [|x l' IH]; [done|]. simpl. destruct Hp as [->|[->| ->]]; apply IH. }
  rewrite client_doTx. unfold phase_of.
  destruct l as [|[|t s|e] l]; [reflexivity| |simpl; rewrite Hend by auto; simpl; settles..].
  pose proof (in_tx k (verify_fn replay_tokens k) l) as H. pose proof (verify_fn_read k l) as Hr. cbv zeta in Hr.
  simpl foldl. destruct l as [|[|t s|e] l].
  - rewrite Hr in H. exact H.
  - destruct Hr as [v Hr]. rewrite Hr in H. simpl. rewrite Hend by auto. by eapply H.
  - simpl. destruct (found k t s) as [r|]; [destruct (r_single_use r)|].
    + destruct l as [|[|t2 s2|e] l].
      * rewrite Hr in H. exact H.
      * destruct Hr as [v Hr]. rewrite Hr in H. simpl. rewrite Hend by auto. by eapply H.
      * destruct Hr as [tok Hr]. rewrite Hr in H. specialize (H l eq_refl).
        destruct l as [|[] l]; simpl; [exact H|rewrite Hend by auto; exact H..].
      * rewrite Hr in H. simpl. rewrite Hend by auto. by eapply H.
    + by rewrite Hend by auto.
    + destruct Hr as [e Hr]. rewrite Hr in H. rewrite Hend by auto. by eapply H.
  - destruct Hr as [e' Hr]. rewrite Hr in H. simpl. rewrite Hend by auto. by eapply H.
Qed.

(** ** Clients that verify one token *)

(** One answer to a client, the passing of time, and anything else that happens
    to the table: for the row of the token, nothing or its deletion, when no
    transaction holds it. *)
Inductive sys_step (snapshots : bool) (k : string) : system -> system -> Prop :=
| step_client s i q x sv : client k (clients s i) = Asks q -> served snapshots i q (srv s) x sv ->
    sys_step snapshots k s {| srv := sv; clients := upd i (clients s i ++ [x]) (clients s) |}
| step_time s d : 0 <= d ->
    sys_step snapshots k s {| srv := {| committed := committed (srv s); time := time (srv s) + d;
      open_txs := open_txs (srv s) |}; clients := clients s |}
| step_other s tbl : tbl !! k = committed (srv s) !! k \/
      (tbl !! k = None /\ forall j y, open_txs (srv s) !! j = Some y -> x_writes y !! k = None) ->
    sys_step snapshots k s {| srv := {| committed := tbl; time := time (srv s);
      open_txs := open_txs (srv s) |}; clients := clients s |}.

Definition start_system (tbl : tokens_table) (now : Z) : system := start_at tbl now.

(** The client got the token. *)
Definition accepted (k : string) (s : system) (i : nat) : Prop :=
  exists tok, client k (clients s i) = Finished (Ok tok).

(** ** With snapshots a token is consumed once *)

Section Once.
Context (k : string).

(** What is known of a client in a phase, from its open transaction [o] and the
    committed row [c] of the token. *)
Definition tied (p : phase) (o : option txn) (c : option token_row) : Prop :=
  match p with
  | Fresh => o = None
  | Open | Failing => forall x, o = Some x -> x_writes x !! k = None
  | Reading => forall x, o = Some x -> x_writes x !! k = None /\
      exists b, x_snapshot x = Some b /\ is_Some (b !! k)
  | Deleted => forall x, o = Some x -> x_writes x !! k = Some None /\ is_Some c
  | Committed => o = None /\ c = None
  | Multi => False
  end.

Definition phase_in (s : system) (i : nat) : phase := phase_of k (clients s i).
Definition single (o : option token_row) : Prop := forall r, o = Some r -> r_single_use r = true.

Record inv (s : system) : Prop := {
  inv_single : single (committed (srv s) !! k);
  inv_snapshot : forall i x b, open_txs (srv s) !! i = Some x -> x_snapshot x = Some b -> single (b !! k);
  inv_tied : forall i, tied (phase_in s i) (open_txs (srv s) !! i) (committed (srv s) !! k);
  inv_lock : forall i j x y, i <> j -> open_txs (srv s) !! i = Some x -> open_txs (srv s) !! j = Some y ->
    is_Some (x_writes x !! k) -> x_writes y !! k = None;
  inv_once : forall i j, phase_in s i = Committed -> phase_in s j = Committed -> i = j;
}.

Lemma inv_start tbl now : single (tbl !! k) -> inv (start_system tbl now).
Proof. intros Hs. split; simpl; try done; intros *; rewrite ?lookup_empty; done. Qed.

(** An answer to the client [i] that leaves the committed row of the token, and
    gives the client the transaction [o] and the phase [p]. *)
Lemma inv_answer s i x o sv p :
  inv s -> committed sv !! k = committed (srv s) !! k ->
  open_txs sv = partial_alter (fun _ => o) i (open_txs (srv s)) ->
  advance k (phase_in s i) x = p -> (p = Committed -> phase_in s i = Committed) ->
  tied p o (committed (srv s) !! k) ->
  (forall y, o = Some y -> (forall b, x_snapshot y = Some b -> single (b !! k)) /\
     (is_Some (x_writes y !! k) -> forall j z, j <> i -> open_txs (srv s) !! j = Some z -> x_writes z !! k = None) /\
     (x_writes y !! k = None \/ forall j z, j <> i -> open_txs (srv s) !! j = Some z -> x_writes z !! k = None)) ->
  inv {| srv := sv; clients := upd i (clients s i ++ [x]) (clients s) |}.
Proof.
  intros Hi Hc Ho Hp Hcom Ht Hy.
  assert (Hph : forall j, phase_in {| srv := sv; clients := upd i (clients s i ++ [x]) (clients s) |} j =
    if decide (j = i) then p else phase_in s j).
  { intros j. unfold phase_in, upd. simpl. destruct (decide (j = i)) as [->|]; [|done].
    unfold phase_of. rewrite foldl_app. simpl. done. }
  assert (Hop : forall j, open_txs sv !! j = if decide (j = i) then o else open_txs (srv s) !! j).
  { intros j. rewrite Ho. destruct (decide (j = i)) as [->|]; [by rewrite lookup_partial_alter_eq|].
    by rewrite lookup_partial_alter_ne. }
  split; simpl.
  - rewrite Hc. apply Hi.
  - intros j y b. rewrite Hop. destruct (decide (j = i)) as [->|]; [|apply Hi]. intros ->. by apply Hy.
  - intros j. rewrite Hph, Hop, Hc. destruct (decide (j = i)); [done|apply Hi].
  - intros j1 j2 y z Hne. rewrite !Hop. destruct (decide (j1 = i)) as [->|], (decide (j2 = i)) as [->|]; try done.
    + intros -> Hz Hw. destruct (Hy y eq_refl) as (_ & Hl & _). by apply (Hl Hw j2 z).
    + intros Hy1 -> Hw. destruct (Hy z eq_refl) as (_ & _ & [?|Hl]); [done|].
      rewrite (Hl j1 y) in Hw by done. by destruct Hw.
    + intros Hy1 Hz. by apply (inv_lock s Hi j1 j2 y z).
  - intros j1 j2. rewrite !Hph. intros H1 H2. apply (inv_once s Hi).
    + destruct (decide (j1 = i)) as [->|]; [by apply Hcom|done].
    + destruct (decide (j2 = i)) as [->|]; [by apply Hcom|done].
Qed.

(** What a client that asks is doing. *)
Lemma asks_phase p q : does k p (Asks q) -> p <> Multi ->
  match q with
  | RBegin => p = Fresh
  | RStmt f => (p = Open /\ q = read_request k) \/ (p = Reading /\ q = stmt_request (deleteToken k))
  | RLock _ => False
  | RCommit => p = Deleted
  | RRollback => p = Committed \/ p = Failing
  end.
Proof. destruct p; simpl; intros H Hm; naive_solver. Qed.

Lemma inv_multi s i : inv s -> phase_in s i <> Multi.
Proof. intros Hi Hm. pose proof (inv_tied s Hi i) as Ht. by rewrite Hm in Ht. Qed.

(** An answer that ends the transaction and leaves the committed row. *)
Lemma inv_closed s i x :
  inv s -> advance k (phase_in s i) x <> Multi ->
  (advance k (phase_in s i) x = Fresh \/ advance k (phase_in s i) x = Failing \/ phase_in s i = Committed) ->
  inv {| srv := set_tx i None (srv s); clients := upd i (clients s i ++ [x]) (clients s) |}.
Proof.
  intros Hi Hm Hp. eapply (inv_answer s i x None); [done..| | |done].
  - intros Hc. by destruct Hp as [Hp|[Hp|Hp]]; [congruence..|].
  - pose proof (inv_tied s Hi i) as Ht. destruct Hp as [Hp|[Hp|Hp]]; [by rewrite Hp..|].
    rewrite Hp in *. by destruct Ht as [_ ?].
Qed.

Lemma fails s i e : inv s ->
  inv {| srv := set_tx i None (srv s); clients := upd i (clients s i ++ [AFail e]) (clients s) |}.
Proof.
  intros Hi. pose proof (inv_multi s i Hi). apply inv_closed; [done|destruct (phase_in s i) eqn:E; naive_solver..].
Qed.

Lemma overlay_at (ws : writes) (tbl : tokens_table) : overlay ws tbl !! k = default (tbl !! k) (ws !! k).
Proof. rewrite overlay_lookup. by destruct (ws !! k). Qed.

(** The query of a client. *)
Lemma inv_read s i x :
  inv s -> phase_in s i = Open -> open_txs (srv s) !! i = Some x ->
  let b := base true x (srv s) in let v := overlay (x_writes x) b in
  inv {| srv := set_tx i (Some {| x_start := x_start x; x_snapshot := Some b; x_writes := changes v v ∪ x_writes x; x_locks := x_locks x |}) (srv s);
         clients := upd i (clients s i ++ [ARan (x_start x) v]) (clients s) |}.
Proof.
  intros Hi Hp Hx b v. rewrite changes_same, (left_id_L ∅ (∪)).
  pose proof (inv_tied s Hi i) as Ht. rewrite Hp, Hx in Ht. specialize (Ht x eq_refl).
  assert (Hb : single (b !! k)).
  { unfold b, base. destruct (x_snapshot x) as [b'|] eqn:Eb; simpl; [by apply (inv_snapshot s Hi i x)|apply Hi]. }
  assert (Hv : v !! k = b !! k) by (unfold v; by rewrite overlay_at, Ht).
  eapply (inv_answer s i _ (Some _)); [done..| | |]; rewrite ?Hp; simpl.
  - unfold found. rewrite Hv. destruct (b !! k) as [r|] eqn:Er; [|done].
    destruct (valid_row _ r); [|done]. by destruct (r_single_use r).
  - unfold found. rewrite Hv. destruct (b !! k) as [r|] eqn:Er; [|by intros ? [= <-]].
    destruct (valid_row _ r); [|by intros ? [= <-]]. rewrite (Hb r eq_refl). intros ? [= <-]. simpl. eauto.
  - intros ? [= <-]. simpl. split; [by intros ? [= <-]|]. rewrite Ht. split; [by intros [? ?]|by left].
Qed.

(** The deletion by a client. *)
Lemma inv_delete s i x :
  inv s -> phase_in s i = Reading -> open_txs (srv s) !! i = Some x ->
  let b := base true x (srv s) in let v := overlay (x_writes x) b in let w := changes v (delete k v) in
  (forall j y, j <> i -> open_txs (srv s) !! j = Some y -> is_Some (x_writes y !! k) -> w !! k = None) ->
  (is_Some (w !! k) -> x_writes x !! k = None -> committed (srv s) !! k = b !! k) ->
  inv {| srv := set_tx i (Some {| x_start := x_start x; x_snapshot := Some b; x_writes := w ∪ x_writes x; x_locks := x_locks x |}) (srv s);
         clients := upd i (clients s i ++ [ARan (x_start x) v]) (clients s) |}.
Proof.
  intros Hi Hp Hx b v w Hlock Hconf.
  pose proof (inv_tied s Hi i) as Ht. rewrite Hp, Hx in Ht.
  destruct (Ht x eq_refl) as (Hw & b' & Hb' & r & Hr). clear Ht.
  assert (Hb : b = b') by (unfold b, base; by rewrite Hb').
  assert (Hwk : w !! k = Some None).
  { unfold w. rewrite changes_lookup. unfold v. rewrite overlay_at, Hw. simpl.
    rewrite Hb, Hr, lookup_delete_eq. by rewrite decide_False. }
  rewrite Hwk in *. specialize (Hconf ltac:(eauto) Hw). rewrite Hb, Hr in Hconf.
  assert (Hu : (w ∪ x_writes x) !! k = Some None) by (by apply lookup_union_Some_l).
  assert (Hothers : forall j z, j <> i -> open_txs (srv s) !! j = Some z -> x_writes z !! k = None).
  { intros j z Hne Hz. destruct (x_writes z !! k) eqn:E; [|done]. by specialize (Hlock j z Hne Hz ltac:(eauto)). }
  eapply (inv_answer s i _ (Some _)); [done..| | |]; rewrite ?Hp; simpl; [done| |].
  - intros ? [= <-]. simpl. rewrite Hu, Hconf. eauto.
  - intros ? [= <-]. simpl. split; [|eauto]. intros ? [= <-]. rewrite Hb. by apply (inv_snapshot s Hi i x).
Qed.

(** The commit of a client that deleted the row. *)
Lemma inv_commit s i x :
  inv s -> phase_in s i = Deleted -> open_txs (srv s) !! i = Some x ->
  inv {| srv := set_tx i None {| committed := overlay (x_writes x) (committed (srv s)); time := time (srv s);
                                 open_txs := open_txs (srv s) |};
         clients := upd i (clients s i ++ [ADone]) (clients s) |}.
Proof.
  intros Hi Hp Hx. pose proof (inv_tied s Hi i) as Ht. rewrite Hp, Hx in Ht.
  destruct (Ht x eq_refl) as (Hw & r & Hr). clear Ht.
  set (s' := {| srv := _ |}).
  assert (Hc : committed (srv s') !! k = None) by (simpl; by rewrite overlay_at, Hw).
  assert (Hph : forall j, phase_in s' j = if decide (j = i) then Committed else phase_in s j).
  { intros j. unfold phase_in, s', upd. simpl. destruct (decide (j = i)) as [->|]; [|done].
    unfold phase_of in *. rewrite foldl_app. simpl. unfold phase_in, phase_of in Hp. by rewrite Hp. }
  assert (Hop : forall j, open_txs (srv s') !! j = if decide (j = i) then None else open_txs (srv s) !! j).
  { intros j. simpl. destruct (decide (j = i)) as [->|]; [by rewrite lookup_partial_alter_eq|].
    by rewrite lookup_partial_alter_ne. }
  assert (Hncom : forall j, phase_in s j <> Committed).
  { intros j Hj. pose proof (inv_tied s Hi j) as Ht. rewrite Hj in Ht. destruct Ht as [_ Ht]. congruence. }
  split.
  - by rewrite Hc.
  - intros j y b. rewrite Hop. destruct (decide (j = i)); [done|apply Hi].
  - intros j. rewrite Hph, Hop, Hc. destruct (decide (j = i)); [done|].
    pose proof (inv_tied s Hi j) as Ht. destruct (phase_in s j) eqn:E; simpl in *; try done; [|by destruct (Hncom j)].
    intros y Hy. destruct (Ht y Hy) as [Hwy _]. exfalso.
    rewrite (inv_lock s Hi i j x y) in Hwy; eauto; done.
  - intros j1 j2 y z Hne. rewrite !Hop. destruct (decide (j1 = i)), (decide (j2 = i)); try done. by apply (inv_lock s Hi).
  - intros j1 j2. rewrite !Hph. destruct (decide (j1 = i)), (decide (j2 = i)); subst; intros H1 H2; try done;
      by destruct (Hncom _ H1) || by destruct (Hncom _ H2).
Qed.

Lemma request_inj (f g : Z -> tokens_table -> option tokens_table) : RStmt f = RStmt g -> f = g.
Proof. by intros [= ->]. Qed.

(** Something else happens to the table. *)
Lemma inv_other s tbl : inv s ->
  tbl !! k = committed (srv s) !! k \/
    (tbl !! k = None /\ forall j y, open_txs (srv s) !! j = Some y -> x_writes y !! k = None) ->
  inv {| srv := {| committed := tbl; time := time (srv s); open_txs := open_txs (srv s) |}; clients := clients s |}.
Proof.
  intros [H1 H2 H3 H4 H5] [Hsame|[Hgone Hfree]]; split; simpl; try done.
  - by rewrite Hsame.
  - intros i. rewrite Hsame. apply H3.
  - by rewrite Hgone.
  - intros i. rewrite Hgone. specialize (H3 i). change (phase_in _ i) with (phase_in s i).
    destruct (phase_in s i); simpl in *; try done; [|naive_solver].
    intros x Hx. destruct (H3 x Hx) as [Hw _]. by rewrite (Hfree i x Hx) in Hw.
Qed.

(** A commit whose answer is lost: the client fails and the row is gone. *)
Lemma inv_lost s i x e :
  inv s -> phase_in s i = Deleted -> open_txs (srv s) !! i = Some x ->
  inv {| srv := set_tx i None {| committed := overlay (x_writes x) (committed (srv s)); time := time (srv s);
                                 open_txs := open_txs (srv s) |};
         clients := upd i (clients s i ++ [AFail e]) (clients s) |}.
Proof.
  intros Hi Hp Hx. pose proof (inv_tied s Hi i) as Ht. rewrite Hp, Hx in Ht. destruct (Ht x eq_refl) as [Hw _].
  apply (inv_other _ (overlay (x_writes x) (committed (srv s))) (fails s i e Hi)). right.
  split; [by rewrite overlay_at, Hw|]. intros j y. simpl. destruct (decide (j = i)) as [->|Hne];
    [by rewrite lookup_partial_alter_eq|rewrite lookup_partial_alter_ne by done].
  intros Hy. by apply (inv_lock s Hi i j x y).
Qed.

Lemma race_step s s' : inv s -> sys_step true k s s' -> inv s'.
Proof.
  intros Hi Hstep. destruct Hstep as [s i q x sv Hask Hserved|s d _|s tbl Htbl].
  - pose proof (client_does k (clients s i)) as Hd. rewrite Hask in Hd.
    change (phase_of k (clients s i)) with (phase_in s i) in Hd.
    pose proof (inv_multi s i Hi) as Hm. pose proof (asks_phase _ _ Hd Hm) as Hp.
    pose proof (inv_tied s Hi i) as Ht.
    remember (srv s) as sv0 eqn:Esv.
    destruct Hserved as [sv0 Hn|f sv0 y v v' Hy -> Hf Hlock Hconf|f sv0 y v v' k' Hy _ -> Hf _ _ _|f sv0 y v Hy -> Hf
      |id sv0 y _ _ _|sv0 y x Hy [->|[e ->]]|sv0 Hy|q sv0 e]; subst sv0; try by apply fails.
    + eapply (inv_answer s i _ (Some _)); [done..| | |]; rewrite ?Hp; simpl; [done| |].
      * by intros ? [= <-].
      * intros ? [= <-]. simpl. rewrite lookup_empty. split; [done|]. split; [by intros [? ?]|by left].
    + destruct Hp as [[Hp Hq]|[Hp Hq]]; apply request_inj in Hq; subst f.
      * unfold on_table in Hf. rewrite getToken_found in Hf. simpl in Hf. injection Hf as <-.
        by apply inv_read.
      * simpl in Hf. injection Hf as <-. apply inv_delete; [done..|by intros; eapply Hlock|auto].
    + by destruct Hp as [[Hp Hq]|[Hp Hq]]; apply request_inj in Hq; subst f;
        unfold on_table in Hf; rewrite ?getToken_found in Hf.
    + done.
    + by apply inv_commit.
    + by apply inv_lost.
    + apply inv_closed; [done|..]; destruct Hp as [Hp|Hp]; rewrite Hp; simpl; auto.
  - destruct Hi. by split.
  - by apply inv_other.
Qed.

Lemma inv_reachable s s' : rtc (sys_step true k) s s' -> inv s -> inv s'.
Proof. induction 1; eauto using race_step. Qed.

Lemma accepted_phase s i : inv s -> accepted k s i -> phase_in s i = Committed.
Proof.
  intros Hi [tok Hacc]. pose proof (client_does k (clients s i)) as Hd. rewrite Hacc in Hd.
  change (phase_of k (clients s i)) with (phase_in s i) in Hd. pose proof (inv_multi s i Hi).
  destruct (phase_in s i); simpl in Hd; naive_solver.
Qed.
End Once.

(** ** Schedules *)

Section Schedules.
Context (k : string) (snapshots : bool).

(** A step that answers the client [i] with [x], after which its open transaction
    is [o] and the committed table [tbl]. *)
Record moved (i : nat) (x : answer) (o : option txn) (tbl : tokens_table) (s s' : system) : Prop := {
  mv_step : sys_step snapshots k s s';
  mv_committed : committed (srv s') = tbl;
  mv_time : time (srv s') = time (srv s);
  mv_tx : open_txs (srv s') !! i = o;
  mv_client : clients s' i = clients s i ++ [x];
  mv_others : forall j, j <> i -> open_txs (srv s') !! j = open_txs (srv s) !! j /\ clients s' j = clients s j;
}.

Lemma moved_intro s i q x o tbl :
  client k (clients s i) = Asks q ->
  served snapshots i q (srv s) x
    (set_tx i o {| committed := tbl; time := time (srv s); open_txs := open_txs (srv s) |}) ->
  exists s', moved i x o tbl s s'.
Proof.
  intros Hq Hs. eexists. split; [by eapply step_client|done|done|simpl..].
  - by rewrite lookup_partial_alter_eq.
  - unfold upd. by rewrite decide_True.
  - intros j Hj. unfold upd. rewrite decide_False by done. by rewrite lookup_partial_alter_ne.
Qed.

Lemma same_server (s : system) (o : option txn) i : set_tx i o (srv s) =
  set_tx i o {| committed := committed (srv s); time := time (srv s); open_txs := open_txs (srv s) |}.
Proof. done. Qed.

Lemma asks s i p : phase_of k (clients s i) = p -> does k p (client k (clients s i)).
Proof. intros <-. apply client_does. Qed.

(** No open transaction wrote anything. *)
Definition quiet (s : system) : Prop := forall j y, open_txs (srv s) !! j = Some y -> x_writes y = ∅.
Definition begun (s : system) : txn := begun_at (time (srv s)).

Lemma move_begin s i : clients s i = [] -> open_txs (srv s) !! i = None ->
  exists s', moved i ADone (Some (begun s)) (committed (srv s)) s s'.
Proof.
  intros Hl Hn. eapply moved_intro; [by apply (asks s i Fresh); rewrite Hl|].
  rewrite <- same_server. by apply served_begin.
Qed.

Lemma move_read s i x : phase_of k (clients s i) = Open -> open_txs (srv s) !! i = Some x ->
  x_writes x = ∅ -> base snapshots x (srv s) = committed (srv s) ->
  exists s', moved i (ARan (x_start x) (committed (srv s)))
    (Some {| x_start := x_start x; x_snapshot := Some (committed (srv s)); x_writes := ∅; x_locks := x_locks x |})
    (committed (srv s)) s s'.
Proof.
  intros Hp Hx Hw Hb. eapply moved_intro; [by apply (asks s i Open)|].
  rewrite <- same_server.
  pose proof (served_stmt snapshots i (fun now t => match on_table (getToken k) now t with
    Ok (_, t') => Some t' | Err _ => None end) (srv s) x (committed (srv s)) (committed (srv s)) Hx) as Hs.
  rewrite Hb, Hw, overlay_empty, changes_same, (left_id_L ∅ (∪)) in Hs. by apply Hs.
Qed.

(** The transaction [x] after its deletion in the table [tbl]. *)
Definition deleting (x : txn) (tbl : tokens_table) : txn :=
  {| x_start := x_start x; x_snapshot := Some tbl; x_writes := changes tbl (delete k tbl); x_locks := x_locks x |}.

Lemma move_delete s i x : phase_of k (clients s i) = Reading -> open_txs (srv s) !! i = Some x ->
  x_writes x = ∅ -> base snapshots x (srv s) = committed (srv s) ->
  (forall j y, j <> i -> open_txs (srv s) !! j = Some y -> x_writes y = ∅) ->
  exists s', moved i (ARan (x_start x) (committed (srv s))) (Some (deleting x (committed (srv s))))
    (committed (srv s)) s s'.
Proof.
  intros Hp Hx Hw Hb Hq. eapply moved_intro; [by apply (asks s i Reading)|].
  rewrite <- same_server. unfold deleting.
  pose proof (served_stmt snapshots i (fun now t => match on_table (deleteToken k) now t with
    Ok (_, t') => Some t' | Err _ => None end) (srv s) x (committed (srv s)) (delete k (committed (srv s))) Hx) as Hs.
  rewrite Hb, Hw, overlay_empty, (right_id_L ∅ (∪)) in Hs. apply Hs; try done.
  intros j y k' Hj Hy. rewrite (Hq j y Hj Hy), lookup_empty. by intros [].
Qed.

Lemma overlay_deleting x tbl : overlay (x_writes (deleting x tbl)) tbl = delete k tbl.
Proof.
  apply map_eq. intros i. simpl. rewrite overlay_lookup, changes_lookup.
  destruct (decide (tbl !! i = delete k tbl !! i)); [done|]. by destruct (delete k tbl !! i).
Qed.

Lemma move_commit s i x tbl : phase_of k (clients s i) = Deleted -> open_txs (srv s) !! i = Some (deleting x tbl) ->
  committed (srv s) = tbl -> exists s', moved i ADone None (delete k tbl) s s'.
Proof.
  intros Hp Hx <-. eapply moved_intro; [by apply (asks s i Deleted)|].
  rewrite <- (overlay_deleting x (committed (srv s))). apply served_commit; [done|by left].
Qed.

(** A client whose transaction committed rolls it back, as Tx defers, and ends. *)
Lemma client_committed t tbl r t2 tbl2 : found k t tbl = Some r -> r_single_use r = true ->
  let l := [ADone; ARan t tbl; ARan t2 tbl2; ADone] in
  client k l = Asks RRollback /\ exists tok, client k (l ++ [AFail ErrTxDone]) = Finished (Ok tok).
Proof.
  intros Hf Hs l. assert (Hrun : forall l', exists tok, client k (l ++ l') =
    next_of (defer (bind (Rollback replay_tx) (fun _ => ret tt))
      (bind (Commit replay_tx) (fun err => ret (nil_or err tok))) (mk (ADone :: l')))).
  { intros l'. pose proof (verify_fn_read k (ARan t tbl :: ARan t2 tbl2 :: ADone :: l')) as H.
    cbv beta iota zeta in H. rewrite Hf, Hs in H. destruct H as [tok H]. exists tok.
    rewrite client_doTx. simpl app. rewrite doTx_run. unfold defer. by rewrite (bind_run _ _ _ _ _ H). }
  split; [destruct (Hrun []) as [tok H]|destruct (Hrun [AFail ErrTxDone]) as [tok H]; exists tok]; exact H.
Qed.

Lemma move_done s i : client k (clients s i) = Asks RRollback ->
  exists s', moved i (AFail ErrTxDone) None (committed (srv s)) s s'.
Proof. intros Hq. eapply moved_intro; [done|]. rewrite <- same_server. apply served_fault. Qed.

(** The client [i] has found the token [r] and no other transaction wrote. *)
Record holds (r : token_row) (i : nat) (s : system) : Prop := {
  ho_read : exists t tbl, clients s i = [ADone; ARan t tbl] /\ found k t tbl = Some r;
  ho_tx : exists x, open_txs (srv s) !! i = Some x /\ x_writes x = ∅ /\ base snapshots x (srv s) = committed (srv s);
  ho_quiet : forall j y, j <> i -> open_txs (srv s) !! j = Some y -> x_writes y = ∅;
}.

(** Then it can go on to the end without being disturbed. *)
Lemma consumes r i s : r_single_use r = true -> holds r i s ->
  exists s', rtc (sys_step snapshots k) s s' /\ accepted k s' i /\ committed (srv s') = delete k (committed (srv s)) /\
    open_txs (srv s') !! i = None /\
    forall j, j <> i -> open_txs (srv s') !! j = open_txs (srv s) !! j /\ clients s' j = clients s j.
Proof.
  intros Hr [(t & tbl & Hl & Hf) (x & Hx & Hw & Hb) Hq].
  destruct (move_delete s i x) as [s1 M1]; [by rewrite Hl; unfold phase_of; simpl; rewrite Hf, Hr|done..|].
  destruct M1 as [M1 C1 _ T1 L1 O1]. rewrite Hl in L1.
  destruct (move_commit s1 i x (committed (srv s))) as [s2 M2];
    [by rewrite L1; unfold phase_of; simpl; rewrite Hf, Hr|done..|].
  destruct M2 as [M2 C2 _ T2 L2 O2]. rewrite L1 in L2.
  destruct (client_committed t tbl r (x_start x) (committed (srv s)) Hf Hr) as [Hask Hacc].
  destruct (move_done s2 i) as [s3 [M3 C3 _ T3 L3 O3]]; [by rewrite L2|].
  exists s3. split_and!; [by repeat (eapply rtc_l; [done|])| |congruence|done|].
  - unfold accepted. by rewrite L3, L2.
  - intros j Hj. destruct (O1 j Hj), (O2 j Hj), (O3 j Hj). split; congruence.
Qed.
End Schedules.

(** A client alone. *)
Lemma alone snapshots k tbl now r :
  tbl !! k = Some r -> r_single_use r = true -> valid_row now r = true ->
  exists s, rtc (sys_step snapshots k) (start_system tbl now) s /\ accepted k s 0%nat.
Proof.
  intros Hk Hr Hv. assert (Hf : found k now tbl = Some r) by (unfold found; by rewrite Hk, Hv).
  destruct (move_begin k snapshots (start_system tbl now) 0) as [s1 [M1 C1 _ T1 L1 O1]]; [done..|].
  destruct (move_read k snapshots s1 0 (begun (start_system tbl now))) as [s2 [M2 C2 _ T2 L2 O2]];
    [by rewrite L1|exact T1|done|by destruct snapshots|].
  destruct (consumes k snapshots r 0 s2) as [s3 (M3 & A & _)]; [done| |].
  - split.
    + exists now, tbl. by rewrite L2, L1, C1.
    + eexists. split; [exact T2|]. split; [done|]. rewrite C2. destruct snapshots; simpl; congruence.
    + intros j y Hj. destruct (O2 j Hj) as [-> _], (O1 j Hj) as [-> _]. simpl. by rewrite lookup_empty.
  - exists s3. split; [|done]. eapply rtc_l; [done|]. by eapply rtc_l.
Qed.

(** Two clients that both read before the first deletion. *)
Lemma both k tbl now r :
  tbl !! k = Some r -> r_single_use r = true -> valid_row now r = true ->
  exists s, rtc (sys_step false k) (start_system tbl now) s /\ accepted k s 0%nat /\ accepted k s 1%nat.
Proof.
  intros Hk Hr Hv. assert (Hf : found k now tbl = Some r) by (unfold found; by rewrite Hk, Hv).
  destruct (move_begin k false (start_system tbl now) 0) as [s1 [M1 C1 T1 X1 L1 O1]]; [done..|].
  destruct (O1 1%nat) as [X1' L1']; [done|].
  destruct (move_begin k false s1 1) as [s2 [M2 C2 T2 X2 L2 O2]]; [by rewrite ?L1', ?X1'..|].
  destruct (O2 0%nat) as [X2' L2']; [done|]. rewrite X1 in X2'. rewrite L1 in L2'. rewrite L1' in L2.
  destruct (move_read k false s2 0 (begun (start_system tbl now))) as [s3 [M3 C3 T3 X3 L3 O3]]; [by rewrite L2'|exact X2'|done..|].
  destruct (O3 1%nat) as [X3' L3']; [done|]. rewrite X2 in X3'. rewrite L2 in L3'. rewrite L2' in L3.
  destruct (move_read k false s3 1 (begun s1)) as [s4 [M4 C4 T4 X4 L4 O4]]; [by rewrite L3'|exact X3'|done..|].
  destruct (O4 0%nat) as [X4' L4']; [done|]. rewrite X3 in X4'. rewrite L3 in L4'. rewrite L3' in L4.
  assert (Htbl : committed (srv s4) = tbl) by (by rewrite C4, C3, C2, C1).
  assert (Hothers : forall j, j <> 0%nat -> j <> 1%nat -> open_txs (srv s4) !! j = None).
  { intros j H0 H1. destruct (O4 j H1) as [-> _], (O3 j H0) as [-> _], (O2 j H1) as [-> _], (O1 j H0) as [-> _]. done. }
  destruct (consumes k false r 0 s4) as (s5 & M5 & A5 & C5 & X5 & O5); [done| |].
  - split.
    + exists now, tbl. split; [|done]. rewrite L4'. simpl. by rewrite C2, C1.
    + eexists. by rewrite X4'.
    + intros j y Hj. destruct (decide (j = 1%nat)) as [->|]; [|by rewrite Hothers]. rewrite X4. by intros [= <-].
  - destruct (O5 1%nat) as [X5' L5']; [done|].
    destruct (consumes k false r 1 s5) as (s6 & M6 & A6 & _ & _ & O6); [done| |].
    + split.
      * exists now, tbl. split; [|done]. rewrite L5', L4. simpl. by rewrite T1, C3, C2, C1.
      * eexists. by rewrite X5', X4.
      * intros j y Hj. destruct (decide (j = 0%nat)) as [->|]; [by rewrite X5|].
        destruct (O5 j) as [-> _]; [done|]. by rewrite Hothers.
    + exists s6. split; [|split; [|done]].
      * do 4 (eapply rtc_l; [done|]). by etrans.
      * unfold accepted. destruct (O6 0%nat) as [_ ->]; [done|]. exact A5.
Qed.

(** C22. Clients verify one single-use token at the same time, each in a transaction
    of its own that is rolled back when the function fails.  With snapshots of the
    transaction (REPEATABLE READ, SERIALIZABLE) no interleaving of their statements,
    failures and other deletions makes two of them accept it; a client alone can.
    At READ COMMITTED, the level of a transaction without options, two of them can
    both accept a valid token, because the query takes no lock and the deletion of
    no row is a success. *)
Theorem Verify_race k tbl now r : tbl !! k = Some r -> r_single_use r = true ->
  (forall s i j, rtc (sys_step true k) (start_system tbl now) s -> accepted k s i -> accepted k s j -> i = j) /\
  (valid_row now r = true ->
    (forall snapshots, exists s, rtc (sys_step snapshots k) (start_system tbl now) s /\ accepted k s 0%nat) /\
    exists s, rtc (sys_step false k) (start_system tbl now) s /\ accepted k s 0%nat /\ accepted k s 1%nat).
Proof.
  intros Hk Hr. split; [|split; [intros sn; by apply (alone _ _ _ _ r)|by apply (both _ _ _ r)]].
  intros s i j Hrun Hi Hj. assert (Hinv : inv k s).
  { apply (inv_reachable k _ _ Hrun), inv_start. intros r'. rewrite Hk. by intros [= <-]. }
  by apply (inv_once k s Hinv); apply accepted_phase.
Qed.

Example Verify_race_witness :
  ex_table !! "0123456789"%string = Some ex_old_row /\ r_single_use ex_old_row = true /\
  valid_row 0 ex_old_row = true /\
  exists s, rtc (sys_step false "0123456789") (start_system ex_table 0) s /\
    accepted "0123456789" s 0%nat /\ accepted "0123456789" s 1%nat.
Proof.
  split_and!; [reflexivity..|].
  destruct (Verify_race "0123456789" ex_table 0 ex_old_row) as [_ H]; [reflexivity..|].
  destruct H as [_ H]; [reflexivity|]. exact H.
Defined.
