(* ===== verification/Accounts.v ===== *)
(** * Accounts: src/accounts/accounts.go and its migrations

    The three tables of src/accounts/migrations, the statements of accounts.go
    on them, and the functions of the package.  The surrogate key and the
    creation time of a membership, and the creation time of a group, are not
    kept: no statement reads them.  A nil slice is sent as NULL by the driver
    and an empty one as an empty array, so the arrays of names are options. *)

From Stdlib Require Import ZArith Ascii String Lia.
From stdpp Require Import fin_maps sorting.
From S2P Require Import Prelude Errors Pgdb Sql Tokens.

(** ** Tables *)

Record account_row := {
  ar_email : string; ar_password : string; ar_verified : option Z; ar_created : Z;
}.

Record accounts_db := {
  t_accounts : gmap uuid account_row;
  t_groups : gmap uuid string;
  t_members : gset (uuid * uuid);
}.

Definition accounts_error : string -> string -> error := server_error "accounts_accounts".
Definition groups_error : string -> string -> error := server_error "accounts_groups".
Definition fk_violation : error := server_error "accounts_members" "23503" "fk_members_account_id".

Definition email_ok (email : string) : bool := (3 <=? char_length email) && (char_length email <=? 254).
Definition password_ok (pwd : string) : bool := char_length pwd <=? 1024.
Definition name_ok (name : string) : bool := (2 <=? char_length name) && (char_length name <=? 128).

Record Account := {
  ID : uuid; Email : string; Password : string; Verified : option Z; Created : Z;
  Groups_ : list string;
}.

Section Statements.
(** What the server chooses: the value of the n-th call of uuidv7() in a
    statement, the order of an aggregate, and the collation of names. *)
Context (uuidv7 : Z -> accounts_db -> nat -> uuid) (array_order : list string -> list string).
Context (collate : relation string) `{!RelDecision collate}.

(** The names of the groups of an account, through the two joins. *)
Definition member_groups (db : accounts_db) (id : uuid) : list string :=
  omap (fun g => if decide ((id, g.1) ∈ t_members db) then Some g.2 else None)
    (map_to_list (t_groups db)).

Definition to_Account (db : accounts_db) (id : uuid) (r : account_row) : Account :=
  {| ID := id; Email := ar_email r; Password := ar_password r; Verified := ar_verified r;
     Created := ar_created r; Groups_ := array_order (member_groups db id) |}.

Definition selectByEmail (email : string) : Sql accounts_db (option Account) := fun _ db =>
  Ok ((fun p => to_Account db p.1 p.2) <$>
        head (filter (fun p => ar_email p.2 = email) (map_to_list (t_accounts db))), db).

Definition selectByID (id : uuid) : Sql accounts_db (option Account) := fun _ db =>
  Ok (to_Account db id <$> t_accounts db !! id, db).

Definition insertAccount (email hashedPwd : string) : Sql accounts_db (option uuid) := fun now db =>
  let id := uuidv7 now db 0 in
  if negb (email_ok email) then Err (accounts_error "23514" "chk_email_length")
  else if negb (password_ok hashedPwd) then Err (accounts_error "23514" "chk_password_length")
  else if decide (is_Some (t_accounts db !! id)) then Err (accounts_error "23505" "accounts_accounts_pkey")
  else if decide (map_Exists (fun _ r => ar_email r = email) (t_accounts db))
       then Err (accounts_error "23505" "uidx_accounts_email")
  else
    let row := {| ar_email := email; ar_password := hashedPwd; ar_verified := None; ar_created := now |} in
    Ok (Some id, {| t_accounts := <[id := row]> (t_accounts db); t_groups := t_groups db;
                    t_members := t_members db |}).

(** ON DELETE CASCADE removes the memberships. *)
Definition deleteAccount (id : uuid) : Sql accounts_db unit := fun _ db =>
  Ok (tt, {| t_accounts := delete id (t_accounts db); t_groups := t_groups db;
             t_members := filter (fun m => m.1 <> id) (t_members db) |}).

(** One row after the other; the [n]-th new row takes the [n]-th identifier. *)
Fixpoint insert_groups (now : Z) (db0 : accounts_db) (n : nat) (names : list string)
    (groups : gmap uuid string) : res error (gmap uuid string) :=
  match names with
  | [] => Ok groups
  | name :: rest =>
      if negb (name_ok name) then Err (groups_error "23514" "chk_name_length")
      else if decide (map_Exists (fun _ g => g = name) groups) then
        insert_groups now db0 (S n) rest groups
      else
        let id := uuidv7 now db0 n in
        if decide (is_Some (groups !! id)) then Err (groups_error "23505" "accounts_groups_pkey")
        else insert_groups now db0 (S n) rest (<[id := name]> groups)
  end.
Definition insertGroups (names : option (list string)) : Sql accounts_db unit := fun now db =>
  match insert_groups now db 0 (default [] names) (t_groups db) with
  | Ok groups => Ok (tt, {| t_accounts := t_accounts db; t_groups := groups; t_members := t_members db |})
  | Err e => Err e
  end.

(** name = ANY(names), which NULL never satisfies. *)
Definition any_of (names : option (list string)) (name : string) : bool :=
  match names with Some l => bool_decide (name ∈ l) | None => false end.
(** name != ALL(names), likewise. *)
Definition none_of (names : option (list string)) (name : string) : bool :=
  match names with Some l => bool_decide (name ∉ l) | None => false end.

(** The groups whose name satisfies [p]. *)
Definition group_sel (p : string -> bool) (db : accounts_db) (gid : uuid) : bool :=
  match t_groups db !! gid with Some name => p name | None => false end.

Definition deleteGroups (names : option (list string)) : Sql accounts_db unit := fun _ db =>
  Ok (tt, {| t_accounts := t_accounts db;
             t_groups := filter (fun g => any_of names g.2 = false) (t_groups db);
             t_members := filter (fun m => group_sel (any_of names) db m.2 = false) (t_members db) |}).

Definition selectGroups : Sql accounts_db (list string) := fun _ db =>
  Ok (merge_sort collate (snd <$> map_to_list (t_groups db)), db).

Definition remove_members (acctID : uuid) (p : string -> bool) : Sql accounts_db unit := fun _ db =>
  Ok (tt, {| t_accounts := t_accounts db; t_groups := t_groups db;
             t_members := filter (fun m => ~ (m.1 = acctID /\ group_sel p db m.2 = true)) (t_members db) |}).

(** Rows that exist are skipped; the foreign key is checked for the others. *)
Definition insert_members (acctID : uuid) (p : string -> bool) : Sql accounts_db unit := fun _ db =>
  let rows : gset (uuid * uuid) := set_map (pair acctID) (filter (fun g => group_sel p db g = true) (dom (t_groups db))) in
  let new := rows ∖ t_members db in
  if decide (new <> ∅ /\ t_accounts db !! acctID = None) then Err fk_violation
  else Ok (tt, {| t_accounts := t_accounts db; t_groups := t_groups db;
                  t_members := t_members db ∪ new |}).

Definition removeMembers (acctID : uuid) (groups : option (list string)) :=
  remove_members acctID (none_of groups).
Definition insertMembers (acctID : uuid) (groups : option (list string)) :=
  insert_members acctID (any_of groups).
Definition insertMember (acctID : uuid) (group : string) := insert_members acctID (String.eqb group).
Definition removeMember (acctID : uuid) (group : string) := remove_members acctID (String.eqb group).
End Statements.

(** ** Operations *)

Definition AccountsTag : string := "accounts".

(** errors.TagNew and errors.Tag on an error return an error, never nil. *)
Definition non_nil {W} (o : option error) : go W error :=
  match o with Some e => ret e | None => panic "unreachable" end.
Definition new_error {W} `{Lens W heap} (msg : string) (kvpairs : list string) : go W error :=
  bind (zoom (TagNew msg AccountsTag kvpairs)) non_nil.
Definition tag_error {W} `{Lens W heap} (err : error) (kvpairs : list string) : go W error :=
  bind (zoom (Tag (Some err) AccountsTag kvpairs)) non_nil.

(** return nil, errors.TagNew(msg, AccountsTag, kvpairs...) *)
Definition tag_new {W A} `{Lens W heap} (msg : string) (kvpairs : list string) : go W (res error A) :=
  bind (new_error msg kvpairs) (fun e => ret (Err e)).

Section Operations.
Context {D DB : Type} `{!Lens DB accounts_db}.
Context {W : Type} {LH : Lens W heap} {LD : Lens W D}.
Context (uuidv7 : Z -> accounts_db -> nat -> uuid) (array_order : list string -> list string).
Context (collate : relation string) `{!RelDecision collate}.
Context (env : Env D).
Local Notation Ctx := (Ctx D (Sql DB)).
Local Notation Queryer := (Queryer D (Sql DB)).
Local Open Scope go_scope.

Definition query_one {A} (ctx : Ctx) (q : Queryer) (st : Sql accounts_db (option A)) : go D (res error A) :=
  EnsureQueryer ctx q (fun _ q => QueryOne q (on_table st)).
Definition exec (ctx : Ctx) (q : Queryer) (st : Sql accounts_db unit) : go D (res error unit) :=
  EnsureQueryer ctx q (fun _ q => Exec q (on_table st)).

Definition ByEmail (ctx : Ctx) (q : Queryer) (email : string) : go D (res error Account) :=
  query_one ctx q (selectByEmail array_order email).
Definition ByID (ctx : Ctx) (q : Queryer) (id : uuid) : go D (res error Account) :=
  query_one ctx q (selectByID array_order id).

(** The closure of Create. *)
Definition create_fn (email hashedPwd : string) (ctx : Ctx) (q : Queryer) : go D (res error Account) :=
  let? id := QueryOne q (on_table (insertAccount uuidv7 email hashedPwd)) in
  ByID ctx q id.

(** The errors of Create. *)
Definition create_error (err : error) : go W (res error Account) :=
  let state := SQLState (Some err) in
  if String.eqb state "23505" then
    tag_new "an account already exists for this email" ["code"; "409"; "parameter"; "email"]
  else if String.eqb state "23514" then
    match AsProtocolError (Some err) with
    | Some perr =>
        if String.eqb (ConstraintName perr) "chk_email_length" then
          tag_new "email is too long" ["code"; "400"; "parameter"; "email"]
        else if String.eqb (ConstraintName perr) "chk_password_length" then
          tag_new "password hash is too long" ["code"; "500"; "parameter"; "password"]
        else ret (Err err)
    | None => ret (Err err)
    end
  else ret (Err err).

Definition Create (ctx : Ctx) (q : Queryer) (email hashedPwd : string) : go W (res error Account) :=
  let! r := zoom (EnsureQueryer ctx q (create_fn email hashedPwd)) in
  match r with
  | Ok acct => ret (Ok acct)
  | Err err => create_error err
  end.

Definition Delete (ctx : Ctx) (q : Queryer) (id : uuid) : go D (res error unit) :=
  exec ctx q (deleteAccount id).

Definition CreateGroups (ctx : Ctx) (q : Queryer) (groups : option (list string)) : go W (res error unit) :=
  let! r := zoom (exec ctx q (insertGroups uuidv7 groups)) in
  let err := match r with Ok _ => None | Err e => Some e end in
  if String.eqb (SQLState err) "23514" then
    match AsProtocolError err with
    | Some perr =>
        if String.eqb (ConstraintName perr) "chk_name_length" then
          tag_new "group name is too short or too long" ["code"; "400"; "parameter"; "group"]
        else ret r
    | None => ret r
    end
  else ret r.

Definition DeleteGroups (ctx : Ctx) (q : Queryer) (groups : option (list string)) : go D (res error unit) :=
  exec ctx q (deleteGroups groups).

Definition Groups (ctx : Ctx) (q : Queryer) : go D (res error (list string)) :=
  EnsureQueryer ctx q (fun _ q => QueryMany q (on_table (selectGroups collate))).

(** The function that SetMembership runs in its transaction. *)
Definition set_membership_fn (acctID : uuid) (groups : option (list string)) (_ : Ctx)
    (tx : Txer D (Sql DB)) : go D (res error unit) :=
  let? _ := Exec (tx_queryer tx) (on_table (removeMembers acctID groups)) in
  let? _ := Exec (tx_queryer tx) (on_table (insertMembers acctID groups)) in
  ret (Ok tt).
Definition SetMembership (ctx : Ctx) (btx : BeginTxer D (Sql DB)) (acctID : uuid)
    (groups : option (list string)) : go D (res error unit) :=
  EnsureTx env ctx btx (set_membership_fn acctID groups).

Definition AddMembership (ctx : Ctx) (q : Queryer) (acctID : uuid) (group : string) : go D (res error unit) :=
  exec ctx q (insertMember acctID group).
Definition RemoveMembership (ctx : Ctx) (q : Queryer) (acctID : uuid) (group : string) : go D (res error unit) :=
  exec ctx q (removeMember acctID group).
End Operations.

(** ** Invariant of the tables *)

Inductive accounts_op :=
| OpCreate (email hashedPwd : string)
| OpDeleteAccount (id : uuid)
| OpCreateGroups (names : option (list string))
| OpDeleteGroups (names : option (list string))
| OpRemoveMembers (acctID : uuid) (groups : option (list string))
| OpInsertMembers (acctID : uuid) (groups : option (list string))
| OpAddMember (acctID : uuid) (group : string)
| OpRemoveMember (acctID : uuid) (group : string).

(** The statements that write, with the server's choice of identifiers. *)
Definition run_op (uuidv7 : Z -> accounts_db -> nat -> uuid) (o : accounts_op) : Sql accounts_db unit :=
  match o with
  | OpCreate email pwd => exec_of (insertAccount uuidv7 email pwd)
  | OpDeleteAccount id => deleteAccount id
  | OpCreateGroups names => insertGroups uuidv7 names
  | OpDeleteGroups names => deleteGroups names
  | OpRemoveMembers id groups => removeMembers id groups
  | OpInsertMembers id groups => insertMembers id groups
  | OpAddMember id group => insertMember id group
  | OpRemoveMember id group => removeMember id group
  end.

Definition apply_op uuidv7 (db : accounts_db) (o : Z * accounts_op) : accounts_db :=
  match run_op uuidv7 o.2 o.1 db with Ok (_, db') => db' | Err _ => db end.
Definition apply_ops uuidv7 : accounts_db -> list (Z * accounts_op) -> accounts_db := foldl (apply_op uuidv7).

Definition groups_ok (groups : gmap uuid string) : Prop :=
  (forall g name, groups !! g = Some name -> name_ok name = true) /\
  (forall g1 g2 name, groups !! g1 = Some name -> groups !! g2 = Some name -> g1 = g2).

(** The constraints: lengths, unique emails and names, and memberships between
    an account and a group that exist. *)
Definition accounts_ok (db : accounts_db) : Prop :=
  (forall id r, t_accounts db !! id = Some r ->
     email_ok (ar_email r) = true /\ password_ok (ar_password r) = true) /\
  (forall id1 id2 r1 r2, t_accounts db !! id1 = Some r1 -> t_accounts db !! id2 = Some r2 ->
     ar_email r1 = ar_email r2 -> id1 = id2) /\
  groups_ok (t_groups db) /\
  (forall a g, (a, g) ∈ t_members db -> is_Some (t_accounts db !! a) /\ is_Some (t_groups db !! g)).

Lemma insert_groups_spec uuidv7 now db0 n names groups groups' :
  insert_groups uuidv7 now db0 n names groups = Ok groups' ->
  groups ⊆ groups' /\ (groups_ok groups -> groups_ok groups') /\
  (forall name, (exists g, groups' !! g = Some name) <-> (exists g, groups !! g = Some name) \/ name ∈ names).
Proof.
  revert n groups. induction names as [|name names IH]; intros n groups; simpl.
  - intros [= <-]. split_and!; [done|done|]. intros name. set_solver.
  - destruct (name_ok name) eqn:En; [|done]. simpl.
    destruct (decide (map_Exists _ groups)) as [(g0 & ? & Hg0 & ->)|Hnew].
    { intros H. destruct (IH _ _ H) as (Hsub & Hok & Hnames). split_and!; [done..|].
      intros name'. rewrite Hnames. set_solver. }
    destruct (decide (is_Some _)) as [|Hfree]; [done|]. apply eq_None_not_Some in Hfree.
    set (id := uuidv7 now db0 n) in *. intros H.
    destruct (IH _ _ H) as (Hsub & Hok & Hnames). split_and!.
    + etransitivity; [|exact Hsub]. by apply insert_subseteq.
    + intros [Hlen Huniq]. apply Hok. split.
      * intros g name'. rewrite lookup_insert_Some. naive_solver.
      * assert (forall g, groups !! g <> Some name) as Hno.
        { intros g Hg. apply Hnew. by exists g, name. }
        intros g1 g2 name'. rewrite !lookup_insert_Some. naive_solver.
    + intros name'. rewrite Hnames. split.
      * intros [[g Hg]|Hin]; [|right; by right].
        apply lookup_insert_Some in Hg as [[_ <-]|[_ Hg]]; [right; by left|left; by exists g].
      * intros [[g Hg]|Hin].
        -- left. exists g. rewrite lookup_insert_ne; [done|]. intros <-. congruence.
        -- apply elem_of_cons in Hin as [->|Hin]; [left|by right].
           exists id. by rewrite lookup_insert_eq.
Qed.

Lemma filter_groups_ok (P : uuid * string -> Prop) `{!forall x, Decision (P x)} groups :
  groups_ok groups -> groups_ok (filter P groups).
Proof.
  intros [H1 H2]. split.
  - intros g name [? _]%map_lookup_filter_Some. eauto.
  - intros g1 g2 name [? _]%map_lookup_filter_Some [? _]%map_lookup_filter_Some. eauto.
Qed.

Lemma group_sel_true p db g : group_sel p db g = true <-> exists name, t_groups db !! g = Some name /\ p name = true.
Proof. unfold group_sel. destruct (t_groups db !! g); naive_solver. Qed.

Lemma insert_members_ok acctID p now db u db' :
  insert_members acctID p now db = Ok (u, db') -> accounts_ok db -> accounts_ok db'.
Proof.
  unfold insert_members. destruct (decide _) as [|Hfk]; [done|]. intros [= <- <-] (H1 & H2 & H3 & H4).
  split_and!; [done..|]. simpl. intros a g [Hin|Hin]%elem_of_union; [eauto|].
  assert (t_accounts db !! acctID <> None) as Hacct.
  { intros Hnone. apply Hfk. split; [|done]. set_solver. }
  apply elem_of_difference in Hin as [Hin _].
  apply elem_of_map in Hin as (g' & [= -> ->] & Hg). apply elem_of_filter in Hg as [_ Hg].
  split; [by apply not_eq_None_Some|by apply elem_of_dom].
Qed.

Lemma remove_members_ok acctID p now db u db' :
  remove_members acctID p now db = Ok (u, db') -> accounts_ok db -> accounts_ok db'.
Proof.
  intros [= <- <-] (H1 & H2 & H3 & H4). split_and!; [done..|]. simpl.
  intros a g [_ Hin]%elem_of_filter. eauto.
Qed.

Lemma insertAccount_Ok uuidv7 email pwd now db o db' :
  insertAccount uuidv7 email pwd now db = Ok (o, db') ->
  let id := uuidv7 now db 0%nat in
  o = Some id /\ email_ok email = true /\ password_ok pwd = true /\ t_accounts db !! id = None /\
  (forall i r, t_accounts db !! i = Some r -> ar_email r <> email) /\
  t_accounts db' = <[id := {| ar_email := email; ar_password := pwd; ar_verified := None;
                              ar_created := now |}]> (t_accounts db) /\
  t_groups db' = t_groups db /\ t_members db' = t_members db.
Proof.
  unfold insertAccount. destruct (email_ok email); [|done]. destruct (password_ok pwd); [|done]. simpl.
  destruct (decide (is_Some _)) as [|Hfree]; [done|]. apply eq_None_not_Some in Hfree.
  destruct (decide (map_Exists _ _)) as [|Hnew]; [done|]. intros [= <- <-].
  split_and!; try done. intros i r Hi <-. apply Hnew. by exists i, r.
Qed.

Lemma insertAccount_ok uuidv7 email pwd now db o db' :
  insertAccount uuidv7 email pwd now db = Ok (o, db') -> accounts_ok db -> accounts_ok db'.
Proof.
  intros (_ & He & Hp & Hfree & Hne & Ha & Hg & Hm)%insertAccount_Ok (H1 & H2 & H3 & H4).
  unfold accounts_ok. rewrite Ha, Hg, Hm. set (id := uuidv7 now db 0%nat) in *. split_and!; [..|done|].
  - intros i r [[_ <-]|[_ Hr]]%lookup_insert_Some; [done|eauto].
  - intros i1 i2 r1 r2. rewrite !lookup_insert_Some.
    intros [[<- <-]|[? Hr1]] [[<- <-]|[? Hr2]]; simpl; naive_solver.
  - intros a g Hin. destruct (H4 _ _ Hin) as [[r Hr] Hgs]. split; [|done].
    exists r. rewrite lookup_insert_ne; [done|]. intros <-. congruence.
Qed.

Lemma deleteAccount_ok id now db u db' :
  deleteAccount id now db = Ok (u, db') -> accounts_ok db -> accounts_ok db'.
Proof.
  intros [= <- <-] (H1 & H2 & H3 & H4). split_and!; [..|done|]; simpl.
  - intros i r [_ Hr]%lookup_delete_Some. eauto.
  - intros i1 i2 r1 r2 [_ Hr1]%lookup_delete_Some [_ Hr2]%lookup_delete_Some. eauto.
  - intros a g [Hne Hin]%elem_of_filter. simpl in Hne. rewrite lookup_delete_ne by done. eauto.
Qed.

Lemma insertGroups_ok uuidv7 names now db u db' :
  insertGroups uuidv7 names now db = Ok (u, db') -> accounts_ok db -> accounts_ok db'.
Proof.
  unfold insertGroups. destruct (insert_groups _ _ _ _ _ _) as [groups|] eqn:E; [|done].
  apply insert_groups_spec in E as (Hsub & Hgok & _). intros [= <- <-] (H1 & H2 & H3 & H4).
  split_and!; [done|done|by apply Hgok|]. simpl. intros a g Hin.
  destruct (H4 _ _ Hin) as [Ha [name Hg]]. split; [done|]. exists name. by eapply lookup_weaken.
Qed.

Lemma deleteGroups_ok names now db u db' :
  deleteGroups names now db = Ok (u, db') -> accounts_ok db -> accounts_ok db'.
Proof.
  intros [= <- <-] (H1 & H2 & H3 & H4). split_and!; [done|done|by apply filter_groups_ok|]. simpl.
  intros a g [Hsel Hin]%elem_of_filter. simpl in Hsel.
  destruct (H4 _ _ Hin) as [Ha [name Hg]]. split; [done|]. exists name.
  apply map_lookup_filter_Some. split; [done|]. unfold group_sel in Hsel. by rewrite Hg in Hsel.
Qed.

#[local] Hint Resolve insertAccount_ok deleteAccount_ok insertGroups_ok deleteGroups_ok
  insert_members_ok remove_members_ok : karbur.

(** C19. Every sequence of the statements of the package keeps the constraints of
    the three tables: lengths of emails, passwords and names, one account per
    email, one group per name, and no membership without its account and its
    group, whatever identifiers the server draws. *)
Theorem accounts_invariant uuidv7 ops db :
  accounts_ok db -> accounts_ok (apply_ops uuidv7 db ops).
Proof.
  revert db. induction ops as [|[now o] ops IH]; intros db Hok; [done|]. simpl. apply IH.
  unfold apply_op. simpl. destruct (run_op uuidv7 o now db) as [[u db']|e] eqn:E; [|done].
  destruct o; simpl in E; unfold removeMembers, insertMembers, removeMember, insertMember in E;
    eauto with karbur.
  unfold exec_of, map_ok in E. destruct (insertAccount _ _ _ _ _) as [[]|] eqn:Ei; [|done].
  injection E as <- <-. eauto with karbur.
Qed.

(** ** Memberships *)

(** What SetMembership computes. *)
Definition set_membership_sql (acctID : uuid) (groups : option (list string)) : Sql accounts_db unit :=
  sbind (removeMembers acctID groups) (fun _ => insertMembers acctID groups).

Lemma elem_of_new acctID p db a g :
  (a, g) ∈ (set_map (pair acctID) (filter (fun g => group_sel p db g = true) (dom (t_groups db)))
    : gset (uuid * uuid)) <-> a = acctID /\ exists name, t_groups db !! g = Some name /\ p name = true.
Proof.
  rewrite elem_of_map. split.
  - intros (g' & [= -> ->] & [Hsel _]%elem_of_filter). by apply group_sel_true in Hsel.
  - intros [-> (name & Hg & Hp)]. exists g. split; [done|]. apply elem_of_filter.
    split; [apply group_sel_true; eauto|]. apply elem_of_dom. eauto.
Qed.

Lemma insert_members_spec acctID p now db u db' :
  insert_members acctID p now db = Ok (u, db') ->
  t_accounts db' = t_accounts db /\ t_groups db' = t_groups db /\
  forall a g, (a, g) ∈ t_members db' <->
    (a, g) ∈ t_members db \/ (a = acctID /\ exists name, t_groups db !! g = Some name /\ p name = true).
Proof.
  unfold insert_members. destruct (decide _); [done|]. intros [= <- <-]. split_and!; [done..|].
  intros a g. simpl. rewrite <- elem_of_new.
  destruct (decide ((a, g) ∈ t_members db)); set_solver.
Qed.

Lemma remove_members_spec acctID p now db :
  exists db', remove_members acctID p now db = Ok (tt, db') /\
  t_accounts db' = t_accounts db /\ t_groups db' = t_groups db /\
  forall a g, (a, g) ∈ t_members db' <->
    (a, g) ∈ t_members db /\ ~ (a = acctID /\ exists name, t_groups db !! g = Some name /\ p name = true).
Proof.
  eexists. split; [reflexivity|]. split_and!; [done..|]. intros a g. simpl.
  rewrite elem_of_filter. simpl. rewrite group_sel_true. tauto.
Qed.

(** [db'] is [db] with the memberships of [acctID] replaced by those in the
    groups named, or as they are for NULL. *)
Definition membership_set (acctID : uuid) (groups : option (list string)) (db db' : accounts_db) : Prop :=
  t_accounts db' = t_accounts db /\ t_groups db' = t_groups db /\
  (forall a g, a <> acctID -> (a, g) ∈ t_members db' <-> (a, g) ∈ t_members db) /\
  forall g name, t_groups db !! g = Some name ->
    (acctID, g) ∈ t_members db' <->
    match groups with Some names => name ∈ names | None => (acctID, g) ∈ t_members db end.

Lemma set_membership_spec acctID groups now db u db' :
  set_membership_sql acctID groups now db = Ok (u, db') -> membership_set acctID groups db db'.
Proof.
  unfold set_membership_sql, sbind, removeMembers, insertMembers.
  destruct (remove_members_spec acctID (none_of groups) now db) as (db1 & -> & Ha1 & Hg1 & Hm1).
  intros (Ha & Hg & Hm)%insert_members_spec. rewrite Hg1 in Hm. split_and!; [congruence..| |].
  - intros a g Hne. rewrite Hm, Hm1. naive_solver.
  - intros g name Hname. rewrite Hm, Hm1. destruct groups as [names|]; simpl.
    + split.
      * intros [[_ Hno]|(_ & name' & Hname' & Hin)].
        -- destruct (decide (name ∈ names)) as [|Hni]; [done|]. exfalso. apply Hno.
           split; [done|]. exists name. split; [done|]. by apply bool_decide_eq_true.
        -- apply bool_decide_eq_true in Hin. congruence.
      * intros Hin. right. split; [done|]. exists name. split; [done|]. by apply bool_decide_eq_true.
    + naive_solver.
Qed.

(** The account exists: both statements succeed. *)
Lemma set_membership_Ok acctID groups now db :
  is_Some (t_accounts db !! acctID) -> exists db', set_membership_sql acctID groups now db = Ok (tt, db').
Proof.
  intros [r Hr]. unfold set_membership_sql, sbind, removeMembers, insertMembers.
  destruct (remove_members_spec acctID (none_of groups) now db) as (db1 & -> & Ha1 & _).
  unfold insert_members. rewrite Ha1. destruct (decide _) as [[_ ?]|]; [congruence|]. by eexists.
Qed.

Section Memberships.
Context {D DB : Type} `{!Lens DB accounts_db} (conn : Connection D (Sql DB)) (env : Env D).
Context {TL : TxLaws (conn_beginTxer conn) DB} {SL : SqlLaws conn}.
Context {EL : EnvLaws env (conn_beginTxer conn)}.

Lemma set_membership_does acctID groups ctx tx :
  owned tx ->
  tx_does conn tx (on_table (set_membership_sql acctID groups)) (set_membership_fn acctID groups ctx tx).
Proof.
  intros Hown. eapply tx_does_ext; [|intros w; unfold set_membership_fn; apply tx_does_at_bindE;
    [by apply tx_does_Exec_q|intros; apply tx_does_at_bindE;
      [by apply tx_does_Exec_q|intros; by apply tx_does_ret]]].
  intros now s. unfold set_membership_sql, sbind, exec_of, map_ok, on_table, done_.
  destruct (removeMembers acctID groups now (view s)) as [[[] db1]|e]; [|done].
  rewrite view_update. destruct (insertMembers acctID groups now db1) as [[[] db2]|e]; [|done].
  by rewrite update_update.
Qed.

(** C18. SetMembership replaces, in one transaction, the memberships of the
    account by exactly the existing groups among those named: every other
    account, the accounts and the groups are untouched, and on an error nothing
    is visible; it does not fail on its own for an account that exists.  A nil
    slice of names, which the driver sends as NULL, leaves the memberships as
    they are. *)
Theorem SetMembership_exact ctx acctID groups w :
  ctx_ok conn ctx ->
  exists r w', SetMembership env ctx (conn_beginTxer conn) acctID groups w = (Ret r, w') /\
    match r with
    | Ok _ => exists s s', visible conn ctx w = Some s /\ visible conn ctx w' = Some s' /\
        s' = update (view s') s /\ membership_set acctID groups (view s) (view s')
    | Err e => (visible conn ctx w' = match ctxTx ctx with Some _ => None | None => visible conn ctx w end) /\
        (fault conn e \/ exists s, visible conn ctx w = Some s /\ t_accounts (view s) !! acctID = None)
    end.
Proof.
  intros Hctx.
  destruct (EnsureTx_run conn env ctx (on_table (set_membership_sql acctID groups))
    (set_membership_fn acctID groups) w Hctx) as (r & w' & E & _ & _ & Hr).
  { intros ctx' tx _. apply set_membership_does. }
  exists r, w'. split; [exact E|]. destruct r as [[]|e].
  - destruct Hr as (t & s & s' & _ & Hs & Hs' & Hp). exists s, s'. unfold on_table in Hp.
    destruct (set_membership_sql acctID groups t (view s)) as [[[] db']|e] eqn:Ep; [|done].
    injection Hp as <-. rewrite view_update.
    split_and!; [done|done|done|by eapply set_membership_spec].
  - destruct Hr as (Hv & e0 & Hcb & Hr). split; [done|].
    destruct Hr as [Hf|(t & s & _ & Hs & Hp)]; [left; by exists e0|right]. exists s. split; [done|].
    destruct (t_accounts (view s) !! acctID) eqn:Ea; [|done].
    destruct (set_membership_Ok acctID groups t (view s)) as (db' & Ep); [by eexists|].
    unfold on_table in Hp. by rewrite Ep in Hp.
Qed.
End Memberships.

(** ** Reported errors *)

(** The error carries the package's tag, and its keys read as given. *)
Definition reported (h : heap) (e : error) (kv : list (string * string)) : Prop :=
  IsTag (Some e) AccountsTag = true /\ Forall (fun p => KeyValue h (Some e) p.1 = p.2) kv.

(** What errors.TagNew returns. *)
Definition new_tagged (msg : string) (kv : list string) (h : heap) : error * heap :=
  (TaggedError (h_next h) AccountsTag (ErrorString msg),
   {| h_next := S (h_next h);
      h_meta := <[h_next h := match kv with [] => None | _ => Some (kv_loop kv ∅) end]> (h_meta h) |}).

Lemma tag_new_run {W A} `{Lens W heap} msg kv (w : W) :
  tag_new (A := A) msg kv w =
    (Ret (Err (new_tagged msg kv (view w)).1), update (new_tagged msg kv (view w)).2 w).
Proof. done. Qed.

Lemma new_tagged_KeyValue msg kv h k :
  KeyValue (new_tagged msg kv h).2 (Some (new_tagged msg kv h).1) k = default EmptyString (last_pair kv k).
Proof.
  rewrite KeyValue_eq. simpl. unfold meta_get, te_meta. simpl. rewrite lookup_insert_eq. simpl.
  destruct kv as [|k1 r]; [done|].
  rewrite (kv_loop_lookup (length (k1 :: r))), lookup_empty by done. by destruct (last_pair _ _).
Qed.

Lemma new_tagged_reported msg kv h kv' :
  Forall (fun p => default EmptyString (last_pair kv p.1) = p.2) kv' ->
  reported (new_tagged msg kv h).2 (new_tagged msg kv h).1 kv'.
Proof.
  intros Hkv. split; [done|]. eapply Forall_impl; [exact Hkv|]. intros p Hp.
  by rewrite new_tagged_KeyValue.
Qed.

(** Another key of an error that is reported. *)
Lemma reported_with_key h e kv k v :
  reported h e kv -> Forall (fun p => p.1 <> k) kv ->
  exists h', WithKeyValue (Some e) k v h = (Ret (Some e), h') /\ reported h' e (kv ++ [(k, v)]).
Proof.
  intros [Htag Hkv] Hne. pose proof Htag as Hte. rewrite IsTag_eq in Hte.
  destruct (AsType as_tagged e) as [te|] eqn:E; [clear Hte|done].
  destruct (WithKeyValue_reads e k v h) as (e' & h' & Ew & Hr).
  pose proof (WithKeyValue_tagged e k v h te E) as Ew'. rewrite Ew in Ew'. injection Ew' as -> ->.
  eexists. split; [exact Ew|]. split; [done|]. apply Forall_app. split.
  - rewrite Forall_forall in *. intros p Hp. rewrite (proj1 (Hr p.1)).
    destruct (String.eqb_spec k p.1) as [E'|_]; [by destruct (Hne p Hp)|]. by apply Hkv.
  - apply Forall_singleton. cbn [fst snd]. by rewrite (proj1 (Hr k)), String.eqb_refl.
Qed.

(** ** Creation *)

(** Why the database refuses an account, as the code and the parameter of the
    error that says so. *)
Definition refusal (uuidv7 : Z -> accounts_db -> nat -> uuid) (email pwd : string) (now : Z)
    (db : accounts_db) : option (string * string) :=
  if negb (email_ok email) then Some ("400", "email")%string
  else if negb (password_ok pwd) then Some ("500", "password")%string
  else if decide (is_Some (t_accounts db !! uuidv7 now db 0%nat) \/
                  map_Exists (fun _ r => ar_email r = email) (t_accounts db))
       then Some ("409", "email")%string
  else None.

Lemma insertAccount_refusal uuidv7 email pwd now db :
  match refusal uuidv7 email pwd now db with
  | None => exists id db', insertAccount uuidv7 email pwd now db = Ok (Some id, db')
  | Some (code, param) => exists c k, insertAccount uuidv7 email pwd now db = Err (accounts_error c k) /\
      (c, k, code, param) ∈ [("23514", "chk_email_length", "400", "email");
        ("23514", "chk_password_length", "500", "password");
        ("23505", "accounts_accounts_pkey", "409", "email");
        ("23505", "uidx_accounts_email", "409", "email")]%string
  end.
Proof.
  unfold refusal, insertAccount. destruct (email_ok email); [destruct (password_ok pwd)|]; simpl;
    [|eexists _, _; split; [reflexivity|set_solver]..].
  destruct (decide (is_Some (t_accounts db !! _))) as [Hid|Hid];
    [rewrite decide_True by (by left); eexists _, _; split; [reflexivity|set_solver]|].
  destruct (decide (map_Exists _ _)) as [He|He];
    [rewrite decide_True by (by right); eexists _, _; split; [reflexivity|set_solver]|].
  rewrite decide_False by tauto. by eexists _, _.
Qed.

Section Creation.
Context {D DB : Type} `{!Lens DB accounts_db} (conn : Connection D (Sql DB)).
Context {TL : TxLaws (conn_beginTxer conn) DB} {SL : SqlLaws conn}.
Context {W : Type} {LH : Lens W heap} {LD : Lens W D} `{!Apart W D heap}.
Context (uuidv7 : Z -> accounts_db -> nat -> uuid) (array_order : list string -> list string).

(** The closure of Create, whose errors are the driver's or those of the
    insertion. *)
Lemma create_fn_run ctx email pwd (d : D) :
  ctx_ok conn ctx ->
  exists r d', EnsureQueryer ctx (conn_queryer conn) (create_fn uuidv7 array_order email pwd) d = (Ret r, d') /\
    match r with
    | Ok acct => exists t s s1, timed conn ctx t d d' /\ visible conn ctx d = Some s /\
        visible conn ctx d' = Some (update s1 s) /\
        insertAccount uuidv7 email pwd t (view s) = Ok (Some (ID acct), s1) /\
        to_Account array_order s1 (ID acct) <$> t_accounts s1 !! ID acct = Some acct
    | Err e =>
        (exists t s, timed conn ctx t d d' /\ visible conn ctx d = Some s /\
           visible conn ctx d' = (match ctxTx ctx with Some _ => None | None => Some s end) /\
           insertAccount uuidv7 email pwd t (view s) = Err e) \/
        (faulty e /\ (ctxTx ctx <> None -> visible conn ctx d' = None) /\
         (ctxTx ctx = None -> db d' = db d \/ exists t id s1, clock d <= t <= clock d' /\
           insertAccount uuidv7 email pwd t (view (db d)) = Ok (Some id, s1) /\
           db d' = update s1 (db d)))
    end.
Proof.
  intros Hctx.
  destruct (EnsureQueryer_QueryOne conn ctx (on_table (insertAccount uuidv7 email pwd)) d Hctx)
    as (r1 & d1 & E1 & (Hc1 & Hdb1 & Hr1) & Hx1).
  set (q := match ctxTx ctx with Some tx => tx_queryer tx | None => conn_queryer conn end).
  change (QueryOne q (on_table (insertAccount uuidv7 email pwd)) d = (Ret (one_row r1), d1)) in E1.
  unfold EnsureQueryer. fold q. unfold create_fn, bindE. rewrite (bind_run _ _ _ _ _ E1).
  destruct r1 as [o|e].
  2:{ exists (Err e), d1. split; [done|]. destruct Hr1 as [Hv1 _]. destruct Hx1 as [Hf|(t & s & Ht & Hs & Hp)].
      - right. split; [done|]. unfold visible in Hv1.
        destruct (ctxTx ctx) as [tx|] eqn:Etx; [split; [intros _; unfold visible; by rewrite Etx|done]|].
        split; [done|]. intros _. left. by injection Hv1.
      - left. exists t, s. rewrite Hv1, Hs. split_and!; [done|done|done|].
        unfold on_table in Hp. destruct (insertAccount _ _ _ _ _) as [[]|]; congruence. }
  destruct Hr1 as (t & s & s' & Ht & Hs & Hs' & Hp). unfold on_table in Hp.
  destruct (insertAccount uuidv7 email pwd t (view s)) as [[o' s1]|] eqn:Ei; [|done].
  injection Hp as -> <-. destruct (insertAccount_Ok _ _ _ _ _ _ _ Ei) as (-> & _).
  cbn [one_row]. set (id := uuidv7 t (view s) 0%nat) in *.
  destruct (EnsureQueryer_QueryOne conn ctx (on_table (selectByID array_order id)) d1 Hctx)
    as (r2 & d2 & E2 & (Hc2 & Hdb2 & Hr2) & Hx2).
  assert (ByID array_order ctx q id d1 = (Ret (one_row r2), d2)) as E2'.
  { rewrite <- E2. unfold ByID, query_one, EnsureQueryer, q. by destruct (ctxTx ctx). }
  rewrite E2'. clear E2 E2'. eexists _, d2. split; [reflexivity|].
  assert (timed conn ctx t d d2) as Ht2 by (unfold timed in *; destruct (ctxTx ctx); [done|lia]).
  destruct r2 as [o2|e].
  - destruct Hr2 as (t2 & s2 & s2' & _ & Hs2 & Hs2' & Hp2). rewrite Hs' in Hs2. injection Hs2 as <-.
    unfold on_table, selectByID in Hp2. rewrite view_update, update_update in Hp2. injection Hp2 as <- <-.
    pose proof (insertAccount_Ok _ _ _ _ _ _ _ Ei) as (_ & _ & _ & _ & _ & Ha & _). fold id in Ha.
    rewrite Ha, lookup_insert_eq. simpl. exists t, s, s1. split_and!; try done.
    by rewrite Ha, lookup_insert_eq.
  - right. destruct Hr2 as [Hv2 _]. split_and!.
    + destruct Hx2 as [Hf|(t2 & s2 & _ & _ & Hp2)]; [done|by unfold on_table, selectByID in Hp2].
    + intros Htx. by destruct (ctxTx ctx).
    + intros Htx. unfold visible in *. rewrite Htx in *. right. exists t, id, s1.
      unfold timed in Ht2. rewrite Htx in Ht2. injection Hs as <-. split_and!; [lia|lia|done|].
      congruence.
Qed.

Lemma create_error_violation c k code param :
  (c, k, code, param) ∈ [("23514", "chk_email_length", "400", "email");
    ("23514", "chk_password_length", "500", "password");
    ("23505", "accounts_accounts_pkey", "409", "email");
    ("23505", "uidx_accounts_email", "409", "email")]%string ->
  exists msg, create_error (accounts_error c k) =
    tag_new (W := W) msg ["code"; code; "parameter"; param]%string.
Proof.
  rewrite !elem_of_cons, elem_of_nil.
  intros [[= -> -> -> ->]|[[= -> -> -> ->]|[[= -> -> -> ->]|[[= -> -> -> ->]|[]]]]]; by eexists.
Qed.

(** The tag that Create puts in the place of an error of the driver, by its SQL
    state and the name of the constraint: the code and the parameter. *)
Definition violation (err : error) : option (string * string) :=
  let state := SQLState (Some err) in
  if String.eqb state "23505" then Some ("409", "email")%string
  else if String.eqb state "23514" then
    perr ← AsProtocolError (Some err);
    if String.eqb (ConstraintName perr) "chk_email_length" then Some ("400", "email")%string
    else if String.eqb (ConstraintName perr) "chk_password_length" then Some ("500", "password")%string
    else None
  else None.

Lemma create_error_run e (w : W) :
  exists e' w', create_error e w = (Ret (Err e'), w') /\ (view w' : D) = view w /\
    match violation e with
    | Some (code, param) => reported (view w') e' [("code", code); ("parameter", param)]%string
    | None => e' = e
    end.
Proof.
  assert (Htag : forall msg code param, exists e' w',
    tag_new (A := Account) msg ["code"; code; "parameter"; param]%string w = (Ret (Err e'), w') /\
    (view w' : D) = view w /\ reported (view w') e' [("code", code); ("parameter", param)]%string).
  { intros msg code param. rewrite tag_new_run. do 2 eexists. split; [reflexivity|].
    rewrite (view_apart (S := D) (T := heap)), view_update. split; [done|].
    apply new_tagged_reported. by repeat constructor. }
  assert (Hsame : exists e' w', ret (W := W) (Err (A := Account) e) w = (Ret (Err e'), w') /\
    (view w' : D) = view w /\ e' = e) by by eexists _, _.
  unfold create_error, violation. destruct (String.eqb _ "23505"); [apply Htag|].
  destruct (String.eqb _ "23514"); [|done]. destruct (AsProtocolError _) as [perr|]; [|done]. simpl.
  by repeat case_goal; try apply Htag.
Qed.

Lemma member_groups_nil db id : (forall g, (id, g) ∉ t_members db) -> member_groups db id = [].
Proof.
  intros Hno. unfold member_groups. induction (map_to_list (t_groups db)) as [|[g n] l IH]; [done|].
  rewrite omap_cons. simpl. by rewrite decide_False, IH.
Qed.

(** Create, in the context's transaction or on its own.  On success the
    account is inserted and returned as stored: unverified and, in tables that
    satisfy their constraints, in no group.  When the database refuses it,
    nothing is inserted and the error is tagged with the code and the parameter
    of the reason: 400 for the length of the email, 500 for the length of the
    hash, 409 for an email that is taken (or an identifier drawn twice).  Any
    other error comes from a fault of the driver, and is that error or the tag
    for its SQL state; outside of a transaction the account may then have been
    inserted, when it is the read of the new account that failed. *)
Lemma Create_refines ctx email pwd w :
  ctx_ok conn ctx -> (forall l, array_order l ≡ₚ l) ->
  exists r w', Create uuidv7 array_order ctx (conn_queryer conn) email pwd w = (Ret r, w') /\
    let d := view w : D in let d' := view w' : D in
    match r with
    | Ok acct => exists t s s1, timed conn ctx t d d' /\ visible conn ctx d = Some s /\
        visible conn ctx d' = Some (update s1 s) /\
        insertAccount uuidv7 email pwd t (view s) = Ok (Some (ID acct), s1) /\
        refusal uuidv7 email pwd t (view s) = None /\
        t_accounts s1 !! ID acct = Some {| ar_email := email; ar_password := pwd;
                                           ar_verified := None; ar_created := t |} /\
        Email acct = email /\ Password acct = pwd /\ Verified acct = None /\ Created acct = t /\
        (accounts_ok (view s) -> Groups_ acct = [])
    | Err e =>
        (exists t s code param, timed conn ctx t d d' /\ visible conn ctx d = Some s /\
           visible conn ctx d' = (match ctxTx ctx with Some _ => None | None => Some s end) /\
           refusal uuidv7 email pwd t (view s) = Some (code, param) /\
           reported (view w') e [("code", code); ("parameter", param)]%string) \/
        ((exists e0, faulty e0 /\
            match violation e0 with
            | Some (code, param) => reported (view w') e [("code", code); ("parameter", param)]%string
            | None => e = e0
            end) /\
         (ctxTx ctx <> None -> visible conn ctx d' = None) /\
         (ctxTx ctx = None -> db d' = db d \/ exists t id s1, clock d <= t <= clock d' /\
           insertAccount uuidv7 email pwd t (view (db d)) = Ok (Some id, s1) /\
           db d' = update s1 (db d)))
    end.
Proof.
  intros Hctx Hperm.
  destruct (create_fn_run ctx email pwd (view w) Hctx) as (r & d' & E & Hr).
  unfold Create. rewrite (bind_run _ _ _ _ _ (zoom_run _ _ _ _ E)).
  destruct r as [acct|e].
  - eexists _, _. split; [reflexivity|]. cbv zeta. rewrite view_update.
    destruct Hr as (t & s & s1 & Ht & Hs & Hs' & Hi & Ha).
    pose proof (insertAccount_refusal uuidv7 email pwd t (view s)) as Href.
    destruct (refusal uuidv7 email pwd t (view s)) as [[code param]|] eqn:Er.
    { destruct Href as (c & k & Hc & _). congruence. }
    pose proof Hi as Hins.
    apply insertAccount_Ok in Hi as (Hid & _ & _ & Hnone & _ & Hacc & _ & Hm).
    injection Hid as Hid. rewrite <- Hid in Hacc, Hnone. rewrite Hacc, lookup_insert_eq in Ha.
    injection Ha as <-. exists t, s, s1. rewrite Hacc, lookup_insert_eq. split_and!; try done.
    intros (_ & _ & _ & Hfk). simpl. apply Permutation_nil_r. rewrite Hperm, member_groups_nil; [done|].
    intros g. rewrite Hm. intros Hin. destruct (Hfk _ _ Hin) as [[r Hr] _]. congruence.
  - destruct Hr as [(t & s & Ht & Hs & Hs' & Hi)|(Hf & Htx & Hno)].
    + pose proof (insertAccount_refusal uuidv7 email pwd t (view s)) as Href.
      destruct (refusal uuidv7 email pwd t (view s)) as [[code param]|] eqn:Er.
      2:{ destruct Href as (id & db' & Hok). congruence. }
      destruct Href as (c & k & Hc & Hin). rewrite Hc in Hi. injection Hi as <-.
      destruct (create_error_violation c k code param Hin) as (msg & ->). rewrite tag_new_run.
      do 2 eexists. split; [reflexivity|]. cbv zeta. rewrite (view_apart (S := D) (T := heap)), !view_update. left.
      exists t, s, code, param. split_and!; try done.
      apply new_tagged_reported. by repeat constructor.
    + destruct (create_error_run e (update d' w)) as (e' & w' & -> & Hv & He).
      exists (Err e'), w'. split; [done|]. cbv zeta. rewrite Hv, view_update. right.
      split_and!; [by exists e|done|done].
Qed.
End Creation.
