(* ===== verification/Migrate.v ===== *)
(** * Migrate: src/pgdb/migrate/migrate.go

    The migrator: registration of groups, their ordering (on the topological
    sort of github.com/philopon/go-toposort, a parameter), the preparation of
    their statements from template files, and the migration transaction.  A
    directory is the list of its files; parsing and executing a template of
    text/template are parameters, and so is the effect of a migration's text
    on the database.  Log lines are not modelled. *)

From Stdlib Require Import ZArith Ascii String Lia.
From stdpp Require Import sorting.
From S2P Require Import Prelude Errors Pgdb Sql PgModel.

Definition ErrCycle : error := ConstError "cycle detected in migration groups".
Definition ErrMissingGroup : error := ConstError "migration group(s) not registered".
Definition ErrGroupRegistered : error := ConstError "group already registered".

(** ** The version table

    migrate_versions, once _embed/001 created it: the version of each group,
    which the table checks to be at least 0. *)

Notation versions_table := (option (gmap string N)).

Definition undefined_table : error := pg_error "42P01" "relation does not exist".
Definition check_group_length : error := pg_error "23514" "chk_group_length".

(** The statement of _embed/001: CREATE TABLE IF NOT EXISTS. *)
Definition createVersions : Sql versions_table unit := fun _ v => Ok (tt, Some (default ∅ v)).

Definition sqlGroupLastVersion (group : string) : Sql versions_table (option Z) := fun _ v =>
  match v with
  | Some t => Ok (Z.of_N <$> t !! group, v)
  | None => Err undefined_table
  end.

Definition sqlSetGroupVersion (group : string) (version : Z) : Sql versions_table unit := fun _ v =>
  match v with
  | Some t =>
      if (0 <=? version) && (1 <=? char_length group) && (char_length group <=? 100)
      then Ok (tt, Some (<[group := Z.to_N version]> t))
      else Err check_group_length
  | None => Err undefined_table
  end.

(** The statements that the migrator sends: those on the database, and the
    function pg_advisory_xact_lock of PostgreSQL, which waits for the lock of a
    number and holds it to the end of the transaction.  To one transaction at a
    time the lock is always free and changes nothing; MigRace has the server
    where it counts. *)
Class Statements (DB : Type) (Stmt : Type -> Type) := {
  pg_advisory_xact_lock : Z -> Stmt unit;
  on_db : forall A, Sql DB A -> Stmt A;
}.
Arguments on_db {DB Stmt _ A} st.
#[export] Instance sql_statements DB : Statements DB (Sql DB) :=
  {| pg_advisory_xact_lock := fun _ _ s => Ok (tt, s); on_db := fun _ st => st |}.

Definition sqlAcquireLock {DB Stmt} `{Statements DB Stmt} (id : Z) : Stmt unit := pg_advisory_xact_lock id.

(** ** Registration and ordering *)

(** A directory: the names and contents of its files, by name. *)
Definition FS : Type := list (string * string).

(** The text between names that fmt prints for a list. *)
Definition fmt_list (l : list string) : string := "[" +:+ join_strings " " l +:+ "]".

Fixpoint contains_sub (p s : string) : bool :=
  has_prefix p s || match s with EmptyString => false | String _ s' => contains_sub p s' end.

(** A loop whose body can fail. *)
Fixpoint mapE {E A B} (f : A -> res E B) (l : list A) : res E (list B) :=
  match l with
  | [] => Ok []
  | x :: l' =>
      match f x with
      | Err e => Err e
      | Ok y => match mapE f l' with Ok ys => Ok (y :: ys) | Err e => Err e end
      end
  end.

Record Config := { AdvisoryLockID : Z }.

Section Migrator.
Context {W DB : Type} {Stmt : Type -> Type} `{!Lens DB versions_table} {ST : Statements DB Stmt}.
Context {Any Tpl : Type}.
(** template parsing (the text of its error) and execution *)
Context (Parse : string -> res string Tpl) (Execute : Tpl -> gmap string Any -> res error string).
(** what the text of a migration does to the database *)
Context (run_text : string -> Sql DB unit).
(** the text that fmt.Errorf takes from a wrapped error *)
Context (err_text : error -> string).
(** the order of a range over a map, at each place of the program *)
Context (range : nat -> forall A, gmap string A -> list (string * A)).
(** AddNode and AddEdge of each pair, then Toposort *)
Context (toposort : list string -> list (string * string) -> option (list string)).
Local Open Scope go_scope.

Record Migrator := {
  beginTxer : BeginTxer W Stmt;
  config : Config;
  execData : gmap string Any;
  groupMigs : gmap string FS;
  groupDeps : gmap string (gmap string bool);
}.

Definition New (btx : BeginTxer W Stmt) (conf : option Config) : Migrator :=
  let copyConf := default {| AdvisoryLockID := 0 |} conf in
  {| beginTxer := btx; config := copyConf; execData := ∅; groupMigs := ∅; groupDeps := ∅ |}.

Definition Register (m : Migrator) (group : string) (conf : Any) (migrations : FS)
    (after : list string) : option error * Migrator :=
  match groupMigs m !! group with
  | Some _ =>
      (Some (FmtError ("migrate: group " +:+ group +:+ ": group already registered")
               ErrGroupRegistered), m)
  | None =>
      let deps := foldl (fun d dep => <[dep := true]> d) (default ∅ (groupDeps m !! group)) after in
      (None, {| beginTxer := beginTxer m; config := config m;
                execData := <[group := conf]> (execData m);
                groupMigs := <[group := migrations]> (groupMigs m);
                groupDeps := <[group := deps]> (groupDeps m) |})
  end.

Definition orderMigrationGroups (m : Migrator) : res error (list string) :=
  let nodes := (range 0 _ (groupDeps m)).*1 in
  let pairs := range 1 _ (groupDeps m) in
  let edges := pairs ≫= (fun p => (fun d => (d.1, p.1)) <$> range 2 _ p.2) in
  let allGroups : gmap string bool :=
    foldl (fun all p =>
      foldl (fun all d => <[d.1 := true]> all) (<[p.1 := true]> all) (range 2 _ p.2)) ∅ pairs in
  match toposort nodes edges with
  | None => Err (FmtError "migrate: cycle detected in migration groups" ErrCycle)
  | Some order =>
      let missing := filter (fun g => groupDeps m !! g = None) ((range 3 _ allGroups).*1) in
      match missing with
      | [] => Ok order
      | _ =>
          let missing := merge_sort String.le missing in
          Err (FmtError ("migrate: groups " +:+ fmt_list missing
                 +:+ ": migration group(s) not registered") ErrMissingGroup)
      end
  end.

Definition by_name {A} (a b : string * A) : Prop := String.le a.1 b.1.
#[local] Instance by_name_dec {A} : RelDecision (@by_name A).
Proof. intros a b. unfold by_name. apply _. Defined.

Definition prepareMigrationsFS (data : gmap string Any) (migrations : FS)
    : res error (list string * list string) :=
  let files := filter (fun f => has_suffix ".tpl" f.1 = true) migrations in
  match files with
  | [] => Ok ([], [])
  | _ =>
      match mapE (fun f => match Parse f.2 with Ok t => Ok (f.1, t) | Err e => Err e end) files with
      | Err msg =>
          if contains_sub "pattern matches no files" msg then Ok ([], []) else Err (ErrorString msg)
      | Ok tpls =>
          let tpls := merge_sort by_name tpls in
          match mapE (fun t => Execute t.2 data) tpls with
          | Err e => Err e
          | Ok stmts => Ok (stmts, tpls.*1)
          end
      end
  end.

Fixpoint prepare_loop (data : gmap string Any) (groups : list (string * FS))
    (acc : gmap string (list string) * gmap string (list string))
    : res error (gmap string (list string) * gmap string (list string)) :=
  match groups with
  | [] => Ok acc
  | (group, fs) :: rest =>
      match prepareMigrationsFS data fs with
      | Err e => Err e
      | Ok (stmts, names) => prepare_loop data rest (<[group := stmts]> acc.1, <[group := names]> acc.2)
      end
  end.

Definition prepareGroupMigrations (m : Migrator) :=
  prepare_loop (execData m) (range 4 _ (groupMigs m)) (∅, ∅).

(** ** The migration transaction *)

Definition groupLastVersion (q : Queryer W Stmt) (group : string) : go W (res error Z) :=
  let! r := QueryOne q (on_db (on_table (sqlGroupLastVersion group))) in
  match r with
  | Err err => if Is (Some err) ErrNoRows then ret (Ok (-1)) else ret (Err err)
  | Ok v => ret (Ok v)
  end.

Definition setGroupLastVersion (q : Queryer W Stmt) (group : string) (version : Z)
    : go W (res error unit) := Exec q (on_db (on_table (sqlSetGroupVersion group version))).

Definition mig_error (name : string) (err : error) : error :=
  FmtError ("migrate: " +:+ name +:+ ": " +:+ err_text err) err.

Fixpoint applyMigrations (q : Queryer W Stmt) (migs : list (string * Sql DB unit))
    : go W (res error unit) :=
  match migs with
  | [] => ret (Ok tt)
  | (name, mig) :: rest =>
      let! r := Exec q (on_db mig) in
      match r with
      | Err err => ret (Err (mig_error name err))
      | Ok _ => applyMigrations q rest
      end
  end.

(** The statements [stmts] with their names: migs and names of the source. *)
Definition texts (stmts names : list string) : list (string * Sql DB unit) :=
  zip names (run_text <$> stmts).

(** The loop over the groups in their order.  The slices are in bounds: a last
    version is at least -1. *)
Fixpoint migrateGroups (q : Queryer W Stmt) (order : list string)
    (groupStmts groupNames : gmap string (list string)) : go W (res error unit) :=
  match order with
  | [] => ret (Ok tt)
  | group :: rest =>
      let? last := groupLastVersion q group in
      let stmts := default [] (groupStmts !! group) in
      let names := default [] (groupNames !! group) in
      if last + 1 <? Z.of_nat (length stmts) then
        let stmts' := drop (Z.to_nat (last + 1)) stmts in
        let names' := drop (Z.to_nat (last + 1)) names in
        let? _ := applyMigrations q (texts stmts' names') in
        let? _ := setGroupLastVersion q group (Z.of_nat (length stmts) - 1) in
        migrateGroups q rest groupStmts groupNames
      else migrateGroups q rest groupStmts groupNames
  end.

Definition metaMigrations : list (string * Sql DB unit) :=
  [("001_create_table_migrate_versions.sql.tpl"%string, on_table createVersions)].

Definition migrate_fn (m : Migrator) (order : list string) (groupStmts groupNames : gmap string (list string))
    (_ : Ctx W Stmt) (tx : Txer W Stmt) : go W (res error unit) :=
  let q := tx_queryer tx in
  let? _ := Exec q (sqlAcquireLock (AdvisoryLockID (config m))) in
  let? _ := applyMigrations q metaMigrations in
  migrateGroups q order groupStmts groupNames.

Definition Migrate (env : Env W) (m : Migrator) (ctx : Ctx W Stmt) : go W (res error unit) :=
  match orderMigrationGroups m with
  | Err err => ret (Err err)
  | Ok order =>
      match prepareGroupMigrations m with
      | Err err => ret (Err err)
      | Ok (groupStmts, groupNames) =>
          Tx env ctx (beginTxer m) None (migrate_fn m order groupStmts groupNames)
      end
  end.
End Migrator.
Arguments Migrator : clear implicits.

(** ** Ordering of the groups *)

(** [a] stands before [b] in [l]. *)
Definition before (a b : string) (l : list string) : Prop :=
  exists l1 l2 l3, l = l1 ++ a :: l2 ++ b :: l3.

(** What the topological sort promises: an order of the nodes that respects the
    edges between nodes, or none when these edges have a cycle. *)
Definition edge_in (nodes : list string) (edges : list (string * string)) (a b : string) : Prop :=
  (a, b) ∈ edges /\ a ∈ nodes /\ b ∈ nodes.
Class ToposortLaws (toposort : list string -> list (string * string) -> option (list string)) := {
  toposort_Some : forall nodes edges order, NoDup nodes -> toposort nodes edges = Some order ->
    order ≡ₚ nodes /\ forall a b, edge_in nodes edges a b -> before a b order;
  toposort_None : forall nodes edges, NoDup nodes -> toposort nodes edges = None ->
    exists a, tc (edge_in nodes edges) a a;
}.

(** A range over a map visits every entry once. *)
Class RangeLaws (range : nat -> forall A, gmap string A -> list (string * A)) := {
  range_perm : forall i A (m : gmap string A), range i A m ≡ₚ map_to_list m;
}.

Section Ordering.
Context {W : Type} {Stmt : Type -> Type} {Any : Type}.
Context (range : nat -> forall A, gmap string A -> list (string * A)) {RG : RangeLaws range}.
Context (toposort : list string -> list (string * string) -> option (list string)).
Context {TS : ToposortLaws toposort}.
Local Notation Migrator := (@Migrator W Stmt Any).

(** The declarations of Register: [a] is to be applied before [g]. *)
Definition depends (m : Migrator) (a g : string) : Prop :=
  exists deps, groupDeps m !! g = Some deps /\ is_Some (deps !! a).
Definition registered (m : Migrator) (g : string) : Prop := is_Some (groupDeps m !! g).

Lemma elem_of_range {A} i (m : gmap string A) k v : (k, v) ∈ range i A m <-> m !! k = Some v.
Proof. by rewrite (range_perm i A m), elem_of_map_to_list. Qed.

Lemma elem_of_range_keys {A} i (m : gmap string A) k : k ∈ (range i A m).*1 <-> is_Some (m !! k).
Proof.
  rewrite list_elem_of_fmap. split.
  - intros ([k' v] & -> & H). exists v. by apply (elem_of_range i).
  - intros [v H]. exists (k, v). by rewrite elem_of_range.
Qed.

Lemma NoDup_range_keys {A} i (m : gmap string A) : NoDup (range i A m).*1.
Proof. rewrite (range_perm i A m). apply NoDup_fst_map_to_list. Qed.

Definition edges_of (m : Migrator) : list (string * string) :=
  range 1 _ (groupDeps m) ≫= (fun p => (fun d => (d.1, p.1)) <$> range 2 _ p.2).

Lemma elem_of_edges m a g : (a, g) ∈ edges_of m <-> depends m a g.
Proof.
  unfold edges_of, depends. rewrite list_elem_of_bind. split.
  - intros ([g' deps] & H & Hg). apply list_elem_of_fmap in H as ([a' b] & [= -> ->] & Hd).
    exists deps. split; [by apply (elem_of_range 1)|]. exists b. by apply (elem_of_range 2).
  - intros (deps & Hg & [b Hd]). exists (g, deps). rewrite elem_of_range. split; [|done].
    apply list_elem_of_fmap. exists (a, b). by rewrite elem_of_range.
Qed.

(** The map of all groups that are mentioned. *)
Definition all_groups (m : Migrator) : gmap string bool :=
  foldl (fun all p =>
    foldl (fun all d => <[d.1 := true]> all) (<[p.1 := true]> all) (range 2 bool p.2))
    ∅ (range 1 _ (groupDeps m)).

Lemma insert_all_spec (l : list (string * bool)) (m : gmap string bool) k :
  is_Some (foldl (fun all d => <[d.1 := true]> all) m l !! k) <-> is_Some (m !! k) \/ k ∈ l.*1.
Proof.
  revert m. induction l as [|[k' b] l IH]; intros m; simpl.
  - rewrite elem_of_nil. naive_solver.
  - rewrite IH, elem_of_cons, lookup_insert_is_Some'. simpl. naive_solver.
Qed.

Lemma all_groups_spec m k :
  is_Some (all_groups m !! k) <-> registered m k \/ exists g, depends m k g.
Proof.
  unfold all_groups.
  assert (H : forall l (m0 : gmap string bool),
    is_Some (foldl (fun all p =>
      foldl (fun all d => <[d.1 := true]> all) (<[p.1 := true]> all) (range 2 bool p.2)) m0 l !! k)
    <-> is_Some (m0 !! k) \/ exists g deps, (g, deps) ∈ l /\ (k = g \/ is_Some (deps !! k))).
  { induction l as [|[g deps] l IH]; intros m0; simpl.
    - split; [by left|]. intros [?|(? & ? & []%not_elem_of_nil & _)]. done.
    - rewrite IH, insert_all_spec, lookup_insert_is_Some', elem_of_range_keys. simpl.
      setoid_rewrite elem_of_cons. split.
      + intros [[[->|?]|?]|(g' & deps' & ? & ?)]; [right; exists k, deps|by left|right; exists g, deps
          |right; exists g', deps']; naive_solver.
      + intros [?|(g' & deps' & [[= -> ->]|?] & ?)]; naive_solver. }
  rewrite H. setoid_rewrite elem_of_range. unfold registered, depends. rewrite lookup_empty.
  split.
  - intros [[? ?]|(g & deps & Hg & [->|Hk])]; [done|left; by exists deps|right; naive_solver].
  - intros [[deps Hg]|(g & deps & Hg & Hk)]; right; [by exists k, deps; auto|exists g, deps; auto].
Qed.

Lemma tc_edge_depends m a b :
  tc (edge_in ((range 0 _ (groupDeps m)).*1) (edges_of m)) a b -> tc (depends m) a b.
Proof.
  induction 1 as [x y (He & _)|x y z (He & _) _ IH].
  - constructor. by apply elem_of_edges.
  - eapply tc_l; [|done]. by apply elem_of_edges.
Qed.

Lemma order_cases m :
  match orderMigrationGroups range toposort m with
  | Ok order =>
      NoDup order /\ (forall g, g ∈ order <-> registered m g) /\
      forall a g, depends m a g -> registered m a /\ before a g order
  | Err e =>
      (Is (Some e) ErrCycle = true /\ exists a, tc (depends m) a a) \/
      (Is (Some e) ErrMissingGroup = true /\ exists a g, depends m a g /\ ~ registered m a)
  end.
Proof.
  unfold orderMigrationGroups. fold (edges_of m). fold (all_groups m).
  set (nodes := (range 0 _ (groupDeps m)).*1).
  assert (Hnd : NoDup nodes) by apply NoDup_range_keys.
  destruct (toposort nodes (edges_of m)) as [order|] eqn:Et.
  - destruct (toposort_Some nodes (edges_of m) order Hnd Et) as [Hperm Hbefore].
    assert (Hmiss : forall g, g ∈ filter (fun g => groupDeps m !! g = None) ((range 3 _ (all_groups m)).*1)
      <-> ~ registered m g /\ exists g', depends m g g').
    { intros g. rewrite list_elem_of_filter, elem_of_range_keys, all_groups_spec. unfold registered.
      rewrite <- eq_None_not_Some. split.
      - intros [Hn [[? ?]|?]]; [congruence|done].
      - intros [Hn ?]. by split; [|right]. }
    destruct (filter _ _) as [|g0 rest].
    + assert (Hreg : forall a g, depends m a g -> registered m a).
      { intros a g Hd. destruct (groupDeps m !! a) eqn:Ea; [by eexists|exfalso].
        apply (not_elem_of_nil a), Hmiss. split; [|by exists g]. unfold registered. rewrite Ea. by intros []. }
      split; [by rewrite Hperm|]. split.
      * intros g. rewrite Hperm. apply elem_of_range_keys.
      * intros a g Hd. split; [by apply (Hreg a g)|]. apply Hbefore. split_and!.
        -- by apply elem_of_edges.
        -- by apply elem_of_range_keys, (Hreg a g).
        -- apply elem_of_range_keys. destruct Hd as (deps & -> & _). by eexists.
    + right. split; [done|]. destruct (proj1 (Hmiss g0)) as [Hn [g' Hd]]; [by left|]. by exists g0, g'.
  - left. split; [done|]. destruct (toposort_None nodes (edges_of m) Hnd Et) as [a Ha].
    exists a. by apply tc_edge_depends.
Qed.

(** C24. The groups are ordered as declared: an order holds every registered
    group once, each after the groups it was registered to come after, all of
    which are registered.  Otherwise the error is ErrCycle (in the sense of
    errors.Is), and some group depends on itself, or ErrMissingGroup, and some
    group depends on one that is not registered. *)
Theorem orderMigrationGroups_spec m :
  match orderMigrationGroups range toposort m with
  | Ok order =>
      NoDup order /\ (forall g, g ∈ order <-> registered m g) /\
      forall a g, depends m a g -> registered m a /\ before a g order
  | Err e =>
      (Is (Some e) ErrCycle = true /\ exists a, tc (depends m) a a) \/
      (Is (Some e) ErrMissingGroup = true /\ exists a g, depends m a g /\ ~ registered m a)
  end.
Proof. apply order_cases. Qed.
End Ordering.

(** ** What a migration does *)

(** The last version of a group, -1 when it has none. *)
Definition last_version (v : gmap string N) (group : string) : Z :=
  match v !! group with Some n => Z.of_N n | None => -1 end.

(** The statements to run, in order, and the versions they lead to: for each
    group, those after its last version. *)
Fixpoint plan (v : gmap string N) (order : list string) (stmts : gmap string (list string))
    : list string * gmap string N :=
  match order with
  | [] => ([], v)
  | group :: rest =>
      let l := default [] (stmts !! group) in
      if last_version v group + 1 <? Z.of_nat (length l) then
        let '(texts, v') := plan (<[group := Z.to_N (Z.of_nat (length l) - 1)]> v) rest stmts in
        (drop (Z.to_nat (last_version v group + 1)) l ++ texts, v')
      else plan v rest stmts
  end.

Section Migration.
Context {W DB : Type} `{!Lens DB versions_table}.
Context {Any Tpl : Type}.
Context (Parse : string -> res string Tpl) (Execute : Tpl -> gmap string Any -> res error string).
Context (run_text : string -> Sql DB unit) (err_text : error -> string).
Context (range : nat -> forall A, gmap string A -> list (string * A)).
Context (toposort : list string -> list (string * string) -> option (list string)).
Context (conn : Connection W (Sql DB)).
Context {TL : TxLaws (conn_beginTxer conn) DB} {SL : SqlLaws conn}.
Context (env : Env W) {EL : EnvLaws env (conn_beginTxer conn)}.

(** The text of a migration neither reads nor writes the version table. *)
Definition texts_independent : Prop := forall text now s v,
  run_text text now (update v s) =
  match run_text text now s with Ok (u, s') => Ok (u, update v s') | Err e => Err e end.

Fixpoint run_texts (l : list string) : Sql DB unit := fun now s =>
  match l with
  | [] => Ok (tt, s)
  | text :: l' =>
      match run_text text now s with
      | Ok (_, s') => run_texts l' now s'
      | Err e => Err e
      end
  end.

(** The transaction as a state function. *)
Fixpoint apply_sql (migs : list (string * Sql DB unit)) : Sql DB unit :=
  match migs with
  | [] => done_ (Ok tt)
  | (name, mig) :: rest => scase (mig_error err_text name) (exec_of mig) (fun _ => apply_sql rest)
  end.

Definition last_sql (group : string) : Sql DB Z :=
  map_ok (fun o => Ok (default (-1) o)) (on_table (sqlGroupLastVersion group)).

Fixpoint groups_sql (order : list string) (stmts names : gmap string (list string)) : Sql DB unit :=
  match order with
  | [] => done_ (Ok tt)
  | group :: rest =>
      sbind (last_sql group) (fun last =>
        let l := default [] (stmts !! group) in
        let n := default [] (names !! group) in
        if last + 1 <? Z.of_nat (length l) then
          sbind (apply_sql (texts run_text (drop (Z.to_nat (last + 1)) l) (drop (Z.to_nat (last + 1)) n)))
            (fun _ => sbind (exec_of (on_table (sqlSetGroupVersion group (Z.of_nat (length l) - 1))))
              (fun _ => groups_sql rest stmts names))
        else groups_sql rest stmts names)
  end.

Definition migrate_sql (id : Z) (order : list string) (stmts names : gmap string (list string)) : Sql DB unit :=
  sbind (exec_of (sqlAcquireLock id)) (fun _ =>
    sbind (apply_sql metaMigrations) (fun _ => groups_sql order stmts names)).

Lemma applyMigrations_does tx migs w :
  owned tx -> is_Some (work tx w) ->
  tx_does_at conn tx (apply_sql migs) (applyMigrations err_text (tx_queryer tx) migs) w.
Proof.
  intros Hown. revert w. induction migs as [|[name mig] migs IH]; intros w Hopen.
  - by apply (tx_does_ret conn tx (Ok tt)).
  - simpl. apply (tx_does_at_case conn tx (exec_of mig) (fun _ => apply_sql migs)
      (mig_error err_text name) _ _ w); [by apply tx_does_Exec_q| |done|by intros _; apply IH].
    intros e (e0 & Hf & Hc). exists e0. split; [done|by constructor].
Qed.

Lemma groupLastVersion_does tx group :
  owned tx -> tx_does conn tx (last_sql group) (groupLastVersion (tx_queryer tx) group).
Proof.
  intros Hown w. unfold groupLastVersion.
  destruct (tx_does_Run conn tx (on_table (sqlGroupLastVersion group)) Hown w)
    as (r & w' & E & Hc & Hdb & Hr).
  unfold QueryOne, tx_does_at, last_sql, map_ok. rewrite bind_assoc, (bind_run _ _ _ _ _ E).
  destruct r as [o|e]; rewrite bind_ret.
  - destruct Hr as (s & s' & Hw & Hw' & Hp).
    destruct o as [v|]; do 2 eexists; (split; [reflexivity|]); split_and!; try done;
      exists s, s'; by rewrite Hp.
  - destruct Hr as [Hf|(s & Hw & Hp)].
    + rewrite (fault_foreign conn e ErrNoRows) by (done || by left).
      do 2 eexists. split; [reflexivity|]. split_and!; [done..|by left].
    + assert (e = undefined_table) as ->
        by (unfold on_table, sqlGroupLastVersion in Hp; destruct (view s); congruence).
      change (Is (Some undefined_table) ErrNoRows) with false. cbv iota.
      do 2 eexists. split; [reflexivity|]. split_and!; [done..|]. right. exists s. by rewrite Hp.
Qed.

Lemma migrateGroups_does tx order stmts names w :
  owned tx -> is_Some (work tx w) ->
  tx_does_at conn tx (groups_sql order stmts names)
    (migrateGroups run_text err_text (tx_queryer tx) order stmts names) w.
Proof.
  intros Hown. revert w. induction order as [|group order IH]; intros w Hopen.
  - by apply (tx_does_ret conn tx (Ok tt)).
  - simpl. apply tx_does_at_bindE; [by apply groupLastVersion_does|]. intros last w1 H1.
    destruct (_ <? _); [|by apply IH].
    apply tx_does_at_bindE; [by apply applyMigrations_does|]. intros _ w2 H2.
    apply tx_does_at_bindE; [by apply tx_does_Exec_q|]. intros _ w3 H3. by apply IH.
Qed.

Lemma migrate_fn_does (m : Migrator W (Sql DB) Any) ctx tx order stmts names :
  ctxTx ctx = Some tx -> owned tx ->
  tx_does conn tx (migrate_sql (AdvisoryLockID (config m)) order stmts names)
    (migrate_fn run_text err_text m order stmts names ctx tx).
Proof.
  intros _ Hown w. unfold migrate_fn.
  apply tx_does_at_bindE; [by apply tx_does_Exec_q|]. intros _ w1 H1.
  apply tx_does_at_bindE; [by apply applyMigrations_does|]. intros _ w2 H2.
  by apply migrateGroups_does.
Qed.

(** The state function follows the plan. *)
Lemma run_texts_app l1 l2 now s :
  run_texts (l1 ++ l2) now s =
  match run_texts l1 now s with Ok (_, s') => run_texts l2 now s' | Err e => Err e end.
Proof.
  revert s. induction l1 as [|x l1 IH]; intros s; [done|]. simpl.
  by destruct (run_text x now s) as [[[] s']|e].
Qed.

Lemma run_texts_update l now s v :
  texts_independent ->
  run_texts l now (update v s) =
  match run_texts l now s with Ok (u, s') => Ok (u, update v s') | Err e => Err e end.
Proof.
  intros Hi. revert s. induction l as [|x l IH]; intros s; [done|]. simpl. rewrite Hi.
  destruct (run_text x now s) as [[u s']|e]; [apply IH|done].
Qed.

Lemma apply_sql_texts stmts names now s s' :
  length names = length stmts ->
  apply_sql (texts run_text stmts names) now s = Ok (tt, s') -> run_texts stmts now s = Ok (tt, s').
Proof.
  unfold texts. revert names s. induction stmts as [|x stmts IH]; intros [|n names] s Hlen H;
    try done. simpl in *. unfold scase, exec_of, map_ok in H.
  destruct (run_text x now s) as [[u s1]|e]; [|done]. eapply IH; [|done]. lia.
Qed.

(** Running [l] in a state whose version table is then replaced. *)
Lemma groups_sql_plan order stmts names now s s' v :
  texts_independent ->
  (forall g, length (default [] (names !! g)) = length (default [] (stmts !! g))) ->
  view s = Some v -> groups_sql order stmts names now s = Ok (tt, s') ->
  exists s1, run_texts (plan v order stmts).1 now s = Ok (tt, s1) /\
    s' = update (Some (plan v order stmts).2) s1.
Proof.
  intros Hi Hlen. revert s v. induction order as [|g order IH]; intros s v Hv H.
  { injection H as <-. exists s. split; [done|]. simpl. by rewrite <- Hv, update_view. }
  simpl in H. unfold sbind, last_sql, map_ok, on_table, sqlGroupLastVersion in H.
  rewrite Hv in H. rewrite <- Hv, update_view in H.
  assert (default (-1) (Z.of_N <$> v !! g) = last_version v g) as Elast
    by (unfold last_version; by destruct (v !! g)).
  rewrite Elast in H. simpl. destruct (_ <? _); [|by apply IH].
  destruct (apply_sql _ now s) as [[[] s1]|e] eqn:E1; [|done].
  apply apply_sql_texts in E1; [|by rewrite !length_drop, Hlen].
  assert (view s1 = Some v) as Hv1.
  { pose proof (run_texts_update (drop (Z.to_nat (last_version v g + 1)) (default [] (stmts !! g)))
      now s (view s) Hi) as Hu. rewrite update_view, E1 in Hu. injection Hu as Hu.
    by rewrite Hu, view_update. }
  unfold exec_of, map_ok, sqlSetGroupVersion in H. rewrite Hv1 in H.
  destruct (_ && _ && _); [|done]. simpl in H.
  set (v1 := <[g := _]> v) in H |- *.
  destruct (IH (update (Some v1) s1) v1) as (s2 & E2 & ->); [apply view_update|done|].
  destruct (plan v1 order stmts) as [l2 v2] eqn:Ep. simpl in *.
  rewrite run_texts_update in E2 by done.
  destruct (run_texts l2 now s1) as [[[] s3]|e] eqn:E3; [|done]. injection E2 as <-.
  exists s3. rewrite run_texts_app, E1. split; [done|]. apply update_update.
Qed.

Lemma migrate_sql_plan id order stmts names now s s' :
  texts_independent ->
  (forall g, length (default [] (names !! g)) = length (default [] (stmts !! g))) ->
  migrate_sql id order stmts names now s = Ok (tt, s') ->
  let v := default ∅ (view s) in
  exists s1, run_texts (plan v order stmts).1 now s = Ok (tt, s1) /\
    s' = update (Some (plan v order stmts).2) s1.
Proof.
  intros Hi Hlen H v. unfold migrate_sql, sbind, exec_of, map_ok, sqlAcquireLock in H.
  simpl in H. unfold scase, exec_of, map_ok, on_table, createVersions, done_ in H.
  destruct (groups_sql_plan order stmts names now (update (Some v) s) s' v) as (s1 & E1 & ->);
    [done..|apply view_update|done|].
  rewrite run_texts_update in E1 by done.
  destruct (run_texts _ now s) as [[[] s2]|e]; [|done]. injection E1 as <-.
  exists s2. split; [done|]. apply update_update.
Qed.

Lemma prepareMigrationsFS_length data fs stmts names :
  prepareMigrationsFS Parse Execute data fs = Ok (stmts, names) -> length names = length stmts.
Proof.
  assert (mapE_length : forall E A B (f : A -> res E B) l l', mapE f l = Ok l' -> length l' = length l).
  { intros E A B f l. induction l as [|x l IH]; simpl; intros l' H; [by injection H as <-|].
    destruct (f x); [|done]. destruct (mapE f l); [|done]. injection H as <-. simpl.
    by rewrite (IH _ eq_refl). }
  unfold prepareMigrationsFS. intros H. destruct (filter _ fs) as [|f files];
    [by injection H as <- <-|].
  destruct (mapE _ (f :: files)) as [tpls|msg].
  - destruct (mapE _ (merge_sort by_name tpls)) as [l|e] eqn:E; [|done]. injection H as <- <-.
    by rewrite length_fmap, (mapE_length _ _ _ _ _ _ E).
  - destruct (contains_sub _ msg); [by injection H as <- <-|done].
Qed.

Lemma prepare_loop_length data groups acc stmts names :
  (forall g, length (default [] (acc.2 !! g)) = length (default [] (acc.1 !! g))) ->
  prepare_loop Parse Execute data groups acc = Ok (stmts, names) ->
  forall g, length (default [] (names !! g)) = length (default [] (stmts !! g)).
Proof.
  revert acc. induction groups as [|[g0 fs] groups IH]; intros acc Hacc H.
  { injection H as ->. apply Hacc. }
  simpl in H. destruct (prepareMigrationsFS _ _ data fs) as [[s n]|e] eqn:E; [|done].
  apply prepareMigrationsFS_length in E. apply (IH (<[g0 := s]> acc.1, <[g0 := n]> acc.2)); [|exact H]. intros g. simpl.
  destruct (decide (g0 = g)) as [->|Hne];
    [by rewrite !lookup_insert_eq|by rewrite !lookup_insert_ne].
Qed.

(** C5. Migrate is all or nothing and follows the plan: when it returns nil the
    database is the one it found with the statements that come after the
    recorded version of each group executed, once each, group after group in
    dependency order, and the versions advanced accordingly; when it returns
    an error (of the ordering, of a template, of a statement, or of the driver
    at any point) the database is unchanged. *)
Theorem Migrate_applies (m : Migrator W (Sql DB) Any) ctx w :
  beginTxer m = conn_beginTxer conn -> texts_independent ->
  exists r w', Migrate Parse Execute run_text err_text range toposort env m ctx w = (Ret r, w') /\
    match r with
    | Err e => db w' = db w
    | Ok _ => exists order stmts names t s1,
        orderMigrationGroups range toposort m = Ok order /\
        prepareGroupMigrations Parse Execute range m = Ok (stmts, names) /\
        clock w <= t <= clock w' /\
        let v := default ∅ (view (db w)) in
        run_texts (plan v order stmts).1 t (db w) = Ok (tt, s1) /\
        db w' = update (Some (plan v order stmts).2) s1
    end.
Proof.
  intros Hbtx Hi. unfold Migrate.
  destruct (orderMigrationGroups range toposort m) as [order|e]; [|by exists (Err e), w].
  destruct (prepareGroupMigrations Parse Execute range m) as [[stmts names]|e] eqn:Ep;
    [|by exists (Err e), w].
  rewrite Hbtx.
  destruct (Tx_does conn env ctx None (migrate_sql (AdvisoryLockID (config m)) order stmts names)
    (migrate_fn run_text err_text m order stmts names) w) as (r & w' & E & _ & Hr).
  { intros ctx' tx. apply migrate_fn_does. }
  exists r, w'. split; [exact E|]. destruct r as [[]|e]; [|by destruct Hr].
  destruct Hr as (t & Ht & Hp).
  apply migrate_sql_plan in Hp as (s1 & E1 & Hs); [|done|].
  - exists order, stmts, names, t, s1. split; [done|]. split; [done|]. split; [lia|]. by split.
  - intros g. eapply prepare_loop_length; [|exact Ep]. done.
Qed.
End Migration.

(** ** Versions *)

Lemma last_version_insert v g n g' :
  last_version (<[g := n]> v) g' = if decide (g = g') then Z.of_N n else last_version v g'.
Proof.
  unfold last_version. destruct (decide (g = g')) as [->|Hne];
    [by rewrite lookup_insert_eq|by rewrite lookup_insert_ne].
Qed.

Lemma last_version_ge v g : -1 <= last_version v g.
Proof. unfold last_version. destruct (v !! g); lia. Qed.

Definition group_len (stmts : gmap string (list string)) (g : string) : Z :=
  Z.of_nat (length (default [] (stmts !! g))).

Lemma plan_versions v order stmts g :
  last_version (plan v order stmts).2 g =
  if decide (g ∈ order) then Z.max (last_version v g) (group_len stmts g - 1) else last_version v g.
Proof.
  revert v. induction order as [|g0 order IH]; intros v; simpl.
  { by destruct (decide (g ∈ [])) as [[]%not_elem_of_nil|]. }
  fold (group_len stmts g0).
  destruct (Z.ltb_spec (last_version v g0 + 1) (group_len stmts g0)) as [Hlt|Hge].
  - destruct (plan _ order stmts) as [l v'] eqn:Ep. simpl.
    specialize (IH (<[g0 := Z.to_N (group_len stmts g0 - 1)]> v)). rewrite Ep in IH. simpl in IH.
    rewrite IH, last_version_insert.
    pose proof (last_version_ge v g0).
    destruct (decide (g0 = g)) as [<-|Hne].
    + rewrite (decide_True (P := g0 ∈ g0 :: order)) by left. destruct (decide (g0 ∈ order)); lia.
    + destruct (decide (g ∈ order)) as [Hin|Hout];
        [rewrite (decide_True (P := g ∈ g0 :: order)) by (by right); done|].
      rewrite decide_False; [done|]. by intros [->|?]%elem_of_cons.
  - rewrite IH. destruct (decide (g ∈ order)) as [Hin|Hout];
      [rewrite (decide_True (P := g ∈ g0 :: order)) by (by right); done|].
    destruct (decide (g ∈ g0 :: order)) as [[->|?]%elem_of_cons|]; [lia|done|done].
Qed.

Lemma plan_ext v v' order stmts :
  (forall g, g ∈ order -> last_version v g = last_version v' g) ->
  (plan v order stmts).1 = (plan v' order stmts).1.
Proof.
  revert v v'. induction order as [|g0 order IH]; intros v v' H; [done|]. simpl.
  rewrite <- (H g0) by left. destruct (_ <? _); [|apply IH; intros; apply H; by right].
  set (n := Z.to_N _).
  assert ((plan (<[g0 := n]> v) order stmts).1 = (plan (<[g0 := n]> v') order stmts).1) as E.
  { apply IH. intros g Hg. rewrite !last_version_insert. destruct (decide (g0 = g)); [done|].
    apply H. by right. }
  destruct (plan (<[g0 := n]> v) order stmts), (plan (<[g0 := n]> v') order stmts).
  simpl in *. by rewrite E.
Qed.

Lemma plan_statements v order stmts : NoDup order -> (plan v order stmts).1 =
  (order ≫= fun g => drop (Z.to_nat (last_version v g + 1)) (default [] (stmts !! g))).
Proof.
  intros Hnd. revert v. induction Hnd as [|g0 order Hg0 Hnd IH]; intros v; [done|].
  simpl. fold (group_len stmts g0).
  destruct (Z.ltb_spec (last_version v g0 + 1) (group_len stmts g0)) as [Hlt|Hge].
  - destruct (plan _ order stmts) as [l v'] eqn:Ep. simpl. f_equal.
    rewrite <- IH. change l with (l, v').1. rewrite <- Ep. apply plan_ext.
    intros g Hg. rewrite last_version_insert. by destruct (decide (g0 = g)) as [->|].
  - rewrite (drop_ge (default [] (stmts !! g0))), IH; [done|].
    pose proof (last_version_ge v g0). unfold group_len in Hge. lia.
Qed.

Lemma plan_again v order stmts : NoDup order -> (plan (plan v order stmts).2 order stmts).1 = [].
Proof.
  intros Hnd. rewrite plan_statements by done. apply elem_of_nil_inv. intros x Hx.
  apply list_elem_of_bind in Hx as (g & Hx & Hg).
  rewrite plan_versions, decide_True in Hx by done. rewrite drop_ge in Hx;
    [by apply not_elem_of_nil in Hx|]. unfold group_len. lia.
Qed.

(** A plan without statements leaves the versions. *)
Lemma plan_nil v order stmts : (plan v order stmts).1 = [] -> (plan v order stmts).2 = v.
Proof.
  induction order as [|g order IH]; [done|]. simpl.
  destruct (Z.ltb_spec (last_version v g + 1) (Z.of_nat (length (default [] (stmts !! g))))) as [Hlt|]; [|done].
  destruct (plan (<[g:=_]> v) order stmts) as [l v']. simpl. intros [Hd _]%app_eq_nil. exfalso.
  apply (f_equal length) in Hd. rewrite length_drop in Hd. simpl in Hd.
  pose proof (last_version_ge v g). lia.
Qed.

(** What a migration runs: for each group in order exactly the statements
    after its recorded version; it records the last statement of each group and
    never moves a version back, even for a group that is now shorter; and
    running again with the same statements runs none. *)
Theorem plan_incremental v order stmts :
  NoDup order ->
  (plan v order stmts).1 =
    (order ≫= fun g => drop (Z.to_nat (last_version v g + 1)) (default [] (stmts !! g))) /\
  (forall g, last_version (plan v order stmts).2 g =
     if decide (g ∈ order) then Z.max (last_version v g) (group_len stmts g - 1)
     else last_version v g) /\
  (plan (plan v order stmts).2 order stmts).1 = [].
Proof.
  intros Hnd. split; [by apply plan_statements|]. split; [apply plan_versions|by apply plan_again].
Qed.

(** ** A reference topological sort *)

(** The nodes without an edge from a node. *)
Definition sources (nodes : list string) (edges : list (string * string)) : list string :=
  filter (fun n => Forall (fun e => ~ (e.2 = n /\ e.1 ∈ nodes)) edges) nodes.

Fixpoint kahn (fuel : nat) (nodes : list string) (edges : list (string * string))
    : option (list string) :=
  match nodes with
  | [] => Some []
  | _ =>
      match fuel, sources nodes edges with
      | Datatypes.S f, n :: _ =>
          cons n <$> kahn f (filter (fun m => m <> n) nodes) edges
      | _, _ => None
      end
  end.
Definition toposort_ref (nodes : list string) (edges : list (string * string)) : option (list string) :=
  kahn (length nodes) nodes edges.

(** In a finite set where everything has a predecessor there is a cycle. *)
Lemma predecessors_cycle (E : string -> string -> Prop) n (R : list string) :
  (length R <= n)%nat -> R <> [] ->
  (forall x, x ∈ R -> exists y, y ∈ R /\ tc E y x) -> exists a, tc E a a.
Proof.
  revert R. induction n as [|n IH]; intros [|x R] Hlen Hne Hpred; simpl in Hlen; try done; [lia|].
  destruct (Hpred x) as (p & Hp & Epx); [by left|].
  destruct (decide (p = x)) as [->|Hpx]; [by exists x|].
  set (R' := filter (fun z => z <> x) (x :: R)).
  assert (p ∈ R') as HpR' by (by apply list_elem_of_filter).
  apply (IH R').
  - unfold R'. rewrite filter_cons_False by naive_solver.
    pose proof (length_filter (fun z => z <> x) R). lia.
  - intros E0. rewrite E0 in HpR'. by apply not_elem_of_nil in HpR'.
  - intros z [Hzx Hz]%list_elem_of_filter. destruct (Hpred z Hz) as (y & Hy & Eyz).
    destruct (decide (y = x)) as [->|Hyx].
    + exists p. split; [done|]. by transitivity x.
    + exists y. split; [by apply list_elem_of_filter|done].
Qed.

Lemma kahn_Some fuel nodes edges order :
  NoDup nodes -> kahn fuel nodes edges = Some order ->
  order ≡ₚ nodes /\ forall a b, edge_in nodes edges a b -> before a b order.
Proof.
  revert nodes order. induction fuel as [|f IH]; intros nodes order Hnd H.
  { destruct nodes; [|done]. injection H as <-. split; [done|].
    by intros a b (_ & []%not_elem_of_nil & _). }
  destruct nodes as [|x0 nodes0]; [injection H as <-; split; [done|];
    by intros a b (_ & []%not_elem_of_nil & _)|].
  set (nodes := x0 :: nodes0) in *. simpl in H. fold nodes in H.
  destruct (sources nodes edges) as [|n rest] eqn:Es; [done|].
  destruct (kahn f _ edges) as [order'|] eqn:Ek; [|done]. injection H as <-.
  assert (n ∈ sources nodes edges) as Hn by (rewrite Es; by left).
  apply list_elem_of_filter in Hn as [Hsrc Hn].
  destruct (IH _ _ (NoDup_filter _ _ Hnd) Ek) as [Hperm Hbefore].
  assert (Hin : forall z, z ∈ order' <-> z <> n /\ z ∈ nodes)
    by (intros z; by rewrite Hperm, list_elem_of_filter).
  split.
  - apply NoDup_Permutation; [|done|].
    + constructor; [by rewrite Hin; intros []|]. rewrite Hperm. by apply NoDup_filter.
    + intros z. rewrite elem_of_cons, Hin. destruct (decide (z = n)); naive_solver.
  - intros a b (He & Ha & Hb).
    assert (b <> n) as Hbn.
    { intros ->. rewrite Forall_forall in Hsrc. by apply (Hsrc (a, n) He). }
    assert (b ∈ order') as Hb' by (by apply Hin).
    destruct (decide (a = n)) as [->|Han].
    + apply list_elem_of_split in Hb' as (l1 & l2 & ->). by exists [], l1, l2.
    + destruct (Hbefore a b) as (l1 & l2 & l3 & ->); [|by exists (n :: l1), l2, l3].
      split; [done|]. rewrite !list_elem_of_filter. done.
Qed.

Lemma tc_edge_mono nodes nodes' edges a b :
  (forall z, z ∈ nodes -> z ∈ nodes') -> tc (edge_in nodes edges) a b -> tc (edge_in nodes' edges) a b.
Proof.
  intros Hsub. induction 1 as [u v (He & Hu & Hv)|u v z (He & Hu & Hv) _ IH].
  - constructor. split_and!; auto.
  - eapply tc_l; [|exact IH]. split_and!; auto.
Qed.

Lemma kahn_None fuel nodes edges :
  (length nodes <= fuel)%nat -> kahn fuel nodes edges = None ->
  exists a, tc (edge_in nodes edges) a a.
Proof.
  revert nodes. induction fuel as [|f IH]; intros [|x0 nodes0] Hlen H; simpl in Hlen; try done; [lia|].
  set (nodes := x0 :: nodes0) in *. simpl in H. fold nodes in H.
  destruct (sources nodes edges) as [|n rest] eqn:Es.
  - apply (predecessors_cycle _ (length nodes) nodes); [done..|]. intros x Hx.
    assert (x ∉ sources nodes edges) as Hns by (rewrite Es; apply not_elem_of_nil).
    unfold sources in Hns. rewrite list_elem_of_filter in Hns.
    destruct (decide (Forall (fun e => ~ (e.2 = x /\ e.1 ∈ nodes)) edges)) as [|Hnf]; [naive_solver|].
    apply not_Forall_Exists, Exists_exists in Hnf as ([y x'] & He & Hxy); [|apply _].
    simpl in Hxy. apply dec_stable in Hxy as [-> Hy].
    exists y. split; [done|]. by constructor.
  - destruct (kahn f _ edges) as [order'|] eqn:Ek; [done|].
    assert (n ∈ sources nodes edges) as Hn by (rewrite Es; by left).
    apply list_elem_of_filter in Hn as [_ Hn].
    assert (length (filter (fun m => m <> n) nodes) <= f)%nat as Hf.
    { pose proof (length_filter_lt (fun m => m <> n) nodes n Hn ltac:(naive_solver)) as Hlt.
      change (length nodes) with (Datatypes.S (length nodes0)) in Hlt. lia. }
    destruct (IH _ Hf Ek) as [a Ha].
    exists a. eapply tc_edge_mono; [|exact Ha]. by intros z [_ Hz]%list_elem_of_filter.
Qed.

#[export] Instance toposort_ref_laws : ToposortLaws toposort_ref.
Proof.
  split; intros nodes edges; [intros order|]; intros Hnd H.
  - by eapply kahn_Some.
  - by eapply kahn_None.
Qed.

Definition range_ref (_ : nat) (A : Type) (m : gmap string A) : list (string * A) := map_to_list m.
#[export] Instance range_ref_laws : RangeLaws range_ref.
Proof. split. done. Qed.

(** ** Witnesses *)

(** A database of a version table and the log of the texts that ran. *)
Notation log_db := (versions_table * list string)%type.
#[export, refine] Instance log_lens : Lens log_db versions_table :=
  {| view := fst; update := fun v d => (v, d.2) |}.
Proof. all: by intros; try destruct w. Defined.

Definition log_text (text : string) : Sql log_db unit := fun _ d => Ok (tt, (d.1, d.2 ++ [text])).

Lemma log_text_independent : texts_independent log_text.
Proof. intros text now [v0 l] v. done. Qed.

Definition ex_migrator : Migrator (world log_db) (Sql log_db) unit :=
  let m := New model_btx None in
  let m := snd (Register m "b" tt [("1.tpl", "b1")]%string ["a"%string]) in
  snd (Register m "a" tt [("2.tpl", "a2"); ("x", "no"); ("1.tpl", "a1")]%string []).

(** The group [a] is at its first statement already. *)
Definition ex_db : log_db := (Some {["a"%string := 0%N]}, []).
Definition ex_migrate : go (world log_db) (res error unit) :=
  Migrate (fun s => Ok s) (fun t _ => Ok t) log_text (fun _ => EmptyString) range_ref toposort_ref
    model_env ex_migrator no_ctx.

Example ex_migrate_run :
  w_db (snd (ex_migrate (start ex_db))) =
    (Some (<["b"%string := 0%N]> {["a"%string := 1%N]}), ["a2"; "b1"]%string).
Proof. vm_compute. reflexivity. Qed.

Example Migrate_applies_witness :
  texts_independent log_text /\
  exists r w', ex_migrate (start ex_db) = (Ret r, w') /\
    match r with
    | Err e => w_db w' = ex_db
    | Ok _ => exists order stmts names t s1,
        orderMigrationGroups range_ref toposort_ref ex_migrator = Ok order /\
        prepareGroupMigrations (fun s => Ok s) (fun t _ => Ok t) range_ref ex_migrator
          = Ok (stmts, names) /\
        0 <= t <= w_now w' /\
        let v := default ∅ (view ex_db) in
        run_texts log_text (plan v order stmts).1 t ex_db = Ok (tt, s1) /\
        w_db w' = update (Some (plan v order stmts).2) s1
    end.
Proof.
  split; [exact log_text_independent|].
  exact (Migrate_applies (fun s => Ok s) (fun t _ => Ok t) log_text (fun _ => EmptyString)
    range_ref toposort_ref model_conn (TL := model_TxLaws ex_db) (SL := model_SqlLaws ex_db)
    model_env (EL := model_EnvLaws ex_db) ex_migrator no_ctx (start ex_db) eq_refl
    log_text_independent).
Defined.

Example orderMigrationGroups_spec_witness :
  match orderMigrationGroups range_ref toposort_ref ex_migrator with
  | Ok order => order = ["a"; "b"]%string
  | Err _ => False
  end /\
  match orderMigrationGroups range_ref toposort_ref ex_migrator with
  | Ok order =>
      NoDup order /\ (forall g, g ∈ order <-> registered ex_migrator g) /\
      forall a g, depends ex_migrator a g -> registered ex_migrator a /\ before a g order
  | Err e =>
      (Is (Some e) ErrCycle = true /\ exists a, tc (depends ex_migrator) a a) \/
      (Is (Some e) ErrMissingGroup = true /\
        exists a g, depends ex_migrator a g /\ ~ registered ex_migrator a)
  end.
Proof.
  split; [vm_compute; reflexivity|].
  exact (orderMigrationGroups_spec range_ref toposort_ref ex_migrator).
Defined.

Example plan_incremental_witness :
  NoDup ["a"; "b"]%string /\
  (plan {["a"%string := 0%N]} ["a"; "b"]%string {["a"%string := ["a1"; "a2"]%string]}).1 = ["a2"%string] /\
  (plan (plan {["a"%string := 0%N]} ["a"; "b"]%string {["a"%string := ["a1"; "a2"]%string]}).2
     ["a"; "b"]%string {["a"%string := ["a1"; "a2"]%string]}).1 = [].
Proof.
  assert (NoDup ["a"; "b"]%string) as Hnd by (repeat constructor; set_solver).
  split; [exact Hnd|]. split; [vm_compute; reflexivity|].
  exact (proj2 (proj2 (plan_incremental {["a"%string := 0%N]} ["a"; "b"]%string
    {["a"%string := ["a1"; "a2"]%string]} Hnd))).
Defined.
