(* ===== verification/MigRace.v ===== *)
(** * MigRace: several programs migrate one database at the same time

    Every instance of a program calls Migrate when it starts.  Here any number of
    them do so at once, each the definition of Migrate run on the replay driver of
    Clients, on a server at READ COMMITTED where sqlAcquireLock waits for the
    advisory lock of the migrator's number. *)

From Stdlib Require Import ZArith String Lia.
From stdpp Require Import fin_maps relations.
From S2P Require Import Prelude Errors Pgdb Sql Clients Exclusive Migrate.

(** ** Statements with a lock *)

Inductive lstmt (S A : Type) : Type :=
| LSql (st : Sql S A)
| LLock (id : Z) (a : A).
Arguments LSql {S A} st.
Arguments LLock {S A} id a.

#[export] Instance lock_statements S : Statements S (lstmt S) :=
  {| pg_advisory_xact_lock := fun id => LLock id tt; on_db := fun _ st => LSql st |}.

Definition submit {S A} (st : lstmt S A) : go (replay S) (res error A) :=
  match st with
  | LSql st => replay_run st
  | LLock id a => bind (ask (RLock id)) (fun x => match x with
      | ADone => ret (Ok a)
      | AFail e => ret (Err e)
      | ARan _ _ => panic "not an answer to a lock"
      end)
  end.

Section MigRace.
Context {K V : Type} `{Countable K} `{!EqDecision V}.
Local Notation DB := (gmap K V).
Context `{!Lens DB versions_table}.
Context {Any Tpl : Type}.
Context (Parse : string -> res string Tpl) (Execute : Tpl -> gmap string Any -> res error string).
Context (run_text : string -> Sql DB unit) (err_text : error -> string).
Context (range : nat -> forall A, gmap string A -> list (string * A)) {RG : RangeLaws range}.
Context (toposort : list string -> list (string * string) -> option (list string)).
Context {TS : ToposortLaws toposort}.
Local Notation Migrator := (Migrator (replay DB) (lstmt DB) Any).
Local Notation order_of := (orderMigrationGroups range toposort).
Local Notation prepared := (prepareGroupMigrations Parse Execute range).
Local Notation tx := (replay_tx (Stmt := lstmt DB) (fun A => submit)).
Local Notation q := (tx_queryer tx).

(** The migrators of the clients. *)
Context (migs : nat -> Migrator).

Definition migrator_client (i : nat) (l : list (answer DB)) : next DB (res error unit) :=
  next_of (Migrate Parse Execute run_text err_text range toposort replay_env (migs i) replay_ctx (mk l)).

(** What the migration of [m] does to the database when it is alone. *)
Definition migration (m : Migrator) : Sql DB unit :=
  match order_of m, prepared m with
  | Ok order, Ok (stmts, names) => migrate_sql run_text err_text (AdvisoryLockID (config m)) order stmts names
  | _, _ => fun _ _ => Err (ErrorString "not prepared")
  end.

(** ** A migration is a script under the lock *)

Lemma script_exec {A} (st : Sql DB A) : script (exec_of st) (Exec q (on_db st)).
Proof.
  apply script_run. intros now s a s' b E [= <-]. unfold exec_of, map_ok. by rewrite E.
Qed.

Lemma script_apply ms : script (apply_sql err_text ms) (applyMigrations err_text q ms).
Proof.
  induction ms as [|[name st] ms IH]; [apply (script_ret (Ok tt))|].
  apply (script_case (mig_error err_text name) (exec_of st) (fun _ => apply_sql err_text ms)); [apply script_exec|done..].
Qed.

Lemma script_last group : script (last_sql group) (groupLastVersion q group).
Proof.
  apply (script_ext _ (bind (replay_run (on_table (sqlGroupLastVersion group))) (fun r => ret (match r with
    | Ok (Some v) => Ok v
    | Ok None => Ok (-1)
    | Err e => if Is (Some e) ErrNoRows then Ok (-1) else Err e
    end)))).
  - intros w. unfold groupLastVersion, QueryOne. rewrite bind_assoc. apply bind_ext. intros [[v|]|e] w'; rewrite bind_ret; try done.
    by destruct (Is (Some e) ErrNoRows).
  - apply script_run. intros now s [v|] s' b E; intros [= <-]; unfold last_sql, map_ok; by rewrite E.
Qed.

Lemma script_groups order stmts names :
  script (groups_sql run_text err_text order stmts names) (migrateGroups run_text err_text q order stmts names).
Proof.
  induction order as [|group order IH]; [apply (script_ret (Ok tt))|].
  apply script_bindE; [apply script_last|]. intros last. simpl.
  destruct (_ <? _); [|apply IH].
  apply script_bindE; [apply script_apply|]. intros _.
  apply script_bindE; [apply script_exec|]. intros _. apply IH.
Qed.

(** What follows the lock. *)
Definition unlocked_sql (order : list string) (stmts names : gmap string (list string)) : Sql DB unit :=
  sbind (apply_sql err_text metaMigrations) (fun _ => groups_sql run_text err_text order stmts names).

Lemma script_unlocked order stmts names : script (unlocked_sql order stmts names)
  (bindE (applyMigrations err_text q metaMigrations) (fun _ => migrateGroups run_text err_text q order stmts names)).
Proof. apply script_bindE; [apply script_apply|]. intros _. apply script_groups. Qed.

Lemma reflects_migrate_fn (m : Migrator) ctx order stmts names :
  reflects (migrate_fn run_text err_text m order stmts names ctx tx)
    (locked (AdvisoryLockID (config m)) (sc_tree _ _ (script_unlocked order stmts names))).
Proof.
  apply (reflects_ext (bind (ask (RLock (AdvisoryLockID (config m)))) (fun x => match x with
    | ADone => bindE (applyMigrations err_text q metaMigrations) (fun _ => migrateGroups run_text err_text q order stmts names)
    | AFail e => ret (Err e)
    | ARan _ _ => panic "not an answer to a lock"
    end))).
  - intros w. symmetry. unfold migrate_fn, Exec. unfold bindE at 1.
    change (Run q (sqlAcquireLock (AdvisoryLockID (config m)))) with (submit (S := DB) (LLock (AdvisoryLockID (config m)) tt)).
    unfold submit. rewrite !bind_assoc. apply bind_ext. by intros [| |] w'.
  - apply reflects_ask. intros [| |]; [apply sc_reflects|done..].
Qed.

Lemma migrator_tree id i :
  beginTxer (migs i) = replay_btx (Stmt := lstmt DB) (fun A => submit) -> AdvisoryLockID (config (migs i)) = id ->
  exists t, client_tree id (migration (migs i)) t /\ forall l, migrator_client i l = next_tree (walk t l).
Proof.
  intros Hbtx Hid. unfold migrator_client, Migrate, migration.
  destruct (order_of (migs i)) as [order|e].
  2: { exists (Leaf (Ret (Err e))). split; [constructor|]. intros l. by apply next_walk. }
  destruct (prepared (migs i)) as [[stmts names]|e].
  2: { exists (Leaf (Ret (Err e))). split; [constructor|]. intros l. by apply next_walk. }
  exists (tx_tree (locked id (sc_tree _ _ (script_unlocked order stmts names)))). split.
  - constructor. split; [apply sc_statements|]. intros now s a s' He. apply sc_exec in He. exact He.
  - intros l. apply next_walk. rewrite Hbtx, <- Hid. apply reflects_Tx, reflects_migrate_fn.
Qed.

(** ** Any number of migrators *)

Local Notation step := (sys_step migrator_client).
Local Notation on_replay := (forall i, beginTxer (migs i) = replay_btx (Stmt := lstmt DB) (fun A => submit)).

(** C7. Migrators that use the same number for the advisory lock can run at the same
    time, each with groups and migrations of its own, without retries. Whatever
    the interleaving of their statements and the faults they meet, the database
    is the one that the migrations of some of them make, each run alone, one
    after the other; every migrator whose Migrate returned nil is among them,
    once. None of them blocks the others for good: in every state that can be
    reached, each client can come to its end without the failure of an open
    transaction. *)
Theorem Migrate_serial id c0 now s :
  on_replay -> (forall i, AdvisoryLockID (config (migs i)) = id) -> rtc step (start_at c0 now) s ->
  (exists h, serial (fun i => migration (migs i)) h c0 = Some (committed (srv s)) /\ NoDup h.*1 /\
    forall i, match migrator_client i (clients s i) with
      | Asks _ => True
      | Finished r => r = Ok tt -> i ∈ h.*1
      | Stuck => False
      end) /\
  (forall i, exists s' r, rtc (calm_step migrator_client) s s' /\ migrator_client i (clients s' i) = Finished r).
Proof.
  intros Hbtx Hid Hs. split.
  - destruct (exclusive_serial id migrator_client (fun i => migration (migs i))
      (fun i => migrator_tree id i (Hbtx i) (Hid i)) c0 now s Hs) as (h & Hh & Hn & Hf).
    exists h. split_and!; [done..|]. intros i. specialize (Hf i).
    destruct (migrator_client i (clients s i)) as [|r|]; [done| |done]. intros ->. by apply (Hf tt).
  - intros i. by apply (exclusive_ends id migrator_client (fun i => migration (migs i))
      (fun i => migrator_tree id i (Hbtx i) (Hid i)) c0 now).
Qed.

(** A migration that the database has had. *)
Lemma migrate_again id order stmts names t v c c' :
  texts_independent run_text -> NoDup order ->
  (forall g, length (default [] (names !! g)) = length (default [] (stmts !! g))) ->
  view c = Some (plan v order stmts).2 ->
  migrate_sql run_text err_text id order stmts names t c = Ok (tt, c') -> c' = c.
Proof.
  intros Hi Hnd Hlen Hv Hm. apply migrate_sql_plan in Hm as (s1 & E1 & ->); [|done..].
  rewrite Hv in *. simpl in *. rewrite plan_nil by (by apply plan_again).
  rewrite (plan_again v order stmts Hnd) in E1. injection E1 as <-. by rewrite <- Hv, update_view.
Qed.

(** C6. When the same program starts several times at once, its migrations are applied
    exactly once: at any moment either nothing has happened and no migrator has
    returned nil, or the database is the initial one with the statements of the
    plan executed, once each, and the versions of the plan. *)
Theorem Migrate_once id order stmts names c0 now s :
  on_replay -> (forall i, AdvisoryLockID (config (migs i)) = id) -> texts_independent run_text ->
  (forall i, order_of (migs i) = Ok order /\ prepared (migs i) = Ok (stmts, names)) ->
  rtc step (start_at c0 now) s ->
  let v := default ∅ (view c0) in
  (committed (srv s) = c0 /\ forall i, migrator_client i (clients s i) <> Finished (Ok tt)) \/
  exists t s1, run_texts run_text (plan v order stmts).1 t c0 = Ok (tt, s1) /\
    committed (srv s) = update (Some (plan v order stmts).2) s1.
Proof.
  intros Hbtx Hid Hi Hsame Hs v.
  destruct (exclusive_serial id migrator_client (fun i => migration (migs i))
    (fun i => migrator_tree id i (Hbtx i) (Hid i)) c0 now s Hs) as (h & Hh & _ & Hf).
  assert (Hp : forall i, migration (migs i) = migrate_sql run_text err_text id order stmts names).
  { intros i. unfold migration. destruct (Hsame i) as [-> ->]. by rewrite Hid. }
  assert (Hnd : NoDup order).
  { pose proof (order_cases range toposort (migs 0%nat)) as Ho. destruct (Hsame 0%nat) as [Eo _].
    rewrite Eo in Ho. apply Ho. }
  assert (Hlen : forall g, length (default [] (names !! g)) = length (default [] (stmts !! g))).
  { destruct (Hsame 0%nat) as [_ Ep]. intros g. eapply prepare_loop_length; [|exact Ep]. done. }
  destruct h as [|[i t] h].
  - left. injection Hh as <-. split; [done|]. intros i Hc. specialize (Hf i). rewrite Hc in Hf.
    by apply (not_elem_of_nil i), (Hf tt).
  - right. simpl in Hh. rewrite Hp in Hh.
    destruct (migrate_sql _ _ _ _ _ _ t c0) as [[[] c1]|e] eqn:E1; [|done].
    apply migrate_sql_plan in E1 as (s1 & E1 & ->); [|done..]. exists t, s1. split; [exact E1|].
    fold v in Hh |- *. set (c1 := update _ s1) in *.
    assert (Hv : view c1 = Some (plan v order stmts).2) by apply view_update.
    clear Hf. induction h as [|[j u] h IH]; simpl in Hh; [by injection Hh as <-|]. rewrite Hp in Hh.
    destruct (migrate_sql _ _ _ _ _ _ u c1) as [[[] c2]|e] eqn:E2; [|done].
    apply (migrate_again _ _ _ _ _ v) in E2 as ->; [|done..]. by apply IH.
Qed.
End MigRace.

(** ** Witnesses *)

(** A database of numbered rows: the first is the version table, and a text of a
    migration adds a row after the others. *)
Notation rows_db := (gmap nat (gmap string N)).
#[export, refine] Instance rows_lens : Lens rows_db versions_table :=
  {| view := fun d => d !! 0%nat; update := fun v d => partial_alter (fun _ => v) 0%nat d |}.
Proof.
  - intros v d. apply lookup_partial_alter_eq.
  - intros d. apply map_eq. intros [|n]; [by rewrite lookup_partial_alter_eq|by rewrite lookup_partial_alter_ne].
  - intros v v' d. apply map_eq. intros [|n]; [by rewrite !lookup_partial_alter_eq|by rewrite !lookup_partial_alter_ne].
Defined.

Definition row_text (text : string) : Sql rows_db unit := fun _ d =>
  Ok (tt, <[S (size (delete 0%nat d)) := {[text := 0%N]}]> d).

Lemma row_text_independent : texts_independent row_text.
Proof.
  intros text now s v. unfold row_text. simpl. f_equal. f_equal.
  assert (E : delete 0%nat (partial_alter (fun _ => v) 0%nat s) = delete 0%nat s).
  { apply map_eq. intros [|n]; [by rewrite !lookup_delete_eq|].
    by rewrite !lookup_delete_ne, lookup_partial_alter_ne by done. }
  rewrite E. apply map_eq. intros [|n].
  - by rewrite lookup_insert_ne, !lookup_partial_alter_eq by done.
  - rewrite lookup_partial_alter_ne by done. destruct (decide (size (delete 0%nat s) = n)) as [->|Hne].
    + by rewrite !lookup_insert_eq.
    + by rewrite !lookup_insert_ne, lookup_partial_alter_ne by congruence.
Qed.

Definition ex_migs (i : nat) : Migrator (replay rows_db) (lstmt rows_db) unit :=
  let m := New (replay_btx (fun A => submit)) (Some {| AdvisoryLockID := 7 |}) in
  let m := snd (Register m "b" tt [("1.tpl", "b1")]%string ["a"%string]) in
  snd (Register m "a" tt [("2.tpl", "a2"); ("1.tpl", "a1")]%string []).

Definition ex_client : nat -> list (answer rows_db) -> next rows_db (res error unit) :=
  migrator_client (fun s => Ok s) (fun t _ => Ok t) row_text (fun _ => EmptyString) range_ref toposort_ref ex_migs.

(** The group [a] is at its first statement; two programs start, the second takes
    the lock first and the first one waits for it. *)
Definition ex_rows : rows_db := {[0%nat := {["a"%string := 0%N]}]}.
Definition ex_schedule : list nat :=
  [0; 1; 1; 1; 1; 1; 1; 1; 1; 1; 1; 1; 0; 0; 0; 0; 0; 0]%nat.
Definition ex_system : system nat (gmap string N) :=
  default (start_at ex_rows 0) (schedule ex_client ex_schedule (start_at ex_rows 0)).

Lemma ex_reached : rtc (sys_step ex_client) (start_at ex_rows 0) ex_system.
Proof.
  assert (E : (if schedule ex_client ex_schedule (start_at ex_rows 0) then true else false) = true)
    by (vm_compute; reflexivity).
  unfold ex_system. destruct (schedule _ _ _) as [s|] eqn:Es; [|done]. by apply (schedule_steps ex_client ex_schedule).
Qed.

Example Migrate_serial_witness :
  ex_client 0%nat (clients ex_system 0%nat) = Finished (Ok tt) /\
  ex_client 1%nat (clients ex_system 1%nat) = Finished (Ok tt) /\
  (exists h, serial (fun i => migration (fun s => Ok s) (fun t _ => Ok t) row_text (fun _ => EmptyString)
      range_ref toposort_ref (ex_migs i)) h ex_rows = Some (committed (srv ex_system)) /\ NoDup h.*1 /\
    forall i, match ex_client i (clients ex_system i) with
      | Asks _ => True
      | Finished r => r = Ok tt -> i ∈ h.*1
      | Stuck => False
      end) /\
  (forall i, exists s' r, rtc (calm_step ex_client) ex_system s' /\ ex_client i (clients s' i) = Finished r).
Proof.
  split; [vm_compute; reflexivity|]. split; [vm_compute; reflexivity|].
  exact (Migrate_serial (fun s => Ok s) (fun t _ => Ok t) row_text (fun _ => EmptyString) range_ref toposort_ref
    ex_migs 7 ex_rows 0 ex_system (fun _ => eq_refl) (fun _ => eq_refl) ex_reached).
Defined.

Definition ex_order : list string := ["a"; "b"]%string.
Definition ex_stmts : gmap string (list string) := {["a" := ["a1"; "a2"]; "b" := ["b1"]]}%string.
Definition ex_names : gmap string (list string) := {["a" := ["1.tpl"; "2.tpl"]; "b" := ["1.tpl"]]}%string.

Example Migrate_once_witness :
  ex_client 0%nat (clients ex_system 0%nat) = Finished (Ok tt) /\
  committed (srv ex_system) =
    {[0%nat := {["a" := 1%N; "b" := 0%N]}; 1%nat := {["a2" := 0%N]}; 2%nat := {["b1" := 0%N]}]}%string /\
  ((committed (srv ex_system) = ex_rows /\ forall i, ex_client i (clients ex_system i) <> Finished (Ok tt)) \/
   exists t s1, run_texts row_text (plan (default ∅ (view ex_rows)) ex_order ex_stmts).1 t ex_rows = Ok (tt, s1) /\
     committed (srv ex_system) = update (Some (plan (default ∅ (view ex_rows)) ex_order ex_stmts).2) s1).
Proof.
  split; [vm_compute; reflexivity|]. split; [vm_compute; reflexivity|].
  assert (Hp : forall i, orderMigrationGroups range_ref toposort_ref (ex_migs i) = Ok ex_order /\
    prepareGroupMigrations (fun s => Ok s) (fun t _ => Ok t) range_ref (ex_migs i) = Ok (ex_stmts, ex_names))
    by (intros i; split; vm_compute; reflexivity).
  exact (Migrate_once (fun s => Ok s) (fun t _ => Ok t) row_text (fun _ => EmptyString) range_ref toposort_ref
    ex_migs 7 ex_order ex_stmts ex_names ex_rows 0 ex_system (fun _ => eq_refl) (fun _ => eq_refl)
    row_text_independent Hp ex_reached).
Defined.
