(* ===== verification/Export.v ===== *)
(** * Export: the files of the migrations

    Export of src/pgdb/migrate/migrate.go, which writes the prepared statements
    below a directory, on the paths of path/filepath; and the registrations of
    the migrations of tokens and accounts (RegisterMigrations of
    src/tokens/tokens.go and src/accounts/accounts.go), whose embedded
    directories are parameters. *)

From Stdlib Require Import ZArith Ascii String Lia.
From stdpp Require Import sorting.
From S2P Require Import Prelude Errors Pgdb Sql PgModel Migrate.

(** ** Paths: Clean and Join of path/filepath, on Unix *)

Definition slash : ascii := "/"%char.

Fixpoint split_slash (s : string) : list string :=
  match s with
  | EmptyString => [EmptyString]
  | String c s' =>
      match split_slash s' with
      | e :: es => if Ascii.eqb c slash then EmptyString :: e :: es else String c e :: es
      | [] => []
      end
  end.

(** One element of a path, on the elements before it, the last one first. *)
Definition clean_elem (rooted : bool) (out : list string) (e : string) : list string :=
  if String.eqb e "" || String.eqb e "." then out
  else if String.eqb e ".." then
    match out with
    | top :: rest => if String.eqb top ".." then e :: out else rest
    | [] => if rooted then [] else [e]
    end
  else e :: out.

Definition Clean (path : string) : string :=
  if String.eqb path "" then "."%string
  else
    let rooted := has_prefix "/" path in
    let p := join_strings "/" (rev (foldl (clean_elem rooted) [] (split_slash path))) in
    if rooted then "/" +:+ p else if String.eqb p "" then "."%string else p.

Fixpoint filepath_Join (elem : list string) : string :=
  match elem with
  | [] => ""%string
  | e :: rest => if String.eqb e "" then filepath_Join rest else Clean (join_strings "/" elem)
  end.

(** ** Export *)

Section Exporting.
Context {W : Type} {Stmt : Type -> Type} {Any Tpl O : Type}.
Context (Parse : string -> res string Tpl) (Execute : Tpl -> gmap string Any -> res error string).
Context (range : nat -> forall A, gmap string A -> list (string * A)).
Context (toposort : list string -> list (string * string) -> option (list string)).
(** os.MkdirAll and os.WriteFile, with the modes 0o777 and 0o600. *)
Context (MkdirAll : string -> go O (option error)) (WriteFile : string -> string -> go O (option error)).
Local Open Scope go_scope.
Local Notation Migrator := (@Migrator W Stmt Any).

(** The loop over the statements of a group, with their names: as many. *)
Fixpoint write_files (gdir : string) (files : list (string * string)) : go O (option error) :=
  match files with
  | [] => ret None
  | (file, stmt) :: rest =>
      let! err := WriteFile (filepath_Join [gdir; file]) stmt in
      match err with Some err => ret (Some err) | None => write_files gdir rest end
  end.

Fixpoint export_groups (dir : string) (groups : list (string * list string))
    (groupNames : gmap string (list string)) : go O (option error) :=
  match groups with
  | [] => ret None
  | (group, stmts) :: rest =>
      let gdir := filepath_Join [dir; group] in
      let! err := MkdirAll gdir in
      match err with
      | Some err => ret (Some err)
      | None =>
          let! err := write_files gdir (zip (default [] (groupNames !! group)) stmts) in
          match err with Some err => ret (Some err) | None => export_groups dir rest groupNames end
      end
  end.

Definition Export (m : Migrator) (dir : string) : go O (option error) :=
  match orderMigrationGroups range toposort m with
  | Err err => ret (Some err)
  | Ok _ =>
      match prepareGroupMigrations Parse Execute range m with
      | Err err => ret (Some err)
      | Ok (groupStmts, groupNames) => export_groups dir (range 5 _ groupStmts) groupNames
      end
  end.
End Exporting.

(** ** The registrations *)

Section Registrations.
Context {W : Type} {Stmt : Type -> Type} {Any : Type} (no_conf : Any) (tokens_migrations accounts_migrations : FS).
Local Notation Migrator := (@Migrator W Stmt Any).

Definition tokens_RegisterMigrations (mig : Migrator) : option error * Migrator :=
  Register mig "karbur/tokens" no_conf tokens_migrations [].
Definition accounts_RegisterMigrations (mig : Migrator) : option error * Migrator :=
  Register mig "karbur/accounts" no_conf accounts_migrations ["karbur/tokens"%string].
End Registrations.

(** ** Paths in canonical form *)

Fixpoint no_slash (s : string) : bool :=
  match s with EmptyString => true | String c s' => negb (Ascii.eqb c slash) && no_slash s' end.
Definition plain_elem (e : string) : bool :=
  negb (String.eqb e "") && negb (String.eqb e ".") && negb (String.eqb e "..") && no_slash e.
Definition path_of (rooted : bool) (es : list string) : string :=
  (if rooted then "/"%string else ""%string) +:+ join_strings "/" es.
(** A path with at least an element, each plain. *)
Definition canonical (rooted : bool) (es : list string) : bool :=
  negb (Nat.eqb (length es) 0) && forallb plain_elem es.

Lemma split_no_slash e : no_slash e = true -> split_slash e = [e].
Proof.
  induction e as [|c e IH]; simpl; [done|]. intros [Hc He]%andb_true_iff. rewrite (IH He).
  by destruct (Ascii.eqb c slash).
Qed.

Lemma split_slash_cons s : exists e es, split_slash s = e :: es.
Proof.
  induction s as [|c s (e & es & IH)]; simpl; [by do 2 eexists|]. rewrite IH.
  destruct (Ascii.eqb c slash); by do 2 eexists.
Qed.

Lemma split_slash_app e s : no_slash e = true -> split_slash (e +:+ "/" +:+ s) = e :: split_slash s.
Proof.
  induction e as [|c e IH]; simpl.
  - rewrite str_app_nil_l. by destruct (split_slash_cons s) as (e & es & ->).
  - intros [Hc He]%andb_true_iff. rewrite (IH He). by destruct (Ascii.eqb c slash).
Qed.

Lemma plain_elem_no_slash e : plain_elem e = true -> no_slash e = true.
Proof. by intros [_ ?]%andb_true_iff. Qed.

Lemma split_join es : es <> [] -> forallb no_slash es = true -> split_slash (join_strings "/" es) = es.
Proof.
  induction es as [|e es IH]; [done|]. intros _ [He Hes]%andb_true_iff.
  destruct es as [|e' es]; [by apply split_no_slash|].
  change (join_strings "/" (e :: e' :: es)) with (e +:+ "/" +:+ join_strings "/" (e' :: es)).
  by rewrite split_slash_app, IH.
Qed.

Lemma canonical_spec r es : canonical r es = true <-> es <> [] /\ forallb plain_elem es = true.
Proof.
  unfold canonical. rewrite andb_true_iff, negb_true_iff, Nat.eqb_neq. split; intros [H ?]; (split; [|done]).
  - by intros ->.
  - by destruct es.
Qed.

Lemma canonical_no_slash es : forallb plain_elem es = true -> forallb no_slash es = true.
Proof. rewrite !forallb_forall. intros H x Hx. by apply plain_elem_no_slash, H. Qed.

(** Cleaning plain elements keeps them. *)
Lemma clean_plain r es out : forallb plain_elem es = true -> foldl (clean_elem r) out es = rev es ++ out.
Proof.
  revert out. induction es as [|e es IH]; intros out H; simpl in *; [done|].
  apply andb_true_iff in H as [He Hes]. rewrite IH by done. rewrite <- app_assoc. simpl. f_equal.
  unfold plain_elem in He. rewrite !andb_true_iff, !negb_true_iff in He. destruct He as [[[H1 H2] H3] _].
  unfold clean_elem. by rewrite H1, H2, H3.
Qed.

Lemma join_first es : es <> [] -> forallb plain_elem es = true ->
  join_strings "/" es <> ""%string /\ has_prefix "/" (join_strings "/" es) = false.
Proof.
  destruct es as [|e es]; [done|]. intros _ [He _]%andb_true_iff.
  unfold plain_elem in He. rewrite !andb_true_iff, !negb_true_iff in He. destruct He as [[[H1 _] _] H4].
  destruct e as [|c e]; [done|]. simpl in H4. apply andb_true_iff in H4 as [Hc _].
  assert (E : exists s, join_strings "/" (String c e :: es) = String c s) by (destruct es; simpl; by eexists).
  destruct E as [s ->]. split; [done|].
  change (Ascii.eqb "/" c && has_prefix "" s = false). by destruct (Ascii.eqb_spec "/" c) as [<-|].
Qed.

Lemma Clean_canonical r es : canonical r es = true -> Clean (path_of r es) = path_of r es.
Proof.
  intros [Hne Hpl]%canonical_spec. destruct (join_first es Hne Hpl) as [Hj Hp]. unfold Clean, path_of.
  destruct r.
  - assert (E : split_slash (String "/" (join_strings "/" es)) = ""%string :: es).
    { change (String "/" (join_strings "/" es)) with ("" +:+ "/" +:+ join_strings "/" es).
      by rewrite split_slash_app, split_join by auto using canonical_no_slash. }
    change ("/" +:+ join_strings "/" es) with (String "/" (join_strings "/" es)).
    change (String.eqb (String "/" (join_strings "/" es)) "") with false.
    change (has_prefix "/" (String "/" (join_strings "/" es))) with true. cbv iota zeta. rewrite E.
    simpl foldl. by rewrite clean_plain, app_nil_r, rev_involutive.
  - rewrite str_app_nil_l. destruct (String.eqb_spec (join_strings "/" es) "") as [|_]; [done|]. rewrite Hp.
    rewrite split_join, clean_plain, app_nil_r, rev_involutive by auto using canonical_no_slash.
    by destruct (String.eqb_spec (join_strings "/" es) "").
Qed.

Lemma join_app es es' : es <> [] -> es' <> [] ->
  join_strings "/" (es ++ es') = join_strings "/" es +:+ "/" +:+ join_strings "/" es'.
Proof.
  intros Hes Hes'. induction es as [|e es IH]; [done|]. destruct es as [|e2 es].
  - by destruct es'.
  - change (join_strings "/" ((e :: e2 :: es) ++ es')) with (e +:+ "/" +:+ join_strings "/" ((e2 :: es) ++ es')).
    rewrite IH by done. change (join_strings "/" (e :: e2 :: es)) with (e +:+ "/" +:+ join_strings "/" (e2 :: es)).
    by rewrite <- !str_app_assoc.
Qed.

Lemma canonical_app r es es' : canonical r es = true -> canonical false es' = true -> canonical r (es ++ es') = true.
Proof.
  rewrite !canonical_spec. intros [? ?] [? ?]. split; [by destruct es|]. by rewrite forallb_app, andb_true_iff.
Qed.

Lemma Join_canonical r es es' : canonical r es = true -> canonical false es' = true ->
  filepath_Join [path_of r es; path_of false es'] = path_of r (es ++ es').
Proof.
  intros H H'. pose proof (canonical_app _ _ _ H H') as Happ.
  apply canonical_spec in H as [Hne Hpl]. apply canonical_spec in H' as [Hne' Hpl'].
  rewrite <- (Clean_canonical _ _ Happ). simpl.
  destruct (join_first es Hne Hpl) as [Hj _].
  destruct (String.eqb_spec (path_of r es) "") as [E|_]; [by destruct r|].
  f_equal. unfold path_of. simpl. by rewrite join_app, <- !str_app_assoc.
Qed.

Lemma path_of_inj r es es' : canonical r es = true -> canonical r es' = true -> path_of r es = path_of r es' -> es = es'.
Proof.
  intros [Hne Hpl]%canonical_spec [Hne' Hpl']%canonical_spec H.
  assert (E : join_strings "/" es = join_strings "/" es') by (unfold path_of in H; destruct r; [by injection H|done]).
  by rewrite <- (split_join es), E, split_join by auto using canonical_no_slash.
Qed.

(** ** What Export writes *)

#[local] Arguments filepath_Join : simpl never.

Section Exported.
Context {W : Type} {Stmt : Type -> Type} {Any Tpl O : Type}.
Context (Parse : string -> res string Tpl) (Execute : Tpl -> gmap string Any -> res error string).
Context (range : nat -> forall A, gmap string A -> list (string * A)) {RG : RangeLaws range}.
Context (toposort : list string -> list (string * string) -> option (list string)).
Context (MkdirAll : string -> go O (option error)) (WriteFile : string -> string -> go O (option error)).
Local Notation Migrator := (@Migrator W Stmt Any).

(** The contents of the files: a directory that is made changes none, a file is
    replaced, and one that cannot be written whole is the only one that changes. *)
Class OsLaws (files : O -> gmap string string) := {
  mkdir_files : forall p o, files (MkdirAll p o).2 = files o;
  write_ok : forall p c o o', WriteFile p c o = (Ret None, o') -> files o' = <[p := c]> (files o);
  write_other : forall p c o q, q <> p -> files (WriteFile p c o).2 !! q = files o !! q;
}.

Section Files.
Context (files : O -> gmap string string) `{!OsLaws files}.

Definition put_all (f : gmap string string) (ws : list (string * string)) : gmap string string :=
  foldl (fun f w => <[w.1 := w.2]> f) f ws.

Lemma put_all_other f ws q : q ∉ ws.*1 -> put_all f ws !! q = f !! q.
Proof.
  revert f. induction ws as [|[p c] ws IH]; intros f Hq; [done|]. simpl in *.
  apply not_elem_of_cons in Hq as [Hne Hq]. by rewrite IH, lookup_insert_ne.
Qed.

Lemma put_all_lookup f ws q c : (q, c) ∈ ws -> (forall c', (q, c') ∈ ws -> c' = c) -> put_all f ws !! q = Some c.
Proof.
  revert f. induction ws as [|[p c0] ws IH]; intros f Hin Hu; [by apply not_elem_of_nil in Hin|]. simpl.
  destruct (decide (q ∈ ws.*1)) as [Hq|Hq].
  - apply list_elem_of_fmap in Hq as ([q' c'] & -> & Hin'). simpl in *.
    assert (c' = c) as -> by (apply Hu; by right). apply IH; [done|]. intros c'' H. apply Hu. by right.
  - rewrite put_all_other by done. apply elem_of_cons in Hin as [[= -> ->]|Hin]; [apply lookup_insert_eq|].
    exfalso. apply Hq, list_elem_of_fmap. by exists (q, c).
Qed.

(** What a sequence of writes does, whatever it returns. *)
Definition wrote {A} (r : outcome (option A)) (ws : list (string * string)) (o o' : O) : Prop :=
  (r = Ret None -> files o' = put_all (files o) ws) /\ forall q, q ∉ ws.*1 -> files o' !! q = files o !! q.

Lemma write_files_wrote gdir fs o r o' : write_files WriteFile gdir fs o = (r, o') ->
  wrote r ((fun f => (filepath_Join [gdir; f.1], f.2)) <$> fs) o o'.
Proof.
  revert o. induction fs as [|[n c] fs IH]; intros o H; [by injection H as <- <-|]. simpl in H. unfold bind in H.
  pose proof (fun q => write_other (filepath_Join [gdir; n]) c o q) as Hother.
  destruct (WriteFile (filepath_Join [gdir; n]) c o) as [[[e|]|v] o1] eqn:E; simpl in H.
  - injection H as <- <-. split; [done|]. simpl. intros q [Hq _]%not_elem_of_cons. by apply Hother.
  - apply IH in H as [H1 H2]. split; simpl.
    + intros Hr. by rewrite (H1 Hr), (write_ok _ _ _ _ E).
    + intros q [Hq Hq']%not_elem_of_cons. rewrite H2 by done. by apply Hother.
  - injection H as <- <-. split; [done|]. simpl. intros q [Hq _]%not_elem_of_cons. by apply Hother.
Qed.

Definition writes (dir : string) (groups : list (string * list string)) (names : gmap string (list string))
    : list (string * string) :=
  groups ≫= fun g => (fun f => (filepath_Join [filepath_Join [dir; g.1]; f.1], f.2)) <$> zip (default [] (names !! g.1)) g.2.

Lemma export_groups_wrote dir groups names o r o' :
  export_groups MkdirAll WriteFile dir groups names o = (r, o') -> wrote r (writes dir groups names) o o'.
Proof.
  revert o. induction groups as [|[g stmts] groups IH]; intros o H; [by injection H as <- <-|].
  simpl in H. unfold bind in H. pose proof (mkdir_files (filepath_Join [dir; g]) o) as Hm.
  destruct (MkdirAll (filepath_Join [dir; g]) o) as [[[e|]|v] o1]; simpl in Hm, H;
    [injection H as <- <-; split; [done|]; by intros; rewrite Hm| |injection H as <- <-; split; [done|]; by intros; rewrite Hm].
  destruct (write_files WriteFile (filepath_Join [dir; g]) _ o1) as [r1 o2] eqn:E.
  apply write_files_wrote in E as [E1 E2].
  assert (Hstop : r1 <> Ret None -> r <> Ret None -> o' = o2 -> wrote r (writes dir ((g, stmts) :: groups) names) o o').
  { intros _ Hr ->. split; [done|]. unfold writes. simpl. intros q Hq.
    rewrite fmap_app in Hq. apply not_elem_of_app in Hq as [Hq _]. by rewrite E2, Hm. }
  destruct r1 as [[e|]|v]; simpl in H; [by injection H as <- <-; apply Hstop| |by injection H as <- <-; apply Hstop].
  apply IH in H as [H1 H2]. split.
  - intros Hr. rewrite (H1 Hr), (E1 eq_refl), Hm. unfold writes, put_all. simpl. by rewrite foldl_app.
  - unfold writes. simpl. intros q Hq. rewrite fmap_app in Hq. apply not_elem_of_app in Hq as [Hq1 Hq2].
    by rewrite H2, E2, Hm.
Qed.
End Files.

(** ** The prepared statements *)

Lemma prepare_loop_spec data groups acc stmts names :
  NoDup groups.*1 -> prepare_loop Parse Execute data groups acc = Ok (stmts, names) ->
  (forall g fs, (g, fs) ∈ groups -> exists s n, prepareMigrationsFS Parse Execute data fs = Ok (s, n) /\
    stmts !! g = Some s /\ names !! g = Some n) /\
  (forall g, g ∉ groups.*1 -> stmts !! g = acc.1 !! g /\ names !! g = acc.2 !! g).
Proof.
  revert acc. induction groups as [|[g0 fs0] groups IH]; intros acc Hnd H.
  { injection H as ->. split; [by intros ?? ?%not_elem_of_nil|done]. }
  simpl in H. destruct (prepareMigrationsFS _ _ data fs0) as [[s n]|e] eqn:E; [|done].
  apply NoDup_cons in Hnd as [Hg0 Hnd]. apply IH in H as [H1 H2]; [|done]. split.
  - intros g fs [[= -> ->]|Hin]%elem_of_cons; [|by apply H1]. exists s, n.
    destruct (H2 g0 Hg0) as [-> ->]. simpl. by rewrite !lookup_insert_eq.
  - simpl. intros g [Hne Hg]%not_elem_of_cons. destruct (H2 g Hg) as [-> ->]. simpl. by rewrite !lookup_insert_ne.
Qed.

Lemma prepareMigrationsFS_names data fs stmts names :
  prepareMigrationsFS Parse Execute data fs = Ok (stmts, names) ->
  (forall n, n ∈ names -> n ∈ fs.*1) /\ (NoDup fs.*1 -> NoDup names).
Proof.
  assert (mapE_names : forall l l', mapE (fun f : string * string => match Parse f.2 with Ok t => Ok (f.1, t) | Err e => Err e end) l
    = Ok l' -> l'.*1 = l.*1).
  { induction l as [|f l IH]; simpl; intros l' H; [by injection H as <-|].
    destruct (Parse f.2); [|done]. destruct (mapE _ l) eqn:F; [|done]. injection H as <-. rewrite !fmap_cons. f_equal. by apply IH. }
  unfold prepareMigrationsFS. intros H.
  assert (Hnil : Ok ([], []) = Ok (stmts, names) :> res error _ -> (forall n, n ∈ names -> n ∈ fs.*1) /\ (NoDup fs.*1 -> NoDup names)).
  { intros [= <- <-]. split; [by intros ? ?%not_elem_of_nil|]. constructor. }
  destruct (filter _ fs) as [|f0 files] eqn:Ef; [auto|]. rewrite <- Ef in H. clear Ef f0 files.
  destruct (mapE _ (filter _ fs)) as [tpls|msg] eqn:E; [|destruct (contains_sub _ msg); [auto|done]].
  apply mapE_names in E. destruct (mapE _ (merge_sort by_name tpls)); [|done]. injection H as <- <-. clear Hnil.
  assert (Hp : (merge_sort by_name tpls).*1 ≡ₚ (filter (fun f => has_suffix ".tpl" f.1 = true) fs).*1).
  { rewrite <- E. apply fmap_Permutation, merge_sort_Permutation. }
  split.
  - intros n Hn. rewrite Hp in Hn. apply list_elem_of_fmap in Hn as (f & -> & Hf).
    apply list_elem_of_filter in Hf as [_ Hf]. apply list_elem_of_fmap. by exists f.
  - intros Hnd. rewrite Hp. clear -Hnd. unfold FS in *. induction fs as [|f fs IH]; [constructor|]. simpl in Hnd.
    apply NoDup_cons in Hnd as [Hf Hnd]. rewrite filter_cons. destruct (decide _); [|by apply IH].
    simpl. constructor; [|by apply IH]. intros (g & Hg & Hin)%list_elem_of_fmap. apply Hf.
    rewrite Hg. apply list_elem_of_fmap. exists g. split; [done|]. by apply list_elem_of_filter in Hin as [_ ?].
Qed.

(** ** Export *)

(** A migrator and a directory whose paths are apart: plain elements, and a
    directory has each name once. *)
Record good_names (m : Migrator) (r : bool) (des : list string) : Prop := {
  good_dir : canonical r des = true;
  good_group : forall g fs, groupMigs m !! g = Some fs -> exists gs, canonical false gs = true /\ g = path_of false gs;
  good_files : forall g fs, groupMigs m !! g = Some fs -> NoDup fs.*1 /\ forall n, n ∈ fs.*1 -> plain_elem n = true;
}.

(** [q] is the path of a prepared statement [s]. *)
Definition exported (m : Migrator) (dir q s : string) : Prop :=
  exists g fs stmts names i n, groupMigs m !! g = Some fs /\
    prepareMigrationsFS Parse Execute (execData m) fs = Ok (stmts, names) /\
    stmts !! i = Some s /\ names !! i = Some n /\ q = filepath_Join [filepath_Join [dir; g]; n].

Lemma elem_of_zip {A B} (l : list A) (k : list B) a b :
  (a, b) ∈ zip l k <-> exists i, l !! i = Some a /\ k !! i = Some b.
Proof.
  rewrite list_elem_of_lookup. split; intros [i Hi]; exists i.
  - by apply lookup_zip_with_Some in Hi as (a' & b' & [= -> ->] & ? & ?).
  - apply lookup_zip_with_Some. destruct Hi. by exists a, b.
Qed.

Lemma writes_exported m dir stmts names q s :
  prepareGroupMigrations Parse Execute range m = Ok (stmts, names) ->
  (q, s) ∈ writes dir (range 5 _ stmts) names <-> exported m dir q s.
Proof.
  intros Hp. apply prepare_loop_spec in Hp as [H1 H2]; [|apply (NoDup_range_keys range)].
  unfold writes, exported. rewrite list_elem_of_bind. split.
  - intros ([g l] & Hin & Hg). apply list_elem_of_fmap in Hin as ([n c] & [= -> ->] & Hz).
    apply (elem_of_range range 5) in Hg. simpl in *.
    destruct (groupMigs m !! g) as [fs|] eqn:Hfs.
    + destruct (H1 g fs) as (s' & n' & Hpr & Hs & Hn); [by apply (elem_of_range range 4)|].
      rewrite Hn in Hz. assert (s' = l) as -> by congruence. apply elem_of_zip in Hz as (i & Hi & Hi').
      exists g, fs, l, n', i, n. done.
    + destruct (H2 g) as [Hs _]; [|by rewrite Hg in Hs]. rewrite (elem_of_range_keys range), Hfs. by intros [].
  - intros (g & fs & ss & ns & i & n & Hfs & Hpr & Hs & Hn & ->).
    destruct (H1 g fs) as (s' & n' & Hpr' & Hgs & Hgn); [by apply (elem_of_range range 4)|].
    rewrite Hpr in Hpr'. injection Hpr' as <- <-. exists (g, ss). split; [|by apply (elem_of_range range 5)].
    apply list_elem_of_fmap. exists (n, s). split; [done|]. simpl. rewrite Hgn. apply elem_of_zip. by exists i.
Qed.

Lemma exported_path m r des g fs n :
  good_names m r des -> groupMigs m !! g = Some fs -> n ∈ fs.*1 ->
  exists gs, canonical false gs = true /\ g = path_of false gs /\ plain_elem n = true /\
    filepath_Join [filepath_Join [path_of r des; g]; n] = path_of r (des ++ gs ++ [n]).
Proof.
  intros [Hd Hg Hf] Hfs Hn. destruct (Hg g fs Hfs) as (gs & Hgs & ->).
  destruct (Hf _ fs Hfs) as [_ Hpl]. specialize (Hpl n Hn). exists gs. do 3 (split; [done|]).
  assert (Hn1 : canonical false [n] = true) by (apply canonical_spec; split; [done|]; simpl; by rewrite Hpl).
  rewrite Join_canonical by done. rewrite app_assoc.
  replace n with (path_of false [n]) at 1 by done. apply Join_canonical; [by apply canonical_app|done].
Qed.

(** Two statements have two paths. *)
Lemma exported_fun m r des q s s' :
  good_names m r des -> exported m (path_of r des) q s -> exported m (path_of r des) q s' -> s' = s.
Proof.
  intros Hgood (g & fs & ss & ns & i & n & Hfs & Hpr & Hs & Hn & ->) (g' & fs' & ss' & ns' & i' & n' & Hfs' & Hpr' & Hs' & Hn' & E).
  destruct (prepareMigrationsFS_names _ _ _ _ Hpr) as [Hsub Hnd].
  destruct (prepareMigrationsFS_names _ _ _ _ Hpr') as [Hsub' _].
  destruct (exported_path m r des g fs n Hgood Hfs) as (gs & Hgs & -> & Hpl & E1);
    [by apply Hsub, (list_elem_of_lookup_2 _ i)|].
  destruct (exported_path m r des g' fs' n' Hgood Hfs') as (gs' & Hgs' & -> & Hpl' & E2);
    [by apply Hsub', (list_elem_of_lookup_2 _ i')|].
  rewrite E1, E2 in E. pose proof (good_dir _ _ _ Hgood) as Hd.
  assert (Hc : forall gs n, canonical false gs = true -> plain_elem n = true -> canonical r (des ++ gs ++ [n]) = true).
  { intros gs0 n0 H0 Hn0. apply canonical_app; [done|]. apply canonical_app; [done|].
    apply canonical_spec. split; [done|]. simpl. by rewrite Hn0. }
  apply path_of_inj in E; [|by apply Hc..]. apply app_inv_head, app_inj_tail in E as [<- <-].
  assert (fs' = fs) as -> by congruence. rewrite Hpr in Hpr'. injection Hpr' as <- <-.
  destruct (good_files _ _ _ Hgood _ _ Hfs) as [Hfnd _].
  assert (i' = i) as -> by exact (NoDup_lookup ns i' i n (Hnd Hfnd) Hn' Hn). congruence.
Qed.

(** C39. Export writes the files it is meant to and no others: when it returns nil
    every registered group has its prepared statements below its directory, each
    in the file of its template, and in any case, a panic included, what else the
    file system holds is as before; when a group is missing, or a dependency is a
    cycle, or a template is not valid, nothing at all is touched. *)
Theorem Export_exact files `{!OsLaws files} m r des o res o' :
  good_names m r des ->
  Export Parse Execute range toposort MkdirAll WriteFile m (path_of r des) o = (res, o') ->
  (forall q, (forall s, ~ exported m (path_of r des) q s) -> files o' !! q = files o !! q) /\
  match res with
  | Ret None => forall q s, exported m (path_of r des) q s -> files o' !! q = Some s
  | _ => True
  end /\
  (forall e, orderMigrationGroups range toposort m = Err e \/ prepareGroupMigrations Parse Execute range m = Err e ->
    o' = o /\ exists e', res = Ret (Some e')).
Proof.
  intros Hgood H. unfold Export in H.
  destruct (orderMigrationGroups range toposort m) as [order|e]; [|injection H as <- <-; eauto].
  destruct (prepareGroupMigrations Parse Execute range m) as [[stmts names]|e] eqn:Ep; [|injection H as <- <-; eauto].
  apply (export_groups_wrote files) in H as [H1 H2]. split; [|split; [|by intros ? [|]]].
  - intros q Hq. apply H2. intros ([q' s] & -> & Hin)%list_elem_of_fmap.
    apply (Hq s). by apply (writes_exported m _ _ _ _ _ Ep).
  - destruct res as [[e|]|v]; [done| |done]. intros q s Hs. rewrite H1 by done. apply put_all_lookup.
    + by apply (writes_exported m _ _ _ _ _ Ep).
    + intros s' Hs'%(writes_exported m _ _ _ _ _ Ep). by apply (exported_fun m r des q).
Qed.
End Exported.

(** ** What the registrations do *)

Section Registered.
Context {W : Type} {Stmt : Type -> Type} {Any : Type} (no_conf : Any) (tokens_migrations accounts_migrations : FS).
Context (range : nat -> forall A, gmap string A -> list (string * A)) {RG : RangeLaws range}.
Context (toposort : list string -> list (string * string) -> option (list string)) {TS : ToposortLaws toposort}.
Local Notation Migrator := (@Migrator W Stmt Any).
Local Notation tokens_group := "karbur/tokens"%string.
Local Notation accounts_group := "karbur/accounts"%string.

(** The calls that register groups. *)
Inductive registration :=
| RTokens
| RAccounts
| RGroup (group : string) (conf : Any) (migrations : FS) (after : list string).

Definition do_register (m : Migrator) (r : registration) : option error * Migrator :=
  match r with
  | RTokens => tokens_RegisterMigrations no_conf tokens_migrations m
  | RAccounts => accounts_RegisterMigrations no_conf accounts_migrations m
  | RGroup group conf fs after => Register m group conf fs after
  end.
Definition register_all (m : Migrator) (rs : list registration) : Migrator :=
  foldl (fun m r => (do_register m r).2) m rs.

(** The maps of a migrator have the same groups. *)
Definition same_groups (m : Migrator) : Prop :=
  dom (groupMigs m) = dom (execData m) /\ dom (groupMigs m) = dom (groupDeps m).

Definition group_of (r : registration) : string :=
  match r with RTokens => tokens_group | RAccounts => accounts_group | RGroup g _ _ _ => g end.
Definition after_of (r : registration) : list string :=
  match r with RTokens => [] | RAccounts => [tokens_group] | RGroup _ _ _ after => after end.

Lemma insert_deps_spec (l : list string) (d : gmap string bool) a :
  is_Some (foldl (fun d dep => <[dep := true]> d) d l !! a) <-> is_Some (d !! a) \/ a ∈ l.
Proof.
  revert d. induction l as [|x l IH]; intros d; simpl.
  - rewrite elem_of_nil. naive_solver.
  - rewrite IH, lookup_insert_is_Some', elem_of_cons. naive_solver.
Qed.

(** One registration: refused, with nothing changed, when the group is there
    already; or else the group is added with what it comes after. *)
Lemma register_spec m r : same_groups m ->
  let '(err, m') := do_register m r in
  same_groups m' /\
  match err with
  | Some e => m' = m /\ Is (Some e) ErrGroupRegistered = true /\ registered m (group_of r)
  | None => ~ registered m (group_of r) /\ registered m' (group_of r) /\
      (forall g, g <> group_of r -> groupDeps m' !! g = groupDeps m !! g) /\
      forall a, depends m' a (group_of r) <-> a ∈ after_of r
  end.
Proof.
  intros Hs. assert (E : exists conf fs, do_register m r = Register m (group_of r) conf fs (after_of r))
    by (destruct r; by do 2 eexists).
  destruct E as (conf & fs & ->). pose proof Hs as [Hx Hd]. unfold Register, registered, depends.
  assert (Hreg : forall g, groupMigs m !! g = None <-> groupDeps m !! g = None).
  { intros g. by rewrite <- !not_elem_of_dom, Hd. }
  destruct (groupMigs m !! group_of r) eqn:E.
  { split; [done|]. do 2 (split; [done|]). apply not_eq_None_Some. rewrite <- Hreg. by rewrite E. }
  pose proof (proj1 (Hreg _) E) as Hnone. rewrite Hnone. simpl. split.
  { split; simpl; by rewrite !dom_insert_L, ?Hx, ?Hd; try congruence. }
  split; [by intros []|]. split; [by rewrite lookup_insert_eq|]. split.
  - intros g Hg. by rewrite lookup_insert_ne.
  - intros a. rewrite lookup_insert_eq. split.
    + intros (deps & [= <-] & H). apply insert_deps_spec in H as [[? H]|?]; [by rewrite lookup_empty in H|done].
    + intros Ha. eexists. split; [done|]. apply insert_deps_spec. by right.
Qed.

Lemma register_all_groups m rs : same_groups m -> same_groups (register_all m rs).
Proof.
  revert m. induction rs as [|r rs IH]; intros m Hm; [done|]. apply IH.
  pose proof (register_spec m r Hm) as H. destruct (do_register m r). apply H.
Qed.

(** Later registrations keep what a group comes after. *)
Lemma register_all_keeps m rs g : same_groups m -> registered m g -> groupDeps (register_all m rs) !! g = groupDeps m !! g.
Proof.
  revert m. induction rs as [|r rs IH]; intros m Hm Hg; [done|]. simpl.
  pose proof (register_spec m r Hm) as H. destruct (do_register m r) as [[e|] m']; destruct H as (Hs & H).
  - destruct H as [-> _]. by apply IH.
  - destruct H as (Hn & _ & Hne & _). assert (g <> group_of r) as Hgr by (by intros ->).
    rewrite <- (Hne g Hgr). apply IH; [done|]. unfold registered. by rewrite (Hne g Hgr).
Qed.

(** C40. Whatever else is registered, before or after, in whatever order: the
    tables of accounts are made after those of tokens, on which they depend, or
    the migration is refused when tokens is not registered; a second registration
    of a group is refused and changes nothing, and every registration keeps the
    three maps of the migrator on the same groups. *)
Theorem RegisterMigrations_order m err m1 rs :
  same_groups m -> accounts_RegisterMigrations no_conf accounts_migrations m = (err, m1) ->
  let m2 := register_all m1 rs in
  same_groups m2 /\
  (forall r, registered m2 (group_of r) -> exists e, do_register m2 r = (Some e, m2) /\ Is (Some e) ErrGroupRegistered = true) /\
  (err = None ->
   match orderMigrationGroups range toposort m2 with
   | Ok order => before tokens_group accounts_group order
   | Err e => Is (Some e) ErrCycle = true \/ Is (Some e) ErrMissingGroup = true
   end /\
   (~ registered m2 tokens_group -> exists e, orderMigrationGroups range toposort m2 = Err e)).
Proof.
  intros Hm E. pose proof (register_spec m RAccounts Hm) as H1. simpl in H1. rewrite E in H1.
  destruct H1 as [Hm1 H1]. assert (Hm2 : same_groups (register_all m1 rs)) by (by apply register_all_groups).
  split; [done|]. split.
  - intros r Hr. pose proof (register_spec _ r Hm2) as H. destruct (do_register _ r) as [[e|] m'].
    + destruct H as (_ & -> & He & _). by exists e.
    + by destruct H as (_ & Hn & _).
  - intros ->. destruct H1 as (_ & Hreg & _ & Hdep).
    assert (Hd : depends (register_all m1 rs) tokens_group accounts_group).
    { unfold depends. rewrite (register_all_keeps _ _ _ Hm1 Hreg). apply (Hdep tokens_group). by left. }
    pose proof (order_cases range toposort (register_all m1 rs)) as Ho.
    destruct (orderMigrationGroups range toposort (register_all m1 rs)) as [order|e].
    + destruct Ho as (_ & _ & Ho). destruct (Ho _ _ Hd) as [Ht Hb]. split; [done|]. intros Hn. by destruct Hn.
    + split; [|intros _; by exists e]. destruct Ho as [[Ho _]|[Ho _]]; [left; exact Ho|right; exact Ho].
Qed.
End Registered.

(** ** Witnesses *)

Definition ex_files : gmap string string := {["out/other" := "kept"]}%string.
Definition ex_MkdirAll (_ : string) : go (gmap string string) (option error) := ret None.
Definition ex_WriteFile (p c : string) : go (gmap string string) (option error) := fun o => (Ret None, <[p := c]> o).
#[local] Instance ex_os : OsLaws ex_MkdirAll ex_WriteFile id.
Proof. split; [done|by intros * [= <-]|]. intros p c o q Hq. simpl. by apply lookup_insert_ne. Qed.

Definition ex_Parse (s : string) : res string string := Ok s.
Definition ex_Execute (t : string) (_ : gmap string unit) : res error string := Ok t.

Lemma ex_groupMigs : groupMigs ex_migrator =
  {["a" := [("2.tpl", "a2"); ("x", "no"); ("1.tpl", "a1")]; "b" := [("1.tpl", "b1")]]}%string.
Proof. by vm_compute. Qed.

Lemma ex_good : good_names ex_migrator false ["out"%string].
Proof.
  split; [done| |]; intros g fs H; rewrite ex_groupMigs in H;
    apply lookup_insert_Some in H as [[<- <-]|[_ H]];
    try (apply lookup_singleton_Some in H as [<- <-]).
  - by exists ["a"%string].
  - by exists ["b"%string].
  - split; [by apply (bool_decide_unpack _)|]. intros n Hn. set_unfold in Hn. naive_solver.
  - split; [by apply (bool_decide_unpack _)|]. intros n Hn. set_unfold in Hn. naive_solver.
Qed.

Definition ex_exported : gmap string string :=
  (<["out/a/1.tpl" := "a1"]> (<["out/a/2.tpl" := "a2"]> (<["out/b/1.tpl" := "b1"]> ex_files)))%string.
Lemma Export_exact_witness :
  Export ex_Parse ex_Execute range_ref toposort_ref ex_MkdirAll ex_WriteFile ex_migrator "out" ex_files =
    (Ret None, ex_exported) /\
  (forall q, (forall s, ~ exported ex_Parse ex_Execute ex_migrator "out" q s) -> ex_exported !! q = ex_files !! q) /\
  (forall q s, exported ex_Parse ex_Execute ex_migrator "out" q s -> ex_exported !! q = Some s).
Proof.
  assert (E : Export ex_Parse ex_Execute range_ref toposort_ref ex_MkdirAll ex_WriteFile ex_migrator "out" ex_files =
    (Ret None, ex_exported)) by (vm_compute; reflexivity).
  destruct (Export_exact ex_Parse ex_Execute range_ref toposort_ref ex_MkdirAll ex_WriteFile id ex_migrator false
    ["out"%string] ex_files (Ret None) ex_exported ex_good E) as (H1 & H2 & _).
  split; [exact E|]. split; [exact H1|exact H2].
Defined.

Definition ex_new : Migrator (world log_db) (Sql log_db) unit := New model_btx None.
Definition ex_fs : FS := [("1.tpl", "CREATE")]%string.

(** The accounts first: the tables of tokens are still made before. *)
Lemma RegisterMigrations_order_witness :
  let m1 := (accounts_RegisterMigrations tt ex_fs ex_new).2 in
  let m2 := register_all tt ex_fs ex_fs m1 [RTokens; RAccounts] in
  orderMigrationGroups range_ref toposort_ref m2 = Ok ["karbur/tokens"; "karbur/accounts"]%string /\
  before "karbur/tokens" "karbur/accounts" ["karbur/tokens"; "karbur/accounts"]%string.
Proof.
  assert (E : orderMigrationGroups range_ref toposort_ref (register_all tt ex_fs ex_fs
    (accounts_RegisterMigrations tt ex_fs ex_new).2 [RTokens; RAccounts]) = Ok ["karbur/tokens"; "karbur/accounts"]%string)
    by (vm_compute; reflexivity).
  destruct (RegisterMigrations_order tt ex_fs ex_fs range_ref toposort_ref ex_new None
    (accounts_RegisterMigrations tt ex_fs ex_new).2 [RTokens; RAccounts] (conj eq_refl eq_refl) eq_refl) as (_ & _ & H).
  destruct (H eq_refl) as [Ho _]. rewrite E in Ho. split; [exact E|exact Ho].
Defined.
