(* ===== verification/Adapters.v ===== *)
(** * Adapters: the transaction options of src/pgdb/pgxadapt

    The conversions between the options of database/sql and those of pgx. *)

From Stdlib Require Import ZArith String Lia.
From S2P Require Import Prelude Errors Pgdb.

(** ** Transaction options *)

(** sql.IsolationLevel. *)
Definition LevelDefault : Z := 0.
Definition LevelReadUncommitted : Z := 1.
Definition LevelReadCommitted : Z := 2.
Definition LevelRepeatableRead : Z := 4.
Definition LevelSerializable : Z := 6.

(** The fields of pgx.TxOptions: the zero value of a mode is the empty string. *)
Inductive TxIsoLevel := NoIsoLevel | Serializable | RepeatableRead | ReadCommitted | ReadUncommitted.
Inductive TxAccessMode := NoAccessMode | ReadWrite | ReadOnlyMode.
Inductive TxDeferrableMode := NoDeferrableMode | Deferrable | NotDeferrable.
Record pgxTxOptions := {
  IsoLevel : TxIsoLevel; AccessMode : TxAccessMode; DeferrableMode : TxDeferrableMode;
}.

Definition ToTxOptions (opts : pgxTxOptions) : option sqlTxOptions :=
  let sqlOpts :=
    {| Isolation := match IsoLevel opts with
                    | Serializable => LevelSerializable
                    | RepeatableRead => LevelRepeatableRead
                    | ReadCommitted => LevelReadCommitted
                    | ReadUncommitted => LevelReadUncommitted
                    | NoIsoLevel => LevelDefault
                    end;
       ReadOnly := match AccessMode opts with ReadOnlyMode => true | _ => false end |} in
  if decide (sqlOpts = zeroTxOptions) then None else Some sqlOpts.

Definition ToPgxTxOptions (opts : option sqlTxOptions) : pgxTxOptions :=
  let zero := {| IsoLevel := NoIsoLevel; AccessMode := NoAccessMode; DeferrableMode := NoDeferrableMode |} in
  match opts with
  | None => zero
  | Some o =>
      if decide (o = zeroTxOptions) then zero
      else
        {| IsoLevel :=
             if Isolation o =? LevelSerializable then Serializable
             else if Isolation o =? LevelRepeatableRead then RepeatableRead
             else if Isolation o =? LevelReadCommitted then ReadCommitted
             else if Isolation o =? LevelReadUncommitted then ReadUncommitted
             else NoIsoLevel;
           AccessMode := if ReadOnly o then ReadOnlyMode else NoAccessMode;
           DeferrableMode := NoDeferrableMode |}
  end.

(** The levels both sides have. *)
Definition shared_level (l : Z) : bool :=
  (l =? LevelDefault) || (l =? LevelReadUncommitted) || (l =? LevelReadCommitted) ||
  (l =? LevelRepeatableRead) || (l =? LevelSerializable).

(** Converting sql options to pgx and back gives the same options, the zero
    options as nil, for the isolation levels that both sides have; another
    level is dropped without an error, the read-only flag is always kept. *)
Theorem TxOptions_roundtrip o :
  ToTxOptions (ToPgxTxOptions (Some o)) =
  let o' := {| Isolation := if shared_level (Isolation o) then Isolation o else LevelDefault;
               ReadOnly := ReadOnly o |} in
  if decide (o' = zeroTxOptions) then None else Some o'.
Proof.
  destruct o as [l ro]. unfold ToPgxTxOptions, shared_level. simpl.
  destruct (decide (_ = zeroTxOptions)) as [[= -> ->]|Hz]; [reflexivity|].
  unfold ToTxOptions. simpl.
  destruct (Z.eqb_spec l LevelSerializable) as [->|H6]; [by destruct ro|].
  destruct (Z.eqb_spec l LevelRepeatableRead) as [->|H4]; [by destruct ro|].
  destruct (Z.eqb_spec l LevelReadCommitted) as [->|H2]; [by destruct ro|].
  destruct (Z.eqb_spec l LevelReadUncommitted) as [->|H1]; [by destruct ro|].
  destruct (Z.eqb_spec l LevelDefault) as [->|H0]; simpl; by destruct ro.
Qed.
