(* ===== verification/Mockdb.v ===== *)
(** * Mockdb: src/pgdb/mockdb/mockdb.go

    Doubles of the interfaces of pgdb for tests: how the constructors read their
    arguments, and what the methods of a mock do.  A value of an interface is its
    methods; an argument is a function, of the type that the code switches on, or
    a value with the methods it has. *)

From Stdlib Require Import ZArith Ascii String Lia.
From S2P Require Import Prelude Errors.

Definition ErrNotMocked : error := ConstError "operation not mocked".

Section Mocks.
(** The contexts, the values of type any, sql.Result and sql.TxOptions. *)
Context {W Context Any Result TxOptions : Type}.

(** ** The interfaces of src/pgdb/database.go, with the signatures of their methods *)

Record CursorI := {
  cur_Close : go W (option error);
  cur_Err : go W (option error);
  cur_Next : go W bool;
  cur_Scan : Any -> go W (option error);
}.

Definition ExecF : Type := Context -> string -> list Any -> go W (res error Result).
Definition QueryF : Type := Context -> Any -> string -> list Any -> go W (option error).
Definition CursorF : Type := Context -> string -> list Any -> go W CursorI.
Definition EndF : Type := Context -> go W (option error).

Record QueryerI := {
  q_Exec : ExecF;
  q_QueryOne : QueryF;
  q_QueryMany : QueryF;
  q_Cursor : CursorF;
  q_As : Any -> go W bool;
}.
Record TxerI := { tx_Queryer : QueryerI; tx_Commit : EndF; tx_Rollback : EndF }.
Definition BeginTxF : Type := Context -> option TxOptions -> go W (res error TxerI).
Record ConnectionI := {
  conn_Queryer : QueryerI;
  conn_BeginTx : BeginTxF;
  conn_Close : go W (option error);
}.
Definition ConnF : Type := Context -> go W (res error ConnectionI).
Record PoolI := { pool_Connection : ConnectionI; pool_Conn : ConnF }.

(** ** Arguments *)

(** The methods that a value has with these signatures. *)
Record methods := {
  m_Exec : option ExecF;
  m_QueryOne : option QueryF;
  m_QueryMany : option QueryF;
  m_Cursor : option CursorF;
  m_As : option (Any -> go W bool);
  m_Commit : option EndF;
  m_Rollback : option EndF;
  m_BeginTx : option BeginTxF;
  m_Conn : option ConnF;
  m_Close : option (go W (option error));
  m_Err : option (go W (option error));
  m_Next : option (go W bool);
  m_Scan : option (Any -> go W (option error));
}.

Inductive arg :=
| FnExec (f : ExecF)
| FnQuery (f : QueryF)
| FnCursor (f : CursorF)
| FnAs (f : Any -> go W bool)
| FnEnd (f : EndF)
| FnBeginTx (f : BeginTxF)
| FnConn (f : ConnF)
| FnErr (f : go W (option error))
| FnNext (f : go W bool)
| FnScan (f : Any -> go W (option error))
| Value (m : methods).

(** [v.(pgdb.Queryer)], [v.(pgdb.Txer)], [v.(pgdb.Connection)]. *)
Definition as_Queryer (m : methods) : option QueryerI :=
  match m_Exec m, m_QueryOne m, m_QueryMany m, m_Cursor m, m_As m with
  | Some e, Some o, Some y, Some c, Some a =>
      Some {| q_Exec := e; q_QueryOne := o; q_QueryMany := y; q_Cursor := c; q_As := a |}
  | _, _, _, _, _ => None
  end.
Definition as_Txer (m : methods) : option TxerI :=
  match as_Queryer m, m_Commit m, m_Rollback m with
  | Some q, Some c, Some r => Some {| tx_Queryer := q; tx_Commit := c; tx_Rollback := r |}
  | _, _, _ => None
  end.
Definition as_Connection (m : methods) : option ConnectionI :=
  match as_Queryer m, m_BeginTx m, m_Close m with
  | Some q, Some b, Some c => Some {| conn_Queryer := q; conn_BeginTx := b; conn_Close := c |}
  | _, _, _ => None
  end.

(** [if v, ok := v.(interface{ M }); ok { field = v.M }]. *)
Definition assigned {F} (v field : option F) : option F := match v with Some f => Some f | None => field end.

(** ** Queryer *)

Record Queryer := {
  ExecFunc : option ExecF;
  QueryOneFunc : option QueryF;
  QueryManyFunc : option QueryF;
  CursorFunc : option CursorF;
  AsFunc : option (Any -> go W bool);
}.

Definition queryer_arg (q : Queryer) (a : arg) : Queryer :=
  match a with
  | FnExec f => {| ExecFunc := Some f; QueryOneFunc := QueryOneFunc q; QueryManyFunc := QueryManyFunc q;
                   CursorFunc := CursorFunc q; AsFunc := AsFunc q |}
  | FnQuery f =>
      match QueryOneFunc q with
      | None => {| ExecFunc := ExecFunc q; QueryOneFunc := Some f; QueryManyFunc := QueryManyFunc q;
                   CursorFunc := CursorFunc q; AsFunc := AsFunc q |}
      | Some _ => {| ExecFunc := ExecFunc q; QueryOneFunc := QueryOneFunc q; QueryManyFunc := Some f;
                     CursorFunc := CursorFunc q; AsFunc := AsFunc q |}
      end
  | FnCursor f => {| ExecFunc := ExecFunc q; QueryOneFunc := QueryOneFunc q; QueryManyFunc := QueryManyFunc q;
                     CursorFunc := Some f; AsFunc := AsFunc q |}
  | FnAs f => {| ExecFunc := ExecFunc q; QueryOneFunc := QueryOneFunc q; QueryManyFunc := QueryManyFunc q;
                 CursorFunc := CursorFunc q; AsFunc := Some f |}
  | Value m =>
      match as_Queryer m with
      | Some v => {| ExecFunc := Some (q_Exec v); QueryOneFunc := Some (q_QueryOne v);
                     QueryManyFunc := Some (q_QueryMany v); CursorFunc := Some (q_Cursor v);
                     AsFunc := Some (q_As v) |}
      | None => {| ExecFunc := assigned (m_Exec m) (ExecFunc q);
                   QueryOneFunc := assigned (m_QueryOne m) (QueryOneFunc q);
                   QueryManyFunc := assigned (m_QueryMany m) (QueryManyFunc q);
                   CursorFunc := assigned (m_Cursor m) (CursorFunc q);
                   AsFunc := assigned (m_As m) (AsFunc q) |}
      end
  | _ => q
  end.
Definition NewQueryer (args : list arg) : Queryer :=
  foldl queryer_arg
    {| ExecFunc := None; QueryOneFunc := None; QueryManyFunc := None; CursorFunc := None; AsFunc := None |} args.

(** ** Cursor *)

Record Cursor := {
  CloseFunc : option (go W (option error));
  ErrFunc : option (go W (option error));
  NextFunc : option (go W bool);
  ScanFunc : option (Any -> go W (option error));
}.
Definition no_cursor : Cursor := {| CloseFunc := None; ErrFunc := None; NextFunc := None; ScanFunc := None |}.

Definition cursor_arg (c : Cursor) (a : arg) : Cursor :=
  match a with
  | FnErr f =>
      match CloseFunc c with
      | None => {| CloseFunc := Some f; ErrFunc := ErrFunc c; NextFunc := NextFunc c; ScanFunc := ScanFunc c |}
      | Some _ => {| CloseFunc := CloseFunc c; ErrFunc := Some f; NextFunc := NextFunc c; ScanFunc := ScanFunc c |}
      end
  | FnNext f => {| CloseFunc := CloseFunc c; ErrFunc := ErrFunc c; NextFunc := Some f; ScanFunc := ScanFunc c |}
  | FnScan f => {| CloseFunc := CloseFunc c; ErrFunc := ErrFunc c; NextFunc := NextFunc c; ScanFunc := Some f |}
  | Value m => {| CloseFunc := assigned (m_Close m) (CloseFunc c); ErrFunc := assigned (m_Err m) (ErrFunc c);
                  NextFunc := assigned (m_Next m) (NextFunc c); ScanFunc := assigned (m_Scan m) (ScanFunc c) |}
  | _ => c
  end.
Definition NewCursor (args : list arg) : Cursor := foldl cursor_arg no_cursor args.

Definition Close_cursor (c : Cursor) : go W (option error) :=
  match CloseFunc c with Some f => f | None => ret (Some ErrNotMocked) end.
Definition Err_cursor (c : Cursor) : go W (option error) :=
  match ErrFunc c with Some f => f | None => ret (Some ErrNotMocked) end.
Definition Next_cursor (c : Cursor) : go W bool := match NextFunc c with Some f => f | None => ret false end.
Definition Scan_cursor (c : Cursor) (dst : Any) : go W (option error) :=
  match ScanFunc c with Some f => f dst | None => ret (Some ErrNotMocked) end.
Definition cursor_value (c : Cursor) : CursorI :=
  {| cur_Close := Close_cursor c; cur_Err := Err_cursor c; cur_Next := Next_cursor c; cur_Scan := Scan_cursor c |}.

(** ** The methods of a Queryer *)

Definition Exec (q : Queryer) : ExecF := fun ctx stmt args =>
  match ExecFunc q with Some f => f ctx stmt args | None => ret (Err ErrNotMocked) end.
Definition QueryOne (q : Queryer) : QueryF := fun ctx dst stmt args =>
  match QueryOneFunc q with Some f => f ctx dst stmt args | None => ret (Some ErrNotMocked) end.
Definition QueryMany (q : Queryer) : QueryF := fun ctx dst stmt args =>
  match QueryManyFunc q with Some f => f ctx dst stmt args | None => ret (Some ErrNotMocked) end.
Definition Cursor_ (q : Queryer) : CursorF := fun ctx stmt args =>
  match CursorFunc q with Some f => f ctx stmt args | None => ret (cursor_value no_cursor) end.
Definition As (q : Queryer) (i : Any) : go W bool :=
  match AsFunc q with Some f => f i | None => ret false end.
Definition queryer_value (q : Queryer) : QueryerI :=
  {| q_Exec := Exec q; q_QueryOne := QueryOne q; q_QueryMany := QueryMany q; q_Cursor := Cursor_ q; q_As := As q |}.

(** ** Txer *)

Record Txer := { txer_Queryer : QueryerI; CommitFunc : option EndF; RollbackFunc : option EndF }.

Definition txer_arg (t : Txer) (a : arg) : Txer :=
  match a with
  | FnEnd f =>
      match CommitFunc t with
      | None => {| txer_Queryer := txer_Queryer t; CommitFunc := Some f; RollbackFunc := RollbackFunc t |}
      | Some _ => {| txer_Queryer := txer_Queryer t; CommitFunc := CommitFunc t; RollbackFunc := Some f |}
      end
  | Value m => {| txer_Queryer := txer_Queryer t; CommitFunc := assigned (m_Commit m) (CommitFunc t);
                  RollbackFunc := assigned (m_Rollback m) (RollbackFunc t) |}
  | _ => t
  end.
Definition NewTxer (args : list arg) : Txer :=
  foldl txer_arg {| txer_Queryer := queryer_value (NewQueryer args); CommitFunc := None; RollbackFunc := None |} args.

Definition Commit (t : Txer) : EndF := fun ctx =>
  match CommitFunc t with Some f => f ctx | None => ret (Some ErrNotMocked) end.
Definition Rollback (t : Txer) : EndF := fun ctx =>
  match RollbackFunc t with Some f => f ctx | None => ret (Some ErrNotMocked) end.
Definition txer_value (t : Txer) : TxerI :=
  {| tx_Queryer := txer_Queryer t; tx_Commit := Commit t; tx_Rollback := Rollback t |}.

(** ** BeginTxer: the field BeginTxFunc *)

Definition begin_arg (f : option BeginTxF) (a : arg) : option BeginTxF :=
  match a with
  | FnBeginTx g => Some g
  | Value m =>
      match as_Txer m with
      | Some v => match f with None => Some (fun _ _ => ret (Ok v)) | Some _ => f end
      | None => assigned (m_BeginTx m) f
      end
  | _ => f
  end.
Record BeginTxer := { BeginTxFunc : option BeginTxF }.
Definition NewBeginTxer (args : list arg) : BeginTxer := {| BeginTxFunc := foldl begin_arg None args |}.
Definition BeginTx (b : BeginTxer) : BeginTxF := fun ctx opts =>
  match BeginTxFunc b with Some f => f ctx opts | None => ret (Err ErrNotMocked) end.

(** ** Connection *)

Record Connection := {
  c_Queryer : QueryerI;
  c_BeginTx : BeginTxF;
  c_CloseFunc : option (go W (option error));
}.
Definition close_arg (f : option (go W (option error))) (a : arg) : option (go W (option error)) :=
  match a with
  | FnErr g => Some g
  | Value m => assigned (m_Close m) f
  | _ => f
  end.
Definition NewConnection (args : list arg) : Connection :=
  {| c_Queryer := queryer_value (NewQueryer args); c_BeginTx := BeginTx (NewBeginTxer args);
     c_CloseFunc := foldl close_arg None args |}.
Definition Close_connection (c : Connection) : go W (option error) :=
  match c_CloseFunc c with Some f => f | None => ret (Some ErrNotMocked) end.
Definition connection_value (c : Connection) : ConnectionI :=
  {| conn_Queryer := c_Queryer c; conn_BeginTx := c_BeginTx c; conn_Close := Close_connection c |}.

(** ** Pool *)

Record Pool := { p_Connection : ConnectionI; ConnFunc : option ConnF }.
Definition conn_arg (f : option ConnF) (a : arg) : option ConnF :=
  match a with
  | FnConn g => Some g
  | Value m =>
      match as_Connection m with
      | Some v => match f with None => Some (fun _ => ret (Ok v)) | Some _ => f end
      | None => assigned (m_Conn m) f
      end
  | _ => f
  end.
Definition NewPool (args : list arg) : Pool :=
  {| p_Connection := connection_value (NewConnection args); ConnFunc := foldl conn_arg None args |}.
Definition Conn (p : Pool) : ConnF := fun ctx =>
  match ConnFunc p with Some f => f ctx | None => ret (Err ErrNotMocked) end.
Definition pool_value (p : Pool) : PoolI := {| pool_Connection := p_Connection p; pool_Conn := Conn p |}.
End Mocks.

(** ** What a mock is *)

Section Facts.
Context {W Context Any Result TxOptions : Type}.
Local Notation arg := (@arg W Context Any Result TxOptions).
Local Notation methods := (@methods W Context Any Result TxOptions).
Local Notation QueryerI := (@QueryerI W Context Any Result).
Local Notation TxerI := (@TxerI W Context Any Result).
Local Notation ConnectionI := (@ConnectionI W Context Any Result TxOptions).
Local Notation PoolI := (@PoolI W Context Any Result TxOptions).
Local Notation CursorI := (@CursorI W Any).

(** The methods of a value that implements one interface and nothing else. *)
Definition of_queryer (q : QueryerI) : methods :=
  {| m_Exec := Some (q_Exec q); m_QueryOne := Some (q_QueryOne q); m_QueryMany := Some (q_QueryMany q);
     m_Cursor := Some (q_Cursor q); m_As := Some (q_As q); m_Commit := None; m_Rollback := None; m_BeginTx := None;
     m_Conn := None; m_Close := None; m_Err := None; m_Next := None; m_Scan := None |}.
Definition with_end (c r : @EndF W Context) (m : methods) : methods :=
  {| m_Exec := m_Exec m; m_QueryOne := m_QueryOne m; m_QueryMany := m_QueryMany m; m_Cursor := m_Cursor m;
     m_As := m_As m; m_Commit := Some c; m_Rollback := Some r; m_BeginTx := m_BeginTx m; m_Conn := m_Conn m;
     m_Close := m_Close m; m_Err := m_Err m; m_Next := m_Next m; m_Scan := m_Scan m |}.
Definition with_begin (b : BeginTxF) (c : go W (option error)) (conn : option ConnF) (m : methods) : methods :=
  {| m_Exec := m_Exec m; m_QueryOne := m_QueryOne m; m_QueryMany := m_QueryMany m; m_Cursor := m_Cursor m;
     m_As := m_As m; m_Commit := m_Commit m; m_Rollback := m_Rollback m; m_BeginTx := Some b; m_Conn := conn;
     m_Close := Some c; m_Err := m_Err m; m_Next := m_Next m; m_Scan := m_Scan m |}.
Definition of_txer (t : TxerI) : methods := with_end (tx_Commit t) (tx_Rollback t) (of_queryer (tx_Queryer t)).
Definition of_connection (c : ConnectionI) : methods :=
  with_begin (conn_BeginTx c) (conn_Close c) None (of_queryer (conn_Queryer c)).
Definition of_pool (p : PoolI) : methods :=
  let c := pool_Connection p in
  with_begin (conn_BeginTx c) (conn_Close c) (Some (pool_Conn p)) (of_queryer (conn_Queryer c)).
Definition of_cursor (c : CursorI) : methods :=
  {| m_Exec := None; m_QueryOne := None; m_QueryMany := None; m_Cursor := None; m_As := None; m_Commit := None;
     m_Rollback := None; m_BeginTx := None; m_Conn := None; m_Close := Some (cur_Close c); m_Err := Some (cur_Err c);
     m_Next := Some (cur_Next c); m_Scan := Some (cur_Scan c) |}.

(** *** Functions *)

Lemma foldl_assigned {A F} (g : A -> option F) (step : option F -> A -> option F) l f :
  (forall f a, step f a = assigned (g a) f) -> foldl step f l = assigned (last (omap g l)) f.
Proof.
  intros Hs. revert f. induction l as [|a l IH]; intros f; [done|]. rewrite omap_cons. simpl. rewrite IH, Hs.
  destruct (g a) as [y|]; simpl; [|done]. rewrite last_cons. by destruct (last (omap g l)).
Qed.

(** A field of a mock that every argument assigns or leaves. *)
Lemma foldl_field {A S F} (field : S -> option F) (g : A -> option F) (step : S -> A -> S) l s :
  (forall s a, field (step s a) = assigned (g a) (field s)) -> field (foldl step s l) = assigned (last (omap g l)) (field s).
Proof.
  intros Hs. rewrite <- (foldl_assigned g (fun f a => assigned (g a) f)) by done.
  revert s. induction l as [|a l IH]; intros s; [done|]. simpl. by rewrite IH, Hs.
Qed.

(** A field that is set keeps its value when every argument leaves it. *)
Lemma foldl_keeps {A S F} (P : A -> Prop) (f : S -> option F) (step : S -> A -> S) l s y :
  (forall s a, P a -> f s = Some y -> f (step s a) = Some y) -> Forall P l -> f s = Some y -> f (foldl step s l) = Some y.
Proof. intros Hk Hl. revert s. induction Hl as [|a l Ha _ IH]; intros s Hs; [done|]. simpl. auto. Qed.

(** Two fields of which the first function takes the first one. *)
Lemma foldl_first {A S F} (P : A -> Prop) (f1 f2 : S -> option F) (g : A -> option F) (step : S -> A -> S) l s :
  (forall s a, P a -> f1 (step s a) = match f1 s with None => g a | Some f => Some f end) ->
  (forall s a, P a -> f2 (step s a) = match f1 s with None => f2 s | Some _ => assigned (g a) (f2 s) end) ->
  Forall P l -> f1 s = None ->
  f1 (foldl step s l) = head (omap g l) /\ f2 (foldl step s l) = assigned (last (tail (omap g l))) (f2 s).
Proof.
  intros H1 H2 Hl. revert s. induction Hl as [|a l Ha Hl IH]; intros s Hs; [done|]. rewrite omap_cons. simpl.
  destruct (g a) as [f|] eqn:Eg; [clear IH|by destruct (IH (step s a)) as [-> ->]; rewrite ?H1, ?H2, ?Hs].
  assert (Hf1 : f1 (step s a) = Some f) by (by rewrite H1, Hs).
  assert (Hf2 : f2 (step s a) = f2 s) by (by rewrite H2, Hs). simpl. rewrite <- Hf2. split.
  - eapply (foldl_keeps P f1); [|done..]. intros s' b Hb Hs'. by rewrite H1, Hs'.
  - revert Hf1. generalize (step s a). clear s Hs Hf2. induction Hl as [|b l Hb Hl IH]; intros s Hs; [done|].
    rewrite omap_cons. simpl. rewrite IH by (by rewrite H1, Hs). rewrite H2, Hs by done.
    destruct (g b) as [y|]; simpl; [|done]. rewrite last_cons. by destruct (last (omap g l)).
Qed.

Definition exec_fn (a : arg) := match a with FnExec f => Some f | Value m => m_Exec m | _ => None end.
Definition query_fn (a : arg) := match a with FnQuery f => Some f | _ => None end.
Definition cursor_fn (a : arg) := match a with FnCursor f => Some f | Value m => m_Cursor m | _ => None end.
Definition end_fn (a : arg) := match a with FnEnd f => Some f | _ => None end.
Definition err_fn (a : arg) := match a with FnErr f => Some f | _ => None end.
Definition close_fn (a : arg) := match a with FnErr f => Some f | Value m => m_Close m | _ => None end.

(** An argument that is a function, or a value with other methods. *)
Definition no_value (a : arg) : Prop := match a with Value _ => False | _ => True end.

Lemma as_Queryer_methods (m : methods) v : as_Queryer m = Some v ->
  m_Exec m = Some (q_Exec v) /\ m_QueryOne m = Some (q_QueryOne v) /\ m_QueryMany m = Some (q_QueryMany v) /\
  m_Cursor m = Some (q_Cursor v) /\ m_As m = Some (q_As v).
Proof. unfold as_Queryer. intros H. repeat case_in H; try done. by injection H as <-. Qed.

(** Functions given as arguments: the last of a signature, or the first for one
    method and the last of the others for the second method with the signature. *)
Theorem mock_functions (args : list arg) :
  ExecFunc (NewQueryer args) = last (omap exec_fn args) /\
  CursorFunc (NewQueryer args) = last (omap cursor_fn args) /\
  c_CloseFunc (NewConnection args) = last (omap close_fn args) /\
  (Forall no_value args ->
    (QueryOneFunc (NewQueryer args) = head (omap query_fn args) /\
     QueryManyFunc (NewQueryer args) = last (tail (omap query_fn args))) /\
    (CommitFunc (NewTxer args) = head (omap end_fn args) /\
     RollbackFunc (NewTxer args) = last (tail (omap end_fn args))) /\
    (CloseFunc (NewCursor args) = head (omap err_fn args) /\
     ErrFunc (NewCursor args) = last (tail (omap err_fn args)))).
Proof.
  assert (Hopt : forall {F} (o : option F), assigned o None = o) by (by intros F []).
  split_and!.
  - unfold NewQueryer. rewrite (foldl_field ExecFunc exec_fn); [by rewrite Hopt|]. intros s [f|f|f|f|f|f|f|f|f|f|m]; try done.
    + simpl. by destruct (QueryOneFunc s).
    + simpl. destruct (as_Queryer m) as [v|] eqn:E; [|done]. apply as_Queryer_methods in E as (-> & _). done.
  - unfold NewQueryer. rewrite (foldl_field CursorFunc cursor_fn); [by rewrite Hopt|]. intros s [f|f|f|f|f|f|f|f|f|f|m]; try done.
    + simpl. by destruct (QueryOneFunc s).
    + simpl. destruct (as_Queryer m) as [v|] eqn:E; [|done]. apply as_Queryer_methods in E as (_ & _ & _ & -> & _). done.
  - unfold NewConnection. simpl. rewrite (foldl_assigned close_fn); [by rewrite Hopt|]. by intros f [].
  - intros Hl. split; [|split].
    + destruct (foldl_first no_value QueryOneFunc QueryManyFunc query_fn queryer_arg args (NewQueryer (take 0 args))) as [H1 H2];
        [intros s [] Ha; try done; simpl; by destruct (QueryOneFunc s)..|done|done|]. by rewrite Hopt in H2.
    + destruct (foldl_first no_value CommitFunc RollbackFunc end_fn txer_arg args
        {| txer_Queryer := queryer_value (NewQueryer args); CommitFunc := None; RollbackFunc := None |}) as [H1 H2];
        [intros s [] Ha; try done; simpl; by destruct (CommitFunc s)..|done|done|]. by rewrite Hopt in H2.
    + destruct (foldl_first no_value CloseFunc ErrFunc err_fn cursor_arg args no_cursor) as [H1 H2];
        [intros s [] Ha; try done; simpl; by destruct (CloseFunc s)..|done|done|]. by rewrite Hopt in H2.
Qed.

(** The last argument of a constructor. *)
Lemma NewQueryer_snoc args (a : arg) : NewQueryer (args ++ [a]) = queryer_arg (NewQueryer args) a.
Proof. unfold NewQueryer. by rewrite foldl_app. Qed.

Lemma queryer_value_of args (q : QueryerI) (m : methods) : as_Queryer m = Some q ->
  queryer_value (NewQueryer (args ++ [Value m])) = q.
Proof. intros E. rewrite NewQueryer_snoc. simpl. rewrite E. by destruct q. Qed.

Lemma as_Queryer_of (q : QueryerI) : as_Queryer (of_queryer q) = Some q.
Proof. by destruct q. Qed.

Lemma txer_Queryer_foldl (t : Txer) (l : list arg) : txer_Queryer (foldl txer_arg t l) = txer_Queryer t.
Proof.
  revert t. induction l as [|a l IH]; intros t; [done|]. simpl. rewrite IH.
  destruct a; try done. simpl. by destruct (CommitFunc t).
Qed.

(** A mock whose last argument is a value of its interface is that value, method
    by method, whatever the arguments before it; a mock without arguments answers
    ErrNotMocked, no rows and no driver type.  A transaction given to NewBeginTxer
    or NewConnection, and a connection given to NewPool, is what is begun or
    acquired unless an earlier argument says otherwise; a pool given to NewPool is
    itself such a connection, so the method Conn it has is never called. *)
Theorem mock_of_value (args : list arg) :
  (forall q, queryer_value (NewQueryer (args ++ [Value (of_queryer q)])) = q) /\
  (forall c, cursor_value (NewCursor (args ++ [Value (of_cursor c)])) = c) /\
  (forall t, txer_value (NewTxer (args ++ [Value (of_txer t)])) = t) /\
  (forall t, BeginTxFunc (NewBeginTxer (args ++ [Value (of_txer t)])) =
     match BeginTxFunc (NewBeginTxer args) with Some f => Some f | None => Some (fun _ _ => ret (Ok t)) end) /\
  (forall c, connection_value (NewConnection (args ++ [Value (of_connection c)])) = c) /\
  (forall p, let mock := NewPool (args ++ [Value (of_pool p)]) in
     p_Connection mock = pool_Connection p /\
     ConnFunc mock = match ConnFunc (NewPool args) with Some f => Some f
       | None => Some (fun _ => ret (Ok (pool_Connection p))) end) /\
  pool_value (NewPool (@nil arg)) =
    {| pool_Connection := {| conn_Queryer := {| q_Exec := fun _ _ _ => ret (Err ErrNotMocked);
           q_QueryOne := fun _ _ _ _ => ret (Some ErrNotMocked); q_QueryMany := fun _ _ _ _ => ret (Some ErrNotMocked);
           q_Cursor := fun _ _ _ => ret {| cur_Close := ret (Some ErrNotMocked); cur_Err := ret (Some ErrNotMocked);
             cur_Next := ret false; cur_Scan := fun _ => ret (Some ErrNotMocked) |};
           q_As := fun _ => ret false |};
         conn_BeginTx := fun _ _ => ret (Err ErrNotMocked); conn_Close := ret (Some ErrNotMocked) |};
       pool_Conn := fun _ => ret (Err ErrNotMocked) |}.
Proof.
  split_and!; [| | | | | |done].
  - intros q. apply queryer_value_of, as_Queryer_of.
  - intros c. unfold NewCursor. rewrite foldl_app. by destruct c.
  - intros [q c r]. unfold txer_value, NewTxer, Commit, Rollback. rewrite foldl_app. simpl.
    rewrite txer_Queryer_foldl. f_equal. by apply queryer_value_of; destruct q.
  - intros [[] c r]. unfold NewBeginTxer. simpl. rewrite foldl_app. simpl. by destruct (foldl begin_arg None args).
  - intros [q b c]. unfold connection_value, NewConnection, Close_connection, BeginTx, NewBeginTxer. simpl.
    rewrite !foldl_app. simpl. rewrite queryer_value_of with (q := q) by (by destruct q).
    by destruct q.
  - intros [[q b c] cf] mock. unfold mock, NewPool. simpl. rewrite foldl_app. simpl.
    split; [|by destruct q; simpl; destruct (foldl conn_arg None args)].
    unfold connection_value, NewConnection, Close_connection, BeginTx, NewBeginTxer. simpl.
    rewrite !foldl_app. simpl. rewrite queryer_value_of with (q := q) by (by destruct q). by destruct q.
Qed.
End Facts.
