(* ===== verification/Drivers.v ===== *)
(** * Drivers: the pools, connections and transactions of src/pgdb/sqladapt and src/pgdb/pgxadapt

    The two adapters as values of the interfaces of pgdb (records of methods, in
    Mockdb): every method on the driver's own handle.  The handles of
    database/sql and pgx, the scany packages, and the writes through the pointers
    given to As and Scan are parameters. *)

From Stdlib Require Import ZArith String Lia.
From S2P Require Import Prelude Errors Pgdb Adapters Mockdb.

(** sql.Result. *)
Record Result := { LastInsertId : res error Z; RowsAffected : res error Z }.

Section Sqladapt.
Context {W Context Any : Type}.
Local Notation TxerI := (@TxerI W Context Any Result).
Local Notation ConnectionI := (@ConnectionI W Context Any Result sqlTxOptions).
Local Notation PoolI := (@PoolI W Context Any Result sqlTxOptions).
Local Notation CursorI := (@CursorI W Any).
Local Open Scope go_scope.

(** ** sqladapt *)

(** sql.Rows without their scanning, sql.Tx, sql.Conn, sql.DB. *)
Record SqlRows := { sr_Close : go W (option error); sr_Err : go W (option error); sr_Next : go W bool }.
Definition SqlQuery : Type := Context -> string -> list Any -> go W (res error SqlRows).
Record SqlTx := {
  st_ExecContext : Context -> string -> list Any -> go W (res error Result);
  st_QueryContext : SqlQuery;
  st_Commit : go W (option error);
  st_Rollback : go W (option error);
}.
Record SqlConn := {
  sc_BeginTx : Context -> option sqlTxOptions -> go W (res error SqlTx);
  sc_Close : go W (option error);
  sc_ExecContext : Context -> string -> list Any -> go W (res error Result);
  sc_QueryContext : SqlQuery;
}.
Record SqlDB := {
  sd_BeginTx : Context -> option sqlTxOptions -> go W (res error SqlTx);
  sd_Close : go W (option error);
  sd_Conn : Context -> go W (res error SqlConn);
  sd_ExecContext : Context -> string -> list Any -> go W (res error Result);
  sd_QueryContext : SqlQuery;
}.

(** sqlscan.Get, Select, ScanRow and NotFound; the pointers to the handles among
    the values of type any, and writing through them. *)
Record SqlScan := {
  sqlscan_Get : Context -> SqlQuery -> Any -> string -> list Any -> go W (option error);
  sqlscan_Select : Context -> SqlQuery -> Any -> string -> list Any -> go W (option error);
  sqlscan_ScanRow : Any -> SqlRows -> go W (option error);
  sqlscan_NotFound : option error -> bool;
  ptr_DB : Any -> option (SqlDB -> go W unit);
  ptr_Conn : Any -> option (SqlConn -> go W unit);
  ptr_Tx : Any -> option (SqlTx -> go W unit);
}.
Context (scan : SqlScan).

Definition not_found : error := FmtError "not found: sql: no rows in result set" ErrNoRows.

Record sql_cursor := { sqlc_rows : option SqlRows; sqlc_initErr : option error }.
Definition sqlcursor_Close (c : sql_cursor) : go W (option error) :=
  match sqlc_rows c with Some rows => sr_Close rows | None => ret None end.
Definition sqlcursor_Err (c : sql_cursor) : go W (option error) :=
  match sqlc_rows c with Some rows => sr_Err rows | None => ret (sqlc_initErr c) end.
Definition sqlcursor_Next (c : sql_cursor) : go W bool :=
  match sqlc_rows c with Some rows => sr_Next rows | None => ret false end.
Definition sqlcursor_Scan (c : sql_cursor) (dst : Any) : go W (option error) :=
  match sqlc_rows c with Some rows => sqlscan_ScanRow scan dst rows | None => ret (sqlc_initErr c) end.
Definition sqlcursor (c : sql_cursor) : CursorI :=
  {| cur_Close := sqlcursor_Close c; cur_Err := sqlcursor_Err c; cur_Next := sqlcursor_Next c;
     cur_Scan := sqlcursor_Scan c |}.

Definition sqltx_As (t : SqlTx) (i : Any) : go W bool :=
  match ptr_Tx scan i with None => ret false | Some p => do! p t in ret true end.
Definition sqltx_Exec (t : SqlTx) (ctx : Context) (stmt : string) (args : list Any) : go W (res error Result) :=
  st_ExecContext t ctx stmt args.
Definition sqltx_QueryOne (t : SqlTx) (ctx : Context) (dst : Any) (stmt : string) (args : list Any)
    : go W (option error) :=
  let! err := sqlscan_Get scan ctx (st_QueryContext t) dst stmt args in
  if sqlscan_NotFound scan err then ret (Some not_found) else ret err.
Definition sqltx_QueryMany (t : SqlTx) (ctx : Context) (dst : Any) (stmt : string) (args : list Any)
    : go W (option error) :=
  sqlscan_Select scan ctx (st_QueryContext t) dst stmt args.
Definition sqltx_Cursor (t : SqlTx) (ctx : Context) (stmt : string) (args : list Any) : go W CursorI :=
  let! r := st_QueryContext t ctx stmt args in
  ret (sqlcursor match r with
    | Ok rows => {| sqlc_rows := Some rows; sqlc_initErr := None |}
    | Err err => {| sqlc_rows := None; sqlc_initErr := Some err |}
    end).
Definition sqltx_Commit (t : SqlTx) (_ : Context) : go W (option error) := st_Commit t.
Definition sqltx_Rollback (t : SqlTx) (_ : Context) : go W (option error) := st_Rollback t.
Definition sqltx (t : SqlTx) : TxerI :=
  {| tx_Queryer := {| q_Exec := sqltx_Exec t; q_QueryOne := sqltx_QueryOne t; q_QueryMany := sqltx_QueryMany t;
                      q_Cursor := sqltx_Cursor t; q_As := sqltx_As t |};
     tx_Commit := sqltx_Commit t; tx_Rollback := sqltx_Rollback t |}.

Definition sqlconn_As (c : SqlConn) (i : Any) : go W bool :=
  match ptr_Conn scan i with None => ret false | Some p => do! p c in ret true end.
Definition sqlconn_BeginTx (c : SqlConn) (ctx : Context) (opts : option sqlTxOptions) : go W (res error TxerI) :=
  let! r := sc_BeginTx c ctx opts in
  match r with Err err => ret (Err err) | Ok t => ret (Ok (sqltx t)) end.
Definition sqlconn_Close (c : SqlConn) : go W (option error) := sc_Close c.
Definition sqlconn_Exec (c : SqlConn) (ctx : Context) (stmt : string) (args : list Any) : go W (res error Result) :=
  sc_ExecContext c ctx stmt args.
Definition sqlconn_QueryOne (c : SqlConn) (ctx : Context) (dst : Any) (stmt : string) (args : list Any)
    : go W (option error) :=
  let! err := sqlscan_Get scan ctx (sc_QueryContext c) dst stmt args in
  if sqlscan_NotFound scan err then ret (Some not_found) else ret err.
Definition sqlconn_QueryMany (c : SqlConn) (ctx : Context) (dst : Any) (stmt : string) (args : list Any)
    : go W (option error) :=
  sqlscan_Select scan ctx (sc_QueryContext c) dst stmt args.
Definition sqlconn_Cursor (c : SqlConn) (ctx : Context) (stmt : string) (args : list Any) : go W CursorI :=
  let! r := sc_QueryContext c ctx stmt args in
  ret (sqlcursor match r with
    | Ok rows => {| sqlc_rows := Some rows; sqlc_initErr := None |}
    | Err err => {| sqlc_rows := None; sqlc_initErr := Some err |}
    end).
Definition sqlconn (c : SqlConn) : ConnectionI :=
  {| conn_Queryer := {| q_Exec := sqlconn_Exec c; q_QueryOne := sqlconn_QueryOne c;
       q_QueryMany := sqlconn_QueryMany c; q_Cursor := sqlconn_Cursor c; q_As := sqlconn_As c |};
     conn_BeginTx := sqlconn_BeginTx c; conn_Close := sqlconn_Close c |}.

Definition sqldb_As (d : SqlDB) (i : Any) : go W bool :=
  match ptr_DB scan i with None => ret false | Some p => do! p d in ret true end.
Definition sqldb_BeginTx (d : SqlDB) (ctx : Context) (opts : option sqlTxOptions) : go W (res error TxerI) :=
  let! r := sd_BeginTx d ctx opts in
  match r with Err err => ret (Err err) | Ok t => ret (Ok (sqltx t)) end.
Definition sqldb_Close (d : SqlDB) : go W (option error) := sd_Close d.
Definition sqldb_Conn (d : SqlDB) (ctx : Context) : go W (res error ConnectionI) :=
  let! r := sd_Conn d ctx in
  match r with Err err => ret (Err err) | Ok c => ret (Ok (sqlconn c)) end.
Definition sqldb_Exec (d : SqlDB) (ctx : Context) (stmt : string) (args : list Any) : go W (res error Result) :=
  sd_ExecContext d ctx stmt args.
Definition sqldb_QueryOne (d : SqlDB) (ctx : Context) (dst : Any) (stmt : string) (args : list Any)
    : go W (option error) :=
  let! err := sqlscan_Get scan ctx (sd_QueryContext d) dst stmt args in
  if sqlscan_NotFound scan err then ret (Some not_found) else ret err.
Definition sqldb_QueryMany (d : SqlDB) (ctx : Context) (dst : Any) (stmt : string) (args : list Any)
    : go W (option error) :=
  sqlscan_Select scan ctx (sd_QueryContext d) dst stmt args.
Definition sqldb_Cursor (d : SqlDB) (ctx : Context) (stmt : string) (args : list Any) : go W CursorI :=
  let! r := sd_QueryContext d ctx stmt args in
  ret (sqlcursor match r with
    | Ok rows => {| sqlc_rows := Some rows; sqlc_initErr := None |}
    | Err err => {| sqlc_rows := None; sqlc_initErr := Some err |}
    end).
Definition sql_ToPool (d : SqlDB) : PoolI :=
  {| pool_Connection := {|
       conn_Queryer := {| q_Exec := sqldb_Exec d; q_QueryOne := sqldb_QueryOne d; q_QueryMany := sqldb_QueryMany d;
         q_Cursor := sqldb_Cursor d; q_As := sqldb_As d |};
       conn_BeginTx := sqldb_BeginTx d; conn_Close := sqldb_Close d |};
     pool_Conn := sqldb_Conn d |}.
End Sqladapt.
Arguments SqlRows : clear implicits.
Arguments SqlTx : clear implicits.
Arguments SqlConn : clear implicits.
Arguments SqlDB : clear implicits.
Arguments SqlScan : clear implicits.

(** ** pgxadapt *)

Section Pgxadapt.
Context {W Context Any CommandTag : Type}.
Local Notation TxerI := (@TxerI W Context Any Result).
Local Notation ConnectionI := (@ConnectionI W Context Any Result sqlTxOptions).
Local Notation PoolI := (@PoolI W Context Any Result sqlTxOptions).
Local Notation CursorI := (@CursorI W Any).
Local Open Scope go_scope.

(** pgx.Rows, pgx.Tx, pgxpool.Conn and pgxpool.Pool; Query returns rows with its
    error. *)
Record PgxRows := { pr_Close : go W unit; pr_Err : go W (option error); pr_Next : go W bool }.
Definition PgxQuery : Type := Context -> string -> list Any -> go W (PgxRows * option error).
Definition PgxExec : Type := Context -> string -> list Any -> go W (res error CommandTag).
Record PgxTx := {
  pt_Exec : PgxExec;
  pt_Query : PgxQuery;
  pt_Commit : Context -> go W (option error);
  pt_Rollback : Context -> go W (option error);
}.
Record PgxConn := {
  pc_BeginTx : Context -> pgxTxOptions -> go W (res error PgxTx);
  pc_Release : go W unit;
  pc_Exec : PgxExec;
  pc_Query : PgxQuery;
}.
Record PgxPool := {
  pp_BeginTx : Context -> pgxTxOptions -> go W (res error PgxTx);
  pp_Close : go W unit;
  pp_Acquire : Context -> go W (res error PgxConn);
  pp_Exec : PgxExec;
  pp_Query : PgxQuery;
}.

(** pgxscan, CommandTag.RowsAffected, and the pointers given to As. *)
Record PgxScan := {
  pgxscan_Get : Context -> PgxQuery -> Any -> string -> list Any -> go W (option error);
  pgxscan_Select : Context -> PgxQuery -> Any -> string -> list Any -> go W (option error);
  pgxscan_ScanRow : Any -> PgxRows -> go W (option error);
  pgxscan_NotFound : option error -> bool;
  tag_RowsAffected : CommandTag -> Z;
  ptr_PgxPool : Any -> option (PgxPool -> go W unit);
  ptr_PgxConn : Any -> option (PgxConn -> go W unit);
  ptr_PgxTx : Any -> option (PgxTx -> go W unit);
}.
Context (scan : PgxScan).

Definition result_LastInsertId (_ : CommandTag) : res error Z :=
  Err (ErrorString "unsupported: use postgres INSERT..RETURNING instead").
Definition result_RowsAffected (r : CommandTag) : res error Z := Ok (tag_RowsAffected scan r).
Definition ToSQLResult (tag : CommandTag) : Result :=
  {| LastInsertId := result_LastInsertId tag; RowsAffected := result_RowsAffected tag |}.

Definition pgxcursor_Close (rows : PgxRows) : go W (option error) := do! pr_Close rows in pr_Err rows.
Definition pgxcursor_Err (rows : PgxRows) : go W (option error) := pr_Err rows.
Definition pgxcursor_Next (rows : PgxRows) : go W bool := pr_Next rows.
Definition pgxcursor_Scan (rows : PgxRows) (dst : Any) : go W (option error) := pgxscan_ScanRow scan dst rows.
Definition pgxcursor (rows : PgxRows) : CursorI :=
  {| cur_Close := pgxcursor_Close rows; cur_Err := pgxcursor_Err rows; cur_Next := pgxcursor_Next rows;
     cur_Scan := pgxcursor_Scan rows |}.

Definition pgxtx_As (t : PgxTx) (i : Any) : go W bool :=
  match ptr_PgxTx scan i with None => ret false | Some p => do! p t in ret true end.
Definition pgxtx_Exec (t : PgxTx) (ctx : Context) (stmt : string) (args : list Any) : go W (res error Result) :=
  let! r := pt_Exec t ctx stmt args in
  match r with Err err => ret (Err err) | Ok tag => ret (Ok (ToSQLResult tag)) end.
Definition pgxtx_QueryOne (t : PgxTx) (ctx : Context) (dst : Any) (stmt : string) (args : list Any)
    : go W (option error) :=
  let! err := pgxscan_Get scan ctx (pt_Query t) dst stmt args in
  if pgxscan_NotFound scan err then ret (Some not_found) else ret err.
Definition pgxtx_QueryMany (t : PgxTx) (ctx : Context) (dst : Any) (stmt : string) (args : list Any)
    : go W (option error) :=
  pgxscan_Select scan ctx (pt_Query t) dst stmt args.
Definition pgxtx_Cursor (t : PgxTx) (ctx : Context) (stmt : string) (args : list Any) : go W CursorI :=
  let! r := pt_Query t ctx stmt args in ret (pgxcursor r.1).
Definition pgxtx_Commit (t : PgxTx) (ctx : Context) : go W (option error) := pt_Commit t ctx.
Definition pgxtx_Rollback (t : PgxTx) (ctx : Context) : go W (option error) := pt_Rollback t ctx.
Definition pgxtx (t : PgxTx) : TxerI :=
  {| tx_Queryer := {| q_Exec := pgxtx_Exec t; q_QueryOne := pgxtx_QueryOne t; q_QueryMany := pgxtx_QueryMany t;
                      q_Cursor := pgxtx_Cursor t; q_As := pgxtx_As t |};
     tx_Commit := pgxtx_Commit t; tx_Rollback := pgxtx_Rollback t |}.

Definition pgxconn_As (c : PgxConn) (i : Any) : go W bool :=
  match ptr_PgxConn scan i with None => ret false | Some p => do! p c in ret true end.
Definition pgxconn_BeginTx (c : PgxConn) (ctx : Context) (opts : option sqlTxOptions) : go W (res error TxerI) :=
  let! r := pc_BeginTx c ctx (ToPgxTxOptions opts) in
  match r with Err err => ret (Err err) | Ok t => ret (Ok (pgxtx t)) end.
Definition pgxconn_Close (c : PgxConn) : go W (option error) := do! pc_Release c in ret None.
Definition pgxconn_Exec (c : PgxConn) (ctx : Context) (stmt : string) (args : list Any) : go W (res error Result) :=
  let! r := pc_Exec c ctx stmt args in
  match r with Err err => ret (Err err) | Ok tag => ret (Ok (ToSQLResult tag)) end.
Definition pgxconn_QueryOne (c : PgxConn) (ctx : Context) (dst : Any) (stmt : string) (args : list Any)
    : go W (option error) :=
  let! err := pgxscan_Get scan ctx (pc_Query c) dst stmt args in
  if pgxscan_NotFound scan err then ret (Some not_found) else ret err.
Definition pgxconn_QueryMany (c : PgxConn) (ctx : Context) (dst : Any) (stmt : string) (args : list Any)
    : go W (option error) :=
  pgxscan_Select scan ctx (pc_Query c) dst stmt args.
Definition pgxconn_Cursor (c : PgxConn) (ctx : Context) (stmt : string) (args : list Any) : go W CursorI :=
  let! r := pc_Query c ctx stmt args in ret (pgxcursor r.1).
Definition pgxconn (c : PgxConn) : ConnectionI :=
  {| conn_Queryer := {| q_Exec := pgxconn_Exec c; q_QueryOne := pgxconn_QueryOne c;
       q_QueryMany := pgxconn_QueryMany c; q_Cursor := pgxconn_Cursor c; q_As := pgxconn_As c |};
     conn_BeginTx := pgxconn_BeginTx c; conn_Close := pgxconn_Close c |}.

Definition pgxdb_As (d : PgxPool) (i : Any) : go W bool :=
  match ptr_PgxPool scan i with None => ret false | Some p => do! p d in ret true end.
Definition pgxdb_BeginTx (d : PgxPool) (ctx : Context) (opts : option sqlTxOptions) : go W (res error TxerI) :=
  let! r := pp_BeginTx d ctx (ToPgxTxOptions opts) in
  match r with Err err => ret (Err err) | Ok t => ret (Ok (pgxtx t)) end.
Definition pgxdb_Close (d : PgxPool) : go W (option error) := do! pp_Close d in ret None.
Definition pgxdb_Conn (d : PgxPool) (ctx : Context) : go W (res error ConnectionI) :=
  let! r := pp_Acquire d ctx in
  match r with Err err => ret (Err err) | Ok c => ret (Ok (pgxconn c)) end.
Definition pgxdb_Exec (d : PgxPool) (ctx : Context) (stmt : string) (args : list Any) : go W (res error Result) :=
  let! r := pp_Exec d ctx stmt args in
  match r with Err err => ret (Err err) | Ok tag => ret (Ok (ToSQLResult tag)) end.
Definition pgxdb_QueryOne (d : PgxPool) (ctx : Context) (dst : Any) (stmt : string) (args : list Any)
    : go W (option error) :=
  let! err := pgxscan_Get scan ctx (pp_Query d) dst stmt args in
  if pgxscan_NotFound scan err then ret (Some not_found) else ret err.
Definition pgxdb_QueryMany (d : PgxPool) (ctx : Context) (dst : Any) (stmt : string) (args : list Any)
    : go W (option error) :=
  pgxscan_Select scan ctx (pp_Query d) dst stmt args.
Definition pgxdb_Cursor (d : PgxPool) (ctx : Context) (stmt : string) (args : list Any) : go W CursorI :=
  let! r := pp_Query d ctx stmt args in ret (pgxcursor r.1).
Definition pgx_ToPool (d : PgxPool) : PoolI :=
  {| pool_Connection := {|
       conn_Queryer := {| q_Exec := pgxdb_Exec d; q_QueryOne := pgxdb_QueryOne d; q_QueryMany := pgxdb_QueryMany d;
         q_Cursor := pgxdb_Cursor d; q_As := pgxdb_As d |};
       conn_BeginTx := pgxdb_BeginTx d; conn_Close := pgxdb_Close d |};
     pool_Conn := pgxdb_Conn d |}.
End Pgxadapt.
Arguments PgxRows : clear implicits.
Arguments PgxTx : clear implicits.
Arguments PgxConn : clear implicits.
Arguments PgxPool : clear implicits.
Arguments PgxScan : clear implicits.

(** ** The two adapters on drivers that answer alike *)

Section Agree.
Context {W Context Any CommandTag : Type}.
Context (ss : SqlScan W Context Any) (ps : PgxScan W Context Any CommandTag).
Local Notation CursorI := (@CursorI W Any).
Local Open Scope go_scope.

(** Two calls with the same effect, whose results are related. *)
Definition matches {A B} (rel : A -> B -> Prop) (m : go W A) (m' : go W B) : Prop := forall w,
  match m w, m' w with
  | (Ret a, w1), (Ret b, w2) => rel a b /\ w1 = w2
  | (Panicked v, w1), (Panicked v', w2) => v = v' /\ w1 = w2
  | _, _ => False
  end.

Lemma matches_bind {A A' B B'} (r1 : A -> A' -> Prop) (r2 : B -> B' -> Prop) m m' k k' :
  matches r1 m m' -> (forall a a', r1 a a' -> matches r2 (k a) (k' a')) -> matches r2 (bind m k) (bind m' k').
Proof.
  intros Hm Hk w. unfold bind. specialize (Hm w). destruct (m w) as [[a|v] w1], (m' w) as [[a'|v'] w2]; try done.
  destruct Hm as [Hr ->]. apply (Hk a a' Hr w2).
Qed.

Lemma matches_ret {A B} (rel : A -> B -> Prop) a b : rel a b -> matches rel (ret a) (ret b).
Proof. by intros H w. Qed.

(** Results of the database/sql methods and of the methods of pgx. *)
Definition res_rel {A B} (rel : A -> B -> Prop) (r : res error A) (r' : res error B) : Prop :=
  match r, r' with Ok a, Ok b => rel a b | Err e, Err e' => e = e' | _, _ => False end.

(** An error that neither scany package takes for the lack of a row, as those of
    a query and of its rows are not. *)
Definition plain (e : option error) : Prop := sqlscan_NotFound ss e = false /\ pgxscan_NotFound ps e = false.
Definition same_error (e e' : option error) : Prop := e = e' /\ plain e.

(** The rows of the two drivers with the same content.  Close has the same effect
    on both; what sql.Rows.Close returns is its own business, it need not be what
    Err reports, and pgx.Rows.Close returns nothing. *)
Record alike_rows (r : SqlRows W) (r' : PgxRows W) : Prop := {
  al_Err : matches same_error (sr_Err r) (pr_Err r');
  al_Next : matches eq (sr_Next r) (pr_Next r');
  al_Close : matches (fun _ _ => True) (sr_Close r) (pr_Close r');
}.

(** The rows that pgx returns with an error: closed, and with that error. *)
Record failed_rows (e : error) (r : PgxRows W) : Prop := {
  fr_Err : pr_Err r = ret (Some e);
  fr_Next : pr_Next r = ret false;
  fr_Close : pr_Close r = ret tt;
}.

(** Queries of the two drivers that answer alike: with the same rows, or with the
    same error. *)
Definition alike_queries (q : @SqlQuery W Context Any) (q' : @PgxQuery W Context Any) : Prop := forall ctx stmt args,
  matches (fun r r' => match r, r' with
    | Ok rows, (rows', None) => alike_rows rows rows'
    | Err e, (rows', Some e') => e = e' /\ plain (Some e) /\ failed_rows e rows'
    | _, _ => False
    end) (q ctx stmt args) (q' ctx stmt args : go W (PgxRows W * option error)).

(** The errors of a query for one row, which each scany package recognises when
    there is none. *)
Definition one_rel (e e' : option error) : Prop :=
  (sqlscan_NotFound ss e = true /\ pgxscan_NotFound ps e' = true) \/ same_error e e'.

(** The two scany packages, on the same core: on queries, or rows, that answer
    alike they do the same. *)
Class AlikeScan := {
  alike_get q q' ctx dst stmt args : alike_queries q q' ->
    matches one_rel (sqlscan_Get ss ctx q dst stmt args) (pgxscan_Get ps ctx q' dst stmt args);
  alike_select q q' ctx dst stmt args : alike_queries q q' ->
    matches eq (sqlscan_Select ss ctx q dst stmt args) (pgxscan_Select ps ctx q' dst stmt args);
  alike_scan_row r r' dst : alike_rows r r' ->
    matches eq (sqlscan_ScanRow ss dst r) (pgxscan_ScanRow ps dst r');
}.

(** Transactions of the two drivers with the same answers. *)
Class AlikeTx (s : SqlTx W Context Any) (p : PgxTx W Context Any CommandTag) := {
  alike_exec ctx stmt args :
    matches (res_rel (fun r tag => RowsAffected r = Ok (tag_RowsAffected ps tag)))
      (st_ExecContext s ctx stmt args) (pt_Exec p ctx stmt args);
  alike_query : alike_queries (st_QueryContext s) (pt_Query p);
}.

Context {SC : AlikeScan}.

(** The documented use of a cursor: Next and Scan until there is no row or Scan
    fails, and then Err. *)
Fixpoint read_rows (fuel : nat) (c : CursorI) (dst : Any) : go W (option (option error)) :=
  match fuel with
  | O => ret None
  | S fuel =>
      let! more := cur_Next c in
      if more : bool then
        let! err := cur_Scan c dst in
        match err with Some err => ret (Some (Some err)) | None => read_rows fuel c dst end
      else let! err := cur_Err c in ret (Some err)
  end.

Lemma alike_read fuel rows rows' dst : alike_rows rows rows' ->
  matches eq (read_rows fuel (sqlcursor ss {| sqlc_rows := Some rows; sqlc_initErr := None |}) dst)
    (read_rows fuel (pgxcursor ps rows') dst).
Proof.
  intros Hr. induction fuel as [|fuel IH]; [by apply matches_ret|]. simpl.
  apply (matches_bind eq); [apply Hr|]. intros more ? <-. destruct more.
  - apply (matches_bind eq); [by apply alike_scan_row|]. intros err ? <-. destruct err; [by apply matches_ret|apply IH].
  - apply (matches_bind same_error); [apply Hr|]. intros err ? [<- _]. by apply matches_ret.
Qed.

Lemma matches_eq {A} (m : go W A) : matches eq m m.
Proof. intros w. by destruct (m w) as [[a|v] w']. Qed.

(** Closing the rows, and then what each library reports. *)
Lemma alike_close rows rows' : alike_rows rows rows' ->
  matches eq (let! _ := sr_Close rows in sr_Err rows) (pgxcursor_Close rows').
Proof.
  intros Hr. apply (matches_bind (fun _ _ => True)); [apply Hr|]. intros _ _ _ w.
  pose proof (al_Err _ _ Hr w) as Herr.
  destruct (sr_Err rows w) as [[e|v] w1], (pr_Err rows' w) as [[e'|v'] w2]; try done.
  by destruct Herr as [[-> _] ->].
Qed.

(** The cursors of one query: of its rows, or of its error. *)
Definition row_cursor (rows : SqlRows W) : CursorI := sqlcursor ss {| sqlc_rows := Some rows; sqlc_initErr := None |}.
Definition failed_cursor (e : error) : CursorI := sqlcursor ss {| sqlc_rows := None; sqlc_initErr := Some e |}.
Definition cursors_rel (c c' : CursorI) : Prop :=
  (exists rows rows', c = row_cursor rows /\ c' = pgxcursor ps rows' /\ alike_rows rows rows') \/
  (exists e rows', c = failed_cursor e /\ c' = pgxcursor ps rows' /\ failed_rows e rows').

Lemma cursors_alike s p `{!AlikeTx s p} ctx stmt args :
  matches cursors_rel (sqltx_Cursor ss s ctx stmt args) (pgxtx_Cursor ps p ctx stmt args).
Proof.
  eapply matches_bind; [apply (alike_query ctx stmt args)|].
  intros [rows|e] [rows' [e'|]]; try done.
  - intros Hr. apply matches_ret. left. by exists rows, rows'.
  - intros (<- & _ & Hf). apply matches_ret. right. by exists e, rows'.
Qed.

(** What the cursor of a failed query answers: no row, the error of the query,
    and [closed] for Close, nothing of it with an effect. *)
Definition answers_failed (c : CursorI) (e : error) (closed : option error) : Prop := forall w,
  cur_Next c w = (Ret false, w) /\ cur_Err c w = (Ret (Some e), w) /\ cur_Close c w = (Ret closed, w).

Lemma failed_answers e rows' : failed_rows e rows' ->
  answers_failed (failed_cursor e) e None /\ answers_failed (pgxcursor ps rows') e (Some e).
Proof.
  intros [He Hn Hc]. split; intros w; [done|]. unfold pgxcursor, pgxcursor_Next, pgxcursor_Err, pgxcursor_Close.
  simpl. by rewrite Hn, He, Hc.
Qed.

(** The two cursors for what the query of sqladapt returned. *)
Lemma cursors_of s p `{!AlikeTx s p} ctx stmt args w :
  match st_QueryContext s ctx stmt args w with
  | (Ret (Ok rows), w1) => exists rows', alike_rows rows rows' /\
      sqltx_Cursor ss s ctx stmt args w = (Ret (row_cursor rows), w1) /\
      pgxtx_Cursor ps p ctx stmt args w = (Ret (pgxcursor ps rows'), w1)
  | (Ret (Err e), w1) => exists rows', failed_rows e rows' /\
      sqltx_Cursor ss s ctx stmt args w = (Ret (failed_cursor e), w1) /\
      pgxtx_Cursor ps p ctx stmt args w = (Ret (pgxcursor ps rows'), w1)
  | (Panicked v, w1) => sqltx_Cursor ss s ctx stmt args w = (Panicked v, w1) /\
      pgxtx_Cursor ps p ctx stmt args w = (Panicked v, w1)
  end.
Proof.
  pose proof (alike_query (s := s) (p := p) ctx stmt args w) as Hq. unfold sqltx_Cursor, pgxtx_Cursor, bind.
  destruct (st_QueryContext s ctx stmt args w) as [[[rows|e]|v] w1],
    (pt_Query p ctx stmt args w) as [[[rows' [e'|]]|v'] w2]; simpl in Hq; try done; try (by destruct Hq).
  - destruct Hq as [Hr ->]. by exists rows'.
  - destruct Hq as [(-> & _ & Hf) ->]. by exists rows'.
  - by destruct Hq as [-> ->].
Qed.

(** C34. On transactions of database/sql and of pgx whose queries and statements
    answer alike, sqladapt and pgxadapt agree.  Exec returns the same number of
    rows or the same error (and no last id with pgx).  QueryOne and QueryMany
    scan the same and return the same error, which wraps sql.ErrNoRows when
    there is no row, whatever each library calls that.  Reading a cursor gives
    the same rows and the same final error.  Close is where they differ: when
    the query failed, both cursors have no row and report its error, and Close
    is nil in sqladapt and that error in pgxadapt; when it succeeded, Close
    returns in sqladapt what rows.Close returns, and in pgxadapt what Err
    reports after the rows are closed. *)
Theorem adapters_agree s p `{!AlikeTx s p} ctx dst stmt args fuel :
  matches (res_rel (fun r r' => RowsAffected r = RowsAffected r' /\
      LastInsertId r' = Err (ErrorString "unsupported: use postgres INSERT..RETURNING instead")))
    (sqltx_Exec s ctx stmt args) (pgxtx_Exec ps p ctx stmt args) /\
  matches (fun e e' => e = e' /\ (e = Some not_found \/ plain e))
    (sqltx_QueryOne ss s ctx dst stmt args) (pgxtx_QueryOne ps p ctx dst stmt args) /\
  matches eq (sqltx_QueryMany ss s ctx dst stmt args) (pgxtx_QueryMany ps p ctx dst stmt args) /\
  matches eq (let! c := sqltx_Cursor ss s ctx stmt args in read_rows fuel c dst)
    (let! c := pgxtx_Cursor ps p ctx stmt args in read_rows fuel c dst) /\
  forall w, match st_QueryContext s ctx stmt args w with
  | (Ret (Ok rows), w1) => exists c c',
      sqltx_Cursor ss s ctx stmt args w = (Ret c, w1) /\ pgxtx_Cursor ps p ctx stmt args w = (Ret c', w1) /\
      cur_Close c = sr_Close rows /\ matches eq (let! _ := cur_Close c in cur_Err c) (cur_Close c')
  | (Ret (Err e), w1) => exists c c',
      sqltx_Cursor ss s ctx stmt args w = (Ret c, w1) /\ pgxtx_Cursor ps p ctx stmt args w = (Ret c', w1) /\
      answers_failed c e None /\ answers_failed c' e (Some e)
  | (Panicked v, w1) =>
      sqltx_Cursor ss s ctx stmt args w = (Panicked v, w1) /\ pgxtx_Cursor ps p ctx stmt args w = (Panicked v, w1)
  end.
Proof.
  split_and!.
  - intros w. pose proof (alike_exec (s := s) (p := p) ctx stmt args w) as H.
    unfold sqltx_Exec, pgxtx_Exec, bind.
    destruct (st_ExecContext s ctx stmt args w) as [[[r|e]|v] w1], (pt_Exec p ctx stmt args w) as [[[tag|e']|v'] w2];
      simpl in *; naive_solver.
  - eapply matches_bind; [by apply alike_get, alike_query|].
    intros e e' [[-> ->]|(<- & Hs & Hp)]; [apply matches_ret; by split; [|left]|].
    rewrite Hs, Hp. apply matches_ret. split; [done|]. by right.
  - by apply alike_select, alike_query.
  - apply (matches_bind cursors_rel); [by apply cursors_alike|]. intros c c' [(rows & rows' & -> & -> & Hr)|(e & rows' & -> & -> & Hf)].
    + by apply alike_read.
    + destruct Hf as [He Hn _]. destruct fuel as [|fuel]; simpl; [by apply matches_ret|].
      unfold pgxcursor_Next, pgxcursor_Err. rewrite Hn, He. done.
  - intros w. pose proof (cursors_of s p ctx stmt args w) as H.
    destruct (st_QueryContext s ctx stmt args w) as [[[rows|e]|v] w1]; [..|done].
    + destruct H as (rows' & Hr & -> & ->). eexists _, _. split_and!; [done..|]. by apply alike_close.
    + destruct H as (rows' & Hf & -> & ->). eexists _, _. split; [done|]. split; [done|]. by apply failed_answers.
Qed.
End Agree.

(** ** A server with two drivers

    The empty statement fails, the query "none" has no row, "broken" fails while
    it is read, another one has two rows; the world is the rows left to read. *)

Definition ex_syntax : error := ErrorString "syntax error".
Definition ex_broken : error := ErrorString "connection reset".
Definition ex_NoRows : error := Sentinel "no rows in result set".
Definition ex_next : go (list nat) bool := fun w => match w with [] => (Ret false, []) | _ :: l => (Ret true, l) end.
Definition ex_err (stmt : string) : option error := if String.eqb stmt "broken" then Some ex_broken else None.
Definition ex_answer (stmt : string) : list nat :=
  if String.eqb stmt "none" || String.eqb stmt "broken" then [] else [1%nat; 2%nat].
Definition ex_rows (stmt : string) : SqlRows (list nat) :=
  {| sr_Close := ret None; sr_Err := ret (ex_err stmt); sr_Next := ex_next |}.
Definition ex_pgx_rows (stmt : string) : PgxRows (list nat) :=
  {| pr_Close := ret tt; pr_Err := ret (ex_err stmt); pr_Next := ex_next |}.
Definition ex_pgx_failed : PgxRows (list nat) :=
  {| pr_Close := ret tt; pr_Err := ret (Some ex_syntax); pr_Next := ret false |}.

Definition ex_sql_tx : SqlTx (list nat) unit unit := {|
  st_ExecContext := fun _ stmt _ => ret (if String.eqb stmt "" then Err ex_syntax
    else Ok {| LastInsertId := Err (ErrorString "not supported"); RowsAffected := Ok 1 |});
  st_QueryContext := fun _ stmt _ => if String.eqb stmt "" then ret (Err ex_syntax)
    else fun _ => (Ret (Ok (ex_rows stmt)), ex_answer stmt);
  st_Commit := ret None; st_Rollback := ret None |}.
Definition ex_pgx_tx : PgxTx (list nat) unit unit Z := {|
  pt_Exec := fun _ stmt _ => ret (if String.eqb stmt "" then Err ex_syntax else Ok 1);
  pt_Query := fun _ stmt _ => if String.eqb stmt "" then ret (ex_pgx_failed, Some ex_syntax)
    else fun _ => (Ret (ex_pgx_rows stmt, None), ex_answer stmt);
  pt_Commit := fun _ => ret None; pt_Rollback := fun _ => ret None |}.

(** One row, or all of them counted: a query, its rows, its error, Close. *)
Definition ex_is (none : error) (e : option error) : bool :=
  match e, none with Some (Sentinel m), Sentinel m' => String.eqb m m' | _, _ => false end.
Definition ex_one (none : error) (more : bool) (err : option error) : option error :=
  match err with Some e => Some e | None => if more then None else Some none end.
Definition ex_sql_get (_ : unit) (q : @SqlQuery (list nat) unit unit) (_ : unit) (stmt : string) (args : list unit)
    : go (list nat) (option error) :=
  bind (q tt stmt args) (fun r => match r with
  | Err e => ret (Some e)
  | Ok rows => bind (sr_Next rows) (fun more => bind (sr_Err rows) (fun err =>
      bind (sr_Close rows) (fun _ => ret (ex_one ErrNoRows more err))))
  end).
Definition ex_pgx_get (_ : unit) (q : @PgxQuery (list nat) unit unit) (_ : unit) (stmt : string) (args : list unit)
    : go (list nat) (option error) :=
  bind (q tt stmt args) (fun r => match r with
  | (_, Some e) => ret (Some e)
  | (rows, None) => bind (pr_Next rows) (fun more => bind (pr_Err rows) (fun err =>
      bind (pr_Close rows) (fun _ => ret (ex_one ex_NoRows more err))))
  end).
Definition ex_sql_scan : SqlScan (list nat) unit unit := {|
  sqlscan_Get := ex_sql_get; sqlscan_Select := fun _ _ _ _ _ => ret None;
  sqlscan_ScanRow := fun _ rows => sr_Err rows; sqlscan_NotFound := ex_is ErrNoRows;
  ptr_DB := fun _ => None; ptr_Conn := fun _ => None; ptr_Tx := fun _ => None |}.
Definition ex_pgx_scan : PgxScan (list nat) unit unit Z := {|
  pgxscan_Get := ex_pgx_get; pgxscan_Select := fun _ _ _ _ _ => ret None;
  pgxscan_ScanRow := fun _ rows => pr_Err rows; pgxscan_NotFound := ex_is ex_NoRows; tag_RowsAffected := id;
  ptr_PgxPool := fun _ => None; ptr_PgxConn := fun _ => None; ptr_PgxTx := fun _ => None |}.

#[local] Instance ex_alike_scan : AlikeScan ex_sql_scan ex_pgx_scan.
Proof.
  split.
  - intros q q' ctx dst stmt args Hq. unfold sqlscan_Get, pgxscan_Get, ex_sql_scan, ex_pgx_scan, ex_sql_get, ex_pgx_get.
    eapply matches_bind; [apply Hq|]. intros [rows|e] [rows' [e'|]]; try done.
    + intros Hr. apply (matches_bind eq); [apply Hr|]. intros more ? <-.
      apply (matches_bind (same_error ex_sql_scan ex_pgx_scan)); [apply Hr|]. intros err ? [<- Hp].
      apply (matches_bind (fun _ _ => True)); [apply Hr|]. intros _ _ _. apply matches_ret.
      destruct err as [e|]; [by right|]. destruct more; [by right|by left].
    + intros (<- & Hp & _). apply matches_ret. by right.
  - intros *. by apply matches_ret.
  - intros r r' dst [He _ _] w. specialize (He w). simpl.
    destruct (sr_Err r w) as [[e|v] w1], (pr_Err r' w) as [[e'|v'] w2]; try done. by destruct He as [[-> _] ->].
Qed.

#[local] Instance ex_alike : AlikeTx ex_sql_scan ex_pgx_scan ex_sql_tx ex_pgx_tx.
Proof.
  assert (Hnext : matches eq ex_next ex_next) by apply matches_eq.
  split; simpl.
  - intros _ stmt _. apply matches_ret. by destruct (String.eqb stmt "").
  - intros _ stmt _. simpl. destruct (String.eqb stmt ""); [by apply matches_ret; split_and!|].
    intros w. split; [|done]. split; simpl; [|done|by apply matches_ret]. apply matches_ret.
    split; [done|]. unfold ex_err. by destruct (String.eqb stmt "broken").
Qed.

(** No row for QueryOne; a query that fails while it is read, whose error Close
    returns in pgxadapt only. *)
Example adapters_agree_witness :
  sqltx_QueryOne ex_sql_scan ex_sql_tx tt tt "none" [] [] = (Ret (Some not_found), []) /\
  pgxtx_QueryOne ex_pgx_scan ex_pgx_tx tt tt "none" [] [] = (Ret (Some not_found), []) /\
  exists c c', sqltx_Cursor ex_sql_scan ex_sql_tx tt "broken" [] [] = (Ret c, []) /\
    pgxtx_Cursor ex_pgx_scan ex_pgx_tx tt "broken" [] [] = (Ret c', []) /\
    cur_Close c = ret None /\ cur_Close c' [] = (Ret (Some ex_broken), []).
Proof.
  pose proof (adapters_agree ex_sql_scan ex_pgx_scan ex_sql_tx ex_pgx_tx tt tt "none" [] 3) as (_ & H1 & _).
  pose proof (adapters_agree ex_sql_scan ex_pgx_scan ex_sql_tx ex_pgx_tx tt tt "broken" [] 3) as (_ & _ & _ & _ & H2).
  split; [reflexivity|]. split; [exact (eq_sym (f_equal (fun e => (Ret e, [])) (proj1 (proj1 (H1 [])))))|].
  specialize (H2 []). simpl in H2. destruct H2 as (c & c' & Hc & Hc' & Hcl & H).
  exists c, c'. split_and!; [exact Hc|exact Hc'|exact Hcl|].
  injection Hc as <-. injection Hc' as <-. reflexivity.
Defined.
