(* ===== verification/Accept.v ===== *)
(** * Accept: content negotiation (src/server/middleware/gddo_header.go and
    src/server/middleware/gddo_negotiate.go)

    The octet table, the parser of Accept headers with Go's wrapping integers
    and binary64 arithmetic for the quality value, and the choice of the best
    offer. *)

From Stdlib Require Import ZArith Ascii String Lia.
From Stdlib Require Import Floats.SpecFloat.
From S2P Require Import Prelude.

(** ** binary64

    Go's float64: the IEEE operations of [SpecFloat] at precision 53. *)

Definition f64_of_int (n : Z) : spec_float := binary_normalize 53 1024 n 0 false.
Definition f64_add : spec_float -> spec_float -> spec_float := SFadd 53 1024.
Definition f64_div : spec_float -> spec_float -> spec_float := SFdiv 53 1024.
Definition is_nan (x : spec_float) : bool :=
  match x with S754_nan => true | _ => false end.

(** ** Octets *)

Definition isToken : Z := 1.
Definition isSpace : Z := 2.

(** strings.ContainsRune on an ASCII string: a rune above 127 is encoded in
    several bytes, so no ASCII string holds it. *)
Definition contains_rune (s : string) (r : Z) : bool :=
  (0 <=? r) && (r <=? 127) && contains_byte (ascii_of_N (Z.to_N r)) s.

Definition separators : string :=
  String " " (String "009" (String "034" "(),/:;<=>?@[]\{}")).
Definition spaces : string :=
  String " " (String "009" (String "013" (String "010" EmptyString))).

(** octetTypes[c], as init fills it. *)
Definition octetType (c : Z) : Z :=
  let t := 0 in
  let isCtl := (c <=? 31) || (c =? 127) in
  let isChar := (0 <=? c) && (c <=? 127) in
  let isSeparator := contains_rune separators c in
  let t := if contains_rune spaces c then Z.lor t isSpace else t in
  if isChar && negb isCtl && negb isSeparator then Z.lor t isToken else t.

Definition octetTypes (b : ascii) : Z := octetType (byte_val b).

Fixpoint skipSpace (s : string) : string :=
  match s with
  | EmptyString => s
  | String b s' => if Z.land (octetTypes b) isSpace =? 0 then s else skipSpace s'
  end.

(** (token, rest) *)
Fixpoint expectTokenSlash (s : string) : string * string :=
  match s with
  | EmptyString => (EmptyString, s)
  | String b s' =>
      if (Z.land (octetTypes b) isToken =? 0) && negb (Ascii.eqb b "/")
      then (EmptyString, s)
      else let '(token, rest) := expectTokenSlash s' in (String b token, rest)
  end.

(** The loop over the decimals, with n and d Go ints. *)
Fixpoint decimals (n d : Z) (s : string) : Z * Z * string :=
  match s with
  | EmptyString => (n, d, s)
  | String b s' =>
      if (byte_val b <? 48) || (57 <? byte_val b) then (n, d, s)
      else decimals (i64 (i64 (i64 (n * 10) + byte_val b) - 48)) (i64 (d * 10)) s'
  end.

Definition minus_one : spec_float := f64_of_int (-1).

Definition expectQuality (s : string) : spec_float * string :=
  match s with
  | EmptyString => (minus_one, EmptyString)
  | String b s1 =>
      if Ascii.eqb b "0" || Ascii.eqb b "1" then
        let q := f64_of_int (if Ascii.eqb b "0" then 0 else 1) in
        if negb (has_prefix "." s1) then (q, s1)
        else let '(n, d, rest) := decimals 0 1 (drop_str 1 s1) in
             (f64_add q (f64_div (f64_of_int n) (f64_of_int d)), rest)
      else (minus_one, EmptyString)
  end.

(** ** Accept headers *)

Record acceptSpec := { Value : string; Q : spec_float }.

(** The optional quality after a media range: [None] when the code gives up on
    the header value. *)
Definition parse_quality (s : string) : option (spec_float * string) :=
  if has_prefix ";" s then
    let s := skipSpace (drop_str 1 s) in
    if negb (has_prefix "q=" s) then None
    else let '(q, s) := expectQuality (drop_str 2 s) in
         if SFltb q (S754_zero false) then None else Some (q, s)
  else Some (f64_of_int 1, s).

(** The inner loop of parseAccept on one header value; [None] when the fuel
    runs out, which [parse_value_fuel] excludes for the fuel used below. *)
Fixpoint parse_value (fuel : nat) (s : string) (specs : list acceptSpec)
    : option (list acceptSpec) :=
  match fuel with
  | O => None
  | S f =>
      let '(value, s) := expectTokenSlash s in
      if String.eqb value EmptyString then Some specs else
      match parse_quality (skipSpace s) with
      | None => Some specs
      | Some (q, s) =>
          let specs := specs ++ [{| Value := value; Q := q |}] in
          let s := skipSpace s in
          if negb (has_prefix "," s) then Some specs
          else parse_value f (skipSpace (drop_str 1 s)) specs
      end
  end.

(** parseAccept, on the values of the header. *)
Definition parseAccept (values : list string) : option (list acceptSpec) :=
  foldl (fun acc s => acc ≫= parse_value (S (String.length s)) s) (Some []) values.

(** ** Negotiation *)

Record best := { bestOffer : string; bestQ : spec_float; bestWild : Z }.

(** The body of the two loops: one offer against one spec. *)
Definition consider (offer : string) (b : best) (spec : acceptSpec) : best :=
  let take w := {| bestOffer := offer; bestQ := Q spec; bestWild := w |} in
  if SFeqb (Q spec) (S754_zero false) then b
  else if SFltb (Q spec) (bestQ b) then b
  else if String.eqb (Value spec) "*/*" then
    if SFltb (bestQ b) (Q spec) || (2 <? bestWild b) then take 2 else b
  else if has_suffix "/*" (Value spec) then
    if has_prefix (take_str (String.length (Value spec) - 1) (Value spec)) offer &&
       (SFltb (bestQ b) (Q spec) || (1 <? bestWild b)) then take 1 else b
  else
    if String.eqb (Value spec) offer &&
       (SFltb (bestQ b) (Q spec) || (0 <? bestWild b)) then take 0 else b.

Definition negotiate (specs : list acceptSpec) (offers : list string) (defaultOffer : string) : string :=
  bestOffer (foldl (fun b offer => foldl (consider offer) b specs)
    {| bestOffer := defaultOffer; bestQ := minus_one; bestWild := 3 |} offers).

Definition negotiateContentType (accept : list string) (offers : list string)
    (defaultOffer : string) : option string :=
  specs ← parseAccept accept; Some (negotiate specs offers defaultOffer).

(** ** The parser terminates *)

Lemma skipSpace_length s : (String.length (skipSpace s) <= String.length s)%nat.
Proof. induction s as [|b s IH]; simpl; [lia|]. case_goal; simpl; lia. Qed.

Lemma expectTokenSlash_app s :
  fst (expectTokenSlash s) +:+ snd (expectTokenSlash s) = s.
Proof.
  induction s as [|b s IH]; [done|]. simpl. case_goal; [done|].
  destruct (expectTokenSlash s) as [t r]. simpl in *. now rewrite str_app_cons, IH.
Qed.

Lemma decimals_length n d s n' d' r :
  decimals n d s = (n', d', r) -> (String.length r <= String.length s)%nat.
Proof.
  revert n d. induction s as [|b s IH]; intros n d; simpl; [now intros [= _ _ <-]|].
  case_goal; [now intros [= _ _ <-]|]. intros H. apply IH in H. lia.
Qed.

Lemma expectQuality_length s q r :
  expectQuality s = (q, r) -> (String.length r <= String.length s)%nat.
Proof.
  unfold expectQuality. destruct s as [|b s]; [by injection 1 as _ <-|].
  destruct (_ || _); [|injection 1 as _ <-; simpl; lia].
  destruct (negb _); [injection 1 as _ <-; simpl; lia|].
  destruct (decimals 0 1 _) as [[n d] r'] eqn:E. injection 1 as _ <-.
  apply decimals_length in E. pose proof (drop_str_length 1 s). simpl in *. lia.
Qed.

Lemma parse_quality_length s q r :
  parse_quality s = Some (q, r) -> (String.length r <= String.length s)%nat.
Proof.
  unfold parse_quality. destruct (has_prefix ";" s); [|injection 1 as _ <-; lia].
  destruct (negb _); [done|]. destruct (expectQuality _) as [x s'] eqn:E.
  apply expectQuality_length in E. destruct (SFltb _ _); [done|]. injection 1 as _ <-.
  pose proof (drop_str_length 2 (skipSpace (drop_str 1 s))).
  pose proof (skipSpace_length (drop_str 1 s)). pose proof (drop_str_length 1 s). lia.
Qed.

Lemma parse_value_fuel fuel s specs :
  (String.length s < fuel)%nat -> is_Some (parse_value fuel s specs).
Proof.
  revert s specs. induction fuel as [|f IH]; intros s specs Hf; [lia|]. simpl.
  pose proof (expectTokenSlash_app s) as Ha.
  destruct (expectTokenSlash s) as [value r]. simpl in Ha.
  destruct (String.eqb_spec value EmptyString) as [_|Hv]; [done|].
  destruct (parse_quality (skipSpace r)) as [[q s']|] eqn:Eq; [|done].
  apply parse_quality_length in Eq.
  destruct (negb _); [done|]. apply IH.
  rewrite <- Ha, length_app_str in Hf. destruct value as [|c value]; [done|].
  pose proof (skipSpace_length (drop_str 1 (skipSpace s'))).
  pose proof (drop_str_length 1 (skipSpace s')). pose proof (skipSpace_length s').
  pose proof (skipSpace_length r). simpl in Hf. lia.
Qed.

(** The specs found on a value are appended to those of the values before. *)
Lemma parse_value_acc fuel s specs r :
  parse_value fuel s specs = Some r -> exists r', r = specs ++ r'.
Proof.
  revert s specs. induction fuel as [|f IH]; intros s specs; simpl; [done|].
  destruct (expectTokenSlash s) as [value s1].
  destruct (String.eqb _ _); [intros [= <-]; exists []; by rewrite app_nil_r|].
  destruct (parse_quality _) as [[q s2]|]; [|intros [= <-]; exists []; by rewrite app_nil_r].
  destruct (negb _); [intros [= <-]; eauto|]. intros H. apply IH in H as (r' & ->).
  eexists. by rewrite <- app_assoc.
Qed.

(** ** The order of quality values

    On the values that are not NaN the comparison is the lexicographic order
    of a key, hence total. *)

Definition fkey (x : spec_float) : Z * Z * Z :=
  match x with
  | S754_infinity true => (-2, 0, 0)
  | S754_finite true m e => (-1, - e, - Zpos m)
  | S754_zero _ | S754_nan => (0, 0, 0)
  | S754_finite false m e => (1, e, Zpos m)
  | S754_infinity false => (2, 0, 0)
  end.

Definition lex3 (x y : Z * Z * Z) : bool :=
  let '(a, b, c) := x in
  let '(a', b', c') := y in
  (a <? a') || ((a =? a') && ((b <? b') || ((b =? b') && (c <? c')))).

Lemma SFltb_key x y :
  is_nan x = false -> is_nan y = false -> SFltb x y = lex3 (fkey x) (fkey y).
Proof.
  intros Hx Hy. unfold SFltb, lex3.
  destruct x as [sx|sx| |sx mx ex], y as [sy|sy| |sy my ey]; try discriminate;
    destruct sx, sy; try reflexivity; simpl.
  all: change (Pos.compare_cont Eq mx my) with (Pos.compare mx my).
  all: rewrite <- ?Z.compare_antisym.
  - destruct (Z.compare_spec ex ey), (Z.ltb_spec (- ex) (- ey)), (Z.eqb_spec (- ex) (- ey));
      destruct (Pos.compare_spec mx my), (Z.ltb_spec (Z.neg mx) (Z.neg my)); simpl; lia.
  - destruct (Z.compare_spec ex ey), (Z.ltb_spec ex ey), (Z.eqb_spec ex ey);
      destruct (Pos.compare_spec mx my), (Z.ltb_spec (Z.pos mx) (Z.pos my)); simpl; lia.
Qed.

Lemma lex3_weak a b c : lex3 b c = true -> lex3 b a = false -> lex3 a c = true.
Proof.
  destruct a as [[a1 a2] a3], b as [[b1 b2] b3], c as [[c1 c2] c3]. unfold lex3. lia.
Qed.

Lemma lex3_asym a b : lex3 a b = true -> lex3 b a = false.
Proof. destruct a as [[a1 a2] a3], b as [[b1 b2] b3]. unfold lex3. lia. Qed.

(** A zero is the only value equal to zero. *)
Lemma SFeqb_zero x : SFeqb x (S754_zero false) = match x with S754_zero _ => true | _ => false end.
Proof. by destruct x as [[]|[]| |[] ? ?]. Qed.

(** ** The best offer *)

(** The wildcard level at which a spec accepts an offer, when it does. *)
Definition wild_of (offer : string) (spec : acceptSpec) : option Z :=
  if SFeqb (Q spec) (S754_zero false) then None
  else if String.eqb (Value spec) "*/*" then Some 2
  else if has_suffix "/*" (Value spec) then
    if has_prefix (take_str (String.length (Value spec) - 1) (Value spec)) offer
    then Some 1 else None
  else if String.eqb (Value spec) offer then Some 0 else None.

Definition candidate (offer : string) (spec : acceptSpec) : option best :=
  w ← wild_of offer spec; Some {| bestOffer := offer; bestQ := Q spec; bestWild := w |}.

(** All matches, in the order of the two loops. *)
Definition candidates (specs : list acceptSpec) (offers : list string) : list best :=
  offers ≫= fun offer => omap (candidate offer) specs.

(** [c] is preferred to [d]: a higher quality, or the same quality and a more
    specific range. *)
Definition beats (c d : best) : bool :=
  SFltb (bestQ d) (bestQ c) ||
  (negb (SFltb (bestQ c) (bestQ d)) && (bestWild c <? bestWild d)).

Definition number (c : best) : Prop := is_nan (bestQ c) = false.

Lemma beats_key c d : number c -> number d ->
  beats c d = lex3 (fkey (bestQ d)) (fkey (bestQ c)) ||
    (negb (lex3 (fkey (bestQ c)) (fkey (bestQ d))) && (bestWild c <? bestWild d)).
Proof. intros Hc Hd. unfold beats. by rewrite !SFltb_key. Qed.

Lemma beats_weak a b c : number a -> number b -> number c ->
  beats c b = true -> beats a b = false -> beats c a = true.
Proof.
  intros Ha Hb Hc. rewrite !beats_key by done.
  destruct (fkey (bestQ a)) as [[a1 a2] a3], (fkey (bestQ b)) as [[b1 b2] b3],
    (fkey (bestQ c)) as [[c1 c2] c3]. unfold lex3. lia.
Qed.

Lemma beats_asym a b : number a -> number b -> beats a b = true -> beats b a = false.
Proof.
  intros Ha Hb. rewrite !beats_key by done.
  destruct (fkey (bestQ a)) as [[a1 a2] a3], (fkey (bestQ b)) as [[b1 b2] b3].
  unfold lex3. lia.
Qed.

Lemma consider_improve offer b spec :
  is_nan (Q spec) = false -> number b ->
  consider offer b spec =
    match candidate offer spec with Some c => improve beats b c | None => b end.
Proof.
  intros Hs Hb. unfold consider, candidate, wild_of, improve, beats.
  destruct (SFeqb (Q spec) (S754_zero false)); [done|].
  assert (Hlt : SFltb (Q spec) (bestQ b) = true -> SFltb (bestQ b) (Q spec) = false).
  { rewrite !SFltb_key by done. apply lex3_asym. }
  destruct (String.eqb (Value spec) "*/*");
    [|destruct (has_suffix "/*" (Value spec)); [destruct (has_prefix _ offer)|
      destruct (String.eqb (Value spec) offer)]];
    simpl; destruct (SFltb (Q spec) (bestQ b)); simpl; rewrite ?Hlt by done; done.
Qed.

Lemma candidate_number offer spec c :
  candidate offer spec = Some c -> is_nan (Q spec) = false -> number c.
Proof. unfold candidate. destruct (wild_of offer spec); [|done]. by intros [= <-]. Qed.

Lemma improve_number b c : number b -> number c -> number (improve beats b c).
Proof. unfold improve. by destruct (beats c b). Qed.

Definition numbers (specs : list acceptSpec) : Prop :=
  Forall (fun s => is_nan (Q s) = false) specs.

Lemma consider_offer offer b specs :
  numbers specs -> number b ->
  foldl (consider offer) b specs = foldl (improve beats) b (omap (candidate offer) specs) /\
  number (foldl (consider offer) b specs).
Proof.
  intros Hs. revert b. induction Hs as [|s specs Hs _ IH]; intros b Hb; [done|].
  rewrite omap_cons. simpl. rewrite consider_improve by done.
  destruct (candidate offer s) as [c|] eqn:E; [|by apply IH].
  simpl. apply IH. apply improve_number; [done|]. by eapply candidate_number.
Qed.

Lemma consider_all specs offers b :
  numbers specs -> number b ->
  foldl (fun b offer => foldl (consider offer) b specs) b offers =
    foldl (improve beats) b (candidates specs offers).
Proof.
  intros Hs. revert b. induction offers as [|o offers IH]; intros b Hb; [done|].
  unfold candidates. simpl. rewrite foldl_app.
  destruct (consider_offer o b specs Hs Hb) as [E Hn]. rewrite E in *. by apply IH.
Qed.

Lemma candidates_spec specs offers c :
  c ∈ candidates specs offers -> exists s, s ∈ specs /\ candidate (bestOffer c) s = Some c.
Proof.
  unfold candidates. rewrite list_elem_of_bind. intros (o & Hc & _).
  apply list_elem_of_omap in Hc as (s & Hs & E). exists s. split; [done|].
  unfold candidate in E |- *. destruct (wild_of o s) as [w|] eqn:Ew; [|done].
  simpl in E. injection E as <-. simpl. by rewrite Ew.
Qed.

(** C33. The offer chosen is the first best match: when some offer matches a
    spec of non-zero quality, it is an offer with a match that beats every
    match examined before it and that no match examined after it beats, by
    quality and then by specificity; otherwise it is the default.  The
    hypothesis excludes the quality values that are not numbers. *)
Theorem negotiate_best specs offers defaultOffer :
  numbers specs -> Forall (fun s => SFltb (Q s) (S754_zero false) = false) specs ->
  (candidates specs offers = [] /\ negotiate specs offers defaultOffer = defaultOffer) \/
  (exists l1 c l2, candidates specs offers = l1 ++ c :: l2 /\
     negotiate specs offers defaultOffer = bestOffer c /\
     Forall (fun d => beats c d = true) l1 /\ Forall (fun d => beats d c = false) l2).
Proof.
  intros Hn Hpos. unfold negotiate.
  set (b0 := {| bestOffer := defaultOffer; bestQ := minus_one; bestWild := 3 |}).
  rewrite consider_all by done.
  assert (HP : Forall (fun c => number c /\ beats c b0 = true) (candidates specs offers)).
  { apply Forall_forall. intros c (s & Hs & Hc)%candidates_spec.
    unfold numbers in Hn. rewrite Forall_forall in Hn, Hpos.
    pose proof (candidate_number _ _ _ Hc (Hn s Hs)) as Hnum. split; [done|].
    assert (bestQ c = Q s) as Eq.
    { unfold candidate in Hc. destruct (wild_of _ _); [|done]. by injection Hc as <-. }
    rewrite beats_key, Eq by done. specialize (Hpos s Hs).
    rewrite SFltb_key in Hpos by (try done; by apply Hn).
    change (fkey (S754_zero false)) with (0, 0, 0) in Hpos.
    change (fkey (bestQ b0)) with (fkey minus_one).
    assert (fkey minus_one = (-1, 52, - 2 ^ 52)) as -> by reflexivity.
    destruct (fkey (Q s)) as [[a1 a2] a3]. unfold lex3 in *. lia. }
  destruct (foldl_improve number beats beats_weak beats_asym (candidates specs offers) b0)
    as [[E Hno]|(l1 & c & l2 & E1 & E2 & _ & H1 & H2)]; [done|..].
  - eapply Forall_impl; [exact HP|]. by intros ? [? _].
  - left. rewrite E. split; [|done]. destruct (candidates specs offers) as [|c l]; [done|].
    apply Forall_cons_1 in HP as [[_ Hc] _]. apply Forall_cons_1 in Hno as [Hd _]. congruence.
  - right. exists l1, c, l2. by rewrite E2.
Qed.

(** ** What the parser returns *)

(** A media range: non-empty, of token characters and slashes. *)
Fixpoint range_chars (s : string) : bool :=
  match s with
  | EmptyString => true
  | String b s' =>
      (negb (Z.land (octetTypes b) isToken =? 0) || Ascii.eqb b "/") && range_chars s'
  end.

Definition well_formed (s : acceptSpec) : Prop :=
  Value s <> EmptyString /\ range_chars (Value s) = true /\
  SFltb (Q s) (S754_zero false) = false.

Lemma expectTokenSlash_chars s : range_chars (fst (expectTokenSlash s)) = true.
Proof.
  induction s as [|b s IH]; [done|]. simpl.
  destruct (Z.land (octetTypes b) isToken =? 0) eqn:E1, (Ascii.eqb b "/") eqn:E2; simpl;
    try done; destruct (expectTokenSlash s); simpl in *; by rewrite ?E1, ?E2, IH.
Qed.

Lemma parse_quality_nonneg s q r :
  parse_quality s = Some (q, r) -> SFltb q (S754_zero false) = false.
Proof.
  unfold parse_quality. destruct (has_prefix ";" s); [|by injection 1 as <- <-].
  destruct (negb _); [done|]. destruct (expectQuality _) as [x s'].
  destruct (SFltb x _) eqn:E; [done|]. by injection 1 as <- <-.
Qed.

Lemma parse_value_wf fuel s specs r :
  parse_value fuel s specs = Some r -> Forall well_formed specs -> Forall well_formed r.
Proof.
  revert s specs. induction fuel as [|f IH]; intros s specs; simpl; [done|].
  pose proof (expectTokenSlash_chars s) as Hc.
  destruct (expectTokenSlash s) as [value s1]. simpl in Hc.
  destruct (String.eqb_spec value EmptyString) as [_|Hv]; [by intros [= <-]|].
  destruct (parse_quality _) as [[q s2]|] eqn:Eq; [|by intros [= <-]].
  assert (Hw : Forall well_formed specs ->
               Forall well_formed (specs ++ [{| Value := value; Q := q |}])).
  { intros Hs. apply Forall_app. split; [done|]. constructor; [|done].
    split_and!; [done..|]. by eapply parse_quality_nonneg. }
  destruct (negb _); [intros [= <-]; done|]. intros H Hs. eapply IH; eauto.
Qed.

(** Every Accept header parses, the loop ends whatever the bytes, and every
    spec returned has a non-empty media range of token characters and slashes
    and a quality that is not negative. *)
Theorem parseAccept_total values :
  exists specs, parseAccept values = Some specs /\ Forall well_formed specs.
Proof.
  unfold parseAccept.
  assert (H : forall acc, Forall well_formed acc -> exists specs,
    foldl (fun acc s => acc ≫= parse_value (S (String.length s)) s) (Some acc) values
      = Some specs /\ Forall well_formed specs); [|by apply H].
  induction values as [|v values IH]; intros acc Ha; [by exists acc|]. cbn [foldl].
  destruct (parse_value_fuel (S (String.length v)) v acc) as [r E]; [lia|].
  change (Some acc ≫= parse_value (S (String.length v)) v)
    with (parse_value (S (String.length v)) v acc). rewrite E. apply IH. by eapply parse_value_wf.
Qed.

(** ** Quality values *)

Definition digits_str (ds : list Z) : string :=
  foldr (fun d s => String (digit_char d) s) EmptyString ds.
Definition digits_val (ds : list Z) : Z := foldl (fun acc d => acc * 10 + d) 0 ds.
Definition all_digits (ds : list Z) : Prop := Forall (fun d => 0 <= d < 10) ds.

Definition not_digit_first (s : string) : bool :=
  match s with
  | EmptyString => true
  | String b _ => (byte_val b <? 48) || (57 <? byte_val b)
  end.

Lemma decimals_stop n d s : not_digit_first s = true -> decimals n d s = (n, d, s).
Proof. destruct s as [|b s]; simpl; [done|]. by intros ->. Qed.

Lemma decimals_wrap ds n d rest :
  all_digits ds -> not_digit_first rest = true ->
  decimals (i64 n) (i64 d) (digits_str ds +:+ rest) =
    (i64 (foldl (fun acc x => acc * 10 + x) n ds), i64 (d * 10 ^ Z.of_nat (length ds)), rest).
Proof.
  intros Hds Hr. revert n d. induction Hds as [|x ds Hx _ IH]; intros n d.
  - simpl. rewrite str_app_nil_l, Z.mul_1_r. by apply decimals_stop.
  - simpl digits_str. rewrite str_app_cons. cbn [decimals].
    rewrite byte_digit_char by done.
    destruct (Z.ltb_spec (48 + x) 48); [lia|]. destruct (Z.ltb_spec 57 (48 + x)); [lia|].
    simpl orb. cbv iota.
    replace (i64 (i64 (i64 (i64 n * 10) + (48 + x)) - 48)) with (i64 (n * 10 + x)).
    2: { unfold i64. rewrite wrap_sub_l, wrap_mul_l, <- Z.add_sub_assoc, wrap_add_l.
         f_equal. lia. }
    replace (i64 (i64 d * 10)) with (i64 (d * 10)) by (unfold i64; by rewrite wrap_mul_l).
    rewrite IH. cbn [foldl length]. rewrite Nat2Z.inj_succ, Z.pow_succ_r by lia.
    do 3 f_equal. lia.
Qed.

(** Values that are not NaN and not negative. *)
Definition nonneg (x : spec_float) : bool :=
  match x with
  | S754_zero s | S754_infinity s | S754_finite s _ _ => negb s
  | S754_nan => false
  end.

Lemma shr_1_nonneg r : 0 <= shr_m r -> 0 <= shr_m (shr_1 r).
Proof. destruct r as [[|[]|[]] ? ?]; simpl; lia. Qed.

Lemma iter_shr_nonneg n r : 0 <= shr_m r -> 0 <= shr_m (SpecFloat.iter_pos shr_1 n r).
Proof. revert r. induction n; intros r H; simpl; auto using shr_1_nonneg. Qed.

Lemma shr_fexp_nonneg m e l :
  0 <= m -> 0 <= shr_m (fst (shr_fexp 53 1024 m e l)).
Proof.
  intros Hm. unfold shr_fexp, shr.
  assert (H : 0 <= shr_m (shr_record_of_loc m l)) by (destruct l as [|[]]; done).
  destruct (_ - _); simpl; auto using iter_shr_nonneg.
Qed.

Lemma round_nearest_even_nonneg m l : 0 <= m -> 0 <= round_nearest_even m l.
Proof. intros H. destruct l as [|[]]; simpl; repeat case_goal; lia. Qed.

Lemma binary_round_aux_nonneg m e l :
  0 <= m -> nonneg (binary_round_aux 53 1024 false m e l) = true.
Proof.
  intros Hm. unfold binary_round_aux.
  pose proof (shr_fexp_nonneg m e l Hm) as H1.
  destruct (shr_fexp 53 1024 m e l) as [r1 e1]. simpl in H1.
  pose proof (round_nearest_even_nonneg _ (loc_of_shr_record r1) H1) as H2.
  pose proof (shr_fexp_nonneg _ e1 loc_Exact H2) as H3.
  destruct (shr_fexp 53 1024 _ e1 loc_Exact) as [r2 e2]. simpl in H3.
  destruct (shr_m r2); [done|by destruct (e2 <=? _)|lia].
Qed.

Lemma binary_normalize_nonneg m e :
  0 <= m -> nonneg (binary_normalize 53 1024 m e false) = true.
Proof.
  intros Hm. unfold binary_normalize, binary_round. destruct m; [done| |lia].
  destruct (shl_align _ _ _). by apply binary_round_aux_nonneg.
Qed.

Lemma f64_add_nonneg x y : nonneg x = true -> nonneg y = true -> nonneg (f64_add x y) = true.
Proof.
  destruct x as [[]|[]| |[] mx ex], y as [[]|[]| |[] my ey]; try done.
  intros _ _. apply binary_normalize_nonneg. simpl. lia.
Qed.

Lemma f64_div_nonneg x m e :
  nonneg x = true -> nonneg (f64_div x (S754_finite false m e)) = true.
Proof.
  destruct x as [[]|[]| |[] mx ex]; try done. intros _. unfold f64_div, SFdiv, SFdiv_core_binary.
  set (s := _ - _ - Z.min _ _).
  set (m' := match s with Z0 => _ | Z.pos _ => _ | Z.neg _ => _ end).
  assert (0 <= m').
  { subst m'. destruct s; [lia| |lia]. apply Z.shiftl_nonneg. lia. }
  pose proof (Z.div_pos m' (Z.pos m) H ltac:(lia)) as Hq. unfold Z.div in Hq.
  destruct (Z.div_eucl m' (Z.pos m)) as [q r]. by apply binary_round_aux_nonneg.
Qed.

Lemma nonneg_spec x : nonneg x = true -> is_nan x = false /\ SFltb x (S754_zero false) = false.
Proof. by destruct x as [[]|[]| |[] ? ?]. Qed.

(** The powers of ten an int holds are positive numbers of float64. *)
Lemma f64_pow10 k : (k <= 18)%nat ->
  exists m e, f64_of_int (10 ^ Z.of_nat k) = S754_finite false m e.
Proof.
  intros Hk. do 19 (destruct k as [|k]; [vm_compute; eauto|]). lia.
Qed.

Lemma digits_val_range ds :
  all_digits ds -> 0 <= digits_val ds < 10 ^ Z.of_nat (length ds).
Proof.
  unfold digits_val, all_digits.
  induction ds as [|x ds IH] using rev_ind; [simpl; lia|].
  rewrite Forall_app, Forall_singleton, foldl_app, length_app, Nat2Z.inj_add. simpl.
  intros [Hds Hx]. specialize (IH Hds).
  rewrite Z.pow_add_r, Z.pow_1_r by lia. lia.
Qed.

Lemma i64_pow10_zero k : (64 <= k)%nat -> i64 (10 ^ Z.of_nat k) = 0.
Proof.
  intros Hk. change 0 with (i64 0). apply wrap_eq.
  replace (10 ^ Z.of_nat k) with (5 ^ Z.of_nat k * 2 ^ (Z.of_nat k - 64) * 2 ^ 64).
  - rewrite Z.mod_mul by lia. done.
  - rewrite <- Z.mul_assoc, <- Z.pow_add_r by lia. rewrite Z.sub_add.
    rewrite <- Z.pow_mul_l. done.
Qed.

Lemma parse_quality_q s :
  skipSpace (";q=" +:+ s) = (";q=" +:+ s) /\
  parse_quality (";q=" +:+ s) =
    let '(q, r) := expectQuality s in if SFltb q (S754_zero false) then None else Some (q, r).
Proof. split; reflexivity. Qed.

Lemma expectQuality_wrap (one : bool) ds rest :
  all_digits ds -> not_digit_first rest = true ->
  expectQuality (String (if one then "1" else "0") (String "." (digits_str ds +:+ rest))) =
    (f64_add (f64_of_int (if one then 1 else 0))
       (f64_div (f64_of_int (i64 (digits_val ds))) (f64_of_int (i64 (10 ^ Z.of_nat (length ds))))),
     rest).
Proof.
  intros Hds Hr. pose proof (decimals_wrap ds 0 1 rest Hds Hr) as H.
  change (i64 0) with 0 in H. change (i64 1) with 1 in H. rewrite Z.mul_1_l in H.
  unfold expectQuality. destruct one;
    (match goal with |- context [has_prefix "." ?s] =>
       change (has_prefix "." s) with true;
       change (drop_str 1 s) with (digits_str ds +:+ rest) end);
    change (Ascii.eqb "1" "0") with false || idtac;
    change (Ascii.eqb "1" "1") with true || idtac;
    change (Ascii.eqb "0" "0") with true || idtac;
    cbv iota beta; simpl orb; cbv iota; rewrite H; reflexivity.
Qed.

(** C35. The quality value "0.ddd" or "1.ddd" with at most 18 decimals is the
    float64 sum of the leading digit and of the quotient of the decimals by
    the power of ten, computed with no integer overflow, and it is a number
    that is not negative; with 64 decimals or more, all zero, the wrapped
    power of ten is 0 and the quality is not a number, so that parsing keeps a
    range whose client sent the quality zero. *)
Theorem expectQuality_decimals (one : bool) ds rest :
  all_digits ds -> not_digit_first rest = true ->
  let s := String (if one then "1" else "0") (String "." (digits_str ds +:+ rest)) in
  ((length ds <= 18)%nat ->
     expectQuality s =
       (f64_add (f64_of_int (if one then 1 else 0))
          (f64_div (f64_of_int (digits_val ds)) (f64_of_int (10 ^ Z.of_nat (length ds)))), rest) /\
     is_nan (fst (expectQuality s)) = false /\
     SFltb (fst (expectQuality s)) (S754_zero false) = false) /\
  ((64 <= length ds)%nat -> digits_val ds = 0 ->
     is_nan (fst (expectQuality s)) = true /\
     parse_quality (";q=" +:+ s) = Some (S754_nan, rest)).
Proof.
  intros Hds Hr s. pose proof (expectQuality_wrap one ds rest Hds Hr) as E. fold s in E.
  pose proof (digits_val_range ds Hds) as Hv. split.
  - intros Hl.
    assert (10 ^ Z.of_nat (length ds) <= 10 ^ 18) by (apply Z.pow_le_mono_r; lia).
    rewrite !i64_id in E by (unfold MinInt64, MaxInt64; lia). rewrite E. split; [done|].
    destruct (f64_pow10 (length ds) Hl) as (m & e & ->). simpl fst.
    apply nonneg_spec, f64_add_nonneg; [by destruct one|].
    apply f64_div_nonneg, binary_normalize_nonneg. lia.
  - intros Hl Hz. rewrite Hz, i64_pow10_zero in E by done.
    assert (E' : expectQuality s = (S754_nan, rest)) by (rewrite E; by destruct one).
    destruct (parse_quality_q s) as [_ ->]. by rewrite E'.
Qed.

(** ** Printing and parsing *)

(** A media range with an optional quality, as a client writes it. *)
Record media := { m_range : string; m_quality : option (bool * list Z) }.

Definition media_ok (m : media) : Prop :=
  m_range m <> EmptyString /\ range_chars (m_range m) = true /\
  match m_quality m with
  | None => True
  | Some (_, ds) => all_digits ds /\ (length ds <= 18)%nat
  end.

Definition print_quality (q : option (bool * list Z)) : string :=
  match q with
  | None => EmptyString
  | Some (one, ds) =>
      ";q=" +:+ String (if one then "1" else "0") (String "." (digits_str ds))
  end.
Fixpoint print_media (l : list media) : string :=
  match l with
  | [] => EmptyString
  | [m] => m_range m +:+ print_quality (m_quality m)
  | m :: r => m_range m +:+ print_quality (m_quality m) +:+ ", " +:+ print_media r
  end.

Definition spec_of (m : media) : acceptSpec :=
  {| Value := m_range m;
     Q := match m_quality m with
          | None => f64_of_int 1
          | Some (one, ds) =>
              f64_add (f64_of_int (if one then 1 else 0))
                (f64_div (f64_of_int (digits_val ds)) (f64_of_int (10 ^ Z.of_nat (length ds))))
          end |}.

Definition stops (rest : string) : Prop :=
  match rest with
  | EmptyString => True
  | String b _ => (Z.land (octetTypes b) isToken =? 0) && negb (Ascii.eqb b "/") = true
  end.

Lemma expectTokenSlash_stop v rest :
  range_chars v = true -> stops rest -> expectTokenSlash (v +:+ rest) = (v, rest).
Proof.
  induction v as [|b v IH]; simpl.
  - intros _ Hs. rewrite str_app_nil_l. destruct rest as [|c rest]; [done|].
    simpl in *. by rewrite Hs.
  - rewrite andb_true_iff. intros [Hb Hv] Hs.
    destruct (Z.land (octetTypes b) isToken =? 0), (Ascii.eqb b "/"); try done; simpl;
      by rewrite IH.
Qed.

(** No octet is both a space and part of a media range. *)
Lemma range_char_no_space b :
  negb (Z.land (octetTypes b) isToken =? 0) || Ascii.eqb b "/" = true ->
  Z.land (octetTypes b) isSpace =? 0 = true.
Proof. by destruct b as [[] [] [] [] [] [] [] []]. Qed.

Lemma skipSpace_range v rest :
  v <> EmptyString -> range_chars v = true -> skipSpace (v +:+ rest) = v +:+ rest.
Proof.
  destruct v as [|b v]; [done|]. simpl. rewrite andb_true_iff.
  intros _ [Hb _]. by rewrite range_char_no_space.
Qed.

(** What follows one item: nothing, or a comma. *)
Definition follows (rest : string) : Prop :=
  rest = EmptyString \/ exists r, rest = String "," r.

Lemma parse_quality_print m rest :
  media_ok m -> follows rest ->
  parse_quality (skipSpace (print_quality (m_quality m) +:+ rest)) = Some (Q (spec_of m), rest) /\
  stops (print_quality (m_quality m) +:+ rest).
Proof.
  intros (_ & _ & Hq) Hf. unfold print_quality, spec_of. simpl Q.
  destruct (m_quality m) as [[one ds]|].
  - destruct Hq as [Hd Hl]. split; [|done].
    assert (Hr : not_digit_first rest = true) by (by destruct Hf as [->|[r ->]]).
    pose proof (digits_val_range ds Hd) as Hv.
    assert (10 ^ Z.of_nat (length ds) <= 10 ^ 18) by (apply Z.pow_le_mono_r; lia).
    pose proof (expectQuality_wrap one ds rest Hd Hr) as E.
    rewrite !i64_id in E by (unfold MinInt64, MaxInt64; lia).
    destruct (f64_pow10 (length ds) Hl) as (mm & e & Ep). rewrite Ep in E |- *.
    set (q := f64_add _ _) in *.
    assert (Hnn : nonneg q = true).
    { apply f64_add_nonneg; [by destruct one|]. apply f64_div_nonneg, binary_normalize_nonneg. lia. }
    set (s := String (if one then "1" else "0")%char (String "." (digits_str ds +:+ rest))) in *.
    change ((";q=" +:+ String (if one then "1" else "0")%char (String "." (digits_str ds))) +:+ rest)
      with (";q=" +:+ s).
    destruct (parse_quality_q s) as [-> ->]. rewrite E.
    by destruct (nonneg_spec q Hnn) as [_ ->].
  - rewrite str_app_nil_l. destruct Hf as [->|[r ->]]; done.
Qed.

Lemma parse_value_print fuel l acc :
  Forall media_ok l -> (String.length (print_media l) < fuel)%nat ->
  parse_value fuel (print_media l) acc = Some (acc ++ (spec_of <$> l)).
Proof.
  revert l acc. induction fuel as [|f IH]; intros l acc Hl Hf; [lia|].
  destruct Hl as [|m l Hm Hl]; [simpl; by rewrite app_nil_r|].
  assert (exists rest, print_media (m :: l) = m_range m +:+ print_quality (m_quality m) +:+ rest
            /\ follows rest /\ (l = [] /\ rest = EmptyString \/
                 l <> [] /\ rest = ", " +:+ print_media l)) as (rest & E & Hr & Hc).
  { destruct l as [|m' l].
    - exists EmptyString. rewrite str_app_nil_r. split; [done|]. split; [by left|by left].
    - exists (", " +:+ print_media (m' :: l)). split; [done|]. split; [right; by eexists|by right]. }
  rewrite E in Hf |- *. destruct (parse_quality_print m rest Hm Hr) as [Hq Hs].
  destruct Hm as (Hne & Hch & _).
  cbn [parse_value]. rewrite expectTokenSlash_stop by done.
  destruct (String.eqb_spec (m_range m) EmptyString); [done|]. rewrite Hq.
  change {| Value := m_range m; Q := Q (spec_of m) |} with (spec_of m).
  destruct Hc as [[-> ->]|[Hl' ->]]; [done|].
  rewrite !length_app_str in Hf. simpl String.length in Hf.
  change (skipSpace (", " +:+ print_media l)) with (", " +:+ print_media l).
  change (has_prefix "," (", " +:+ print_media l)) with true.
  change (skipSpace (drop_str 1 (", " +:+ print_media l))) with (skipSpace (print_media l)).
  simpl negb. cbv iota.
  assert (skipSpace (print_media l) = print_media l) as ->.
  { destruct Hl as [|m' l Hm' _]; [done|]. destruct Hm' as (? & ? & _).
    simpl. destruct l; by apply skipSpace_range. }
  rewrite IH by (done || lia). by rewrite <- app_assoc.
Qed.

(** C36. Printing media ranges with optional qualities of at most 18 decimals
    and parsing the header value gives back the ranges in order, each with the
    float64 value of its quality and 1 when it has none. *)
Theorem parseAccept_print l :
  Forall media_ok l -> parseAccept [print_media l] = Some (spec_of <$> l).
Proof.
  intros Hl. unfold parseAccept.
  change (parse_value (S (String.length (print_media l))) (print_media l) [] = Some (spec_of <$> l)).
  rewrite parse_value_print by (done || lia). done.
Qed.

(** ** Witnesses *)

Definition ex_specs : list acceptSpec :=
  [{| Value := "text/*"; Q := f64_of_int 1 |}; {| Value := "text/html"; Q := f64_of_int 1 |};
   {| Value := "*/*"; Q := f64_of_int 1 |}].

Lemma negotiate_best_witness :
  numbers ex_specs /\
  negotiate ex_specs ["image/png"; "text/plain"; "text/html"] "-" = "text/html" /\
  exists c l1 l2, candidates ex_specs ["image/png"; "text/plain"; "text/html"] = l1 ++ c :: l2 /\
    bestOffer c = "text/html".
Proof.
  assert (Hn : numbers ex_specs) by (repeat constructor).
  split; [exact Hn|].
  destruct (negotiate_best ex_specs ["image/png"; "text/plain"; "text/html"] "-" Hn)
    as [[E _]|(l1 & c & l2 & E & Er & _)].
  - repeat constructor.
  - vm_compute in E. discriminate.
  - assert (Hr : negotiate ex_specs ["image/png"; "text/plain"; "text/html"] "-" = "text/html")
      by (vm_compute; reflexivity).
    split; [exact Hr|]. exists c, l1, l2. split; [exact E|]. congruence.
Defined.

Lemma expectQuality_decimals_witness :
  fst (expectQuality "0.25") = f64_add (f64_of_int 0) (f64_div (f64_of_int 25) (f64_of_int 100)) /\
  is_nan (fst (expectQuality
    "0.0000000000000000000000000000000000000000000000000000000000000000")) = true.
Proof.
  split.
  - assert (Hd : all_digits [2; 5]) by (repeat constructor; lia).
    assert (Hl : (length [2; 5]%Z <= 18)%nat) by (simpl; lia).
    destruct (proj1 (expectQuality_decimals false [2; 5] EmptyString Hd eq_refl) Hl) as [E _].
    exact (f_equal fst E).
  - assert (Hd : all_digits (replicate 64 0)) by (repeat constructor; lia).
    assert (Hl : (64 <= length (replicate 64 0%Z))%nat) by (simpl; lia).
    apply (proj2 (expectQuality_decimals false (replicate 64 0) EmptyString Hd eq_refl) Hl).
    vm_compute. reflexivity.
Defined.

Lemma parseAccept_print_witness :
  Forall media_ok [{| m_range := "text/html"; m_quality := None |};
                   {| m_range := "*/*"; m_quality := Some (false, [8]) |}] /\
  parseAccept ["text/html, */*;q=0.8"] =
    Some [{| Value := "text/html"; Q := f64_of_int 1 |};
          {| Value := "*/*"; Q := f64_add (f64_of_int 0) (f64_div (f64_of_int 8) (f64_of_int 10)) |}].
Proof.
  assert (H : Forall media_ok [{| m_range := "text/html"; m_quality := None |};
                               {| m_range := "*/*"; m_quality := Some (false, [8]) |}]).
  { repeat constructor; simpl; try discriminate; lia. }
  split; [exact H|]. exact (parseAccept_print _ H).
Defined.

(** A client that refuses text/html and asks for application/json is served
    text/html when the zero quality has 64 decimals. *)
Example negotiate_not_a_number :
  negotiateContentType
    ["text/html;q=0.0000000000000000000000000000000000000000000000000000000000000000, application/json"]
    ["text/html"; "application/json"] "-" = Some "text/html".
Proof. vm_compute. reflexivity. Qed.
