(* ===== verification/Http.v ===== *)
(** * Http: what the server packages use of net/http

    Headers with canonical keys, the response writer, requests, and the
    variables that closures share.  The world of a request holds what the
    handlers of one request can reach by reference: the header maps, the
    response under way, the request body, the variables captured by closures
    and the log containers of ctxvals; [X] is the rest of the application's
    state, and [C] what the application stores in the context of a request. *)

From Stdlib Require Import ZArith Ascii String Lia.
From S2P Require Import Prelude Errors Accept.

(** ** Headers *)

Notation header := (gmap string (list string)).

Definition is_lower (c : ascii) : bool := (97 <=? byte_val c) && (byte_val c <=? 122).
Definition is_upper (c : ascii) : bool := (65 <=? byte_val c) && (byte_val c <=? 90).
Definition shift_char (c : ascii) (d : Z) : ascii := ascii_of_N (Z.to_N (byte_val c + d)).

Fixpoint canonical_loop (upper : bool) (s : string) : string :=
  match s with
  | EmptyString => EmptyString
  | String c s' =>
      let c' := if upper && is_lower c then shift_char c (-32)
                else if negb upper && is_upper c then shift_char c 32 else c in
      String c' (canonical_loop (Ascii.eqb c' "-") s')
  end.
Fixpoint all_token (s : string) : bool :=
  match s with
  | EmptyString => true
  | String c s' => negb (Z.land (octetTypes c) isToken =? 0) && all_token s'
  end.
(** textproto.CanonicalMIMEHeaderKey. *)
Definition canonical (s : string) : string := if all_token s then canonical_loop true s else s.

Definition hdr_Get (h : header) (key : string) : string :=
  match h !! canonical key with Some (v :: _) => v | _ => EmptyString end.
Definition hdr_Set (key value : string) (h : header) : header := <[canonical key := [value]]> h.
Definition hdr_Add (key value : string) (h : header) : header :=
  <[canonical key := default [] (h !! canonical key) ++ [value]]> h.
Definition hdr_Del (key : string) (h : header) : header := delete (canonical key) h.

Lemma hdr_Get_Set h key value : hdr_Get (hdr_Set key value h) key = value.
Proof. unfold hdr_Get, hdr_Set. by rewrite lookup_insert_eq. Qed.

(** ** Responses *)

(** The response under way: the header map, what WriteHeader sent (the status
    and the headers at that time) and the body. *)
Record response := {
  res_header : header;
  res_sent : option (Z * header);
  res_body : string;
}.

(** A second WriteHeader is superfluous and ignored; a Write without a
    WriteHeader sends status 200. *)
Definition res_WriteHeader (code : Z) (r : response) : response :=
  match res_sent r with
  | Some _ => r
  | None => {| res_header := res_header r; res_sent := Some (code, res_header r);
               res_body := res_body r |}
  end.
Definition res_Write (b : string) (r : response) : response :=
  let r := res_WriteHeader 200 r in
  {| res_header := res_header r; res_sent := res_sent r; res_body := res_body r +:+ b |}.

(** ** The world of a request *)

Inductive body := RawBody | MaxBytes (limit : Z) (b : body).

Record hworld {V X : Type} := {
  hw_resp : response;
  hw_req_header : header;
  hw_body : body;
  hw_vars : list Z;
  hw_kvs : gmap nat (gmap string V);
  hw_app : X;
}.
Arguments hworld : clear implicits.

Section World.
Context {V X : Type}.
Local Notation W := (hworld V X).

Definition set_resp (f : response -> response) (w : W) : W :=
  {| hw_resp := f (hw_resp w); hw_req_header := hw_req_header w; hw_body := hw_body w;
     hw_vars := hw_vars w; hw_kvs := hw_kvs w; hw_app := hw_app w |}.
Definition set_req_header (f : header -> header) (w : W) : W :=
  {| hw_resp := hw_resp w; hw_req_header := f (hw_req_header w); hw_body := hw_body w;
     hw_vars := hw_vars w; hw_kvs := hw_kvs w; hw_app := hw_app w |}.
Definition set_body (f : body -> body) (w : W) : W :=
  {| hw_resp := hw_resp w; hw_req_header := hw_req_header w; hw_body := f (hw_body w);
     hw_vars := hw_vars w; hw_kvs := hw_kvs w; hw_app := hw_app w |}.
Definition set_vars (f : list Z -> list Z) (w : W) : W :=
  {| hw_resp := hw_resp w; hw_req_header := hw_req_header w; hw_body := hw_body w;
     hw_vars := f (hw_vars w); hw_kvs := hw_kvs w; hw_app := hw_app w |}.
Definition set_kvs (f : gmap nat (gmap string V) -> gmap nat (gmap string V)) (w : W) : W :=
  {| hw_resp := hw_resp w; hw_req_header := hw_req_header w; hw_body := hw_body w;
     hw_vars := hw_vars w; hw_kvs := f (hw_kvs w); hw_app := hw_app w |}.
Definition set_app (f : X -> X) (w : W) : W :=
  {| hw_resp := hw_resp w; hw_req_header := hw_req_header w; hw_body := hw_body w;
     hw_vars := hw_vars w; hw_kvs := hw_kvs w; hw_app := f (hw_app w) |}.

(** The application's state is a part of the world. *)
#[export, refine] Instance hw_lens : Lens W X :=
  {| view := hw_app; update := fun x w => set_app (fun _ => x) w |}.
Proof. all: by try intros [] || intros ? []. Defined.

(** Variables captured by closures. *)
Definition new_var (v : Z) : go W nat := fun w =>
  (Ret (length (hw_vars w)), set_vars (fun l => l ++ [v]) w).
Definition get_var (x : nat) : go W Z := gets (fun w => default 0 (hw_vars w !! x)).
Definition set_var (x : nat) (v : Z) : go W unit := modify (set_vars (<[x := v]>)).
Definition get_bool (x : nat) : go W bool := gets (fun w => negb (default 0 (hw_vars w !! x) =? 0)).
Definition set_bool (x : nat) (b : bool) : go W unit := set_var x (if b then 1 else 0).

(** http.ResponseWriter. *)
Record ResponseWriter := {
  Header : go W header;
  SetHeader : string -> string -> go W unit;
  AddHeader : string -> string -> go W unit;
  DelHeader : string -> go W unit;
  WriteHeader : Z -> go W unit;
  Write : string -> go W (Z * option error);
}.

(** The writer the server hands to the outermost handler. *)
Definition conn_writer : ResponseWriter :=
  {| Header := gets (fun w => res_header (hw_resp w));
     SetHeader := fun k v => modify (set_resp (fun r =>
       {| res_header := hdr_Set k v (res_header r); res_sent := res_sent r; res_body := res_body r |}));
     AddHeader := fun k v => modify (set_resp (fun r =>
       {| res_header := hdr_Add k v (res_header r); res_sent := res_sent r; res_body := res_body r |}));
     DelHeader := fun k => modify (set_resp (fun r =>
       {| res_header := hdr_Del k (res_header r); res_sent := res_sent r; res_body := res_body r |}));
     WriteHeader := fun code => modify (set_resp (res_WriteHeader code));
     Write := fun b => bind (modify (set_resp (res_Write b)))
       (fun _ => ret (Z.of_nat (String.length b), None)) |}.

(** The context of a request: the keys that ctxvals and net/http store in it,
    and those of the application. *)
Record context {C : Type} := {
  cx_logger : option Z;
  cx_kvs : option nat;
  cx_server : option Z;
  cx_addr : option string;
  cx_app : C;
}.
Arguments context : clear implicits.

(** The fields of http.Request that the packages read; the header and the body
    are in the world, since a request is passed by reference. *)
Record request {C : Type} := {
  r_proto : string; r_host : string; r_method : string; r_uri : string; r_path : string;
  r_content_length : Z; r_remote_addr : string;
  r_ctx : context C;
}.
Arguments request : clear implicits.

(** r.WithContext(ctx). *)
Definition with_ctx {C} (r : request C) (ctx : context C) : request C :=
  {| r_proto := r_proto r; r_host := r_host r; r_method := r_method r; r_uri := r_uri r;
     r_path := r_path r; r_content_length := r_content_length r; r_remote_addr := r_remote_addr r;
     r_ctx := ctx |}.

Definition Handler (C : Type) : Type := ResponseWriter -> request C -> go W unit.
Local Open Scope go_scope.

(** http.Error. *)
Definition http_Error (w : ResponseWriter) (msg : string) (code : Z) : go W unit :=
  do! DelHeader w "Content-Length" in
  do! SetHeader w "Content-Type" "text/plain; charset=utf-8" in
  do! SetHeader w "X-Content-Type-Options" "nosniff" in
  do! WriteHeader w code in
  do! Write w (msg +:+ String "010" EmptyString) in
  ret tt.

(** ** Calls on a writer

    A handler that writes a response does a sequence of these. *)
Inductive call :=
| CWriteHeader (code : Z)
| CWrite (b : string).

Definition do_call (w : ResponseWriter) (c : call) : go W unit :=
  match c with
  | CWriteHeader code => WriteHeader w code
  | CWrite b => do! Write w b in ret tt
  end.
Fixpoint do_calls (w : ResponseWriter) (l : list call) : go W unit :=
  match l with
  | [] => ret tt
  | c :: l' => do! do_call w c in do_calls w l'
  end.

(** Their effect on the connection's response. *)
Definition res_call (r : response) (c : call) : response :=
  match c with
  | CWriteHeader code => res_WriteHeader code r
  | CWrite b => res_Write b r
  end.
Definition res_calls : response -> list call -> response := foldl res_call.

Lemma do_call_conn c w : do_call conn_writer c w = (Ret tt, set_resp (fun r => res_call r c) w).
Proof. by destruct c. Qed.

Lemma do_calls_conn l w :
  do_calls conn_writer l w = (Ret tt, set_resp (fun r => res_calls r l) w).
Proof.
  revert w. induction l as [|c l IH]; intros w; [by destruct w|]. simpl.
  rewrite (bind_run _ _ _ _ _ (do_call_conn c w)), IH. done.
Qed.

Lemma do_calls_app wr l1 l2 w :
  do_calls wr (l1 ++ l2) w = bind (do_calls wr l1) (fun _ => do_calls wr l2) w.
Proof.
  revert w. induction l1 as [|c l1 IH]; intros w; [done|]. simpl.
  rewrite bind_assoc. unfold bind at 1 2. destruct (do_call wr c w) as [[[]|v] w1]; [|done].
  apply IH.
Qed.
End World.
Arguments context : clear implicits.
Arguments request : clear implicits.
Arguments ResponseWriter : clear implicits.
Arguments Handler : clear implicits.
