(* ===== verification/Cookies.v ===== *)
(** * Cookies: cookies of net/http

    Reading the Cookie header of a request (Request.Cookie) and printing a
    Set-Cookie header (http.SetCookie), as the packages use them.  The time of
    Expires is kept in the format of the header. *)

From Stdlib Require Import ZArith Ascii String Lia.
From S2P Require Import Prelude Errors Accept Http.

(** ** Text *)

(** textproto.TrimString. *)
Definition is_ascii_space (c : ascii) : bool :=
  (byte_val c =? 32) || (byte_val c =? 9) || (byte_val c =? 10) || (byte_val c =? 13).
Fixpoint trim_left (s : string) : string :=
  match s with
  | String c s' => if is_ascii_space c then trim_left s' else s
  | EmptyString => EmptyString
  end.
Fixpoint trim_right (s : string) : string :=
  match s with
  | EmptyString => EmptyString
  | String c s' =>
      match trim_right s' with
      | EmptyString => if is_ascii_space c then EmptyString else String c EmptyString
      | t => String c t
      end
  end.
Definition TrimString (s : string) : string := trim_right (trim_left s).

(** strings.Cut: what is before the first [sep], and after it if there is one. *)
Fixpoint Cut (sep : ascii) (s : string) : string * option string :=
  match s with
  | EmptyString => (EmptyString, None)
  | String c s' =>
      if Ascii.eqb c sep then (EmptyString, Some s')
      else let '(before, after) := Cut sep s' in (String c before, after)
  end.

(** The parts of a line between separators. *)
Fixpoint split (sep : ascii) (s : string) : list string :=
  match s with
  | EmptyString => [EmptyString]
  | String c s' =>
      if Ascii.eqb c sep then EmptyString :: split sep s'
      else match split sep s' with
           | p :: ps => String c p :: ps
           | [] => [String c EmptyString]
           end
  end.

(** ** Reading *)

Record Cookie := {
  ck_Name : string; ck_Value : string; ck_Path : string; ck_Expires : option string;
  ck_MaxAge : Z; ck_Secure : bool; ck_HttpOnly : bool; ck_SameSiteLax : bool;
}.

Definition isToken_name (s : string) : bool := negb (String.eqb s EmptyString) && all_token s.

Definition validCookieValueByte (c : ascii) : bool :=
  (32 <=? byte_val c) && (byte_val c <? 127) && negb (byte_val c =? 34) &&
  negb (byte_val c =? 59) && negb (byte_val c =? 92).
Fixpoint all_bytes (p : ascii -> bool) (s : string) : bool :=
  match s with EmptyString => true | String c s' => p c && all_bytes p s' end.

(** A value within double quotes stands for what is inside. *)
Definition unquote (s : string) : string :=
  match s with
  | String c s' =>
      let n := String.length s' in
      if (byte_val c =? 34) && (0 <? n)%nat && String.eqb (drop_str (n - 1) s') (String c EmptyString)
      then take_str (n - 1) s' else s
  | EmptyString => s
  end.
Definition parseCookieValue (raw : string) : option string :=
  let raw := unquote raw in
  if all_bytes validCookieValueByte raw then Some raw else None.

(** One part of a line, as a name and a value. *)
Definition cookie_part (part : string) : option (string * string) :=
  let part := TrimString part in
  if String.eqb part EmptyString then None
  else
    let '(name, val) := Cut "=" part in
    let name := TrimString name in
    if negb (isToken_name name) then None
    else match parseCookieValue (default EmptyString val) with
         | Some v => Some (name, v)
         | None => None
         end.
Definition readCookies (lines : list string) : list (string * string) :=
  lines ≫= (fun line => omap cookie_part (split ";" (TrimString line))).

(** r.Cookie(name): the value of the first cookie of that name. *)
Definition request_Cookie (req : header) (name : string) : option string :=
  if String.eqb name EmptyString then None
  else snd <$> head (filter (fun p => p.1 = name) (readCookies (default [] (req !! "Cookie"%string)))).

(** ** Printing *)

Fixpoint keep_bytes (p : ascii -> bool) (s : string) : string :=
  match s with
  | EmptyString => EmptyString
  | String c s' => if p c then String c (keep_bytes p s') else keep_bytes p s'
  end.
Definition sanitizeCookieValue (v : string) : string :=
  let v := keep_bytes validCookieValueByte v in
  if contains_byte " " v || contains_byte "," v
  then String "034" (v +:+ String "034" EmptyString) else v.
Definition validCookiePathByte (c : ascii) : bool :=
  (32 <=? byte_val c) && (byte_val c <? 127) && negb (byte_val c =? 59).

(** (c *Cookie) String(). *)
Definition cookie_String (c : Cookie) : string :=
  if negb (isToken_name (ck_Name c)) then EmptyString
  else
    ck_Name c +:+ "=" +:+ sanitizeCookieValue (ck_Value c) +:+
    (if String.eqb (ck_Path c) EmptyString then EmptyString
     else "; Path=" +:+ keep_bytes validCookiePathByte (ck_Path c)) +:+
    (match ck_Expires c with Some t => "; Expires=" +:+ t | None => EmptyString end) +:+
    (if 0 <? ck_MaxAge c then "; Max-Age=" +:+ Itoa (ck_MaxAge c)
     else if ck_MaxAge c <? 0 then "; Max-Age=0" else EmptyString) +:+
    (if ck_HttpOnly c then "; HttpOnly" else EmptyString) +:+
    (if ck_Secure c then "; Secure" else EmptyString) +:+
    (if ck_SameSiteLax c then "; SameSite=Lax" else EmptyString).

Definition SetCookie {V X} (w : ResponseWriter V X) (c : Cookie) : go (hworld V X) unit :=
  let v := cookie_String c in
  if String.eqb v EmptyString then ret tt else AddHeader w "Set-Cookie" v.

(** ** Round trip *)

Lemma all_bytes_app p s t : all_bytes p (s +:+ t) = all_bytes p s && all_bytes p t.
Proof.
  induction s as [|c s IH]; [done|]. rewrite str_app_cons. simpl. by rewrite IH, andb_assoc.
Qed.

Lemma all_bytes_impl (p q : ascii -> bool) s :
  (forall c, p c = true -> q c = true) -> all_bytes p s = true -> all_bytes q s = true.
Proof.
  intros Hpq. induction s as [|c s IH]; [done|]. simpl.
  intros [Hc Hs]%andb_true_iff. by rewrite (Hpq c Hc), (IH Hs).
Qed.

Definition is_not (c d : ascii) : bool := negb (Ascii.eqb d c).

Lemma Cut_app sep s t :
  all_bytes (is_not sep) s = true ->
  Cut sep (s +:+ t) = (s +:+ (Cut sep t).1, (Cut sep t).2).
Proof.
  induction s as [|c s IH]; intros H.
  - rewrite !str_app_nil_l. by destruct (Cut sep t).
  - simpl in H. apply andb_true_iff in H as [Hc%negb_true_iff Hs].
    rewrite !str_app_cons. simpl. by rewrite Hc, (IH Hs).
Qed.

Lemma split_single sep s : all_bytes (is_not sep) s = true -> split sep s = [s].
Proof.
  induction s as [|c s IH]; [done|]. simpl. intros [Hc Hs]%andb_true_iff. unfold is_not in Hc. apply negb_true_iff in Hc.
  by rewrite Hc, (IH Hs).
Qed.

Lemma trim_id s : all_bytes (fun c => negb (is_ascii_space c)) s = true -> TrimString s = s.
Proof.
  intros H. unfold TrimString.
  assert (trim_left s = s) as ->.
  { destruct s as [|c s]; [done|]. simpl in *. apply andb_true_iff in H as [Hc%negb_true_iff _].
    by rewrite Hc. }
  induction s as [|c s IH]; [done|]. simpl in *. apply andb_true_iff in H as [Hc Hs].
  rewrite (IH Hs). apply negb_true_iff in Hc. rewrite Hc. by destruct s.
Qed.

Lemma contains_byte_all c s : contains_byte c s = negb (all_bytes (is_not c) s).
Proof.
  induction s as [|d s IH]; [done|]. simpl. rewrite IH. unfold is_not. by destruct (Ascii.eqb d c).
Qed.

Lemma keep_bytes_all p s : all_bytes p s = true -> keep_bytes p s = s.
Proof.
  induction s as [|c s IH]; [done|]. simpl. intros [Hc Hs]%andb_true_iff. by rewrite Hc, (IH Hs).
Qed.

(** A value that needs no quotes: printable, without space, comma, quote,
    semicolon and backslash. *)
Definition plain_byte (c : ascii) : bool :=
  validCookieValueByte c && is_not " " c && is_not "," c.

(** A fact about every byte is checked on the 256 of them. *)
Fixpoint bytes_below (n : nat) (p : ascii -> bool) : bool :=
  match n with O => true | S n' => p (ascii_of_nat n') && bytes_below n' p end.
Lemma every_byte p : bytes_below 256 p = true -> forall c, p c = true.
Proof.
  intros H c. rewrite <- (ascii_nat_embedding c).
  assert (nat_of_ascii c < 256)%nat as Hc.
  { pose proof (N_ascii_bounded c). unfold nat_of_ascii. lia. }
  revert H Hc. generalize (nat_of_ascii c). generalize 256%nat. intros n.
  induction n as [|n IH]; intros m H Hm; [lia|]. simpl in H. apply andb_true_iff in H as [H1 H2].
  destruct (decide (m = n)) as [->|]; [done|apply IH; [done|lia]].
Qed.

Lemma byte_impl (p q : ascii -> bool) :
  bytes_below 256 (fun c => implb (p c) (q c)) = true -> forall c, p c = true -> q c = true.
Proof. intros H c Hp. pose proof (every_byte _ H c) as Hc. simpl in Hc. by rewrite Hp in Hc. Qed.

(** Bytes that satisfy [p] satisfy the predicate of the goal. *)
Ltac by_bytes p := apply (all_bytes_impl p); [apply byte_impl; by vm_compute|done].

Definition token_byte (c : ascii) : bool := negb (Z.land (octetTypes c) isToken =? 0).
Lemma all_token_bytes s : all_token s = all_bytes token_byte s.
Proof. induction s as [|c s IH]; [done|]. simpl. by rewrite IH. Qed.

Lemma plain_unquote v : all_bytes plain_byte v = true -> unquote v = v.
Proof.
  destruct v as [|c v]; [done|]. simpl. intros [Hc _]%andb_true_iff.
  apply (byte_impl plain_byte (fun c => negb (byte_val c =? 34))) in Hc; [|by vm_compute].
  apply negb_true_iff in Hc. by rewrite Hc.
Qed.

Lemma cookie_part_print name v :
  isToken_name name = true -> all_bytes plain_byte v = true ->
  cookie_part (name +:+ "=" +:+ v) = Some (name, v).
Proof.
  unfold isToken_name. rewrite all_token_bytes. intros [Hne Hn]%andb_true_iff Hv.
  assert (TrimString (name +:+ "=" +:+ v) = name +:+ "=" +:+ v) as Htrim.
  { apply trim_id. rewrite !all_bytes_app, !andb_true_iff.
    split_and!; [by_bytes token_byte|done|by_bytes plain_byte]. }
  unfold cookie_part. rewrite Htrim.
  destruct (String.eqb_spec (name +:+ "=" +:+ v) EmptyString) as [E|_].
  { exfalso. by destruct name. }
  rewrite Cut_app by by_bytes token_byte.
  simpl. rewrite str_app_nil_r, trim_id by by_bytes token_byte.
  unfold isToken_name. rewrite all_token_bytes, Hn. apply negb_true_iff in Hne. rewrite Hne.
  simpl. unfold parseCookieValue. rewrite plain_unquote by done.
  rewrite (all_bytes_impl plain_byte) by (by_bytes plain_byte || done || apply byte_impl; by vm_compute). done.
Qed.

(** What a client sends back for a Set-Cookie header: the part before the
    attributes. *)
Definition sent_back (set_cookie : string) : string := (Cut ";" set_cookie).1.

(** A cookie with a plain value is read back as it was set. *)
Lemma cookie_roundtrip c :
  isToken_name (ck_Name c) = true -> all_bytes plain_byte (ck_Value c) = true ->
  readCookies [sent_back (cookie_String c)] = [(ck_Name c, ck_Value c)].
Proof.
  intros Hn Hv.
  assert (sent_back (cookie_String c) = ck_Name c +:+ "=" +:+ ck_Value c) as ->.
  { unfold sent_back, cookie_String. rewrite Hn. simpl negb. cbv iota.
    assert (sanitizeCookieValue (ck_Value c) = ck_Value c) as ->.
    { unfold sanitizeCookieValue.
      rewrite keep_bytes_all by by_bytes plain_byte.
      rewrite !contains_byte_all.
      rewrite (all_bytes_impl plain_byte) by (done || apply byte_impl; by vm_compute).
      rewrite (all_bytes_impl plain_byte) by (done || apply byte_impl; by vm_compute). done. }
    unfold isToken_name in Hn. rewrite all_token_bytes in Hn. apply andb_true_iff in Hn as [_ Hn].
    rewrite (Cut_app ";" (ck_Name c)) by by_bytes token_byte.
    rewrite (Cut_app ";" "=") by done.
    rewrite (Cut_app ";" (ck_Value c)) by by_bytes plain_byte.
    simpl fst. do 2 f_equal.
    destruct (String.eqb (ck_Path c) EmptyString), (ck_Expires c), (0 <? ck_MaxAge c),
      (ck_MaxAge c <? 0), (ck_HttpOnly c), (ck_Secure c), (ck_SameSiteLax c);
      simpl; by rewrite ?str_app_nil_r. }
  unfold readCookies. simpl.
  assert (all_bytes (is_not ";") (ck_Name c +:+ "=" +:+ ck_Value c) = true /\
    all_bytes (fun c => negb (is_ascii_space c)) (ck_Name c +:+ "=" +:+ ck_Value c) = true) as [H1 H2].
  { unfold isToken_name in Hn. rewrite all_token_bytes in Hn. apply andb_true_iff in Hn as [_ Hn].
    rewrite !all_bytes_app, !andb_true_iff.
    split_and!; [by_bytes token_byte|done|by_bytes plain_byte|by_bytes token_byte|done|by_bytes plain_byte]. }
  rewrite (trim_id _ H2), (split_single _ _ H1). simpl.
  by rewrite (cookie_part_print _ _ Hn Hv).
Qed.
