(* ===== verification/Params.v ===== *)
(** * Params: src/server/params/params.go

    The decoder of request parameters.  A struct type is the list of its visible
    fields, each with its tags and, for the cookies, what reflection can do with
    it.  The decoders of gorilla/schema and encoding/json, the parsers of media
    types and query strings, and the parsing of the form are parameters.  The
    entry of a type is computed for each call; its cache is in DecoderCache. *)

From Stdlib Require Import ZArith Ascii String Lia.
From S2P Require Import Prelude Errors Accept Http Cookies.

(** ** Base64 *)

(** The sextet of a character of the URL alphabet. *)
Definition b64url_val (c : ascii) : option Z :=
  let v := byte_val c in
  if (65 <=? v) && (v <=? 90) then Some (v - 65)
  else if (97 <=? v) && (v <=? 122) then Some (v - 71)
  else if (48 <=? v) && (v <=? 57) then Some (v + 4)
  else if v =? 45 then Some 62
  else if v =? 95 then Some 63
  else None.

Definition byte_of (z : Z) : ascii := ascii_of_N (Z.to_N (z mod 256)).

(** Groups of four sextets, the last one of two or three; spare bits are
    dropped, and a single sextet at the end is an error. *)
Fixpoint from_sextets (l : list Z) : option string :=
  match l with
  | a :: b :: c :: d :: l' =>
      match from_sextets l' with
      | Some s => Some (String (byte_of (a * 4 + b / 16))
          (String (byte_of (b * 16 + c / 4)) (String (byte_of (c * 64 + d)) s)))
      | None => None
      end
  | [a; b; c] => Some (String (byte_of (a * 4 + b / 16)) (String (byte_of (b * 16 + c / 4)) EmptyString))
  | [a; b] => Some (String (byte_of (a * 4 + b / 16)) EmptyString)
  | [_] => None
  | [] => Some EmptyString
  end.

Fixpoint sextets (s : string) : option (list Z) :=
  match s with
  | EmptyString => Some []
  | String c s' =>
      if (byte_val c =? 10) || (byte_val c =? 13) then sextets s'
      else match b64url_val c, sextets s' with
           | Some v, Some l => Some (v :: l)
           | _, _ => None
           end
  end.

(** base64.RawURLEncoding.DecodeString; the position of the error is not kept. *)
Definition DecodeString (s : string) : option string :=
  match sextets s with Some l => from_sextets l | None => None end.
Definition CorruptInputError : error := ErrorString "illegal base64 data".

(** ** Struct types *)

(** A field that a cookie may be decoded into: a string, a pointer to string,
    or something else; [ptr_get] reads the string a pointer points to and
    [ptr_set] replaces it. *)
Inductive field_kind {T : Type} :=
| KString (set : string -> T -> T)
| KStringPtr (ptr_get : T -> option string) (ptr_set : string -> T -> T)
| KOther.
Arguments field_kind : clear implicits.

Record struct_field {T : Type} := {
  f_Name : string;
  f_Exported : bool;
  f_path : string;
  f_cookie : string;
  f_kind : field_kind T;
  (* json.NewDecoder on a string, with unknown fields disallowed, into the
     field; the boolean is More() after it *)
  f_json : string -> T -> res error (T * bool);
}.
Arguments struct_field : clear implicits.

Record cookieEntry {T : Type} := {
  cookieName : string; raw : bool; json : bool; dst : struct_field T;
}.
Arguments cookieEntry : clear implicits.
Record cacheEntry {T : Type} := { pathValues : list string; cookieValues : list (cookieEntry T) }.
Arguments cacheEntry : clear implicits.

Notation values := (gmap string (list string)).

(** strings.TrimSpace on a tag, which is ASCII. *)
Definition is_space (c : ascii) : bool :=
  is_ascii_space c || (byte_val c =? 11) || (byte_val c =? 12).
Fixpoint trim_start (s : string) : string :=
  match s with String c s' => if is_space c then trim_start s' else s | EmptyString => EmptyString end.
Fixpoint trim_end (s : string) : string :=
  match s with
  | EmptyString => EmptyString
  | String c s' =>
      match trim_end s' with
      | EmptyString => if is_space c then EmptyString else String c EmptyString
      | t => String c t
      end
  end.
Definition TrimSpace (s : string) : string := trim_end (trim_start s).

Definition tag_given (tag : string) : bool := negb (String.eqb tag EmptyString) && negb (String.eqb tag "-").

(** One field in the loop of cacheSet. *)
Definition cache_field {T} (entry : cacheEntry T) (f : struct_field T) : cacheEntry T :=
  if negb (f_Exported f) then entry else
  let path := TrimSpace (f_path f) in
  let entry := if tag_given path
    then {| pathValues := pathValues entry ++ [path]; cookieValues := cookieValues entry |} else entry in
  let ck := TrimSpace (f_cookie f) in
  if tag_given ck then
    let '(name, opts) := Cut "," ck in
    let opts := TrimSpace (default EmptyString opts) in
    {| pathValues := pathValues entry;
       cookieValues := cookieValues entry ++ [{| cookieName := TrimSpace name;
         raw := String.eqb opts "raw"; json := String.eqb opts "json"; dst := f |}] |}
  else entry.
Definition cacheSet {T} (fields : list (struct_field T)) : cacheEntry T :=
  foldl cache_field {| pathValues := []; cookieValues := [] |} fields.

(** ** Decoding *)

Definition err_string_field (name : string) : error :=
  Errorf ("params: struct field " +:+ name +:+ " must be a string or pointer to string") None.

Definition decodeCookie {T} (req : header) (v : T) (entry : cookieEntry T) : res error T :=
  let fld := dst entry in
  match request_Cookie req (cookieName entry) with
  | None => Ok v
  | Some ckVal =>
      match (if negb (raw entry) then DecodeString ckVal else Some ckVal) with
      | None => Err (Errorf ("params: cookie " +:+ cookieName entry +:+ " is not base64-url-encoded: "
                             +:+ "illegal base64 data") (Some CorruptInputError))
      | Some ckVal =>
          if json entry then
            match f_json fld ckVal v with
            | Err err => Err (Errorf ("params: cookie " +:+ cookieName entry +:+
                                      " failed to JSON unmarshal: ") (Some err))
            | Ok (v', more) =>
                if (more : bool) then
                  Err (Errorf ("params: cookie " +:+ cookieName entry +:+ " JSON contains extraneous values") None)
                else Ok v'
            end
          else
            match f_kind fld with
            | KStringPtr ptr_get ptr_set =>
                match ptr_get v with
                (* Elem() of a nil pointer is the zero Value, whose kind is Invalid *)
                | None => Err (err_string_field (f_Name fld))
                | Some _ => Ok (ptr_set ckVal v)
                end
            | KString set => Ok (set ckVal v)
            | KOther => Err (err_string_field (f_Name fld))
            end
      end
  end.

Fixpoint decode_cookies {T} (req : header) (v : T) (entries : list (cookieEntry T)) : res error T :=
  match entries with
  | [] => Ok v
  | ck :: entries' =>
      match decodeCookie req v ck with
      | Ok v' => decode_cookies req v' entries'
      | Err err => Err err
      end
  end.

Section Decode.
Context {V X C : Type}.
Local Notation W := (hworld V X).
Local Notation request := (request C).
Local Open Scope go_scope.

(** net/http, mime and net/url. *)
Context (PathValue : request -> string -> string) (ParseMediaType : string -> string).
Context (Query : request -> values) (ParseForm : request -> go W (res error values)).

(** What the decoder knows of a destination type: its fields, gorilla/schema's
    decoders with the options of init, the strict JSON decoder on the body of
    the request with More() after it, and its Validate method, if any. *)
Record struct_type {T : Type} := {
  st_fields : list (struct_field T);
  d_path : T -> values -> res error T;
  d_form : T -> values -> res error T;
  body_json : request -> T -> go W (res error (T * bool));
  st_Validate : option (T -> go W (option error));
}.
Arguments struct_type : clear implicits.

(** What the body holds. *)
Inductive content := CNone | CForm (formValues : values) | CJson.

Definition read_content (r : request) (req : header) : go W (res error content) :=
  if negb (r_content_length r =? 0) then
    let ct := ParseMediaType (hdr_Get req "Content-Type") in
    if String.eqb ct "application/x-www-form-urlencoded" then
      let? form := ParseForm r in ret (Ok (CForm form))
    else if String.eqb ct "application/json" then ret (Ok CJson)
    else ret (Err (Errorf ("params: unsupported content type: " +:+ ct) None))
  else ret (Ok CNone).

Definition Decode {T} (ty : struct_type T) (r : request) (dst : T) : go W (res error T) :=
  let cache := cacheSet (st_fields ty) in
  let! req := gets (fun w => hw_req_header w) in
  let pathVals : values := list_to_map ((fun v => (v, [PathValue r v])) <$> pathValues cache) in
  let? c := read_content r req in
  let formValues := match c with CForm form => form | _ => Query r end in
  let? dst := ret (if bool_decide (pathVals = ∅) then Ok dst else d_path ty dst pathVals) in
  let? dst := ret (decode_cookies req dst (cookieValues cache)) in
  let? dst := ret (if bool_decide (formValues = ∅) then Ok dst else d_form ty dst formValues) in
  let? dst := match c with
              | CJson =>
                  let? x := body_json ty r dst in
                  ret (if (x.2 : bool) then Err (ErrorString "params: JSON body contains extraneous values")
                       else Ok x.1)
              | _ => ret (Ok dst)
              end in
  match st_Validate ty with
  | Some validate =>
      let! err := validate dst in
      ret (nil_or err dst)
  | None => ret (Ok dst)
  end.
End Decode.
Arguments struct_type : clear implicits.
