(* ===== verification/DecoderCache.v ===== *)
(** * DecoderCache: the cache of a params.Decoder

    The sync.Map of src/server/params/params.go, shared by the requests that
    decode at the same time: cacheGet, the end of cacheSet, and the steps of any
    number of calls of Decode on it.  Decode of Params takes the entry of its
    type directly; here is why it may. *)

From Stdlib Require Import ZArith String Lia.
From stdpp Require Import gmap.
From S2P Require Import Prelude Errors Params.

Section Cache.
(** reflect.Type, and the visible fields of a struct type. *)
Context {K : Type} `{Countable K} (fields : K -> {T : Type & list (struct_field T)}).

(** An entry, whatever the type it is for. *)
Definition any_entry : Type := {T : Type & cacheEntry T}.
Definition entry_of (t : K) : any_entry := existT _ (cacheSet (projT2 (fields t))).

Definition cacheGet (d : gmap K any_entry) (t : K) : option any_entry := d !! t.
(** cache.LoadOrStore. *)
Definition LoadOrStore (d : gmap K any_entry) (t : K) (entry : any_entry) : any_entry * bool * gmap K any_entry :=
  match d !! t with
  | Some v => (v, true, d)
  | None => (entry, false, <[t := entry]> d)
  end.
(** cacheSet on the cache: the entry, and whether it was set by this call. *)
Definition cacheSet_store (d : gmap K any_entry) (t : K) : any_entry * bool * gmap K any_entry :=
  let '(v, loaded, d) := LoadOrStore d t (entry_of t) in (v, negb loaded, d).

(** A call of Decode, up to the entry that it goes on with. *)
Inductive caller :=
| Looks (t : K)
| Missed (t : K)
| Has (t : K) (entry : any_entry).
Definition type_of (c : caller) : K := match c with Looks t | Missed t | Has t _ => t end.

(** One step of a caller; between two steps the others may run. *)
Definition caller_step (d : gmap K any_entry) (c : caller) : caller * gmap K any_entry :=
  match c with
  | Looks t => match cacheGet d t with Some e => (Has t e, d) | None => (Missed t, d) end
  | Missed t => let '(e, _, d) := cacheSet_store d t in (Has t e, d)
  | Has t e => (Has t e, d)
  end.

Inductive cache_step : gmap K any_entry * list caller -> gmap K any_entry * list caller -> Prop :=
| step_caller d l i c c' d' : l !! i = Some c -> caller_step d c = (c', d') -> cache_step (d, l) (d', <[i := c']> l).

Definition cache_ok (d : gmap K any_entry) : Prop := forall t e, d !! t = Some e -> e = entry_of t.
Definition caller_ok (c : caller) : Prop := match c with Has t e => e = entry_of t | _ => True end.

Lemma caller_step_ok d c c' d' :
  cache_ok d -> caller_ok c -> caller_step d c = (c', d') ->
  cache_ok d' /\ caller_ok c' /\ type_of c' = type_of c /\ d ⊆ d'.
Proof.
  intros Hd Hc E. destruct c as [t|t|t e]; simpl in E; unfold cacheGet, cacheSet_store, LoadOrStore in E.
  - destruct (d !! t) as [e|] eqn:Et; injection E as <- <-; split_and!; try done. by apply Hd.
  - destruct (d !! t) as [e|] eqn:Et; injection E as <- <-; split_and!; try done.
    + by apply Hd.
    + intros t' e [[<- <-]|[_ He]]%lookup_insert_Some; [done|by apply Hd].
    + by apply insert_subseteq.
  - by injection E as <- <-.
Qed.

(** Whatever the order of the steps, a caller goes on with the entry of its type,
    the one that Decode takes; an entry that is in the cache stays. *)
Lemma cache_transparent d l d' l' :
  cache_ok d -> Forall caller_ok l -> rtc cache_step (d, l) (d', l') ->
  cache_ok d' /\ Forall caller_ok l' /\ d ⊆ d' /\ type_of <$> l' = type_of <$> l.
Proof.
  intros Hd Hl Hr. remember (d, l) as x eqn:Ex. remember (d', l') as y eqn:Ey.
  revert d l Hd Hl Ex. induction Hr as [x|x y z Hs _ IH]; intros d l Hd Hl ->; [by injection Ey as -> ->|].
  inversion Hs as [d0 l0 i c c' d1 Hi E]; subst.
  destruct (caller_step_ok d c c' d1) as (Hd1 & Hc' & Ht & Hsub); [done|by eapply Forall_lookup_1|done|].
  destruct (IH eq_refl d1 (<[i := c']> l)) as (Hd2 & Hl2 & Hsub2 & Htypes); [done|by apply Forall_insert|done|].
  split_and!; [done|done|by etransitivity|]. rewrite Htypes, list_fmap_insert, Ht.
  apply list_insert_id. by rewrite list_lookup_fmap, Hi.
Qed.

(** A caller has its entry after two of its own steps. *)
Lemma caller_two_steps d d1 d2 c c1 c2 d3 :
  caller_step d c = (c1, d1) -> caller_step d2 c1 = (c2, d3) -> exists e, c2 = Has (type_of c) e.
Proof.
  intros E1 E2. destruct c as [t|t|t e]; simpl in *; unfold cacheGet, cacheSet_store, LoadOrStore in *;
    repeat case_match; simplify_eq/=; eauto; unfold cacheSet_store, LoadOrStore in *; repeat case_match; simplify_eq/=; eauto.
Qed.
End Cache.
