(* ===== verification/CtxVals.v ===== *)
(** * CtxVals: src/ctxvals/ctxvals.go

    Values stored in a context.  Loggers and servers are pointers, a number
    each; the container of log key-value pairs is a map shared by every context
    derived from the one that holds it. *)

From Stdlib Require Import ZArith String Lia.
From S2P Require Import Prelude Errors Accept Http.

Section CtxVals.
Context {V X C : Type}.
Local Notation W := (hworld V X).
Local Notation context := (context C).
(** slog.Default() *)
Context (slog_Default : Z).

Definition WithLogger (ctx : context) (logger : Z) : context :=
  {| cx_logger := Some logger; cx_kvs := cx_kvs ctx; cx_server := cx_server ctx;
     cx_addr := cx_addr ctx; cx_app := cx_app ctx |}.
Definition Logger (ctx : context) : option Z := cx_logger ctx.
Definition LoggerOr (ctx : context) : Z :=
  match Logger ctx with None => slog_Default | Some l => l end.

Definition WithKeyValue (ctx : context) : go W context := fun w =>
  let x := fresh (dom (hw_kvs w)) in
  (Ret {| cx_logger := cx_logger ctx; cx_kvs := Some x; cx_server := cx_server ctx;
          cx_addr := cx_addr ctx; cx_app := cx_app ctx |}, set_kvs (<[x := ∅]>) w).

Definition SetKeyValue (ctx : context) (key : string) (value : V) : go W unit := fun w =>
  match cx_kvs ctx with
  | Some x => (Ret tt, set_kvs (alter (<[key := value]>) x) w)
  | None => (Ret tt, w)
  end.

Definition ConsumeKeyValuePairs (ctx : context) : go W (gmap string V) := fun w =>
  match cx_kvs ctx with
  | Some x => (Ret (default ∅ (hw_kvs w !! x)), set_kvs (alter (fun _ => ∅) x) w)
  | None => (Ret ∅, w)
  end.

Definition HTTPServer (ctx : context) : option Z := cx_server ctx.
Definition LocalAddr (ctx : context) : option string := cx_addr ctx.

(** Setting pairs one after the other. *)
Fixpoint set_pairs (ctx : context) (l : list (string * V)) : go W unit :=
  match l with
  | [] => ret tt
  | (k, v) :: l' => bind (SetKeyValue ctx k v) (fun _ => set_pairs ctx l')
  end.

Lemma set_pairs_run ctx x l m w :
  cx_kvs ctx = Some x -> hw_kvs w !! x = Some m ->
  exists w', set_pairs ctx l w = (Ret tt, w') /\
    hw_kvs w' = <[x := foldl (fun m p => <[p.1 := p.2]> m) m l]> (hw_kvs w).
Proof.
  intros Hx. revert m w. induction l as [|[k v] l IH]; intros m w Hm.
  - exists w. split; [done|]. simpl. by rewrite insert_id.
  - simpl. unfold SetKeyValue. rewrite Hx.
    destruct (IH (<[k := v]> m) (set_kvs (alter (<[k := v]>) x) w)) as (w' & E & Ekvs).
    { simpl. by rewrite lookup_alter_eq, Hm. }
    exists w'. unfold bind. rewrite E. split; [done|]. rewrite Ekvs. simpl.
    apply map_eq. intros y. destruct (decide (x = y)) as [->|Hne];
      [by rewrite !lookup_insert_eq|by rewrite !lookup_insert_ne, lookup_alter_ne].
Qed.

(** The pairs set in a context are read once: a container made by
    WithKeyValue returns to the first ConsumeKeyValuePairs the last value set
    for each key and nothing else, and nothing to the next; containers of other
    contexts are not touched.  Without a container the pairs are dropped. *)
Theorem Consume_once ctx l w :
  (exists ctx' w', bind (WithKeyValue ctx) (fun c => bind (set_pairs c l) (fun _ =>
      bind (ConsumeKeyValuePairs c) (fun m => bind (ConsumeKeyValuePairs c) (fun m' =>
        ret (c, m, m'))))) w
      = (Ret (ctx', foldl (fun m p => <[p.1 := p.2]> m) ∅ l, ∅), w') /\
    forall x, is_Some (hw_kvs w !! x) -> hw_kvs w' !! x = hw_kvs w !! x) /\
  match cx_kvs ctx with
  | None => set_pairs ctx l w = (Ret tt, w) /\ ConsumeKeyValuePairs ctx w = (Ret ∅, w)
  | Some _ => True
  end.
Proof.
  split.
  - unfold WithKeyValue at 1, bind at 1. set (x := fresh (dom (hw_kvs w))).
    set (c := {| cx_logger := cx_logger ctx; cx_kvs := Some x; cx_server := cx_server ctx;
                 cx_addr := cx_addr ctx; cx_app := cx_app ctx |}).
    destruct (set_pairs_run c x l ∅ (set_kvs (<[x := ∅]>) w)) as (w1 & E & Ekvs);
      [done|simpl; by rewrite lookup_insert_eq|].
    rewrite (bind_run _ _ _ _ _ E). unfold ConsumeKeyValuePairs, bind. simpl. rewrite Ekvs. simpl.
    do 2 eexists. split.
    + unfold ret. rewrite lookup_insert_eq, lookup_alter_eq, lookup_insert_eq. simpl. reflexivity.
    + intros y Hy. simpl. rewrite Ekvs. simpl.
      assert (x <> y) as Hne.
      { intros <-. apply (is_fresh (dom (hw_kvs w))). fold x. by apply elem_of_dom. }
      by rewrite !lookup_alter_ne, !lookup_insert_ne.
  - destruct (cx_kvs ctx) eqn:Ex; [done|]. split; [|unfold ConsumeKeyValuePairs; by rewrite Ex].
    induction l as [|[k v] l IH]; [done|]. simpl. unfold SetKeyValue, bind. by rewrite Ex, IH.
Qed.
End CtxVals.
