(* ===== verification/Acctctx.v ===== *)
(** * Acctctx: src/accounts/acctctx/acctctx.go

    The account and the session that a request's context holds.  A session is
    a pointer: the sessions of the application are a list, addressed by
    position, so that ResetSession and ReplaceSessionData write through every
    context that holds the pointer.  The values of a context also include the
    keys of pgdb, of type [T]. *)

From Stdlib Require Import ZArith Ascii String Lia.
From S2P Require Import Prelude Errors Sql Accounts Accept Http.

(** json.RawMessage: [None] is the nil slice. *)
Definition RawMessage : Type := option string.

(** The data of a session is never empty. *)
Record session := { ssn_id : string; ssn_data : string; ssn_dirty : bool }.

(** What the application stores in a context. *)
Record acct_values {T : Type} := {
  ac_pgdb : T;
  ac_account : option Account;
  ac_session : option nat;
}.
Arguments acct_values : clear implicits.

Definition nullJSON : string := "null".

(** if len(ssnData) == 0 { ssnData = nullJSON } *)
Definition or_null (ssnData : RawMessage) : string :=
  match ssnData with
  | None => nullJSON
  | Some s => if String.eqb s EmptyString then nullJSON else s
  end.

Section Acctctx.
Context {T X : Type} `{!Lens X (list session)}.
Local Notation context := (context (acct_values T)).

Definition with_app (ctx : context) (v : acct_values T) : context :=
  {| cx_logger := cx_logger ctx; cx_kvs := cx_kvs ctx; cx_server := cx_server ctx;
     cx_addr := cx_addr ctx; cx_app := v |}.

Definition WithAccount (ctx : context) (acct : option Account) : context :=
  with_app ctx {| ac_pgdb := ac_pgdb (cx_app ctx); ac_account := acct;
                  ac_session := ac_session (cx_app ctx) |}.
Definition Account (ctx : context) : option Account := ac_account (cx_app ctx).

(** The session that a context points to. *)
Definition session_of (ctx : context) (w : X) : option session :=
  match ac_session (cx_app ctx) with
  | Some x => (view w : list session) !! x
  | None => None
  end.
Definition write_session (ctx : context) (s : session) : go X unit :=
  match ac_session (cx_app ctx) with
  | Some x => modify (fun w => update (<[x := s]> (view w : list session)) w)
  | None => ret tt
  end.

Definition WithSession (ctx : context) (ssnID : string) (ssnData : RawMessage) : go X context := fun w =>
  let ssns : list session := view w in
  (Ret (with_app ctx {| ac_pgdb := ac_pgdb (cx_app ctx); ac_account := ac_account (cx_app ctx);
                        ac_session := Some (length ssns) |}),
   update (ssns ++ [{| ssn_id := ssnID; ssn_data := or_null ssnData; ssn_dirty := false |}]) w).

Definition ResetSession (ctx : context) (ssnID : string) (ssnData : RawMessage) : go X unit :=
  bind (gets (session_of ctx)) (fun ssn =>
    match ssn with
    | None => panic "ResetSession called without an existing Session in the context"
    | Some _ => write_session ctx {| ssn_id := ssnID; ssn_data := or_null ssnData; ssn_dirty := false |}
    end).

Definition SessionID (ctx : context) : go X string :=
  gets (fun w => match session_of ctx w with Some ssn => ssn_id ssn | None => EmptyString end).

Definition Session (ctx : context) : go X (string * RawMessage * bool) :=
  gets (fun w => match session_of ctx w with
                 | Some ssn => (ssn_id ssn, Some (ssn_data ssn), ssn_dirty ssn)
                 | None => (EmptyString, None, false)
                 end).

(** The error is nil when the data was replaced. *)
Definition ReplaceSessionData {Any} (json_Marshal : Any -> res error string) (ctx : context) (p : Any)
    : go X (option error) :=
  bind (gets (session_of ctx)) (fun ssn =>
    match ssn with
    | None => ret (Some (New "no existing session data to replace"))
    | Some ssn =>
        match json_Marshal p with
        | Err err => ret (Some err)
        | Ok data => bind (write_session ctx {| ssn_id := ssn_id ssn; ssn_data := data; ssn_dirty := true |})
                       (fun _ => ret None)
        end
    end).

(** ** Reading back *)

Lemma session_of_write ctx s w w' :
  write_session ctx s w = (Ret tt, w') -> is_Some (session_of ctx w) -> session_of ctx w' = Some s.
Proof.
  unfold write_session, session_of. destruct (ac_session (cx_app ctx)) as [x|]; [|by intros _ [? ?]].
  intros [= <-] Hx. rewrite view_update. by rewrite list_lookup_insert_eq by (apply lookup_lt_is_Some; done).
Qed.

Lemma session_of_WithSession ctx i d w ctx' w' :
  WithSession ctx i d w = (Ret ctx', w') ->
  session_of ctx' w' = Some {| ssn_id := i; ssn_data := or_null d; ssn_dirty := false |} /\
  ac_pgdb (cx_app ctx') = ac_pgdb (cx_app ctx) /\ Account ctx' = Account ctx.
Proof.
  intros [= <- <-]. split; [|done]. unfold session_of. simpl. rewrite view_update.
  by rewrite lookup_app_r, Nat.sub_diag by lia.
Qed.

(** Two contexts that hold the same session pointer. *)
Definition same_session (c1 c2 : context) : Prop := ac_session (cx_app c1) = ac_session (cx_app c2).

Lemma session_of_same c1 c2 w : same_session c1 c2 -> session_of c1 w = session_of c2 w.
Proof. unfold same_session, session_of. by intros ->. Qed.

(** The session as a client of the package sees it. *)
Definition sees (ctx : context) (w : X) (x : string * RawMessage * bool) : Prop :=
  Session ctx w = (Ret x, w) /\ SessionID ctx w = (Ret x.1.1, w).

Lemma sees_session ctx w ssn :
  session_of ctx w = Some ssn -> sees ctx w (ssn_id ssn, Some (ssn_data ssn), ssn_dirty ssn).
Proof. intros E. unfold sees, Session, SessionID, gets. by rewrite E. Qed.

(** Reading what was written: WithSession gives a context of its own that
    reads a clean session with the data, or null when there is none, and
    leaves the account and the session of the context it was made from alone;
    ResetSession and ReplaceSessionData are seen by every context that holds
    the same session, ReplaceSessionData marks it dirty and keeps its
    identifier, and without a session one panics and the other fails. *)
Theorem session_writes {Any} (json_Marshal : Any -> res error string) (c1 c2 : context) i d p w :
  same_session c1 c2 ->
  (exists c w1, WithSession c1 i d w = (Ret c, w1) /\ sees c w1 (i, Some (or_null d), false) /\
     Account c = Account c1 /\ (is_Some (session_of c1 w) -> session_of c1 w1 = session_of c1 w)) /\
  match session_of c1 w with
  | Some ssn =>
      (exists w1, ResetSession c1 i d w = (Ret tt, w1) /\ sees c2 w1 (i, Some (or_null d), false)) /\
      match json_Marshal p with
      | Ok j => exists w1, ReplaceSessionData json_Marshal c1 p w = (Ret None, w1) /\
          sees c2 w1 (ssn_id ssn, Some j, true)
      | Err e => ReplaceSessionData json_Marshal c1 p w = (Ret (Some e), w)
      end
  | None => (exists v, ResetSession c1 i d w = (Panicked v, w)) /\
      exists e, ReplaceSessionData json_Marshal c1 p w = (Ret (Some e), w)
  end.
Proof.
  intros Hsame. split.
  - do 2 eexists. split; [reflexivity|]. split; [|split; [done|]].
    + apply (sees_session _ _ {| ssn_id := i; ssn_data := or_null d; ssn_dirty := false |}).
      by eapply (session_of_WithSession c1 i d w).
    + unfold session_of. destruct (ac_session (cx_app c1)) as [x|]; [|by intros [? ?]].
      intros Hx. rewrite view_update, lookup_app_l; [done|]. by apply lookup_lt_is_Some.
  - unfold ResetSession, ReplaceSessionData, bind, gets.
    destruct (session_of c1 w) as [ssn|] eqn:E; [|split; by eexists].
    assert (Hw : forall s, exists w1, write_session c1 s w = (Ret tt, w1) /\
      sees c2 w1 (ssn_id s, Some (ssn_data s), ssn_dirty s)).
    { intros s. destruct (write_session c1 s w) as [o w1] eqn:Ew.
      assert (o = Ret tt) as -> by (unfold write_session in Ew; by destruct (ac_session (cx_app c1)); injection Ew as <- <-).
      exists w1. split; [done|]. apply sees_session. rewrite <- (session_of_same c1 c2) by done.
      by eapply session_of_write. }
    split; [apply (Hw {| ssn_id := i; ssn_data := or_null d; ssn_dirty := false |})|].
    destruct (json_Marshal p) as [j|e]; [|done].
    destruct (Hw {| ssn_id := ssn_id ssn; ssn_data := j; ssn_dirty := true |}) as (w1 & -> & Hs). by exists w1.
Qed.
End Acctctx.
