(* ===== verification/Acctmw.v ===== *)
(** * Acctmw: src/accounts/acctmw

    The middleware of accounts: Session, Login, Logout, Register, Delete,
    Authorize and Deny, on the tokens, the accounts, the context values and the
    parameter decoder of the repository.  The hashing of passwords (argon2id)
    and the decoders that Params leaves open are parameters.  A comparison of a
    password has no effect: the one that login makes for an unknown email, to
    take the same time, is there and ignored. *)

From Stdlib Require Import ZArith Ascii String Lia.
From S2P Require Import Prelude Errors Pgdb Sql Tokens Accounts Accept Http Cookies Params Acctctx.

(** ** accounts.go: constants and validation *)

Definition Second : Z := Tokens.Second.
Definition Minute : Z := 60 * Second.
Definition Hour : Z := 60 * Minute.
Definition shortSessionDuration : Z := 12 * Hour.
Definition idleAnonymousSessionDuration : Z := 30 * Minute.
Definition anonymousSessionDuration : Z := shortSessionDuration.
Definition longSessionDuration : Z := 30 * 24 * Hour.
Definition defaultSessionTokenType : string := "session".

Definition ActionAuthorize : string := "authorize".
Definition ActionDelete : string := "delete".
Definition ActionDeny : string := "deny".
Definition ActionLogin : string := "login".
Definition ActionLogout : string := "logout".
Definition ActionRegister : string := "register".
Definition ActionSession : string := "session".

(** An untyped nil error, or an error of the package with its code 400. *)
Definition invalid (msg parameter act : string) : go heap (option error) :=
  TagNew msg AccountsTag ["code"; "400"; "parameter"; parameter; "action"; act]%string.

Definition validateEmail (email act : string) : go heap (option error) :=
  let '(before, after) := Cut "@" email in
  if String.eqb before EmptyString || String.eqb (default EmptyString after) EmptyString then
    if String.eqb email EmptyString then invalid "email is missing" "email" act
    else invalid "invalid email" "email" act
  else ret None.

Definition validatePassword (pwd act : string) : go heap (option error) :=
  if String.eqb pwd EmptyString then invalid "password is missing" "password" act else ret None.

(** if err := m; err != nil { return err } *)
Definition or_else {W} (m k : go W (option error)) : go W (option error) :=
  bind m (fun err => match err with Some e => ret (Some e) | None => k end).

Record loginInput := { li_Email : string; li_Password : string; li_RememberMe : bool }.
Definition login_Validate (i : loginInput) : go heap (option error) :=
  or_else (validateEmail (li_Email i) ActionLogin) (validatePassword (li_Password i) ActionLogin).

Definition failPwdHash : string :=
  "$argon2id$v=19$m=65536,t=1,p=8$u/bcVmH/87u/sZTTdq1Wdg$BWJfiHsq6IvDEF8PSPE+UnNxV7vdafKSQtIXVmdG4Ro".

Record registerInput := { ri_Email : string; ri_Password : string; ri_Password2 : string }.
Definition register_Validate (i : registerInput) : go heap (option error) :=
  or_else (validateEmail (ri_Email i) ActionRegister)
    (or_else (validatePassword (ri_Password i) ActionRegister)
       (if negb (String.eqb (ri_Password i) (ri_Password2 i))
        then invalid "passwords do not match" "password2" ActionRegister else ret None)).

Record deleteInput := { di_Password : string }.
Definition delete_Validate (i : deleteInput) : go heap (option error) :=
  validatePassword (di_Password i) ActionLogin.

(** Whether the session is kept, and how long. *)
Definition authenticatedSessionDurations (rememberMe : bool) : Z * Z :=
  if rememberMe then (longSessionDuration, Z.quot longSessionDuration Second)
  else (shortSessionDuration, 0).

Definition AccessAnyone : string := "?".
Definition AccessAuthenticated : string := "*".
Definition AccessVerified : string := "@".

Definition session_cookie (value : string) (maxAge : Z) (expires : option string) : Cookie :=
  {| ck_Name := "__Host-ssn"; ck_Value := value; ck_Path := "/"; ck_Expires := expires;
     ck_MaxAge := maxAge; ck_Secure := true; ck_HttpOnly := true; ck_SameSiteLax := true |}.
(** time.Unix(0, 0), in the format of the header. *)
Definition epoch : string := "Thu, 01 Jan 1970 00:00:00 GMT".

Section Acctmw.
Context {V X D DB P : Type}.
Context {LD : Lens X D} {LH : Lens X heap} {LS : Lens X (list session)}.
Context {LA : Lens DB accounts_db} {LT : Lens DB tokens_table}.
Local Notation W := (hworld V X).
Local Notation values_ := (acct_values (Ctx D (Sql DB))).
Local Notation context := (context values_).
Local Notation request := (request values_).
Local Notation Handler := (Handler V X values_).
Local Notation ResponseWriter := (ResponseWriter V X).
Local Open Scope go_scope.

Record Accounts := {
  Conn : Connection D (Sql DB);
  Tokens_ : Tokens D DB;
  PasswordValidator : option (string -> option error);
  AllowRememberMe : bool;
  ErrorHandler : ResponseWriter -> request -> error -> go W unit;
  Argon2Params : option P;
  SessionTokenType : string;
}.

(** The environment: the database server's choices, the retry loop's
    environment, randomness, the JSON encoding of raw messages, and the hashes
    with the parameters of the configuration. *)
Context (uuidv7 : Z -> accounts_db -> nat -> uuid) (array_order : list string -> list string).
Context (env : Env D) (rand_Read : Z -> go D (list Z)) (marshal_raw : RawMessage -> res error string).
Context (CreateHash : string -> P -> go X (res error string)) (DefaultParams : P).
Context (ComparePasswordAndHash : string -> string -> res error bool).

(** What params.Decode uses, and the decoders of the input types. *)
Context (PathValue : request -> string -> string) (ParseMediaType : string -> string).
Context (Query : request -> values) (ParseForm : request -> go W (res error values)).
Record codec {I : Type} := {
  zero : I;
  by_path : I -> values -> res error I;
  by_form : I -> values -> res error I;
  by_json : request -> I -> go W (res error (I * bool));
}.
Arguments codec : clear implicits.
Context (login_codec : codec loginInput) (register_codec : codec registerInput).
Context (delete_codec : codec deleteInput) (empty_codec : codec unit).

Context (a : Accounts).

(** A component's operation, in the world of a request. *)
Definition in_db {A} (m : go D A) : go W A := zoom (zoom m : go X A).
Definition in_heap {A} (m : go heap A) : go W A := zoom (zoom m : go X A).
Definition in_app {A} (m : go X A) : go W A := zoom m.

Definition pgctx (r : request) : Ctx D (Sql DB) := ac_pgdb (cx_app (r_ctx r)).

(** The input types have no field for a path value or a cookie. *)
Definition input_type {I} (c : codec I) (validate : option (I -> go heap (option error)))
    : struct_type V X values_ I :=
  {| st_fields := []; d_path := by_path c; d_form := by_form c; body_json := by_json c;
     st_Validate := (fun f i => in_heap (f i)) <$> validate |}.
Definition decode {I} (c : codec I) (validate : option (I -> go heap (option error))) (r : request)
    : go W (res error I) :=
  Decode PathValue ParseMediaType Query ParseForm (input_type c validate) r (zero c).

Definition sessionTokenType : string :=
  if String.eqb (SessionTokenType a) EmptyString then defaultSessionTokenType else SessionTokenType a.

Definition argon2Params : P := default DefaultParams (Argon2Params a).

(** An error of the parameter decoder, tagged unless it already is. *)
Definition invalid_params (act : string) (w : ResponseWriter) (r : request) (err : error) : go W unit :=
  let! err := (if negb (IsTag (Some err) AccountsTag)
               then in_app (tag_error err ["code"; "400"; "action"; act]%string) else ret err) in
  ErrorHandler a w r err.

(** errors.TagNew, passed to the error handler. *)
Definition fail_with (msg : string) (kvpairs : list string) (w : ResponseWriter) (r : request) : go W unit :=
  let! err := in_app (new_error msg kvpairs) in
  ErrorHandler a w r err.

(** ** authorize.go *)

Definition authorize (groups : list string) (isDeny : bool) (h : Handler) : Handler :=
  let action := if isDeny then ActionDeny else ActionAuthorize in
  let serve : Handler := fun w r => h w r in
  let refuse : Handler :=
    fun w r => fail_with "permission denied" ["code"; "403"; "action"; action]%string w r in
  let '(isInGroup, isNotInGroup) := if isDeny then (refuse, serve) else (serve, refuse) in
  let set x := bool_decide (x ∈ groups) in
  if bool_decide (groups = []) then isNotInGroup
  else fun w r =>
    if set AccessAnyone then isInGroup w r
    else
      match Account (r_ctx r) with
      | Some acct =>
          if set AccessAuthenticated then isInGroup w r
          else if bool_decide (is_Some (Verified acct)) && set AccessVerified then isInGroup w r
          else if existsb set (Groups_ acct) then isInGroup w r
          else isNotInGroup w r
      | None => isNotInGroup w r
      end.
Definition Authorize (groups : list string) := authorize groups false.
Definition Deny (groups : list string) := authorize groups true.

(** ** session.go *)

(** [None] when the error handler was called. *)
Definition generateNewAnonymousSession (w : ResponseWriter) (r : request) (data : RawMessage)
    : go W (option request) :=
  let! t := in_db (Tokens.New rand_Read marshal_raw (Tokens_ a) (pgctx r)
    {| a_Type := sessionTokenType; a_RefID := 0%N; a_SingleUse := false;
       AbsoluteExpiry := anonymousSessionDuration; IdleExpiry := idleAnonymousSessionDuration;
       a_Data := Some data |}) in
  match t with
  | Err err => do! ErrorHandler a w r err in ret None
  | Ok (ssnTok, ssnData) =>
      let! ctx := in_app (WithSession (r_ctx r) ssnTok (Some ssnData)) in
      do! SetCookie w (session_cookie ssnTok 0 None) in
      ret (Some (with_ctx r ctx))
  end.

(** The token of the session cookie, when it is valid; [Err] when the database
    failed. *)
Definition load_token (r : request) : go W (res error (option Token)) :=
  let! req := gets (fun w => hw_req_header w) in
  match request_Cookie req "__Host-ssn" with
  | None => ret (Ok None)
  | Some ssnTok =>
      let! t := in_db (Verify env (Tokens_ a) (pgctx r) ssnTok (Some (MustMatchType sessionTokenType))) in
      match t with
      | Ok tok => ret (Ok (Some tok))
      | Err err => if Is (Some err) ErrInvalid then ret (Ok None) else ret (Err err)
      end
  end.

(** What the switch of Session loads: the session's id and data, and the
    account; an account that is gone loses its sessions. *)
Definition load_session (r : request) (tok : option Token)
    : go W (res error (string * RawMessage * option Accounts.Account)) :=
  match tok with
  | None => ret (Ok (EmptyString, None, None))
  | Some tok =>
      if bool_decide (RefID tok = 0%N) then ret (Ok (t_Token tok, Some (Data tok), None))
      else
        let! acct := in_db (ByID array_order (pgctx r) (conn_queryer (Conn a)) (RefID tok)) in
        match acct with
        | Ok acct => ret (Ok (t_Token tok, Some (Data tok), Some acct))
        | Err err =>
            if Is (Some err) ErrNoRows then
              let? _ := in_db (DeleteByTypeRef (Tokens_ a) (pgctx r) sessionTokenType (RefID tok)) in
              ret (Ok (EmptyString, None, None))
            else ret (Err err)
        end
  end.

(** After the handler: save the data it replaced. *)
Definition save_session (w : ResponseWriter) (r : request) : go W unit :=
  let! s := in_app (Session (r_ctx r)) in
  let '(ssnID, ssnData, isDirty) := s in
  if (isDirty : bool) then
    if String.eqb ssnID EmptyString then
      let! _ := generateNewAnonymousSession w r ssnData in ret tt
    else
      let! u := in_db (UpdateData (Tokens_ a) (pgctx r) ssnID ssnData) in
      match u with Err err => ErrorHandler a w r err | Ok _ => ret tt end
  else ret tt.

Definition SessionMW (h : Handler) : Handler := fun w r =>
  let! t := load_token r in
  match t with
  | Err err => ErrorHandler a w r err
  | Ok tok =>
      let! s := load_session r tok in
      match s with
      | Err err => ErrorHandler a w r err
      | Ok (ssnID, ssnData, acct) =>
          let ctx := match acct with Some _ => WithAccount (r_ctx r) acct | None => r_ctx r end in
          let! ctx := in_app (WithSession ctx ssnID ssnData) in
          let r := with_ctx r ctx in
          do! h w r in
          save_session w r
      end
  end.

(** ** login.go *)

Definition login (r : request) (email password : string) : go X (res error Accounts.Account) :=
  let! acct := zoom (ByEmail array_order (pgctx r) (conn_queryer (Conn a)) email) in
  match acct with
  | Err err =>
      if Is (Some err) ErrNoRows then
        let _ := ComparePasswordAndHash password failPwdHash in
        tag_new "invalid email or password" ["code"; "400"; "parameter"; "password"; "action"; ActionLogin]
      else ret (Err err)
  | Ok acct =>
      match ComparePasswordAndHash password (Password acct) with
      | Err err => ret (Err err)
      | Ok ok =>
          if negb ok then
            tag_new "invalid email or password" ["code"; "400"; "parameter"; "password"; "action"; ActionLogin]
          else ret (Ok acct)
      end
  end.

(** What becomes of the session that the request came with: an authenticated
    one is deleted, whatever account it was for, and a new one starts without
    data; an anonymous one keeps its data, and its token if it has one.  The
    result is whether to create a token, the old identifier and the data. *)
Definition leave_session (r : request) : go W (res error (bool * string * RawMessage)) :=
  let! oldSessionID := in_app (SessionID (r_ctx r)) in
  match Account (r_ctx r) with
  | Some _ =>
      let? _ := (if negb (String.eqb oldSessionID EmptyString)
                 then in_db (Tokens.Delete (Tokens_ a) (pgctx r) oldSessionID) else ret (Ok tt)) in
      ret (Ok (true, oldSessionID, None))
  | None =>
      let! s := in_app (Session (r_ctx r)) in
      ret (Ok (String.eqb oldSessionID EmptyString, oldSessionID, s.1.2))
  end.

(** The authenticated session's token, and its data. *)
Definition enter_session (r : request) (acct : Accounts.Account) (expiry : Z) (createNewSession : bool)
    (oldSessionID : string) (sessionData : RawMessage) : go W (res error (string * RawMessage)) :=
  if createNewSession then
    let? t := in_db (Tokens.New rand_Read marshal_raw (Tokens_ a) (pgctx r)
      {| a_Type := sessionTokenType; a_RefID := ID acct; a_SingleUse := false;
         AbsoluteExpiry := expiry; IdleExpiry := 0; a_Data := Some sessionData |}) in
    ret (Ok (t.1, Some t.2))
  else
    let? newSessionID := in_db (Rotate rand_Read marshal_raw (Tokens_ a) (pgctx r) oldSessionID
      {| a_Type := EmptyString; a_RefID := ID acct; a_SingleUse := false;
         AbsoluteExpiry := expiry; IdleExpiry := 0; a_Data := Some sessionData |}) in
    ret (Ok (newSessionID, sessionData)).

Definition Login (h : Handler) : Handler := fun w r =>
  let! input := decode login_codec (Some login_Validate) r in
  match input with
  | Err err => invalid_params ActionLogin w r err
  | Ok input =>
      if li_RememberMe input && negb (AllowRememberMe a) then
        fail_with "invalid parameter"
          ["code"; "400"; "parameter"; "remember_me"; "action"; ActionLogin] w r
      else
        let! acct := in_app (login r (li_Email input) (li_Password input)) in
        match acct with
        | Err err => ErrorHandler a w r err
        | Ok acct =>
            let '(expiry, maxAge) := authenticatedSessionDurations (li_RememberMe input) in
            let! s :=
              (let? x := leave_session r in
               let '(createNewSession, oldSessionID, sessionData) := x in
               enter_session r acct expiry createNewSession oldSessionID sessionData) in
            match s with
            | Err err => ErrorHandler a w r err
            | Ok (newSessionID, sessionData) =>
                do! in_app (ResetSession (r_ctx r) newSessionID sessionData) in
                let r := with_ctx r (WithAccount (r_ctx r) (Some acct)) in
                do! SetCookie w (session_cookie newSessionID maxAge None) in
                h w r
            end
        end
  end.

(** ** logout.go *)

Definition logout (r : request) (ssnID : string) : go W (res error unit) :=
  in_db (Tokens.Delete (Tokens_ a) (pgctx r) ssnID).

Definition Logout (h : Handler) : Handler := fun w r =>
  let! input := decode empty_codec None r in
  match input with
  | Err err => invalid_params ActionLogout w r err
  | Ok _ =>
      let! ssnID := in_app (SessionID (r_ctx r)) in
      if String.eqb ssnID EmptyString || bool_decide (Account (r_ctx r) = None) then
        fail_with "permission denied" ["code"; "403"; "action"; ActionLogout] w r
      else
        let! u := logout r ssnID in
        match u with
        | Err err => ErrorHandler a w r err
        | Ok _ =>
            do! in_app (ResetSession (r_ctx r) EmptyString None) in
            let r := with_ctx r (WithAccount (r_ctx r) None) in
            do! SetCookie w (session_cookie EmptyString (-1) (Some epoch)) in
            h w r
        end
  end.

(** ** register.go *)

Definition register (r : request) (email password : string) : go X (res error unit) :=
  let! hashedPwd := CreateHash password argon2Params in
  match hashedPwd with
  | Err err => ret (Err err)
  | Ok hashedPwd =>
      let! acct := Create uuidv7 array_order (pgctx r) (conn_queryer (Conn a)) email hashedPwd in
      match acct with
      | Ok _ => ret (Ok tt)
      | Err err =>
          if IsTag (Some err) AccountsTag then
            let! err := bind (zoom (WithKeyValue (Some err) "action" ActionRegister)) non_nil in
            ret (Err err)
          else ret (Err err)
      end
  end.

Definition Register (h : Handler) : Handler := fun w r =>
  let! input := decode register_codec (Some register_Validate) r in
  match input with
  | Err err => invalid_params ActionRegister w r err
  | Ok input =>
      match (match PasswordValidator a with Some f => f (ri_Password input) | None => None end) with
      | Some err =>
          let! err := in_app (tag_error err ["code"; "400"; "action"; ActionRegister]%string) in
          ErrorHandler a w r err
      | None =>
          let! u := in_app (register r (ri_Email input) (ri_Password input)) in
          match u with
          | Err err => ErrorHandler a w r err
          | Ok _ => h w r
          end
      end
  end.

(** ** delete.go *)

Definition delete_fn (acctID : uuid) (ctx : Ctx D (Sql DB)) (_ : Txer D (Sql DB)) : go D (res error unit) :=
  let? _ := Accounts.Delete ctx (conn_queryer (Conn a)) acctID in
  let? _ := DeleteByTypeRef (Tokens_ a) ctx sessionTokenType acctID in
  ret (Ok tt).

Definition delete_account (r : request) (acctID : uuid) (password passwordHash : string)
    : go X (res error unit) :=
  match ComparePasswordAndHash password passwordHash with
  | Err err => ret (Err err)
  | Ok ok =>
      if negb ok then
        tag_new "invalid password" ["code"; "400"; "parameter"; "password"; "action"; ActionDelete]
      else zoom (EnsureTx env (pgctx r) (conn_beginTxer (Conn a)) (delete_fn acctID))
  end.

Definition Delete (h : Handler) : Handler := fun w r =>
  let! input := decode delete_codec (Some delete_Validate) r in
  match input with
  | Err err => invalid_params ActionDelete w r err
  | Ok input =>
      match Account (r_ctx r) with
      | None => fail_with "permission denied" ["code"; "403"; "action"; ActionDelete] w r
      | Some acct =>
          let! u := in_app (delete_account r (ID acct) (di_Password input) (Password acct)) in
          match u with
          | Err err => ErrorHandler a w r err
          | Ok _ =>
              do! SetCookie w (session_cookie EmptyString (-1) (Some epoch)) in
              do! in_app (ResetSession (r_ctx r) EmptyString None) in
              h w r
          end
      end
  end.
End Acctmw.
Arguments Accounts : clear implicits.
Arguments codec : clear implicits.
