(* ===== verification/AcctAuth.v ===== *)
(** * AcctAuth: what the middleware of accounts guarantees

    The theorems on Acctmw: who is let in (Authorize, Deny), what a session
    authenticates (Session), and what Login, Logout, Register and Delete do to
    the tokens and the accounts.  They are proved against the laws of a driver,
    in or out of a transaction carried by the request's context. *)

From Stdlib Require Import ZArith Ascii String Lia.
From S2P Require Import Prelude Errors Pgdb Sql Tokens Accounts Accept Http Cookies Params Acctctx Acctmw.

(** ** The parts of the world of a request *)

Section Parts.
Context {V X D : Type} {LD : Lens X D} {LH : Lens X heap} {LS : Lens X (list session)}.
Local Notation W := (hworld V X).

Definition db_of (w : W) : D := view (hw_app w).
Definition heap_of (w : W) : heap := view (hw_app w).
Definition set_part {S} `{!Lens X S} (s : S) (w : W) : W := set_app (update s) w.

Lemma in_db_run {A} (m : go D A) (w : W) o d :
  m (db_of w) = (o, d) -> in_db m w = (o, set_part d w).
Proof. intros E. unfold in_db, zoom. simpl. unfold db_of in E. by rewrite E. Qed.

Lemma in_app_run {A} (m : go X A) (w : W) o x :
  m (hw_app w) = (o, x) -> in_app m w = (o, set_app (fun _ => x) w).
Proof. intros E. unfold in_app, zoom. simpl. by rewrite E. Qed.

Lemma db_of_set (d : D) (w : W) : db_of (set_part d w) = d.
Proof. unfold db_of, set_part. simpl. apply view_update. Qed.
End Parts.

(** ** Authorization *)

(** The account is a member of one of the groups, the special ones included. *)
Definition in_groups (groups : list string) (acct : option Accounts.Account) : Prop :=
  AccessAnyone ∈ groups \/
  exists ac, acct = Some ac /\
    (AccessAuthenticated ∈ groups \/ (is_Some (Verified ac) /\ AccessVerified ∈ groups) \/
     exists g, g ∈ Groups_ ac /\ g ∈ groups).

Section Authorize.
Context {V X D DB P : Type}.
Context {LD : Lens X D} {LH : Lens X heap} {LS : Lens X (list session)}.
Local Notation W := (hworld V X).
Local Notation values_ := (acct_values (Ctx D (Sql DB))).
Context (a : Acctmw.Accounts V X D DB P).

Lemma fail_with_run msg kv kv' wr r (w : W) :
  Forall (fun p => default EmptyString (last_pair kv p.1) = p.2) kv' ->
  exists e h', fail_with a msg kv wr r w = ErrorHandler a wr r e (set_part h' w) /\
    reported h' e kv'.
Proof.
  intros Hkv. exists (new_tagged msg kv (heap_of w)).1, (new_tagged msg kv (heap_of w)).2.
  split; [reflexivity|]. by apply new_tagged_reported.
Qed.

(** The two ways through the closures of authorize. *)
Lemma authorize_cases groups isDeny (h : Handler V X values_) wr r (w : W) :
  let refuse act := fail_with a "permission denied" ["code"; "403"; "action"; act]%string wr r w in
  (in_groups groups (Acctctx.Account (r_ctx r)) /\
     authorize a groups isDeny h wr r w = if isDeny then refuse ActionDeny else h wr r w) \/
  (~ in_groups groups (Acctctx.Account (r_ctx r)) /\
     authorize a groups isDeny h wr r w = if isDeny then h wr r w else refuse ActionAuthorize).
Proof.
  intros refuse. set (I := if isDeny then refuse ActionDeny else h wr r w).
  set (N := if isDeny then h wr r w else refuse ActionAuthorize).
  pose (set_ x := bool_decide (x ∈ groups)).
  assert (authorize a groups isDeny h wr r w =
    if bool_decide (groups = []) then N else if set_ AccessAnyone then I else
    match Acctctx.Account (r_ctx r) with
    | Some acct => if set_ AccessAuthenticated then I
        else if bool_decide (is_Some (Verified acct)) && set_ AccessVerified then I
        else if existsb set_ (Groups_ acct) then I else N
    | None => N
    end) as ->.
  { unfold authorize, I, N, set_. destruct isDeny, (bool_decide (groups = [])); simpl; try done;
      repeat case_goal; done. }
  unfold in_groups, set_. destruct (bool_decide_reflect (groups = [])) as [->|_].
  { right. split; [|done]. intros [H|(ac & _ & [H|[[_ H]|(g & _ & H)]])]; by inversion H. }
  destruct (bool_decide_reflect (AccessAnyone ∈ groups)); [left; split; [by left|done]|].
  destruct (Acctctx.Account (r_ctx r)) as [ac|] eqn:Eac; [|right; split; [naive_solver|done]].
  destruct (bool_decide_reflect (AccessAuthenticated ∈ groups)); [left; split; [right; eauto|done]|].
  destruct (bool_decide_reflect (is_Some (Verified ac))), (bool_decide_reflect (AccessVerified ∈ groups));
    [left; split; [right; exists ac; eauto|done]|..];
    (destruct (existsb _ _) eqn:E4; [left|right]; (split; [|done])).
  all: try (right; exists ac; split; [done|]; do 2 right; apply existsb_exists in E4 as (g & Hg & Hin);
    apply bool_decide_eq_true in Hin; exists g; split; [by apply list_elem_of_In|done]).
  all: intros [?|(ac' & [= <-] & [?|[[Hv Hat]|(g & Hg & Hin)]])]; try done.
  all: assert (existsb (fun x => bool_decide (x ∈ groups)) (Groups_ ac) = true) by
    (apply existsb_exists; exists g; split; [by apply list_elem_of_In|by rewrite bool_decide_eq_true_2]);
    congruence.
Qed.

(** C13. Authorize runs the handler exactly for the requests whose account is in
    one of the groups, anyone, authenticated and verified included, and Deny
    exactly for the others; a request that is refused reaches the error handler
    with code 403 and the action, and nothing else changes. *)
Theorem authorize_exact groups isDeny (h : Handler V X values_) wr r (w : W) :
  let member := in_groups groups (Acctctx.Account (r_ctx r)) in
  let served := authorize a groups isDeny h wr r w = h wr r w in
  let refused := exists e h', authorize a groups isDeny h wr r w = ErrorHandler a wr r e (set_part h' w) /\
    reported h' e [("code", "403"); ("action", if isDeny then ActionDeny else ActionAuthorize)]%string in
  (member -> if isDeny then refused else served) /\ (~ member -> if isDeny then served else refused).
Proof.
  intros member served refused.
  assert (Hrefuse : forall act, exists e h', fail_with a "permission denied" ["code"; "403"; "action"; act] wr r w
    = ErrorHandler a wr r e (set_part h' w) /\ reported h' e [("code", "403"); ("action", act)]%string).
  { intros act. apply fail_with_run. by repeat constructor. }
  destruct (authorize_cases groups isDeny h wr r w) as [[Hm E]|[Hm E]];
    (split; [intros Hin|intros Hin]; [|done] || (split; intros Hin; [done|]));
    unfold served, refused; rewrite E; destruct isDeny; try done; apply Hrefuse.
Qed.
End Authorize.

(** ** Steps of the handlers *)

Section Steps.
Context {V X D DB P : Type}.
Context {LD : Lens X D} {LH : Lens X heap} {LS : Lens X (list session)}.
Context {LA : Lens DB accounts_db} {LT : Lens DB tokens_table}.
Context {A1 : Apart X D heap} {A2 : Apart X D (list session)} {A3 : Apart X heap (list session)}.
Context {A4 : Apart DB accounts_db tokens_table}.
Local Notation W := (hworld V X).
Local Notation values_ := (acct_values (Ctx D (Sql DB))).
Context (a : Acctmw.Accounts V X D DB P).
Local Notation conn := (Tokens.Conn (Tokens_ a)).
Context {TL : TxLaws (conn_beginTxer conn) DB} {SL : SqlLaws conn}.
Context (env : Env D) {EL : EnvLaws env (conn_beginTxer conn)}.
Context (rand_Read : Z -> go D (list Z)) {RL : RandLaws (conn_beginTxer conn) rand_Read}.
Context (marshal_raw : RawMessage -> res error string).
Context (array_order : list string -> list string) (ComparePasswordAndHash : string -> string -> res error bool).
(** The accounts and the tokens are on one connection. *)
Context (one_conn : Acctmw.Conn a = conn).

(** The state of the database that the statements of [r] read. *)
Definition vis (r : request values_) (d : D) : option DB := visible conn (pgctx r) d.

(** Nothing that a call did to the database is visible. *)
Definition keeps (r : request values_) (d d' : D) : Prop := vis r d' = vis r d \/ vis r d' = None.

Lemma unchanged_keeps r d d' : unchanged conn (pgctx r) d d' -> keeps r d d'.
Proof. unfold unchanged, keeps, vis. intros ->. destruct (ctxTx (pgctx r)); auto. Qed.

Lemma keeps_back r d d' s' : keeps r d d' -> vis r d' = Some s' -> vis r d = Some s'.
Proof. intros [H|H]; congruence. Qed.

(** The account [acct] of the tables. *)
Definition stored_account (s : DB) (acct : Accounts.Account) : Prop :=
  exists row, t_accounts (view s) !! ID acct = Some row /\ acct = to_Account array_order (view s) (ID acct) row.

Lemma ByEmail_run r email d :
  ctx_ok conn (pgctx r) ->
  exists res d', ByEmail array_order (pgctx r) (conn_queryer (Acctmw.Conn a)) email d = (Ret res, d') /\
    clock d <= clock d' /\
    match res with
    | Ok acct => exists s, vis r d = Some s /\ vis r d' = Some s /\ stored_account s acct /\ Email acct = email
    | Err e =>
        (Is (Some e) ErrNoRows = true /\ exists s, vis r d = Some s /\ vis r d' = Some s /\
           forall i row, t_accounts (view s) !! i = Some row -> ar_email row <> email) \/
        (Is (Some e) ErrNoRows = false /\ faulty e /\ keeps r d d')
    end.
Proof.
  intros Hctx. rewrite one_conn.
  destruct (EnsureQueryer_read conn (pgctx r) (on_table (selectByEmail array_order email))
    (fun s => (fun p => to_Account array_order (view s) p.1 p.2) <$>
       head (filter (fun p => ar_email p.2 = email) (map_to_list (t_accounts (view s))))) d Hctx)
    as (res & d' & E & Hc & Hr).
  { intros t s. unfold on_table, selectByEmail. by rewrite update_view. }
  exists res, d'. split; [exact E|]. split; [done|]. destruct res as [acct|e].
  - destruct Hr as (s & Hs & Hs' & Hf). exists s. split_and!; [done|done|..].
    all: destruct (head _) as [[i row]|] eqn:Eh; [|done]; injection Hf as <-.
    all: apply head_Some_elem_of, list_elem_of_filter in Eh as [He Hin].
    all: apply elem_of_map_to_list in Hin.
    + by exists row.
    + done.
  - destruct Hr as [(Hno & s & Hs & Hs' & Hf)|(Hno & Hfy & Hu)]; [left|right; split_and!; [done|done|by apply unchanged_keeps]].
    split; [done|]. exists s. split_and!; [done|done|]. intros i row Hrow He.
    destruct (filter _ _) as [|p l] eqn:El; [|done].
    assert ((i, row) ∈ filter (fun p : uuid * account_row => ar_email p.2 = email) (map_to_list (t_accounts (view s)))) as Hin.
    { apply list_elem_of_filter. split; [done|]. by apply elem_of_map_to_list. }
    rewrite El in Hin. by inversion Hin.
Qed.

Lemma ByID_run r i d :
  ctx_ok conn (pgctx r) ->
  exists res d', ByID array_order (pgctx r) (conn_queryer (Acctmw.Conn a)) i d = (Ret res, d') /\
    clock d <= clock d' /\
    match res with
    | Ok acct => exists s, vis r d = Some s /\ vis r d' = Some s /\ stored_account s acct /\ ID acct = i
    | Err e =>
        (Is (Some e) ErrNoRows = true /\ exists s, vis r d = Some s /\ vis r d' = Some s /\
           t_accounts (view s) !! i = None) \/
        (Is (Some e) ErrNoRows = false /\ faulty e /\ keeps r d d')
    end.
Proof.
  intros Hctx. rewrite one_conn.
  destruct (EnsureQueryer_read conn (pgctx r) (on_table (selectByID array_order i))
    (fun s => to_Account array_order (view s) i <$> t_accounts (view s) !! i) d Hctx) as (res & d' & E & Hc & Hr).
  { intros t s. unfold on_table, selectByID. by rewrite update_view. }
  exists res, d'. split; [exact E|]. split; [done|]. destruct res as [acct|e].
  - destruct Hr as (s & Hs & Hs' & Hf). exists s. split_and!; [done|done|..].
    all: destruct (t_accounts (view s) !! i) as [row|] eqn:Erow; [|done]; injection Hf as <-.
    + by exists row.
    + done.
  - destruct Hr as [(Hno & s & Hs & Hs' & Hf)|(Hno & Hfy & Hu)]; [left|right; split_and!; [done|done|by apply unchanged_keeps]].
    split; [done|]. exists s. split_and!; [done|done|]. by destruct (t_accounts (view s) !! i).
Qed.

(** A statement of Tokens that always succeeds. *)
Lemma exec_tokens_run r (st : Sql tokens_table unit) (f : Z -> tokens_table -> tokens_table) d :
  ctx_ok conn (pgctx r) -> (forall t tbl, st t tbl = Ok (tt, f t tbl)) ->
  exists res d', Tokens.exec (Tokens_ a) (pgctx r) st d = (Ret res, d') /\
    clock d <= clock d' /\
    match res with
    | Ok _ => exists t s, vis r d = Some s /\ vis r d' = Some (update (f t (view s)) s)
    | Err e => fault conn e /\ keeps r d d'
    end.
Proof.
  intros Hctx Hst.
  destruct (EnsureQueryer_write conn (pgctx r) (on_table st) (fun t s => update (f t (view s)) s) d Hctx)
    as (res & d' & E & Hc & Hr).
  { intros t s. unfold on_table. by rewrite Hst. }
  exists res, d'. split; [exact E|]. split; [done|]. destruct res as [[]|e].
  - destruct Hr as (t & s & _ & Hs & Hs'). by exists t, s.
  - destruct Hr as [Hf Hu]. split; [done|]. by apply unchanged_keeps.
Qed.

Lemma ran_keeps {A} r (p : Sql DB A) d e d' : ran conn (pgctx r) p d (Err e) d' -> keeps r d d'.
Proof. intros (_ & _ & Hv & _). by apply unchanged_keeps. Qed.

Lemma ran_timed {A} r (p : Sql DB A) d x d' :
  ran conn (pgctx r) p d (Ok x) d' -> exists t s s', timed conn (pgctx r) t d d' /\
    vis r d = Some s /\ vis r d' = Some s' /\ p t s = Ok (x, s').
Proof. intros (_ & _ & t & s & s' & ?). by exists t, s, s'. Qed.

Lemma ran_Ok {A} r (p : Sql DB A) d x d' :
  ran conn (pgctx r) p d (Ok x) d' -> exists t s s', vis r d = Some s /\ vis r d' = Some s' /\ p t s = Ok (x, s').
Proof. intros (t & s & s' & _ & ?)%ran_timed. by exists t, s, s'. Qed.

Lemma session_of_frame (ctx : context values_) (x x' : X) :
  (view x' : list session) = view x -> session_of ctx x' = session_of ctx x.
Proof. unfold session_of. by intros ->. Qed.

(** Bad credentials: no account, or a password that does not match. *)
Definition refused_login (s : DB) (email password : string) : Prop :=
  (forall i row, t_accounts (view s) !! i = Some row -> ar_email row <> email) \/
  (exists acct, stored_account s acct /\ Email acct = email /\
     ComparePasswordAndHash password (Password acct) = Ok false).

Lemma new_error_run msg kv kv' (x : X) :
  Forall (fun p => default EmptyString (last_pair kv p.1) = p.2) kv' ->
  exists e h', new_error msg kv x = (Ret e, update h' x) /\ reported h' e kv'.
Proof.
  intros Hkv. exists (new_tagged msg kv (view x)).1, (new_tagged msg kv (view x)).2.
  split; [reflexivity|]. by apply new_tagged_reported.
Qed.

Lemma login_run r email password x :
  ctx_ok conn (pgctx r) ->
  exists res x', login array_order ComparePasswordAndHash a r email password x = (Ret res, x') /\
    (view x' : list session) = view x /\ clock (view x : D) <= clock (view x' : D) /\
    match res with
    | Ok acct => exists s, vis r (view x) = Some s /\ vis r (view x') = Some s /\
        stored_account s acct /\ Email acct = email /\
        ComparePasswordAndHash password (Password acct) = Ok true
    | Err e => keeps r (view x) (view x') /\
        ((exists s, vis r (view x) = Some s /\ refused_login s email password /\
            reported (view x') e [("code", "400"); ("parameter", "password"); ("action", ActionLogin)]%string) \/
         (exists h, ComparePasswordAndHash password h = Err e) \/ faulty e)
    end.
Proof.
  intros Hctx. destruct (ByEmail_run r email (view x) Hctx) as (res & d' & E & Hc & Hr).
  unfold login. rewrite (bind_run _ _ _ _ _ (zoom_run _ _ _ _ E)).
  assert (forall s, vis r (view x) = Some s -> vis r d' = Some s -> refused_login s email password ->
    exists res x', tag_new (A := Accounts.Account) "invalid email or password"
        ["code"; "400"; "parameter"; "password"; "action"; ActionLogin]%string (update d' x) = (Ret res, x') /\
      (view x' : list session) = view x /\ clock (view x : D) <= clock (view x' : D) /\
      exists e, res = Err e /\ keeps r (view x) (view x') /\
        reported (view x') e [("code", "400"); ("parameter", "password"); ("action", ActionLogin)]%string) as Hbad.
  { intros s Hs Hs' Href.
    destruct (new_error_run "invalid email or password"
      ["code"; "400"; "parameter"; "password"; "action"; ActionLogin]%string
      [("code", "400"); ("parameter", "password"); ("action", ActionLogin)]%string (update d' x))
      as (e & h' & En & Hrep); [by repeat constructor|].
    exists (Err e), (update h' (update d' x)). unfold tag_new. rewrite (bind_run _ _ _ _ _ En).
    split; [done|]. rewrite (view_apart' (S := heap) (T := list session)), (view_apart' (S := D) (T := list session)).
    split; [done|]. rewrite (view_apart (S := D) (T := heap)), !view_update. split; [done|]. exists e.
    split_and!; [done|left; congruence|done]. }
  destruct res as [acct|e].
  - destruct Hr as (s & Hs & Hs' & Hst & He).
    destruct (ComparePasswordAndHash password (Password acct)) as [[]|e] eqn:Ec; simpl.
    + exists (Ok acct), (update d' x). rewrite (view_apart' (S := D) (T := list session)), view_update.
      split_and!; [done|done|done|]. exists s. by rewrite Ec.
    + destruct (Hbad s Hs Hs') as (res & x' & E' & Hss & Hcl & e & -> & Hk & Hrep); [right; by exists acct|].
      exists (Err e), x'. split_and!; [done..|]. left. exists s.
      split_and!; [done|right; by exists acct|done].
    + exists (Err e), (update d' x). rewrite (view_apart' (S := D) (T := list session)), view_update.
      split_and!; [done|done|done|left; congruence|]. right. left. by eexists.
  - destruct Hr as [(Hno & s & Hs & Hs' & Hnone)|(Hno & Hf & Hk)]; rewrite Hno.
    + destruct (Hbad s Hs Hs') as (res & x' & E' & Hss & Hcl & e' & -> & Hk & Hrep); [by left|].
      exists (Err e'), x'. split_and!; [done..|]. left. exists s. split_and!; [done|by left|done].
    + exists (Err e), (update d' x). rewrite (view_apart' (S := D) (T := list session)), view_update.
      split_and!; [done|done|done|done|]. by do 2 right.
Qed.

(** ** The session of a login *)

(** A multi-use token without idle time. *)
Definition session_row (ty : string) (acctID : uuid) (secs now : Z) (row : token_row) : Prop :=
  r_type row = ty /\ r_single_use row = false /\ r_ref_id row = acctID /\
  r_expiry row = seconds now secs /\ r_idle row = None.

(** The table when a session of [acctID] is entered under [new]: created, or
    moved from the row of [old], which is then gone; when there is no such row
    (or it is for a single use) nothing is stored. *)
Definition session_entered (ty : string) (acctID : uuid) (secs now : Z) (create : bool)
    (old new : string) (tbl tbl' : tokens_table) : Prop :=
  if create then
    tbl !! new = None /\ exists row, session_row ty acctID secs now row /\ tbl' = <[new := row]> tbl
  else
    match tbl !! old with
    | Some row0 =>
        if r_single_use row0 then tbl' = tbl
        else delete old tbl !! new = None /\ exists row, session_row (r_type row0) acctID secs now row /\
          tbl' = <[new := row]> (delete old tbl)
    | None => tbl' = tbl
    end.

Lemma insert_entered token ty acctID secs old data now tbl u tbl' :
  insertToken token ty false acctID secs None data now tbl = Ok (u, tbl') ->
  session_entered ty acctID secs now true old token tbl tbl'.
Proof.
  unfold insertToken, write_row. simpl. destruct (check_row _ _); [done|].
  destruct (tbl !! token) eqn:E; [done|]. intros [= <- <-]. simpl. split; [done|].
  eexists. split; [|reflexivity]. by repeat split.
Qed.

Lemma rotate_entered ty token acctID secs data old now tbl u tbl' :
  rotateToken token acctID secs None data old now tbl = Ok (u, tbl') ->
  session_entered ty acctID secs now false old token tbl tbl'.
Proof.
  unfold rotateToken, write_row, session_entered. simpl. destruct (tbl !! old) as [row0|]; [|by intros [= <- <-]].
  destruct (r_single_use row0) eqn:Es; [by intros [= <- <-]|].
  destruct (check_row _ _); [done|]. destruct (delete old tbl !! token) eqn:E; [done|].
  intros [= <- <-]. split; [done|]. eexists. split; [|reflexivity]. by repeat split.
Qed.

Lemma in_db_set {A} (m : go D A) (w : W) o d :
  m (db_of w) = (o, d) -> in_db m w = (o, set_part d w) /\ db_of (set_part d w) = d.
Proof. intros E. split; [by apply in_db_run|apply db_of_set]. Qed.

(** What the session that the request came with becomes in the database. *)
Definition left_behind (r : request values_) (old : string) (s : DB) : DB :=
  match Acctctx.Account (r_ctx r) with
  | Some _ => if String.eqb old EmptyString then s else update (delete old (view s : tokens_table)) s
  | None => s
  end.

(** Its identifier and its data. *)
Definition old_session (r : request values_) (w : W) : string * RawMessage :=
  match session_of (r_ctx r) (hw_app w) with
  | Some ssn => (ssn_id ssn, Some (ssn_data ssn))
  | None => (EmptyString, None)
  end.

Lemma leave_session_run r w :
  ctx_ok conn (pgctx r) ->
  exists res d', leave_session a r w = (Ret res, set_part d' w) /\
    clock (db_of w) <= clock d' /\
    let old := (old_session r w).1 in
    match res with
    | Ok (create, old', data) => old' = old /\
        create = (bool_decide (is_Some (Acctctx.Account (r_ctx r))) || String.eqb old EmptyString) /\
        data = (match Acctctx.Account (r_ctx r) with Some _ => None | None => (old_session r w).2 end) /\
        vis r d' = left_behind r old <$> vis r (db_of w)
    | Err e => keeps r (db_of w) d'
    end.
Proof.
  intros Hctx.
  assert (Hid : forall A (k : string -> go W A), bind (in_app (SessionID (r_ctx r))) k w = k (old_session r w).1 w).
  { intros A k. unfold bind, in_app, zoom, SessionID, gets, old_session. simpl.
    destruct (session_of _ _); by destruct w. }
  assert (Hsame : set_part (db_of w : D) w = w).
  { unfold set_part, db_of. destruct w. unfold set_app. simpl. by rewrite update_view. }
  unfold leave_session, left_behind. rewrite Hid. set (old := (old_session r w).1).
  destruct (Acctctx.Account (r_ctx r)) as [acct|] eqn:Eacct.
  - destruct (String.eqb_spec old EmptyString) as [Eold|Hold]; simpl.
    + exists (Ok (true, old, None)), (db_of w). rewrite Hsame.
      split_and!; try done. by destruct (vis r (db_of w)).
    + destruct (exec_tokens_run r (deleteToken old) (fun _ => delete old) (db_of w) Hctx) as (res & d' & E & Hc & Hr);
        [done|]. apply in_db_run in E. fold (Tokens.Delete (Tokens_ a) (pgctx r) old) in E.
      unfold bindE. rewrite (bind_run _ _ _ _ _ E). destruct res as [[]|e].
      * exists (Ok (true, old, None)), d'. split_and!; try done.
        destruct Hr as (t & s & Hs & Hs'). by rewrite Hs, Hs'.
      * exists (Err e), d'. split_and!; [done..|apply Hr].
  - exists (Ok (String.eqb old EmptyString, old, (old_session r w).2)), (db_of w). rewrite Hsame. split_and!; try done.
    + unfold bind, in_app, zoom, Session, gets, old_session. simpl.
      destruct (session_of _ _); by destruct w.
    + by destruct (vis r (db_of w)).
Qed.

Lemma enter_session_run r acct expiry create old data w :
  ctx_ok conn (pgctx r) ->
  exists res d', enter_session rand_Read marshal_raw a r acct expiry create old data w = (Ret res, set_part d' w) /\
    match res with
    | Ok (new, _) => exists t s s', timed conn (pgctx r) t (db_of w) d' /\ vis r (db_of w) = Some s /\ vis r d' = Some s' /\ generated (Tokens_ a) new /\
        s' = update (view s' : tokens_table) s /\
        session_entered (sessionTokenType a) (ID acct) (Z.quot expiry Second) t create old new (view s) (view s')
    | Err e => keeps r (db_of w) d'
    end.
Proof.
  intros Hctx. unfold enter_session. destruct create.
  - set (args := {| a_Type := sessionTokenType a; a_RefID := ID acct; a_SingleUse := false;
      AbsoluteExpiry := expiry; IdleExpiry := 0; a_Data := Some data |}).
    destruct (New_refines (Tokens_ a) rand_Read marshal_raw (pgctx r) args (db_of w) Hctx) as (res & d' & E & Hr).
    apply in_db_run in E. unfold bindE. rewrite (bind_run _ _ _ _ _ E). clear E.
    unfold marshaled in Hr. simpl in Hr. destruct (marshal_raw data) as [j|e].
    + destruct Hr as (new & Hgen & Hr). destruct res as [[new' j']|e].
      * apply ran_timed in Hr as (t & s & s' & Ht & Hs & Hs' & Hp). unfold stmt_then, map_ok, on_table in Hp.
        destruct (new_sql _ args _ t (view s)) as [[[] tbl']|] eqn:Ei; [|done]. injection Hp as <- <- <-.
        apply (insert_entered _ _ _ _ old) in Ei.
        eexists (Ok (new, Some j)), d'. split; [done|]. exists t, s, (update tbl' s).
        rewrite view_update. by split_and!.
      * apply ran_keeps in Hr. by exists (Err e), d'.
    + destruct Hr as (-> & _ & Hv). exists (Err e), d'. split; [done|]. by left.
  - set (args := {| a_Type := EmptyString; a_RefID := ID acct; a_SingleUse := false;
      AbsoluteExpiry := expiry; IdleExpiry := 0; a_Data := Some data |}).
    destruct (Rotate_refines (Tokens_ a) rand_Read marshal_raw (pgctx r) old args (db_of w) Hctx) as (res & d' & E & Hr).
    apply in_db_run in E. unfold bindE. rewrite (bind_run _ _ _ _ _ E). clear E.
    unfold marshaled in Hr. simpl in Hr. destruct (marshal_raw data) as [j|e].
    + destruct Hr as (new & Hgen & Hr). destruct res as [new'|e].
      * apply ran_timed in Hr as (t & s & s' & Ht & Hs & Hs' & Hp). unfold stmt_then, map_ok, on_table in Hp.
        destruct (rotate_sql _ args _ _ t (view s)) as [[[] tbl']|] eqn:Ei; [|done]. injection Hp as <- <-.
        apply (rotate_entered (sessionTokenType a)) in Ei.
        eexists (Ok (new, data)), d'. split; [done|]. exists t, s, (update tbl' s).
        rewrite view_update. by split_and!.
      * apply ran_keeps in Hr. by exists (Err e), d'.
    + destruct Hr as (-> & _ & Hv). exists (Err e), d'. split; [done|]. by left.
Qed.
End Steps.

(** ** Cookies and sessions of a request *)

Section Requests.
Context {V X D DB P : Type}.
Context {LD : Lens X D} {LH : Lens X heap} {LS : Lens X (list session)}.
Context {A1 : Apart X D heap} {A2 : Apart X D (list session)} {A3 : Apart X heap (list session)}.
Local Notation W := (hworld V X).
Local Notation values_ := (acct_values (Ctx D (Sql DB))).

Definition add_cookie (c : Cookie) (resp : response) : response :=
  {| res_header := hdr_Add "Set-Cookie" (cookie_String c) (res_header resp); res_sent := res_sent resp;
     res_body := res_body resp |}.

Lemma SetCookie_run v m ex (w : W) :
  SetCookie conn_writer (session_cookie v m ex) w = (Ret tt, set_resp (add_cookie (session_cookie v m ex)) w).
Proof.
  unfold SetCookie. assert (String.eqb (cookie_String (session_cookie v m ex)) EmptyString = false) as ->; [|done].
  unfold cookie_String. by destruct ex.
Qed.

Lemma ResetSession_run (ctx : context values_) i d (w : W) :
  is_Some (session_of ctx (hw_app w)) ->
  exists x', in_app (ResetSession ctx i d) w = (Ret tt, set_app (fun _ => x') w) /\
    sees ctx x' (i, Some (or_null d), false) /\ (view x' : D) = db_of w.
Proof.
  intros [ssn E]. unfold in_app, zoom, ResetSession, bind, gets, write_session. simpl. rewrite E.
  unfold session_of in E. destruct (ac_session (cx_app ctx)) as [x|] eqn:Ex; [|done]. unfold modify. eexists.
  split; [reflexivity|]. rewrite (view_apart (S := D) (T := list session)). split; [|done].
  apply (sees_session ctx _ {| ssn_id := i; ssn_data := or_null d; ssn_dirty := false |}).
  unfold session_of. rewrite Ex, view_update.
  by rewrite list_lookup_insert_eq by (apply lookup_lt_is_Some; eauto).
Qed.

Context (a : Acctmw.Accounts V X D DB P).

Lemma tag_error_run err kv kv' (x : X) :
  Forall (fun p => last_pair kv p.1 = Some p.2) kv' ->
  exists e h', tag_error err kv x = (Ret e, update h' x) /\ reported h' e kv'.
Proof.
  intros Hkv. destruct (Tag_run err AccountsTag kv (view x)) as (h' & E & _ & _ & Hk).
  exists (TaggedError (h_next (view x)) AccountsTag err), h'. split.
  - unfold tag_error, bind, zoom. by rewrite E.
  - split; [by rewrite IsTag_eq|].
    eapply Forall_impl; [exact Hkv|]. intros p Hp. rewrite KeyValue_eq. simpl. by rewrite Hk, Hp.
Qed.

(** The error of the decoder reaches the error handler with the package's tag,
    its own if it has one. *)
Lemma invalid_params_run act wr r err (w : W) :
  exists e h', invalid_params a act wr r err w = ErrorHandler a wr r e (set_part h' w) /\
    if IsTag (Some err) AccountsTag then e = err
    else reported h' e [("code", "400"); ("action", act)]%string.
Proof.
  unfold invalid_params. destruct (IsTag (Some err) AccountsTag) eqn:Et; simpl.
  - exists err, (heap_of w). split; [|done]. unfold set_part, heap_of, bind, ret. destruct w.
    unfold set_app. simpl. by rewrite update_view.
  - destruct (tag_error_run err ["code"; "400"; "action"; act]%string [("code", "400"); ("action", act)]%string
      (hw_app w)) as (e & h' & E & Hrep); [by repeat constructor|].
    exists e, h'. split; [|done]. by rewrite (bind_run _ _ _ _ _ (in_app_run _ _ _ _ E)).
Qed.

(** A call on the database leaves the sessions alone. *)
Lemma session_of_set_db (ctx : context values_) (d : D) (w : W) :
  session_of ctx (hw_app (set_part d w)) = session_of ctx (hw_app w).
Proof. apply session_of_frame. unfold set_part. simpl. apply (view_apart' (S := D)). Qed.
Lemma session_of_set_heap (ctx : context values_) (h : heap) (w : W) :
  session_of ctx (hw_app (set_part h w)) = session_of ctx (hw_app w).
Proof. apply session_of_frame. unfold set_part. simpl. apply (view_apart' (S := heap)). Qed.
Lemma db_of_set_heap (h : heap) (w : W) : (db_of (set_part h w) : D) = db_of w.
Proof. unfold db_of, set_part. simpl. apply (view_apart (S := D)). Qed.
End Requests.

(** ** Login *)

Section Login.
Context {V X D DB P : Type}.
Context {LD : Lens X D} {LH : Lens X heap} {LS : Lens X (list session)}.
Context {LA : Lens DB accounts_db} {LT : Lens DB tokens_table}.
Context {A1 : Apart X D heap} {A2 : Apart X D (list session)} {A3 : Apart X heap (list session)}.
Context {A4 : Apart DB accounts_db tokens_table}.
Local Notation W := (hworld V X).
Local Notation values_ := (acct_values (Ctx D (Sql DB))).
Context (a : Acctmw.Accounts V X D DB P).
Local Notation conn := (Tokens.Conn (Tokens_ a)).
Context {TL : TxLaws (conn_beginTxer conn) DB} {SL : SqlLaws conn}.
Context (env : Env D) {EL : EnvLaws env (conn_beginTxer conn)}.
Context (rand_Read : Z -> go D (list Z)) {RL : RandLaws (conn_beginTxer conn) rand_Read}.
Context (marshal_raw : RawMessage -> res error string).
Context (array_order : list string -> list string) (ComparePasswordAndHash : string -> string -> res error bool).
Context (PathValue : request values_ -> string -> string) (ParseMediaType : string -> string).
Context (Query : request values_ -> values) (ParseForm : request values_ -> go W (res error values)).
Context (login_codec : codec V X D DB loginInput).
Context (one_conn : Acctmw.Conn a = conn).

Local Notation vis := (vis a).
Local Notation Login := (Login array_order rand_Read marshal_raw ComparePasswordAndHash
  PathValue ParseMediaType Query ParseForm login_codec a).
Local Notation decoded r w input w0 :=
  (decode PathValue ParseMediaType Query ParseForm login_codec (Some login_Validate) r w = (Ret input, w0)).

(** Leaving the old session and entering the new one, from the tables [s]. *)
Lemma switch_session_run r acct expiry w s :
  ctx_ok conn (pgctx r) -> vis r (db_of w) = Some s ->
  let old := (old_session r w).1 in
  exists res d', bindE (leave_session a r) (fun x => let '(createNewSession, oldSessionID, sessionData) := x in
      enter_session rand_Read marshal_raw a r acct expiry createNewSession oldSessionID sessionData) w
      = (Ret res, set_part d' w) /\
    match res with
    | Ok (new, _) => exists t s', timed conn (pgctx r) t (db_of w) d' /\ vis r d' = Some s' /\
        s' = update (view s' : tokens_table) (left_behind r old s) /\ generated (Tokens_ a) new /\
        session_entered (sessionTokenType a) (ID acct) (Z.quot expiry Second) t
          (bool_decide (is_Some (Acctctx.Account (r_ctx r))) || String.eqb old EmptyString) old new
          (view (left_behind r old s)) (view s')
    | Err e => forall s', vis r d' = Some s' -> s' = s \/ s' = left_behind r old s
    end.
Proof.
  intros Hctx Hs old. destruct (leave_session_run a r w Hctx) as (res2 & d2 & E2 & Hcl2 & Hr2).
  unfold bindE. rewrite (bind_run _ _ _ _ _ E2). destruct res2 as [[[create old'] data]|e].
  2:{ exists (Err e), d2. split; [done|]. intros s' Hs'. left. apply (keeps_back a r _ _ _ Hr2) in Hs'. congruence. }
  destruct Hr2 as (-> & -> & _ & Hv2). fold old in Hv2 |- *. rewrite Hs in Hv2. simpl in Hv2.
  match goal with |- context [enter_session _ _ _ _ _ _ ?c _ ?dta] =>
    destruct (enter_session_run a rand_Read marshal_raw r acct expiry c old dta (set_part d2 w) Hctx)
      as (res3 & d3 & E3 & Hr3) end.
  rewrite E3. assert (set_part d3 (set_part d2 w) = set_part d3 w) as ->.
  { unfold set_part. destruct w. unfold set_app. simpl. by rewrite update_update. }
  exists res3, d3. split; [done|]. rewrite db_of_set in Hr3. destruct res3 as [[new data']|e].
  - destruct Hr3 as (t & s2 & s' & Ht & Hs2' & Hs' & Hgen & Hupd & Hent). same Hv2 Hs2'.
    exists t, s'. split_and!; try done. by eapply timed_from.
  - intros s' Hs'. right. apply (keeps_back a r _ _ _ Hr3) in Hs'. congruence.
Qed.

(** What a login that succeeded did: it is for an account whose password hash
    the password matches, which it entered in the tokens as a session that
    replaces the old one, in the context and in the cookie. *)
Definition logged_in r (input : loginInput) (w0 : W) (acct : Accounts.Account) (w1 : W) : Prop :=
  let old := (old_session r w0).1 in
  let '(expiry, maxAge) := authenticatedSessionDurations (li_RememberMe input) in
  let create := bool_decide (is_Some (Acctctx.Account (r_ctx r))) || String.eqb old EmptyString in
  exists new data t s s', timed conn (pgctx r) t (db_of w0) (db_of w1) /\
    vis r (db_of w0) = Some s /\ stored_account array_order s acct /\ Email acct = li_Email input /\
    ComparePasswordAndHash (li_Password input) (Password acct) = Ok true /\
    vis r (db_of w1) = Some s' /\ s' = update (view s' : tokens_table) (left_behind r old s) /\
    generated (Tokens_ a) new /\
    session_entered (sessionTokenType a) (ID acct) (Z.quot expiry Second) t create old new
      (view (left_behind r old s)) (view s') /\
    sees (r_ctx r) (hw_app w1) (new, Some (or_null data), false) /\
    hw_resp w1 = add_cookie (session_cookie new maxAge None) (hw_resp w0).

(** The session of the account in the database after a login: stored, for as many
    uses, under the token that is in the context, and the old one is gone. *)
Definition session_in_place r (acct : Accounts.Account) (w0 w1 : W) : Prop :=
  let old := (old_session r w0).1 in
  exists new data s s' row, vis r (db_of w0) = Some s /\ vis r (db_of w1) = Some s' /\
    sees (r_ctx r) (hw_app w1) (new, data, false) /\
    (view s' : tokens_table) !! new = Some row /\ r_single_use row = false /\ r_ref_id row = ID acct /\
    (r_type row = sessionTokenType a \/
     exists row0, (view s : tokens_table) !! old = Some row0 /\ r_type row = r_type row0) /\
    (old <> EmptyString -> old <> new -> (view s' : tokens_table) !! old = None).

(** An anonymous session that was to be rotated and has no row, or one for a
    single use: the database stays as it is, without a session of the login. *)
Definition session_lost r (w0 w1 : W) : Prop :=
  let old := (old_session r w0).1 in
  Acctctx.Account (r_ctx r) = None /\ old <> EmptyString /\
  exists s, vis r (db_of w0) = Some s /\ vis r (db_of w1) = Some s /\
    forall row, (view s : tokens_table) !! old = Some row -> r_single_use row = true.

Lemma nothing_rotated r w0 w1 s s' :
  Acctctx.Account (r_ctx r) = None -> (old_session r w0).1 <> EmptyString ->
  vis r (db_of w0) = Some s -> vis r (db_of w1) = Some s' -> s' = update (view s' : tokens_table) s ->
  (view s' : tokens_table) = view s ->
  (forall row, (view s : tokens_table) !! (old_session r w0).1 = Some row -> r_single_use row = true) ->
  session_lost r w0 w1.
Proof.
  intros Hac Hold Hs Hs' Hupd Hv Hrow. rewrite Hv, update_view in Hupd. subst s'.
  split_and!; [done..|]. by exists s.
Qed.

Lemma logged_in_stores r input w0 acct w1 :
  logged_in r input w0 acct w1 -> session_in_place r acct w0 w1 \/ session_lost r w0 w1.
Proof.
  unfold logged_in. destruct (authenticatedSessionDurations _) as [expiry maxAge].
  intros (new & data & t & s & s' & _ & Hs & _ & _ & _ & Hs' & Hupd & _ & Hent & Hsees & _).
  set (old := (old_session r w0).1) in *. unfold session_entered, left_behind in Hent.
  destruct (Acctctx.Account (r_ctx r)) as [ac|] eqn:Eac; simpl in Hent.
  { left. destruct Hent as (_ & row & (Hty & Hsu & Href & _) & Hv). exists new, (Some (or_null data)), s, s', row.
    rewrite Hv, lookup_insert_eq. split_and!; try done; [by left|].
    intros Ho Hne. rewrite lookup_insert_ne by done. fold old in Ho. destruct (String.eqb_spec old EmptyString); [done|].
    by rewrite view_update, lookup_delete_eq. }
  destruct (String.eqb_spec old EmptyString) as [Eo|Eo].
  { left. destruct Hent as (_ & row & (Hty & Hsu & Href & _) & Hv). exists new, (Some (or_null data)), s, s', row.
    rewrite Hv, lookup_insert_eq. split_and!; try done. by left. }
  unfold left_behind in Hupd. rewrite Eac in Hupd.
  destruct ((view s : tokens_table) !! old) as [row0|] eqn:E0; [destruct (r_single_use row0) eqn:Esu|].
  - right. apply (nothing_rotated r w0 w1 s s'); try done. fold old. rewrite E0. by intros ? [= <-].
  - left. destruct Hent as (_ & row & (Hty & Hsu & Href & _) & Hv). exists new, (Some (or_null data)), s, s', row.
    rewrite Hv, lookup_insert_eq. split_and!; try done; [right; by exists row0|].
    intros _ Hne. by rewrite lookup_insert_ne, lookup_delete_eq by done.
  - right. apply (nothing_rotated r w0 w1 s s'); try done. fold old. by rewrite E0.
Qed.

(** C9. Login, once its parameters are decoded, either runs the handler, with
    the account in the context, and then the password matched the account's
    hash, and the context and the cookie hold a new session.  In the database,
    the old session is gone and the new one is stored, for that account,
    except in one case, which is stated: when the request has an anonymous
    session whose row is missing (or is for a single use) there is nothing to
    rotate, the database stays as it is and no session is stored, although the
    login succeeds.  Or Login calls the error handler without a response
    begun, and then no session was entered: the database is as before, or
    without the old session of an account that logs in again. *)
Theorem Login_sound (h : Handler V X values_) r input w w0 :
  ctx_ok conn (pgctx r) -> decoded r w input w0 -> is_Some (session_of (r_ctx r) (hw_app w0)) ->
  match input with
  | Ok input =>
      exists acct w1, Login h conn_writer r w = h conn_writer (with_ctx r (WithAccount (r_ctx r) (Some acct))) w1 /\
        (li_RememberMe input = true -> AllowRememberMe a = true) /\ logged_in r input w0 acct w1 /\
        (session_in_place r acct w0 w1 \/ session_lost r w0 w1)
  | Err _ => False
  end \/
  exists e w1, Login h conn_writer r w = ErrorHandler a conn_writer r e w1 /\ hw_resp w1 = hw_resp w0 /\
    forall s', vis r (db_of w1) = Some s' -> exists s, vis r (db_of w0) = Some s /\
      (s' = s \/ s' = left_behind r (old_session r w0).1 s).
Proof.
  intros Hctx Hdec Hssn. remember (Login h conn_writer r w) as L eqn:HL. unfold Acctmw.Login in HL.
  rewrite (bind_run _ _ _ _ _ Hdec) in HL. destruct input as [input|err].
  2:{ right. destruct (invalid_params_run a ActionLogin conn_writer r err w0) as (e & h' & E & _).
      exists e, (set_part h' w0). split; [by rewrite HL, <- E|]. split; [done|]. intros s' Hs'. exists s'.
      rewrite db_of_set_heap in Hs'. auto. }
  destruct (li_RememberMe input && negb (AllowRememberMe a)) eqn:Erem.
  { right. destruct (fail_with_run a "invalid parameter"
      ["code"; "400"; "parameter"; "remember_me"; "action"; ActionLogin]%string [] conn_writer r w0)
      as (e & h' & E & _); [constructor|].
    exists e, (set_part h' w0). split; [by rewrite HL, <- E|]. split; [done|]. intros s' Hs'. exists s'.
    rewrite db_of_set_heap in Hs'. auto. }
  destruct (login_run a array_order ComparePasswordAndHash one_conn r (li_Email input) (li_Password input)
    (hw_app w0) Hctx) as (res & x1 & El & Hss1 & Hcl1 & Hr).
  rewrite (bind_run _ _ _ _ _ (in_app_run _ _ _ _ El)) in HL. set (w1 := set_app (fun _ => x1) w0).
  destruct res as [acct|e].
  2:{ right. exists e, w1. split; [done|]. split; [done|]. intros s' Hs'. exists s'. split; [|by left].
      exact (keeps_back a r _ _ _ (proj1 Hr) Hs'). }
  destruct Hr as (s & Hs & Hs1 & Hst & Hemail & Hcmp).
  assert (Hold : old_session r w1 = old_session r w0).
  { unfold old_session. by rewrite (session_of_frame (r_ctx r) (hw_app w0) (hw_app w1) Hss1). }
  destruct (authenticatedSessionDurations (li_RememberMe input)) as [expiry maxAge] eqn:Edur.
  fold w1 in HL. assert (Hs1' : vis r (db_of w1) = Some s) by exact Hs1.
  destruct (switch_session_run r acct expiry w1 s Hctx Hs1') as (res & d3 & E3 & Hr3). rewrite Hold in Hr3.
  rewrite (bind_run _ _ _ _ _ E3) in HL. destruct res as [[new data']|e].
  2:{ right. exists e, (set_part d3 w1). split; [done|]. split; [done|]. intros s' Hs'. exists s. split; [done|].
      rewrite db_of_set in Hs'. by apply Hr3. }
  left. destruct Hr3 as (t & s' & Ht & Hs' & Hupd & Hgen & Hent).
  destruct (ResetSession_run (r_ctx r) new data' (set_part d3 w1)) as (x4 & E4 & Hsees & Hd4).
  { unfold w1. rewrite session_of_set_db. unfold session_of in *. simpl. by rewrite Hss1. }
  rewrite (bind_run _ _ _ _ _ E4), (bind_run _ _ _ _ _ (SetCookie_run _ _ _ _)) in HL.
  eexists acct, _. split; [exact HL|]. split.
  { intros Hrem. rewrite Hrem in Erem. by destruct (AllowRememberMe a). }
  match goal with |- ?P /\ _ => enough P as Hin by (split; [exact Hin|by eapply logged_in_stores]) end.
  unfold logged_in. rewrite Edur. exists new, data', t, s, s'.
  match goal with |- timed _ _ _ _ (db_of ?wf) /\ _ => assert (Hdf : db_of wf = d3) end.
  { unfold db_of. simpl. rewrite Hd4. apply db_of_set. }
  rewrite Hdf. split_and!; try done. by eapply timed_from; [exact Hcl1|].
Qed.
End Login.

(** ** Session *)

Section SessionLoad.
Context {V X D DB P : Type}.
Context {LD : Lens X D} {LH : Lens X heap} {LS : Lens X (list session)}.
Context {LA : Lens DB accounts_db} {LT : Lens DB tokens_table}.
Context {A1 : Apart X D heap} {A2 : Apart X D (list session)} {A3 : Apart X heap (list session)}.
Context {A4 : Apart DB accounts_db tokens_table}.
Local Notation W := (hworld V X).
Local Notation values_ := (acct_values (Ctx D (Sql DB))).
Context (a : Acctmw.Accounts V X D DB P).
Local Notation conn := (Tokens.Conn (Tokens_ a)).
Context {TL : TxLaws (conn_beginTxer conn) DB} {SL : SqlLaws conn}.
Context (env : Env D) {EL : EnvLaws env (conn_beginTxer conn)}.
Context (rand_Read : Z -> go D (list Z)) {RL : RandLaws (conn_beginTxer conn) rand_Read}.
Context (marshal_raw : RawMessage -> res error string) (array_order : list string -> list string).
Context (one_conn : Acctmw.Conn a = conn).
Local Notation vis := (vis a).
Local Notation ty := (sessionTokenType a).

(** [row] is a session's row that is valid at [t]. *)
Definition token_live (tbl : tokens_table) (t : Z) (k : string) (row : token_row) : Prop :=
  tbl !! k = Some row /\ valid_row t row = true /\ r_type row = ty.

Definition cookie_of (w : W) : option string := request_Cookie (hw_req_header w) "__Host-ssn".

Lemma verify_sql_Ok k t tbl tok tbl' :
  verify_sql k t tbl = Ok (tok, tbl') ->
  exists row, tbl !! k = Some row /\ valid_row t row = true /\ tok = to_Token k row.
Proof.
  unfold verify_sql. destruct (tbl !! k) as [row|]; [|done]. destruct (valid_row t row) eqn:E; [|done].
  intros [= <- _]. by exists row.
Qed.

Lemma verify_sql_Err k t tbl e :
  verify_sql k t tbl = Err e -> forall row, tbl !! k = Some row -> valid_row t row = false.
Proof. unfold verify_sql. intros H row E. rewrite E in H. by destruct (valid_row t row). Qed.

Lemma load_token_run r w :
  ctx_ok conn (pgctx r) ->
  exists res d', load_token env a r w = (Ret res, set_part d' w) /\ clock (db_of w) <= clock d' /\
    match res with
    | Ok (Some tok) => exists k t s s' row, cookie_of w = Some k /\ timed conn (pgctx r) t (db_of w) d' /\
        vis r (db_of w) = Some s /\
        vis r d' = Some s' /\ s' = update (view s' : tokens_table) s /\
        token_live (view s) t k row /\ tok = to_Token k row
    | Ok None => cookie_of w = None \/ exists k t s, cookie_of w = Some k /\
        timed conn (pgctx r) t (db_of w) d' /\ vis r (db_of w) = Some s /\ forall row, ~ token_live (view s) t k row
    | Err e => fault conn e
    end.
Proof.
  intros Hctx. unfold load_token, bind at 1, gets. fold (cookie_of w).
  assert (Hsame : set_part (db_of w : D) w = w).
  { unfold set_part, db_of. destruct w. unfold set_app. simpl. by rewrite update_view. }
  destruct (cookie_of w) as [k|]; [|exists (Ok None), (db_of w); rewrite Hsame; split_and!; [done|done|by left]].
  destruct (Verify_run (Tokens_ a) env (pgctx r) k (Some (MustMatchType ty)) (db_of w) Hctx) as (res & d' & E & Hr).
  pose proof (verify_origin (Tokens_ a) _ _ _ _ _ Hr) as Horig.
  rewrite (bind_run _ _ _ _ _ (in_db_run _ _ _ _ E)). clear E. pose proof (proj1 Hr) as Hclk.
  destruct res as [tok|e].
  - apply ran_timed in Hr as (t & s & s' & Ht & Hs & Hs' & Hp). unfold on_table in Hp.
    destruct (verify_sql k t (view s)) as [[tok' tbl']|] eqn:Ev; [|done]. injection Hp as -> <-.
    apply verify_sql_Ok in Ev as (row & Hrow & Hval & ->). simpl. unfold MustMatchType. simpl.
    destruct (String.eqb_spec (r_type row) ty) as [Hty|Hty].
    + eexists (Ok (Some _)), d'. split; [reflexivity|]. split; [done|].
      exists k, t, s, (update tbl' s), row. rewrite view_update. by split_and!.
    + eexists (Ok None), d'. split; [reflexivity|]. split; [done|]. right. exists k, t, s. split_and!; [done..|].
      intros row' (Hrow' & _ & Hty'). rewrite Hrow in Hrow'. by injection Hrow' as <-.
  - cbv beta iota. destruct (Is (Some e) ErrInvalid) eqn:Ei.
    2: { exists (Err e), d'. split_and!; [done..|]. destruct Horig as (e0 & Hcb & [[Hf _]|[_ ?]]); [by exists e0|congruence]. }
    exists (Ok None), d'. split_and!; [done..|]. right. destruct Hr as (_ & _ & _ & e0 & Hcb & Hr).
    destruct Horig as (e1 & Hcb1 & [[_ ?]|[-> _]]); [congruence|].
    unfold ErrInvalid in Ei. rewrite (caused_by_Is conn e0 e (ConstError _)) in Ei by (done || right; by eexists).
    destruct Hr as [Hf|(t & s & Ht & Hs & Hp)].
    { by rewrite (proj2 (faulty_foreign e0 Hf)) in Ei. }
    exists k, t, s. split_and!; [done..|]. intros row (Hrow & Hval & _). unfold on_table in Hp.
    destruct (verify_sql k t (view s)) as [[]|] eqn:Ev; [done|].
    rewrite (verify_sql_Err _ _ _ _ Ev row Hrow) in Hval. done.
Qed.

(** What the switch of Session loads for a token, in the tables as they are
    after Verify. *)
Lemma load_session_run r tok w :
  ctx_ok conn (pgctx r) ->
  exists res d', load_session array_order a r (Some tok) w = (Ret res, set_part d' w) /\
    clock (db_of w) <= clock d' /\
    match res with
    | Ok (ssnID, ssnData, acct) =>
        match acct with
        | Some ac => ssnID = t_Token tok /\ ssnData = Some (Data tok) /\ RefID tok <> 0%N /\
            exists s, vis r (db_of w) = Some s /\ vis r d' = Some s /\
              stored_account array_order s ac /\ ID ac = RefID tok
        | None =>
            (RefID tok = 0%N /\ ssnID = t_Token tok /\ ssnData = Some (Data tok) /\ d' = db_of w) \/
            (RefID tok <> 0%N /\ ssnID = EmptyString /\ ssnData = None /\ exists s s', vis r (db_of w) = Some s /\
               vis r d' = Some s' /\ t_accounts (view s) !! RefID tok = None /\
               forall k row, (view s' : tokens_table) !! k = Some row -> ~ (r_ref_id row = RefID tok /\ r_type row = ty))
        end
    | Err e => fault conn e
    end.
Proof.
  intros Hctx. unfold load_session.
  assert (Hsame : set_part (db_of w : D) w = w).
  { unfold set_part, db_of. destruct w. unfold set_app. simpl. by rewrite update_view. }
  destruct (bool_decide_reflect (RefID tok = 0%N)) as [H0|H0].
  { eexists (Ok _), (db_of w). rewrite Hsame. split; [reflexivity|]. split; [done|]. by left. }
  destruct (ByID_run a array_order one_conn r (RefID tok) (db_of w) Hctx) as (res & d1 & E & Hclk & Hr).
  rewrite (bind_run _ _ _ _ _ (in_db_run _ _ _ _ E)). clear E. destruct res as [ac|e].
  - destruct Hr as (s & Hs & Hs' & Hst & Hid). eexists (Ok _), d1. split; [reflexivity|].
    split_and!; [done..|]. by exists s.
  - destruct Hr as [(Eno & s & Hs & Hs' & Hnone)|(Eno & Hf & _)]; rewrite Eno;
      [|exists (Err e), d1; split_and!; [done..|]; exists e; split; [done|constructor]].
    assert (Hd1 : db_of (set_part d1 w) = d1) by apply db_of_set.
    destruct (exec_tokens_run a r (deleteTokens (RefID tok) ty)
      (fun _ tbl => filter (fun p => ~ (r_ref_id p.2 = RefID tok /\ r_type p.2 = ty)) tbl) (db_of (set_part d1 w)) Hctx)
      as (res & d2 & E & Hclk2 & Hr); [done|].
    rewrite Hd1 in Hclk2. assert (clock (db_of w : D) <= clock d2) as Hclk' by lia.
    apply in_db_run in E. unfold DeleteByTypeRef, bindE. rewrite (bind_run _ _ _ _ _ E).
    assert (set_part d2 (set_part d1 w) = set_part d2 w) as ->.
    { unfold set_part. destruct w. unfold set_app. simpl. by rewrite update_update. }
    destruct res as [[]|e']; [|exists (Err e'), d2; by split_and!; [..|apply Hr]].
    eexists (Ok _), d2. split; [reflexivity|]. split; [done|]. right. split_and!; [done..|].
    destruct Hr as (t & s1 & Hs1 & Hs2). rewrite Hd1, Hs' in Hs1. injection Hs1 as <-.
    eexists s, _. split_and!; [done|exact Hs2|done|]. intros k row. rewrite view_update.
    by intros [_ ?]%map_lookup_filter_Some.
Qed.

Lemma stored_account_tokens (tbl : tokens_table) s ac :
  stored_account array_order (update tbl s) ac <-> stored_account array_order s ac.
Proof. unfold stored_account. by rewrite (view_apart (S := accounts_db)). Qed.

(** What the session middleware loads, from the world [w] where it is called to
    the state [d'] where it runs the handler: an account when the cookie is a
    session of it that is live when the token is verified, an anonymous session
    when the cookie is one, and otherwise a new session, because there is no
    cookie, its token is not a live session, or the account is gone and its
    sessions were deleted.  The time [t] at which the token is verified is one
    between the two clocks (or that of the request's transaction). *)
Definition loaded r (w : W) (ssnID : string) (ssnData : RawMessage) (acct : option Accounts.Account)
    (d' : D) : Prop :=
  match acct with
  | Some ac => exists k t s row, cookie_of w = Some k /\ timed conn (pgctx r) t (db_of w) d' /\
      vis r (db_of w) = Some s /\ token_live (view s) t k row /\ ssnID = k /\ ssnData = Some (r_data row) /\
      ID ac = r_ref_id row /\ ID ac <> 0%N /\ stored_account array_order s ac
  | None =>
      (exists k t s row, cookie_of w = Some k /\ timed conn (pgctx r) t (db_of w) d' /\
         vis r (db_of w) = Some s /\ token_live (view s) t k row /\ ssnID = k /\
         ssnData = Some (r_data row) /\ r_ref_id row = 0%N) \/
      (ssnID = EmptyString /\ ssnData = None /\
       (cookie_of w = None \/
        exists k t s, cookie_of w = Some k /\ timed conn (pgctx r) t (db_of w) d' /\ vis r (db_of w) = Some s /\
          forall row, token_live (view s) t k row ->
            r_ref_id row <> 0%N /\ t_accounts (view s) !! r_ref_id row = None /\
            exists s', vis r d' = Some s' /\ forall k' row', (view s' : tokens_table) !! k' = Some row' ->
              ~ (r_ref_id row' = r_ref_id row /\ r_type row' = ty)))
  end.

(** Verify and the switch of Session in sequence. *)
Lemma load_run r w :
  ctx_ok conn (pgctx r) ->
  exists res d', bindE (load_token env a r) (load_session array_order a r) w = (Ret res, set_part d' w) /\
    clock (db_of w) <= clock d' /\
    match res with
    | Ok (ssnID, ssnData, acct) => loaded r w ssnID ssnData acct d'
    | Err e => fault conn e
    end.
Proof.
  intros Hctx. destruct (load_token_run r w Hctx) as (res & d1 & E1 & Hc1 & Hr1). unfold bindE.
  rewrite (bind_run _ _ _ _ _ E1). destruct res as [tok|e]; [|by exists (Err e), d1].
  assert (Hset : forall d : D, set_part d (set_part d1 w) = set_part d w).
  { intros d. unfold set_part. destruct w. unfold set_app. simpl. by rewrite update_update. }
  destruct tok as [tok|].
  2: { eexists (Ok _), d1. split_and!; [reflexivity|done|]. right. split_and!; [done..|].
       destruct Hr1 as [?|(k & t & s & Hk & Ht & Hs & Hno)]; [by left|right].
       exists k, t, s. split_and!; [done..|]. intros row Hrow. by destruct (Hno row). }
  destruct Hr1 as (k & t & s & s' & row & Hk & Ht & Hs & Hs' & Hupd & Hlive & ->).
  destruct (load_session_run r (to_Token k row) (set_part d1 w) Hctx) as (res & d2 & E2 & Hc2 & Hr2).
  rewrite Hset in E2. rewrite db_of_set in Hc2, Hr2. exists res, d2. split_and!; [done|lia|].
  eapply timed_to in Ht; [|exact Hc2]. destruct res as [[[i dta] [ac|]]|]; [..|done].
  - destruct Hr2 as (-> & -> & Hne & s1 & Hs1 & _ & Hst & Hid). rewrite Hs' in Hs1. injection Hs1 as <-.
    rewrite Hupd in Hst. apply stored_account_tokens in Hst.
    exists k, t, s, row. rewrite Hid. by split_and!.
  - destruct Hr2 as [(H0 & -> & -> & _)|(Hne & -> & -> & s1 & s2 & Hs1 & Hs2 & Hnone & Hgone)].
    + left. by exists k, t, s, row.
    + right. split_and!; [done..|]. right. exists k, t, s. split_and!; [done..|].
      intros row' (Hrow' & _ & _). destruct Hlive as (Hrow & _). rewrite Hrow in Hrow'. injection Hrow' as <-.
      rewrite Hs' in Hs1. injection Hs1 as <-. rewrite Hupd, (view_apart (S := accounts_db)) in Hnone.
      split_and!; [done..|]. by exists s2.
Qed.

Lemma SessionMW_load (h : Handler V X values_) r w :
  SessionMW array_order env rand_Read marshal_raw a h conn_writer r w =
  bind (bindE (load_token env a r) (load_session array_order a r)) (fun s =>
    match s with
    | Err err => ErrorHandler a conn_writer r err
    | Ok (ssnID, ssnData, acct) =>
        let ctx := match acct with Some _ => WithAccount (r_ctx r) acct | None => r_ctx r end in
        bind (in_app (WithSession ctx ssnID ssnData)) (fun ctx =>
          bind (h conn_writer (with_ctx r ctx))
            (fun _ => save_session rand_Read marshal_raw a conn_writer (with_ctx r ctx)))
    end) w.
Proof.
  unfold SessionMW, bindE, bind. destruct (load_token env a r w) as [[[tok|e]|v] w1]; [|done..].
  by destruct (load_session array_order a r tok w1) as [[[[[i dta] acct]|e]|v] w2].
Qed.

Lemma Session_cases (h : Handler V X values_) r w :
  ctx_ok conn (pgctx r) ->
  (exists ssnID ssnData acct ctx w1,
     SessionMW array_order env rand_Read marshal_raw a h conn_writer r w =
       bind (h conn_writer (with_ctx r ctx))
         (fun _ => save_session rand_Read marshal_raw a conn_writer (with_ctx r ctx)) w1 /\
     loaded r w ssnID ssnData acct (db_of w1) /\ hw_resp w1 = hw_resp w /\
     sees ctx (hw_app w1) (ssnID, Some (or_null ssnData), false) /\
     Acctctx.Account ctx = (match acct with Some ac => Some ac | None => Acctctx.Account (r_ctx r) end) /\
     ac_pgdb (cx_app ctx) = pgctx r) \/
  exists e w1, SessionMW array_order env rand_Read marshal_raw a h conn_writer r w =
    ErrorHandler a conn_writer r e w1 /\ hw_resp w1 = hw_resp w /\ fault conn e.
Proof.
  intros Hctx. rewrite SessionMW_load.
  destruct (load_run r w Hctx) as (res & d2 & E & _ & Hr). rewrite (bind_run _ _ _ _ _ E).
  destruct res as [[[i dta] acct]|e]; [left|right; by eexists e, _]. set (w2 := set_part d2 _) in *.
  set (ctx := match acct with Some _ => WithAccount (r_ctx r) acct | None => r_ctx r end) in *.
  destruct (WithSession ctx i dta (hw_app w2)) as [[ctx'|v] x3] eqn:E3; [|done].
  rewrite (bind_run _ _ _ _ _ (in_app_run _ _ _ _ E3)).
  exists i, dta, acct, ctx', (set_app (fun _ => x3) w2).
  destruct (session_of_WithSession _ _ _ _ _ _ E3) as (Hses & Hpg & Hacc).
  assert (db_of (set_app (fun _ => x3) w2) = d2) as ->.
  { unfold WithSession in E3. injection E3 as _ <-. unfold db_of. simpl.
    rewrite (view_apart (S := D) (T := list session)). apply view_update. }
  split_and!; [done|done|done|by apply (sees_session _ _ _ Hses)|..].
  - rewrite Hacc. unfold ctx. by destruct acct.
  - rewrite Hpg. unfold ctx. by destruct acct.
Qed.

(** C8. Session runs the handler with the session it loaded in the context, and
    then saves it, or, only for a failure of the driver, calls the error
    handler without running it.  The handler sees an account only if the
    cookie of the request is the token of a session that is stored, of the
    configured type, valid (neither expired nor idle for too long) at the time
    of the call when its token is verified, and of that account, which exists;
    it gets a new session for a cookie only when the session is not valid at
    that time or its account is gone.  Nothing of the response is begun before. *)
Theorem Session_sound (h : Handler V X values_) r w :
  ctx_ok conn (pgctx r) ->
  (exists ssnID ssnData acct ctx w1,
     SessionMW array_order env rand_Read marshal_raw a h conn_writer r w =
       bind (h conn_writer (with_ctx r ctx))
         (fun _ => save_session rand_Read marshal_raw a conn_writer (with_ctx r ctx)) w1 /\
     loaded r w ssnID ssnData acct (db_of w1) /\ hw_resp w1 = hw_resp w /\
     sees ctx (hw_app w1) (ssnID, Some (or_null ssnData), false) /\
     Acctctx.Account ctx = (match acct with Some ac => Some ac | None => Acctctx.Account (r_ctx r) end) /\
     ac_pgdb (cx_app ctx) = pgctx r) \/
  exists e w1, SessionMW array_order env rand_Read marshal_raw a h conn_writer r w =
    ErrorHandler a conn_writer r e w1 /\ hw_resp w1 = hw_resp w /\ fault conn e.
Proof. apply Session_cases. Qed.
End SessionLoad.

(** ** The session cookie *)

(** The text of a token needs no quotes in a cookie. *)
Lemma Encode_plain b : bytes b -> all_bytes plain_byte (EncodeToString b) = true.
Proof.
  assert (forall n, 0 <= n < 64 -> plain_byte (b64_char n) = true) as Hp.
  { intros n Hn. apply (below_spec 64 (fun n => plain_byte (b64_char n))); [by vm_compute|exact Hn]. }
  induction b as [|x|x y|x y z b IH] using bytes_ind3; intros Hb; [done|..];
    repeat (apply Forall_cons in Hb as [? Hb]); sextets_with ltac:(fun B => apply Hp in B);
    cbn [all_bytes]; repeat match goal with H : plain_byte _ = true |- _ => rewrite H; clear H end; try done.
  by rewrite (IH Hb).
Qed.

(** The client that got [set_cookie] returns what is before its attributes. *)
Definition returns (set_cookie : string) (h : header) : Prop :=
  h !! "Cookie"%string = Some [sent_back set_cookie].

(** The session cookie that the middleware sets for a token comes back as that
    token. *)
Lemma session_cookie_back b maxAge expires h :
  bytes b -> returns (cookie_String (session_cookie (EncodeToString b) maxAge expires)) h ->
  request_Cookie h "__Host-ssn" = Some (EncodeToString b).
Proof.
  intros Hb Hh. unfold request_Cookie. rewrite Hh.
  set (set_cookie := cookie_String _). change (default [] (Some [sent_back set_cookie])) with [sent_back set_cookie].
  pose proof (cookie_roundtrip (session_cookie (EncodeToString b) maxAge expires)) as Hrt.
  fold set_cookie in Hrt. rewrite Hrt by (done || by apply Encode_plain). done.
Qed.
