(* ===== verification/Inputs.v ===== *)
(** * Inputs: what a decoded parameter guarantees

    The theorems on Params, and on the inputs of the account handlers: the round
    trips of cookie parameters, what every request that Decode accepts
    satisfies, and what the validated inputs of Login, Register and Delete are. *)

From Stdlib Require Import ZArith Ascii String Lia.
From S2P Require Import Prelude Errors Pgdb Sql Tokens Accounts Accept Http Cookies Params Acctctx Acctmw AcctAuth.

(** ** Base64 *)

Definition string_of_bytes (b : list Z) : string :=
  foldr (fun z s => String (byte_of z) s) EmptyString b.

Lemma b64url_val_char n :
  0 <= n < 64 -> b64url_val (b64_char n) = Some n /\
    (byte_val (b64_char n) =? 10) || (byte_val (b64_char n) =? 13) = false.
Proof.
  intros Hn. set (p n := bool_decide (b64url_val (b64_char n) = Some n) &&
    negb ((byte_val (b64_char n) =? 10) || (byte_val (b64_char n) =? 13))).
  assert (p n = true) as H by (apply (below_spec 64 p); [by vm_compute|exact Hn]).
  apply andb_true_iff in H as [Hv Hb]. apply bool_decide_eq_true in Hv. by apply negb_true_iff in Hb.
Qed.

Lemma byte_of_same y z : y mod 256 = z mod 256 -> byte_of y = byte_of z.
Proof. unfold byte_of. by intros ->. Qed.

(** What base64 encodes decodes to the same bytes. *)
Lemma DecodeString_Encode b : bytes b -> DecodeString (EncodeToString b) = Some (string_of_bytes b).
Proof.
  intros Hb. unfold DecodeString.
  assert (exists l, sextets (EncodeToString b) = Some l /\ from_sextets l = Some (string_of_bytes b))
    as (l & -> & ->); [|done].
  revert Hb. induction b as [|x|x y|x y z b IH] using bytes_ind3; intros Hb; [by exists []|..];
    repeat (apply Forall_cons in Hb as [? Hb]);
    Tokens.sextets_with ltac:(fun B => apply b64url_val_char in B as []); cbn [sextets];
    repeat match goal with H : _ || _ = false |- _ => rewrite H; clear H
                      | H : b64url_val _ = _ |- _ => rewrite H; clear H end.
  - eexists. split; [reflexivity|]. cbn. do 2 f_equal. apply byte_of_same.
    Z.to_euclidean_division_equations; lia.
  - eexists. split; [reflexivity|]. cbn. do 2 f_equal; [|f_equal]; apply byte_of_same;
    Z.to_euclidean_division_equations; lia.
  - destruct (IH Hb) as (l & El & Hl). rewrite El. eexists. split; [reflexivity|]. cbn [from_sextets]. rewrite Hl.
    cbn. do 2 f_equal; [|f_equal; [|f_equal]]; apply byte_of_same; Z.to_euclidean_division_equations; lia.
Qed.

(** ** Cookie parameters *)

(** C32. A cookie parameter comes back as it was set: the value of the cookie if
    the field takes it raw, and the bytes that were encoded if it does not.  The
    field is a string, or a pointer to one; a pointer that is nil is always an
    error, which says that it must be a pointer to string. *)
Theorem cookie_param_roundtrip {T} (f : struct_field T) name b c h v :
  isToken_name name = true -> ck_Name c = name -> bytes b ->
  ck_Value c = EncodeToString b -> returns (cookie_String c) h ->
  let stored s := match f_kind f with
    | KString set => Ok (set s v)
    | KStringPtr ptr_get ptr_set =>
        match ptr_get v with Some _ => Ok (ptr_set s v) | None => Err (err_string_field (f_Name f)) end
    | KOther => Err (err_string_field (f_Name f))
    end in
  decodeCookie h v {| cookieName := name; raw := true; json := false; dst := f |} = stored (ck_Value c) /\
  decodeCookie h v {| cookieName := name; raw := false; json := false; dst := f |} = stored (string_of_bytes b).
Proof.
  intros Hn Hc Hb Hv Hh stored.
  assert (E : request_Cookie h name = Some (ck_Value c)).
  { unfold request_Cookie. rewrite Hh. destruct (String.eqb_spec name EmptyString) as [->|_]; [done|].
    change (default [] (Some [sent_back (cookie_String c)])) with [sent_back (cookie_String c)].
    rewrite cookie_roundtrip; [|by rewrite Hc|rewrite Hv; by apply Encode_plain].
    rewrite filter_cons_True by done. done. }
  unfold decodeCookie. simpl. rewrite E, Hv, (DecodeString_Encode b Hb). unfold stored.
  by destruct (f_kind f) as [|ptr_get ptr_set|]; [|destruct (ptr_get v)|].
Qed.

(** What a field with a tag asks for. *)
Definition field_cookie {T} (f : struct_field T) : option (cookieEntry T) :=
  let ck := TrimSpace (f_cookie f) in
  if f_Exported f && tag_given ck then
    let '(name, opts) := Cut "," ck in
    let opts := TrimSpace (default EmptyString opts) in
    Some {| cookieName := TrimSpace name; raw := String.eqb opts "raw"; json := String.eqb opts "json"; dst := f |}
  else None.
Definition field_path {T} (f : struct_field T) : option string :=
  if f_Exported f && tag_given (TrimSpace (f_path f)) then Some (TrimSpace (f_path f)) else None.

Lemma cacheSet_spec {T} (fields : list (struct_field T)) :
  cacheSet fields = {| pathValues := omap field_path fields; cookieValues := omap field_cookie fields |}.
Proof.
  unfold cacheSet.
  assert (forall e, foldl cache_field e fields = {| pathValues := pathValues e ++ omap field_path fields;
    cookieValues := cookieValues e ++ omap field_cookie fields |}) as ->; [|done].
  induction fields as [|f fields IH]; intros e; simpl; [by destruct e; rewrite !app_nil_r|].
  rewrite IH. unfold cache_field, field_path, field_cookie.
  destruct (f_Exported f), (tag_given (TrimSpace (f_path f))), (tag_given (TrimSpace (f_cookie f))); simpl; try done;
    try destruct (Cut "," (TrimSpace (f_cookie f))); simpl; by rewrite <- ?app_assoc.
Qed.

(** The value of a cookie that an entry takes. *)
Definition takes {T} (entry : cookieEntry T) (value : string) : Prop :=
  (raw entry = false -> is_Some (DecodeString value)) /\
  (json entry = false -> match f_kind (dst entry) with
                         | KString _ => True
                         | KStringPtr ptr_get _ => exists v, is_Some (ptr_get v)
                         | KOther => False
                         end).

Lemma decodeCookie_takes {T} h (v v' : T) entry value :
  decodeCookie h v entry = Ok v' -> request_Cookie h (cookieName entry) = Some value -> takes entry value.
Proof.
  intros H Hv. unfold decodeCookie in H. rewrite Hv in H. unfold takes.
  destruct (raw entry), (json entry); simpl in H; repeat case_in H; try done; split; eauto; try done.
Qed.

Lemma decode_cookies_takes {T} h entries (v v' : T) :
  decode_cookies h v entries = Ok v' ->
  Forall (fun entry => forall value, request_Cookie h (cookieName entry) = Some value -> takes entry value) entries.
Proof.
  revert v. induction entries as [|entry entries IH]; intros v H; constructor; simpl in H;
    destruct (decodeCookie h v entry) as [v1|] eqn:E; try done.
  - intros value. by apply (decodeCookie_takes _ _ _ _ _ E).
  - by eapply IH.
Qed.

Section Accepts.
Context {V X C : Type}.
Local Notation W := (hworld V X).
Context (PathValue : request C -> string -> string) (ParseMediaType : string -> string).
Context (Query : request C -> values) (ParseForm : request C -> go W (res error values)).
Local Notation Decode := (Decode PathValue ParseMediaType Query ParseForm).
Local Notation read_content := (read_content ParseMediaType ParseForm).

Definition media (req : header) : string := ParseMediaType (hdr_Get req "Content-Type").

Lemma bindE_Ok {A B} (m : go W (res error A)) (k : A -> go W (res error B)) w x w' :
  bindE m k w = (Ret (Ok x), w') -> exists a w1, m w = (Ret (Ok a), w1) /\ k a w1 = (Ret (Ok x), w').
Proof. unfold bindE, bind. destruct (m w) as [[[a|e]|] w1]; [|done..]. intros E. by exists a, w1. Qed.

(** C30. What Decode accepts: the body, if there is one, is a form or JSON; every
    cookie of the request that a field asks for had a value which the field
    takes, base64 unless it is raw; and the result is what the validation of
    the type, the last step, accepted. *)
Theorem Decode_accepts {T} (ty : struct_type V X C T) r d w v w' :
  Decode ty r d w = (Ret (Ok v), w') ->
  (r_content_length r = 0 \/
   media (hw_req_header w) ∈ ["application/x-www-form-urlencoded"; "application/json"]%string) /\
  (forall f entry value, f ∈ st_fields ty -> field_cookie f = Some entry ->
     request_Cookie (hw_req_header w) (cookieName entry) = Some value -> takes entry value) /\
  (forall validate, st_Validate ty = Some validate -> exists w1, validate v w1 = (Ret None, w')).
Proof.
  intros H. unfold Params.Decode in H. rewrite (bind_run _ _ w (hw_req_header w) w) in H by done.
  apply bindE_Ok in H as (c & w1 & Hc & H). apply bindE_Ok in H as (v1 & w2 & _ & H).
  apply bindE_Ok in H as (v2 & w3 & Hck & H). apply bindE_Ok in H as (v3 & w4 & _ & H).
  apply bindE_Ok in H as (v4 & w5 & _ & H). split_and!.
  - unfold Params.read_content in Hc. destruct (Z.eqb_spec (r_content_length r) 0) as [|_]; [by left|right].
    simpl in Hc. fold (media (hw_req_header w)) in Hc.
    destruct (String.eqb_spec (media (hw_req_header w)) "application/x-www-form-urlencoded") as [->|_]; [set_solver|].
    destruct (String.eqb_spec (media (hw_req_header w)) "application/json") as [->|_]; [set_solver|done].
  - injection Hck as Hck _. apply decode_cookies_takes in Hck. rewrite cacheSet_spec in Hck. simpl in Hck.
    intros f entry value Hf Hentry. rewrite Forall_forall in Hck. apply Hck.
    apply list_elem_of_omap. by exists f.
  - intros validate Hval. rewrite Hval in H. exists w5. unfold bind in H.
    destruct (validate v4 w5) as [[[e|]|] w6] eqn:E; simpl in H; try done. by injection H as <- <-.
Qed.
End Accepts.

(** ** The inputs of the account handlers *)

(** An email has an @ with something before the first one and after it. *)
Definition is_email (email : string) : Prop :=
  exists user host, email = user +:+ String "@" host /\ contains_byte "@" user = false /\
    user <> EmptyString /\ host <> EmptyString.

Lemma Cut_spec sep s :
  match Cut sep s with
  | (before, Some after) => s = before +:+ String sep after /\ contains_byte sep before = false
  | (before, None) => before = s /\ contains_byte sep s = false
  end.
Proof.
  induction s as [|c s IH]; [done|]. simpl. destruct (Ascii.eqb_spec c sep) as [->|Hne]; [done|].
  destruct (Cut sep s) as [before [after|]]; destruct IH as [-> IH]; simpl; split; try done;
    by destruct (Ascii.eqb_spec c sep).
Qed.

Lemma Cut_at sep before after :
  contains_byte sep before = false -> Cut sep (before +:+ String sep after) = (before, Some after).
Proof.
  induction before as [|c before IH]; simpl; [by rewrite Ascii.eqb_refl|].
  destruct (Ascii.eqb_spec c sep) as [->|Hne]; [done|]. intros H. by rewrite IH.
Qed.

Instance is_email_dec email : Decision (is_email email).
Proof.
  refine (match Cut "@" email as p return Cut "@" email = p -> _ with
  | (String a u, Some (String b v)) => fun E => left _
  | _ => fun E => right _
  end eq_refl).
  all: try (intros (user & host & -> & Hu & Hne & Hh); rewrite (Cut_at _ _ _ Hu) in E; by destruct user, host).
  pose proof (Cut_spec "@" email) as H. rewrite E in H. destruct H as [-> Hu].
  by exists (String a u), (String b v).
Defined.

(** The parameter that a validation reports, if any. *)
Definition report (o : option string) (act : string) (m : go heap (option error)) : Prop :=
  forall h, match o with
  | None => m h = (Ret None, h)
  | Some parameter => exists e h', m h = (Ret (Some e), h') /\
      reported h' e [("code", "400"); ("parameter", parameter); ("action", act)]%string
  end.

Lemma invalid_report msg parameter act : report (Some parameter) act (invalid msg parameter act).
Proof.
  intros h. set (kv := ["code"; "400"; "parameter"; parameter; "action"; act]%string).
  exists (new_tagged msg kv h).1, (new_tagged msg kv h).2. split; [reflexivity|].
  apply new_tagged_reported. by repeat constructor.
Qed.

Lemma or_else_report o1 o2 act m k :
  report o1 act m -> report o2 act k ->
  report (match o1 with Some p => Some p | None => o2 end) act (or_else m k).
Proof.
  intros Hm Hk h. specialize (Hm h). unfold or_else, bind. destruct o1 as [p|].
  - destruct Hm as (e & h' & -> & Hr). by exists e, h'.
  - rewrite Hm. apply Hk.
Qed.

Lemma validateEmail_report email act :
  report (if bool_decide (is_email email) then None else Some "email"%string) act (validateEmail email act).
Proof.
  unfold validateEmail. destruct (Cut "@" email) as [before after] eqn:E.
  destruct (bool_decide_reflect (is_email email)) as [(user & host & -> & Hu & Hne & Hh)|Hno].
  - rewrite (Cut_at _ _ _ Hu) in E. injection E as <- <-. intros h. by destruct user, host.
  - destruct (_ || _) eqn:Eb; [destruct (String.eqb email EmptyString); apply invalid_report|].
    destruct Hno. pose proof (Cut_spec "@" email) as H. rewrite E in H. apply orb_false_iff in Eb as [Eb Ea].
    destruct after as [after|]; [|done]. destruct H as [-> Hu]. exists before, after. string_tests. done.
Qed.

Lemma validatePassword_report pwd act :
  report (if String.eqb pwd EmptyString then Some "password"%string else None) act (validatePassword pwd act).
Proof. unfold validatePassword. destruct (String.eqb pwd EmptyString); [apply invalid_report|by intros h]. Qed.

(** The first parameter that is not valid. *)
Definition bad_login (i : loginInput) : option string :=
  if bool_decide (is_email (li_Email i)) then
    if String.eqb (li_Password i) EmptyString then Some "password"%string else None
  else Some "email"%string.
Definition bad_register (i : registerInput) : option string :=
  if bool_decide (is_email (ri_Email i)) then
    if String.eqb (ri_Password i) EmptyString then Some "password"%string
    else if String.eqb (ri_Password i) (ri_Password2 i) then None else Some "password2"%string
  else Some "email"%string.
Definition bad_delete (i : deleteInput) : option string :=
  if String.eqb (di_Password i) EmptyString then Some "password"%string else None.

Lemma report_then o1 o2 o act m k :
  report o1 act m -> report o2 act k -> o = (match o1 with Some p => Some p | None => o2 end) ->
  report o act (or_else m k).
Proof. intros H1 H2 ->. by apply or_else_report. Qed.

Lemma login_report i : report (bad_login i) ActionLogin (login_Validate i).
Proof.
  eapply report_then; [apply validateEmail_report|apply validatePassword_report|].
  unfold bad_login. by destruct (bool_decide _).
Qed.

Lemma register_report i : report (bad_register i) ActionRegister (register_Validate i).
Proof.
  eapply report_then; [apply validateEmail_report|eapply report_then; [apply validatePassword_report| |reflexivity]|].
  - instantiate (1 := if String.eqb (ri_Password i) (ri_Password2 i) then None else Some "password2"%string).
    destruct (String.eqb _ _); [by intros h|apply invalid_report].
  - unfold bad_register. destruct (bool_decide _); [|done]. by destruct (String.eqb _ EmptyString).
Qed.

(** C31. The inputs are validated in order: an email with an @ between two parts,
    a password, and, to register, the same password twice.  The first one that
    fails is reported with code 400, its name and the action, which is that of
    login for Delete too; otherwise there is no error and no effect. *)
Theorem Validate_reports li ri di :
  report (bad_login li) ActionLogin (login_Validate li) /\
  report (bad_register ri) ActionRegister (register_Validate ri) /\
  report (bad_delete di) ActionLogin (delete_Validate di).
Proof. split; [apply login_report|split; [apply register_report|apply validatePassword_report]]. Qed.

(** An input that was decoded is valid. *)
Lemma decode_valid {V X D DB I} `{!Lens X heap} (PathValue : request (acct_values (Ctx D (Sql DB))) -> string -> string)
    ParseMediaType Query ParseForm (c : codec V X D DB I) (validate : I -> go heap (option error)) bad act r w i w' :
  (forall i, report (bad i) act (validate i)) ->
  decode PathValue ParseMediaType Query ParseForm c (Some validate) r w = (Ret (Ok i), w') -> bad i = None.
Proof.
  intros Hrep H. unfold decode, Params.Decode in H.
  rewrite (bind_run _ _ w (hw_req_header w) w) in H by done.
  do 5 (apply bindE_Ok in H as (? & ? & _ & H)). simpl in H. unfold bind, in_heap, zoom in H. simpl in H.
  match type of H with context [validate ?i0 ?h] => pose proof (Hrep i0 h) as Hi end.
  destruct (bad _) as [p|] eqn:Eb.
  - destruct Hi as (e & h' & E & _). by rewrite E in H.
  - rewrite Hi in H. simpl in H. by injection H as <- _.
Qed.
