(* ===== verification/AcctFlows.v ===== *)
(** * AcctFlows: logout, deletion, registration, and the life of a session

    The theorems on the other handlers of Acctmw, and on what follows a login:
    the session it entered is the one that the next request loads. *)

From Stdlib Require Import ZArith Ascii String Lia.
From S2P Require Import Prelude Errors Pgdb Sql Tokens Accounts Accept Http Cookies Params Acctctx Acctmw AcctAuth Inputs.

Section Flows.
Context {V X D DB P : Type}.
Context {LD : Lens X D} {LH : Lens X heap} {LS : Lens X (list session)}.
Context {LA : Lens DB accounts_db} {LT : Lens DB tokens_table}.
Context {A1 : Apart X D heap} {A2 : Apart X D (list session)} {A3 : Apart X heap (list session)}.
Context {A4 : Apart DB accounts_db tokens_table}.
Local Notation W := (hworld V X).
Local Notation values_ := (acct_values (Ctx D (Sql DB))).
Context (a : Acctmw.Accounts V X D DB P).
Local Notation conn := (Tokens.Conn (Tokens_ a)).
Context {TL : TxLaws (conn_beginTxer conn) DB} {SL : SqlLaws conn}.
Context (env : Env D) {EL : EnvLaws env (conn_beginTxer conn)}.
Context (uuidv7 : Z -> accounts_db -> nat -> uuid) (array_order : list string -> list string).
Context (CreateHash : string -> P -> go X (res error string)) (DefaultParams : P).
Context (ComparePasswordAndHash : string -> string -> res error bool).
Context (PathValue : request values_ -> string -> string) (ParseMediaType : string -> string).
Context (Query : request values_ -> values) (ParseForm : request values_ -> go W (res error values)).
Context (one_conn : Acctmw.Conn a = conn).
Local Notation vis := (vis a).
Local Notation ty := (sessionTokenType a).
Local Notation decode c v r w := (decode PathValue ParseMediaType Query ParseForm c v r w).

(** A handler that ends in the error handler, with nothing of the response begun
    and nothing done to the database. *)
Definition rejects (r : request values_) (w0 : W) (L : outcome unit * W) : Prop :=
  exists e w1, L = ErrorHandler a conn_writer r e w1 /\ hw_resp w1 = hw_resp w0 /\
    keeps a r (db_of w0) (db_of w1).

Lemma rejects_params act r err (w0 : W) : rejects r w0 (invalid_params a act conn_writer r err w0).
Proof.
  destruct (invalid_params_run a act conn_writer r err w0) as (e & h' & E & _).
  exists e, (set_part h' w0). split_and!; [done|done|]. rewrite db_of_set_heap. by left.
Qed.

Lemma rejects_with msg kv r (w0 : W) : rejects r w0 (fail_with a msg kv conn_writer r w0).
Proof.
  destruct (fail_with_run a msg kv [] conn_writer r w0) as (e & h' & E & _); [constructor|].
  exists e, (set_part h' w0). split_and!; [done|done|]. rewrite db_of_set_heap. by left.
Qed.

(** ** Logout *)

(** Logout either runs the handler, and then an account was logged in, the
    token of its session is deleted, the session of the context is a new
    anonymous one, the account is gone from the context and the cookie is
    cleared; or it is rejected without an effect. *)
Lemma Logout_sound (c : codec V X D DB unit) (h : Handler V X values_) r input w w0 :
  ctx_ok conn (pgctx r) -> decode c None r w = (Ret input, w0) ->
  (exists ac ssn s w1, Acctctx.Account (r_ctx r) = Some ac /\
     session_of (r_ctx r) (hw_app w0) = Some ssn /\ ssn_id ssn <> EmptyString /\
     Logout PathValue ParseMediaType Query ParseForm c a h conn_writer r w =
       h conn_writer (with_ctx r (WithAccount (r_ctx r) None)) w1 /\
     vis r (db_of w0) = Some s /\
     vis r (db_of w1) = Some (update (delete (ssn_id ssn) (view s : tokens_table)) s) /\
     sees (r_ctx r) (hw_app w1) (EmptyString, Some nullJSON, false) /\
     hw_resp w1 = add_cookie (session_cookie EmptyString (-1) (Some epoch)) (hw_resp w0)) \/
  rejects r w0 (Logout PathValue ParseMediaType Query ParseForm c a h conn_writer r w).
Proof.
  intros Hctx Hdec. remember (Logout _ _ _ _ _ a h conn_writer r w) as L eqn:HL. unfold Logout in HL.
  rewrite (bind_run _ _ _ _ _ Hdec) in HL.
  destruct input as [[]|err]; [|right; rewrite HL; apply rejects_params].
  rewrite (bind_run (in_app _) _ w0 (old_session r w0).1 w0) in HL.
  2:{ unfold in_app, zoom, SessionID, gets, old_session. simpl. destruct (session_of _ _); by destruct w0. }
  destruct (String.eqb_spec (old_session r w0).1 EmptyString) as [|Hid];
    [right; rewrite HL; apply rejects_with|].
  destruct (bool_decide_reflect (Acctctx.Account (r_ctx r) = None)) as [|Hacc];
    [right; rewrite HL; apply rejects_with|]. cbn [orb] in HL.
  unfold old_session in *. destruct (session_of (r_ctx r) (hw_app w0)) as [ssn|] eqn:Essn; [|done]. simpl in *.
  destruct (Acctctx.Account (r_ctx r)) as [ac|]; [|done].
  destruct (exec_tokens_run a r (deleteToken (ssn_id ssn)) (fun _ => delete (ssn_id ssn)) (db_of w0) Hctx)
    as (res & d1 & E & _ & Hr); [done|]. apply in_db_run in E.
  unfold logout, Tokens.Delete in HL. rewrite (bind_run _ _ _ _ _ E) in HL.
  destruct res as [[]|e].
  - left. destruct Hr as (t & s & Hs & Hs').
    destruct (ResetSession_run (D := D) (r_ctx r) EmptyString None (set_part d1 w0)) as (x2 & E2 & Hsees & Hd).
    { rewrite session_of_set_db. by exists ssn. }
    rewrite (bind_run _ _ _ _ _ E2), (bind_run _ _ _ _ _ (SetCookie_run _ _ _ _)) in HL.
    eexists ac, ssn, s, _. split_and!; [done..|exact HL|done| |done|done].
    rewrite db_of_set in Hd. unfold db_of at 1. simpl. by rewrite Hd.
  - right. eexists e, _. split_and!; [exact HL|done|]. rewrite db_of_set. apply Hr.
Qed.

(** ** Deletion *)

(** What the transaction of delete computes. *)
Definition delete_sql (acctID : uuid) : Sql DB unit :=
  sbind (on_table (deleteAccount acctID)) (fun _ => on_table (deleteTokens acctID ty)).

Lemma delete_fn_does acctID ctx tx :
  ctxTx ctx = Some tx -> owned tx ->
  tx_does conn tx (delete_sql acctID) (delete_fn a acctID ctx tx).
Proof.
  intros Hctx Hown. eapply tx_does_ext; [|intros w; unfold delete_fn; apply tx_does_at_bindE;
    [by apply tx_does_Exec|intros; apply tx_does_at_bindE; [by apply tx_does_Exec|intros; by apply tx_does_ret]]].
  intros now s. unfold delete_sql, sbind, exec_of, map_ok, done_.
  destruct (on_table _ now s) as [[[] s1]|]; [|done]. by destruct (on_table _ now s1) as [[[] s2]|].
Qed.

Lemma delete_account_run r acctID pwd hash x :
  ctx_ok conn (pgctx r) ->
  exists res x', delete_account env ComparePasswordAndHash a r acctID pwd hash x = (Ret res, x') /\
    (view x' : list session) = view x /\
    match res with
    | Ok _ => ComparePasswordAndHash pwd hash = Ok true /\ exists t s s', vis r (view x) = Some s /\
        vis r (view x') = Some s' /\ delete_sql acctID t s = Ok (tt, s')
    | Err e => keeps a r (view x) (view x') /\
        (ComparePasswordAndHash pwd hash = Ok false ->
           reported (view x') e [("code", "400"); ("parameter", "password"); ("action", ActionDelete)]%string)
    end.
Proof.
  intros Hctx. unfold delete_account. destruct (ComparePasswordAndHash pwd hash) as [[]|e] eqn:Ec.
  - destruct (EnsureTx_run conn env (pgctx r) (delete_sql acctID) (delete_fn a acctID) (view x) Hctx)
      as (res & d' & E & Hr); [intros; by apply delete_fn_does|].
    cbn [negb]. rewrite one_conn, (zoom_run _ _ _ _ E). exists res, (update d' x).
    rewrite (view_apart' (S := D) (T := list session)), view_update. split_and!; [done|done|].
    destruct res as [[]|e]; [split; [done|by apply ran_Ok in Hr]|split; [by apply ran_keeps in Hr|done]].
  - destruct (new_error_run "invalid password"
      ["code"; "400"; "parameter"; "password"; "action"; ActionDelete]%string
      [("code", "400"); ("parameter", "password"); ("action", ActionDelete)]%string x) as (e & h' & E & Hrep);
      [by repeat constructor|]. cbn [negb]. unfold tag_new. rewrite (bind_run _ _ _ _ _ E).
    exists (Err e), (update h' x). rewrite (view_apart' (S := heap) (T := list session)), view_update.
    rewrite (view_apart (S := D) (T := heap)). split_and!; [done|done|by left|done].
  - exists (Err e), x. split_and!; [done|done|by left|done].
Qed.

(** The tables without an account: its memberships and its sessions are gone,
    everything else is as it was. *)
Definition account_deleted (acctID : uuid) (s s' : DB) : Prop :=
  t_accounts (view s') = delete acctID (t_accounts (view s)) /\
  t_groups (view s') = t_groups (view s) /\
  (forall i g, (i, g) ∈ t_members (view s') <-> i <> acctID /\ (i, g) ∈ t_members (view s)) /\
  (forall k row, (view s' : tokens_table) !! k = Some row <->
     (view s : tokens_table) !! k = Some row /\ ~ (r_ref_id row = acctID /\ r_type row = ty)).

Lemma delete_sql_spec acctID t s s' :
  delete_sql acctID t s = Ok (tt, s') -> account_deleted acctID s s'.
Proof.
  unfold delete_sql, sbind, on_table, deleteAccount, deleteTokens. intros [= <-].
  unfold account_deleted. rewrite (view_apart (S := accounts_db) (T := tokens_table)), !view_update.
  rewrite (view_apart' (S := accounts_db) (T := tokens_table)). simpl. split_and!; [done|done|..].
  - intros i g. by rewrite elem_of_filter.
  - intros k row. rewrite map_lookup_filter_Some. simpl. done.
Qed.

Lemma Delete_cases (c : codec V X D DB deleteInput) (h : Handler V X values_) r input w w0 :
  ctx_ok conn (pgctx r) -> decode c (Some delete_Validate) r w = (Ret input, w0) ->
  is_Some (session_of (r_ctx r) (hw_app w0)) ->
  match input with
  | Ok input => exists ac s s' w1, bad_delete input = None /\ Acctctx.Account (r_ctx r) = Some ac /\
     ComparePasswordAndHash (di_Password input) (Password ac) = Ok true /\
     Acctmw.Delete env ComparePasswordAndHash PathValue ParseMediaType Query ParseForm c a h conn_writer r w =
       h conn_writer r w1 /\
     vis r (db_of w0) = Some s /\ vis r (db_of w1) = Some s' /\ account_deleted (ID ac) s s' /\
     sees (r_ctx r) (hw_app w1) (EmptyString, Some nullJSON, false) /\
     hw_resp w1 = add_cookie (session_cookie EmptyString (-1) (Some epoch)) (hw_resp w0)
  | Err _ => False
  end \/
  rejects r w0 (Acctmw.Delete env ComparePasswordAndHash PathValue ParseMediaType Query ParseForm c a h
    conn_writer r w).
Proof.
  intros Hctx Hdec Hssn. remember (Acctmw.Delete _ _ _ _ _ _ _ a h conn_writer r w) as L eqn:HL.
  unfold Acctmw.Delete in HL. rewrite (bind_run _ _ _ _ _ Hdec) in HL.
  destruct input as [input|err]; [|right; rewrite HL; apply rejects_params].
  destruct (Acctctx.Account (r_ctx r)) as [ac|]; [|right; rewrite HL; apply rejects_with].
  destruct (delete_account_run r (ID ac) (di_Password input) (Password ac) (hw_app w0) Hctx)
    as (res & x1 & E & Hss & Hr). rewrite (bind_run _ _ _ _ _ (in_app_run _ _ _ _ E)) in HL.
  destruct res as [[]|e]; [left|right].
  - destruct Hr as (Hcmp & t & s & s' & Hs & Hs' & Hp). rewrite (bind_run _ _ _ _ _ (SetCookie_run _ _ _ _)) in HL.
    match type of HL with context [bind _ _ ?w] => destruct (ResetSession_run (D := D) (r_ctx r) EmptyString None w)
      as (x2 & E2 & Hsees & Hd) end.
    { by rewrite (session_of_frame (r_ctx r) (hw_app w0)). }
    rewrite (bind_run _ _ _ _ _ E2) in HL. eexists ac, s, s', _.
    split_and!; [|done|done|exact HL|done| |by eapply delete_sql_spec|done|done].
    { eapply decode_valid; [intros; by apply validatePassword_report|exact Hdec]. }
    unfold db_of at 1. simpl. by rewrite Hd.
  - exists e, (set_app (fun _ => x1) w0). split_and!; [done|done|]. exact (proj1 Hr).
Qed.

(** C14. Delete either runs the handler, and then the password is that of the
    account logged in, which is deleted with its memberships and all its
    sessions in one transaction, the session of the context is a new anonymous
    one and the cookie is cleared; or it is rejected and nothing is deleted.
    The account stays in the context. *)
Theorem Delete_sound (c : codec V X D DB deleteInput) (h : Handler V X values_) r input w w0 :
  ctx_ok conn (pgctx r) -> decode c (Some delete_Validate) r w = (Ret input, w0) ->
  is_Some (session_of (r_ctx r) (hw_app w0)) ->
  match input with
  | Ok input => exists ac s s' w1, bad_delete input = None /\ Acctctx.Account (r_ctx r) = Some ac /\
     ComparePasswordAndHash (di_Password input) (Password ac) = Ok true /\
     Acctmw.Delete env ComparePasswordAndHash PathValue ParseMediaType Query ParseForm c a h conn_writer r w =
       h conn_writer r w1 /\
     vis r (db_of w0) = Some s /\ vis r (db_of w1) = Some s' /\ account_deleted (ID ac) s s' /\
     sees (r_ctx r) (hw_app w1) (EmptyString, Some nullJSON, false) /\
     hw_resp w1 = add_cookie (session_cookie EmptyString (-1) (Some epoch)) (hw_resp w0)
  | Err _ => False
  end \/
  rejects r w0 (Acctmw.Delete env ComparePasswordAndHash PathValue ParseMediaType Query ParseForm c a h
    conn_writer r w).
Proof. apply Delete_cases. Qed.

(** ** Registration *)

(** Hashing a password touches neither the database nor errors and sessions. *)
Definition hash_only : Prop := forall pwd p x, exists res x', CreateHash pwd p x = (Ret res, x') /\
  (view x' : D) = view x /\ (view x' : list session) = view x.

(** What Register reports for an error of the driver: the tag for its SQL state,
    or the error itself, with the action when it is one that is tagged. *)
Definition fault_reported (e0 e : error) (h : heap) : Prop :=
  match violation e0 with
  | Some (code, param) => reported h e [("code", code); ("parameter", param); ("action", ActionRegister)]%string
  | None => e = e0 /\ (IsTag (Some e0) AccountsTag = true -> reported h e0 [("action", ActionRegister)]%string)
  end.

(** The account of the registration was inserted, by a request without a
    transaction of its own. *)
Definition account_left (r : request values_) (email hash : string) (d d' : D) : Prop :=
  ctxTx (pgctx r) = None /\ exists t id s1, clock d <= t <= clock d' /\
    insertAccount uuidv7 email hash t (view (db d)) = Ok (Some id, s1) /\ db d' = update s1 (db d).

(** Why a registration fails after its parameters were decoded, and what it
    leaves in the database: the password cannot be hashed; the database refuses
    the account; or the driver fails, before the account is inserted or, outside
    of a transaction, after it, when the account is read back. *)
Definition not_registered r (i : registerInput) (x : X) (e : error) (x' : X) : Prop :=
  ((CreateHash (ri_Password i) (argon2Params DefaultParams a) x).1 = Ret (Err e) /\
     keeps a r (view x) (view x')) \/
  exists hash, (CreateHash (ri_Password i) (argon2Params DefaultParams a) x).1 = Ret (Ok hash) /\
  ((exists t s code param, timed conn (pgctx r) t (view x) (view x') /\
     vis r (view x) = Some s /\ refusal uuidv7 (ri_Email i) hash t (view s) = Some (code, param) /\
     reported (view x') e [("code", code); ("parameter", param); ("action", ActionRegister)]%string /\
     keeps a r (view x) (view x')) \/
   (exists e0, faulty e0 /\ fault_reported e0 e (view x') /\
     (keeps a r (view x) (view x') \/ account_left r (ri_Email i) hash (view x) (view x')))).

(** The end of register, for an error of Create. *)
Definition register_error (e : error) : go X (res error unit) :=
  if IsTag (Some e) AccountsTag then
    bind (bind (zoom (WithKeyValue (Some e) "action" ActionRegister)) non_nil) (fun e => ret (Err e))
  else ret (Err e).

Lemma register_error_tagged e kv x :
  reported (view x) e kv -> Forall (fun p => p.1 <> "action"%string) kv ->
  exists h', register_error e x = (Ret (Err e), update h' x) /\
    reported h' e (kv ++ [("action", ActionRegister)]%string).
Proof.
  intros Hrep Hne. unfold register_error. rewrite (proj1 Hrep).
  destruct (reported_with_key (view x) e kv "action" ActionRegister Hrep Hne) as (h' & Ew & Hrep').
  rewrite bind_assoc, (bind_run _ _ _ _ _ (zoom_run _ _ _ _ Ew)). by exists h'.
Qed.

Lemma register_error_fault e0 e x :
  match violation e0 with
  | Some (code, param) => reported (view x) e [("code", code); ("parameter", param)]%string
  | None => e = e0
  end ->
  exists x', register_error e x = (Ret (Err e), x') /\ (view x' : D) = view x /\ fault_reported e0 e (view x').
Proof.
  unfold fault_reported. destruct (violation e0) as [[code param]|].
  - intros Hrep. destruct (register_error_tagged e _ x Hrep) as (h' & E & Hrep'); [by repeat constructor|].
    exists (update h' x). rewrite view_update, (view_apart (S := D) (T := heap)). by split_and!.
  - intros ->. destruct (IsTag (Some e0) AccountsTag) eqn:Et.
    + destruct (register_error_tagged e0 [] x) as (h' & E & Hrep'); [by split|constructor|].
      exists (update h' x). rewrite view_update, (view_apart (S := D) (T := heap)). by split_and!.
    + exists x. unfold register_error. rewrite Et. by split_and!.
Qed.

Lemma register_run r i x :
  ctx_ok conn (pgctx r) -> hash_only -> (forall l, array_order l ≡ₚ l) ->
  exists res x', register uuidv7 array_order CreateHash DefaultParams a r (ri_Email i) (ri_Password i) x
      = (Ret res, x') /\
    match res with
    | Ok _ => exists hash id t s s1,
        (CreateHash (ri_Password i) (argon2Params DefaultParams a) x).1 = Ret (Ok hash) /\
        timed conn (pgctx r) t (view x) (view x') /\
        vis r (view x) = Some s /\ vis r (view x') = Some (update s1 s) /\
        insertAccount uuidv7 (ri_Email i) hash t (view s) = Ok (Some id, s1) /\
        refusal uuidv7 (ri_Email i) hash t (view s) = None /\
        t_accounts s1 !! id = Some {| ar_email := ri_Email i; ar_password := hash; ar_verified := None; ar_created := t |}
    | Err e => not_registered r i x e x'
    end.
Proof.
  intros Hctx Hhash Hperm. unfold register, not_registered.
  destruct (Hhash (ri_Password i) (argon2Params DefaultParams a) x) as (res & x1 & E & Hd & Hs1).
  rewrite (bind_run _ _ _ _ _ E), E. simpl fst. destruct res as [hash|e].
  2:{ exists (Err e), x1. split; [done|]. left. split; [done|]. rewrite Hd. by left. }
  destruct (Create_refines (W := X) conn uuidv7 array_order (pgctx r) (ri_Email i) hash x1 Hctx Hperm)
    as (res & x2 & E2 & Hr). rewrite one_conn, (bind_run _ _ _ _ _ E2). cbv zeta in Hr. rewrite Hd in Hr.
  destruct res as [acct|e].
  - exists (Ok tt), x2. split; [done|]. destruct Hr as (t & s & s1 & Ht & Hs & Hs' & Hins & Href & Hacc & _).
    by exists hash, (ID acct), t, s, s1.
  - fold (register_error e). destruct Hr as [(t & s & code & param & Ht & Hs & Hs' & Href & Hrep)|((e0 & Hf & He) & Htx & Hno)].
    + destruct (register_error_tagged e _ x2 Hrep) as (h' & E3 & Hrep'); [by repeat constructor|].
      exists (Err e), (update h' x2). split; [done|]. right. exists hash. split; [done|]. left. exists t, s, code, param.
      rewrite view_update, (view_apart (S := D) (T := heap)). split_and!; try done.
      unfold keeps, AcctAuth.vis. rewrite Hs, Hs'. destruct (ctxTx (pgctx r)); auto.
    + destruct (register_error_fault e0 e x2 He) as (x3 & E3 & Hv & Hrep).
      exists (Err e), x3. split; [done|]. right. exists hash. split; [done|]. right. exists e0.
      rewrite Hv. split_and!; [done..|]. unfold keeps, account_left, AcctAuth.vis, visible in *.
      destruct (ctxTx (pgctx r)) as [tx|]; [left; right; by apply Htx|].
      destruct (Hno eq_refl) as [->|?]; [by left; left|by right].
Qed.

(** C15. Register either runs the handler, and then the parameters were valid, the
    validator accepts the password and the one effect is the insertion of an
    unverified account with the email and the hash of the password; or it calls
    the error handler without a response begun.  Then the parameters are invalid,
    the validator refuses the password (400) or it cannot be hashed, or the
    database refuses the account (the error has the code and the parameter of the
    reason, and the action), and in each of these cases nothing is created; or
    the driver failed, the error is the driver's or the tag for its SQL state, and
    nothing is created unless the request has no transaction and it is the read of
    the new account that failed: then the account stays. *)
Theorem Register_sound (c : codec V X D DB registerInput) (h : Handler V X values_) r input w w0 :
  ctx_ok conn (pgctx r) -> hash_only -> (forall l, array_order l ≡ₚ l) ->
  decode c (Some register_Validate) r w = (Ret input, w0) ->
  let L := Register uuidv7 array_order CreateHash DefaultParams PathValue ParseMediaType Query ParseForm c a h
    conn_writer r w in
  (exists i hash id t s s1 w1, input = Ok i /\ bad_register i = None /\ L = h conn_writer r w1 /\ hw_resp w1 = hw_resp w0 /\
     (forall f, PasswordValidator a = Some f -> f (ri_Password i) = None) /\
     (CreateHash (ri_Password i) (argon2Params DefaultParams a) (hw_app w0)).1 = Ret (Ok hash) /\
     timed conn (pgctx r) t (db_of w0) (db_of w1) /\
     vis r (db_of w0) = Some s /\ vis r (db_of w1) = Some (update s1 s) /\
     insertAccount uuidv7 (ri_Email i) hash t (view s) = Ok (Some id, s1) /\
     refusal uuidv7 (ri_Email i) hash t (view s) = None /\
     t_accounts s1 !! id = Some {| ar_email := ri_Email i; ar_password := hash; ar_verified := None; ar_created := t |}) \/
  (exists e w1, L = ErrorHandler a conn_writer r e w1 /\ hw_resp w1 = hw_resp w0 /\
     match input with
     | Err err => keeps a r (db_of w0) (db_of w1) /\
                  if IsTag (Some err) AccountsTag then e = err
                  else reported (heap_of w1) e [("code", "400"); ("action", ActionRegister)]%string
     | Ok i =>
         (exists f err, PasswordValidator a = Some f /\ f (ri_Password i) = Some err /\
            reported (heap_of w1) e [("code", "400"); ("action", ActionRegister)]%string /\
            keeps a r (db_of w0) (db_of w1)) \/
         not_registered r i (hw_app w0) e (hw_app w1)
     end).
Proof.
  intros Hctx Hhash Hperm Hdec L. subst L. remember (Register _ _ _ _ _ _ _ _ _ a h conn_writer r w) as L eqn:HL.
  unfold Register in HL. rewrite (bind_run _ _ _ _ _ Hdec) in HL. destruct input as [i|err].
  2:{ right. destruct (invalid_params_run a ActionRegister conn_writer r err w0) as (e & h' & E & He).
      exists e, (set_part h' w0). split; [by rewrite HL|]. split; [done|].
      rewrite db_of_set_heap. split; [by left|]. unfold heap_of, set_part. simpl. by rewrite view_update. }
  destruct (match PasswordValidator a with Some f => f (ri_Password i) | None => None end) as [err|] eqn:Ev.
  - right. destruct (PasswordValidator a) as [f|] eqn:Ef; [|done].
    destruct (tag_error_run err ["code"; "400"; "action"; ActionRegister]%string
      [("code", "400"); ("action", ActionRegister)]%string (hw_app w0)) as (e & h' & E & Hrep); [by repeat constructor|].
    rewrite (bind_run _ _ _ _ _ (in_app_run _ _ _ _ E)) in HL. eexists e, _. split; [exact HL|]. split; [done|].
    left. exists f, err. unfold heap_of, db_of. simpl. rewrite view_update, (view_apart (S := D) (T := heap)).
    split_and!; [done|done|done|by left].
  - destruct (register_run r i (hw_app w0) Hctx Hhash Hperm) as (res & x1 & E & Hr).
    rewrite (bind_run _ _ _ _ _ (in_app_run _ _ _ _ E)) in HL. destruct res as [[]|e].
    + left. destruct Hr as (hash & id & t & s & s1 & Hh & Ht & Hs & Hs' & Hins & Href & Hacc).
      eexists i, hash, id, t, s, s1, _. split_and!; [done| |exact HL|done| |done..].
      { eapply decode_valid; [intros; by apply register_report|exact Hdec]. }
      intros f Ef. by rewrite Ef in Ev.
    + right. eexists e, _. split; [exact HL|]. split; [done|]. by right.
Qed.
End Flows.

(** ** Saving a session *)

Section Saving.
Context {V X D DB P : Type}.
Context {LD : Lens X D} {LH : Lens X heap} {LS : Lens X (list session)}.
Context {LA : Lens DB accounts_db} {LT : Lens DB tokens_table}.
Context {A1 : Apart X D heap} {A2 : Apart X D (list session)} {A3 : Apart X heap (list session)}.
Context {A4 : Apart DB accounts_db tokens_table}.
Local Notation W := (hworld V X).
Local Notation values_ := (acct_values (Ctx D (Sql DB))).
Context (a : Acctmw.Accounts V X D DB P).
Local Notation conn := (Tokens.Conn (Tokens_ a)).
Context {TL : TxLaws (conn_beginTxer conn) DB} {SL : SqlLaws conn}.
Context (rand_Read : Z -> go D (list Z)) {RL : RandLaws (conn_beginTxer conn) rand_Read}.
Context (marshal_raw : RawMessage -> res error string).
Local Notation vis := (vis a).
Local Notation ty := (sessionTokenType a).

(** The row of a new anonymous session: twelve hours, or thirty minutes idle. *)
Definition anonymous_row (now : Z) (j : string) (row : token_row) : Prop :=
  r_type row = ty /\ r_single_use row = false /\ r_ref_id row = 0%N /\ r_data row = j /\
  r_expiry row = seconds now 43200 /\ r_idle row = Some (seconds now 1800) /\ r_idle_duration row = Some 1800.

Definition anonymous_args (data : RawMessage) : TokenArgs RawMessage :=
  {| a_Type := ty; a_RefID := 0%N; a_SingleUse := false; AbsoluteExpiry := anonymousSessionDuration;
     IdleExpiry := idleAnonymousSessionDuration; a_Data := Some data |}.

Lemma insert_anonymous token data j now tbl tbl' :
  new_sql (Any := RawMessage) token (anonymous_args data) j now tbl = Ok (tt, tbl') ->
  tbl !! token = None /\ exists row, anonymous_row now j row /\ tbl' = <[token := row]> tbl.
Proof.
  unfold new_sql, insertToken, write_row. simpl. destruct (check_row _ _); [done|].
  destruct (tbl !! token) eqn:E; [done|]. intros [= <-]. split; [done|]. eexists. split; [|reflexivity].
  by repeat split.
Qed.

(** How the database changes when the session is saved: not at all, the data of
    its row when it has a token, or else a new anonymous session. *)
Definition session_saved (ssn : session) (now : Z) (new : string) (tbl tbl' : tokens_table) : Prop :=
  if ssn_dirty ssn then
    if String.eqb (ssn_id ssn) EmptyString then
      generated (Tokens_ a) new /\ tbl !! new = None /\
      exists j row, marshal_raw (Some (ssn_data ssn)) = Ok j /\ anonymous_row now j row /\
        tbl' = <[new := row]> tbl
    else tbl' = alter (set_data (ssn_data ssn)) (ssn_id ssn) tbl
  else tbl' = tbl.

(** C17. After the handler, a session whose data was not replaced costs nothing:
    neither the database nor the response is touched.  Otherwise the data is
    written to the session's token, or to a new anonymous session's, which is
    also set as a cookie; or the error handler is called with nothing of it
    visible.  The cookie is added to the header map only: what the handler has
    already sent of the response does not change, so that when it has sent the
    header the client never learns the token of the new session. *)
Theorem session_saved_exact r ssn (w : W) :
  ctx_ok conn (pgctx r) -> session_of (r_ctx r) (hw_app w) = Some ssn ->
  let L := save_session rand_Read marshal_raw a conn_writer r w in
  (exists e w1, ssn_dirty ssn = true /\ L = ErrorHandler a conn_writer r e w1 /\ hw_resp w1 = hw_resp w /\
     keeps a r (db_of w) (db_of w1)) \/
  (exists w1, L = (Ret tt, w1) /\
     res_sent (hw_resp w1) = res_sent (hw_resp w) /\
     (ssn_dirty ssn = false -> w1 = w) /\
     (ssn_dirty ssn = true -> exists t s tbl' new, vis r (db_of w) = Some s /\
        vis r (db_of w1) = Some (update tbl' s) /\
        session_saved ssn t new (view s) tbl' /\
        hw_resp w1 = if String.eqb (ssn_id ssn) EmptyString
                     then add_cookie (session_cookie new 0 None) (hw_resp w) else hw_resp w)).
Proof.
  intros Hctx Hssn L. subst L. remember (save_session _ _ a conn_writer r w) as L eqn:HL. unfold save_session in HL.
  rewrite (bind_run (in_app _) _ w (ssn_id ssn, Some (ssn_data ssn), ssn_dirty ssn) w) in HL.
  2:{ unfold in_app, zoom, Session, gets. simpl. rewrite Hssn. by destruct w. }
  cbv beta iota in HL. unfold session_saved. destruct (ssn_dirty ssn); [|right; by exists w].
  destruct (String.eqb (ssn_id ssn) EmptyString).
  - unfold generateNewAnonymousSession in HL. fold (anonymous_args (Some (ssn_data ssn))) in HL.
    destruct (New_refines (Tokens_ a) rand_Read marshal_raw (pgctx r) (anonymous_args (Some (ssn_data ssn)))
      (db_of w) Hctx) as (res & d' & E & Hr).
    apply in_db_run in E. rewrite bind_assoc, (bind_run _ _ _ _ _ E) in HL. clear E. unfold marshaled in Hr. simpl in Hr.
    assert (Hfail : forall e, res = Err e -> keeps a r (db_of w) d' -> exists e w1,
      true = true /\ L = ErrorHandler a conn_writer r e w1 /\ hw_resp w1 = hw_resp w /\ keeps a r (db_of w) (db_of w1)).
    { intros e -> Hk. exists e, (set_part d' w). rewrite db_of_set. split_and!; [done| |done|done].
      rewrite HL, bind_assoc. unfold bind, ret. by destruct (ErrorHandler a _ _ _ _) as [[[]|] ?]. }
    destruct (marshal_raw (Some (ssn_data ssn))) as [j|e].
    + destruct Hr as (new & Hgen & Hr). destruct res as [[new' j']|e]; [right|left; by eapply Hfail, ran_keeps].
      apply ran_Ok in Hr as (t & s & s' & Hs & Hs' & Hp). unfold stmt_then, map_ok, on_table in Hp.
      destruct (new_sql new _ j t (view s)) as [[[] tbl']|] eqn:Ei; [|done]. injection Hp as <- <- <-.
      apply insert_anonymous in Ei as (Hnew & row & Hrow & ->).
      eexists. split; [exact HL|]. split; [done|]. split; [done|]. intros _.
      exists t, s, (<[new := row]> (view s)), new. split_and!; [done| |done|done|by exists j, row|done].
      unfold db_of. simpl. rewrite (view_apart (S := D) (T := list session)). by rewrite view_update.
    + destruct Hr as (-> & _ & Hv). left. eapply Hfail; [done|by left].
  - destruct (exec_tokens_run a r (updateData (Some (ssn_data ssn)) (ssn_id ssn))
      (fun _ => alter (set_data (ssn_data ssn)) (ssn_id ssn)) (db_of w) Hctx) as (res & d' & E & _ & Hr).
    { intros t tbl. unfold updateData. rewrite alter_alt. by destruct (tbl !! ssn_id ssn). }
    apply in_db_run in E. unfold UpdateData in HL. rewrite (bind_run _ _ _ _ _ E) in HL. destruct res as [[]|e].
    + right. destruct Hr as (t & s & Hs & Hs'). exists (set_part d' w). rewrite db_of_set. split_and!; try done.
      intros _. by exists t, s, (alter (set_data (ssn_data ssn)) (ssn_id ssn) (view s)), EmptyString.
    + left. exists e, (set_part d' w). rewrite db_of_set. split_and!; [done..|apply Hr].
Qed.
End Saving.

(** ** From a login to the next request *)

Section Return.
Context {V X D DB P : Type}.
Context {LD : Lens X D} {LH : Lens X heap} {LS : Lens X (list session)}.
Context {LA : Lens DB accounts_db} {LT : Lens DB tokens_table}.
Context {A1 : Apart X D heap} {A2 : Apart X D (list session)} {A3 : Apart X heap (list session)}.
Context {A4 : Apart DB accounts_db tokens_table}.
Local Notation W := (hworld V X).
Local Notation values_ := (acct_values (Ctx D (Sql DB))).
Context (a : Acctmw.Accounts V X D DB P).
Local Notation conn := (Tokens.Conn (Tokens_ a)).
Context {TL : TxLaws (conn_beginTxer conn) DB} {SL : SqlLaws conn}.
Context (env : Env D) {EL : EnvLaws env (conn_beginTxer conn)}.
Context (rand_Read : Z -> go D (list Z)) {RL : RandLaws (conn_beginTxer conn) rand_Read}.
Context (marshal_raw : RawMessage -> res error string) (array_order : list string -> list string).
Context (ComparePasswordAndHash : string -> string -> res error bool).
Context (one_conn : Acctmw.Conn a = conn).
Local Notation vis := (vis a).
Local Notation ty := (sessionTokenType a).
Local Notation SessionMW h r w := (SessionMW array_order env rand_Read marshal_raw a h conn_writer r w).
Local Notation served h r ctx := (bind (h conn_writer (with_ctx r ctx))
  (fun _ => save_session rand_Read marshal_raw a conn_writer (with_ctx r ctx))).

Lemma Session_loads (h : Handler V X values_) r w k s0 row :
  ctx_ok conn (pgctx r) -> cookie_of w = Some k -> vis r (db_of w) = Some s0 ->
  (view s0 : tokens_table) !! k = Some row -> r_type row = ty -> r_ref_id row <> 0%N ->
  is_Some (t_accounts (view s0) !! r_ref_id row) ->
  (exists ctx w1, SessionMW h r w = served h r ctx w1 /\
     ((exists ac, Acctctx.Account ctx = Some ac /\ ID ac = r_ref_id row /\ stored_account array_order s0 ac) \/
      exists t, timed conn (pgctx r) t (db_of w) (db_of w1) /\ valid_row t row = false)) \/
  exists e w1, SessionMW h r w = ErrorHandler a conn_writer r e w1 /\ hw_resp w1 = hw_resp w /\ fault conn e.
Proof.
  intros Hctx Hk Hs0 Hrow Hty Hne Hacc.
  destruct (Session_cases a env rand_Read marshal_raw array_order one_conn h r w Hctx)
    as [(i & dta & acct & ctx & w1 & E & Hl & _ & _ & Ha & _)|?]; [left|by right].
  exists ctx, w1. split; [exact E|]. destruct acct as [ac|].
  - destruct Hl as (k' & t & s & row' & Hk' & _ & Hs & (Hrow' & _) & _ & _ & Hid & _ & Hst).
    same Hk Hk'. same Hs0 Hs. same Hrow Hrow'. left. by exists ac.
  - destruct Hl as [(k' & t & s & row' & Hk' & _ & Hs & (Hrow' & _) & _ & _ & H0)
      |(_ & _ & [?|(k' & t & s & Hk' & Ht & Hs & Hno)])].
    + same Hk Hk'. same Hs0 Hs. by same Hrow Hrow'.
    + congruence.
    + same Hk Hk'. same Hs0 Hs. right. exists t. split; [done|]. destruct (valid_row t row) eqn:Ev; [|done].
      destruct (Hno row) as (_ & Hn & _); [by split_and!|]. rewrite Hn in Hacc. by destruct Hacc.
Qed.

Lemma stored_account_inj s ac ac' :
  stored_account array_order s ac -> stored_account array_order s ac' -> ID ac = ID ac' -> ac = ac'.
Proof. intros (row & Hrow & ->) (row' & Hrow' & ->) E. simpl in *. rewrite E in *. by same Hrow Hrow'. Qed.

(** The session of a request is stored, when there is one: it is what Session
    loaded. *)
Definition session_stored r (w : W) : Prop := forall s, vis r (db_of w) = Some s ->
  Acctctx.Account (r_ctx r) = None -> (old_session r w).1 <> EmptyString ->
  exists row, (view s : tokens_table) !! (old_session r w).1 = Some row /\ r_single_use row = false /\ r_type row = ty.

Lemma entered_lookup r w s acctID secs t new tbl' :
  session_stored r w -> vis r (db_of w) = Some s ->
  let old := (old_session r w).1 in
  session_entered ty acctID secs t
    (bool_decide (is_Some (Acctctx.Account (r_ctx r))) || String.eqb old EmptyString) old new
    (view (left_behind r old s)) tbl' ->
  exists row, tbl' !! new = Some row /\ session_row ty acctID secs t row.
Proof.
  intros Hst Hs old. unfold session_entered, left_behind.
  destruct (Acctctx.Account (r_ctx r)) as [ac|] eqn:Eac; simpl.
  - intros (_ & row & Hrow & ->). exists row. by rewrite lookup_insert_eq.
  - destruct (String.eqb_spec old EmptyString) as [E|E].
    + intros (_ & row & Hrow & ->). exists row. by rewrite lookup_insert_eq.
    + destruct (Hst s Hs Eac E) as (row0 & Hrow0 & Hsu & Hty). fold old in Hrow0. rewrite Hrow0, Hsu.
      intros (_ & row & Hrow & ->). rewrite Hty in Hrow. exists row. by rewrite lookup_insert_eq.
Qed.

(** C12. After a login, a request that returns the cookie which the login set,
    on the database as the login left it, is served with the account that
    logged in, unless it comes after the twelve hours or thirty days of the
    session or the error handler is called, for a failure of the driver. *)
Theorem Login_Session (h : Handler V X values_) r input w0 acct w1 set_cookie r' w :
  logged_in a array_order ComparePasswordAndHash r input w0 acct w1 -> session_stored r w0 -> ID acct <> 0%N ->
  last (default [] (res_header (hw_resp w1) !! "Set-Cookie"%string)) = Some set_cookie ->
  returns set_cookie (hw_req_header w) ->
  ctx_ok conn (pgctx r') -> vis r' (db_of w) = vis r (db_of w1) ->
  (exists ctx w2, SessionMW h r' w = served h r' ctx w2 /\
     (Acctctx.Account ctx = Some acct \/
      exists t0 t, timed conn (pgctx r) t0 (db_of w0) (db_of w1) /\ timed conn (pgctx r') t (db_of w) (db_of w2) /\
        seconds t0 (if li_RememberMe input then 30 * 24 * 3600 else 12 * 3600) <= t)) \/
  exists e w2, SessionMW h r' w = ErrorHandler a conn_writer r' e w2 /\ hw_resp w2 = hw_resp w /\ fault conn e.
Proof.
  intros Hlog Hst Hne Hset Hret Hctx Hvis. unfold logged_in in Hlog.
  destruct (authenticatedSessionDurations (li_RememberMe input)) as [expiry maxAge] eqn:Edur.
  destruct Hlog as (new & data & t0 & s & s' & Ht0 & Hs & Hacc & _ & _ & Hs' & Hupd & Hgen & Hent & _ & Hresp).
  destruct (entered_lookup _ _ _ _ _ _ _ _ Hst Hs Hent) as (row & Hrow & Hty & _ & Href & Hexp & Hidle).
  assert (Hk : cookie_of w = Some new).
  { rewrite Hresp in Hset. unfold add_cookie, hdr_Add in Hset. simpl in Hset.
    rewrite lookup_insert_eq in Hset. simpl in Hset. rewrite last_snoc in Hset. injection Hset as <-.
    destruct Hgen as (b & Hb & _ & ->). by eapply session_cookie_back. }
  assert (Haccs : stored_account array_order s' acct).
  { rewrite Hupd. apply stored_account_tokens. unfold left_behind.
    repeat case_goal; try done. by apply stored_account_tokens. }
  rewrite Hs' in Hvis.
  destruct (Session_loads h r' w new s' row Hctx Hk Hvis Hrow Hty) as [(ctx & w2 & E & Hor)|Herr];
    [congruence|destruct Haccs as (arow & Harow & _); rewrite Href; eauto|left|by right].
  exists ctx, w2. split; [exact E|]. destruct Hor as [(ac & Hac & Hid & Hst')|(t & Ht & Hv)]; [left|right].
  - rewrite Hac. f_equal. eapply stored_account_inj; [done|done|congruence].
  - exists t0, t. split_and!; [done|done|]. unfold valid_row in Hv. rewrite Hidle, andb_true_r, Hexp in Hv.
    apply Z.ltb_ge in Hv. unfold authenticatedSessionDurations in Edur. destruct (li_RememberMe input);
      injection Edur as <- _; exact Hv.
Qed.
End Return.
