(* ===== verification/AcctExamples.v ===== *)
(** * AcctExamples: the theorems on accounts at work

    A small application: the reference database of PgModel holding the accounts
    and the tokens, errors and sessions beside it, one account, and handlers
    that return.  The witnesses apply the theorems of the account packages to
    requests on it.  The error handler panics, so that a run that returns did
    not call it. *)

From Stdlib Require Import ZArith Ascii String Lia.
From S2P Require Import Prelude Errors Pgdb Sql PgModel Tokens Accounts Accept Http Cookies Params Acctctx Acctmw AcctAuth Inputs AcctFlows.

(** ** The application *)

Definition ex_db : Type := accounts_db * tokens_table.
#[refine] Instance ex_db_accounts : Lens ex_db accounts_db := {| view := fst; update := fun s d => (s, d.2) |}.
Proof. all: by try intros [] || intros ? []. Defined.
#[refine] Instance ex_db_tokens : Lens ex_db tokens_table := {| view := snd; update := fun s d => (d.1, s) |}.
Proof. all: by try intros [] || intros ? []. Defined.
Instance ex_db_apart : Apart ex_db accounts_db tokens_table.
Proof. done. Defined.

Record app := { app_db : PgModel.world ex_db; app_heap : heap; app_sessions : list session }.
#[refine] Instance app_lens_db : Lens app (PgModel.world ex_db) :=
  {| view := app_db; update := fun d x => {| app_db := d; app_heap := app_heap x; app_sessions := app_sessions x |} |}.
Proof. all: by try intros [] || intros ? []. Defined.
#[refine] Instance app_lens_heap : Lens app heap :=
  {| view := app_heap; update := fun h x => {| app_db := app_db x; app_heap := h; app_sessions := app_sessions x |} |}.
Proof. all: by try intros [] || intros ? []. Defined.
#[refine] Instance app_lens_sessions : Lens app (list session) :=
  {| view := app_sessions; update := fun l x => {| app_db := app_db x; app_heap := app_heap x; app_sessions := l |} |}.
Proof. all: by try intros [] || intros ? []. Defined.
Instance app_apart1 : Apart app (PgModel.world ex_db) heap. Proof. done. Defined.
Instance app_apart2 : Apart app (PgModel.world ex_db) (list session). Proof. done. Defined.
Instance app_apart3 : Apart app heap (list session). Proof. done. Defined.

Notation ex_values := (acct_values (Ctx (PgModel.world ex_db) (Sql ex_db))).
Notation ex_world := (hworld unit app).

(** One account, a member of one of two groups. *)
Definition ann : account_row :=
  {| ar_email := "ann@example.com"; ar_password := "secret"; ar_verified := Some 5; ar_created := 5 |}.
Definition ex_accounts : accounts_db :=
  {| t_accounts := {[1%N := ann]}; t_groups := <[10%N := "admin"%string]> {[11%N := "staff"%string]};
     t_members := {[(1%N, 10%N)]} |}.
Definition ex_session_row : token_row :=
  {| r_type := "session"; r_single_use := false; r_ref_id := 1%N; r_expiry := 100000000;
     r_idle := None; r_idle_duration := None; r_data := "null"; r_created := 0 |}.
Definition ex_db0 : ex_db := (ex_accounts, {["abcdefghij"%string := ex_session_row]}).

Definition ex_heap : heap := {| h_next := 0%nat; h_meta := ∅ |}.
Definition anonymous : session := {| ssn_id := EmptyString; ssn_data := nullJSON; ssn_dirty := false |}.
Definition authenticated : session := {| ssn_id := "abcdefghij"; ssn_data := nullJSON; ssn_dirty := false |}.
Definition unsaved : session := {| ssn_id := EmptyString; ssn_data := "{}"; ssn_dirty := true |}.
Definition ex_app : app :=
  {| app_db := start ex_db0; app_heap := ex_heap; app_sessions := [anonymous; authenticated; unsaved] |}.

Definition ex_response : response := {| res_header := ∅; res_sent := None; res_body := EmptyString |}.
Definition ex_world_with (req : header) : ex_world :=
  {| hw_resp := ex_response; hw_req_header := req; hw_body := RawBody; hw_vars := []; hw_kvs := ∅; hw_app := ex_app |}.
Definition ex_world0 : ex_world := ex_world_with ∅.

Definition ann_account : Accounts.Account := to_Account (fun l => l) ex_accounts 1%N ann.
Definition ex_request (acct : option Accounts.Account) (ssn : nat) : request ex_values :=
  {| r_proto := "HTTP/1.1"; r_host := "example.com"; r_method := "POST"; r_uri := "/"; r_path := "/";
     r_content_length := 0; r_remote_addr := "192.0.2.1:1234";
     r_ctx := {| cx_logger := None; cx_kvs := None; cx_server := None; cx_addr := None;
       cx_app := {| ac_pgdb := no_ctx; ac_account := acct; ac_session := Some ssn |} |} |}.

Definition ex_tokens : Tokens (PgModel.world ex_db) ex_db := {| Tokens.Conn := model_conn; RawTokenSize := 0 |}.
Definition ex_mw : Acctmw.Accounts unit app (PgModel.world ex_db) ex_db unit :=
  {| Acctmw.Conn := model_conn; Tokens_ := ex_tokens; PasswordValidator := None; AllowRememberMe := false;
     ErrorHandler := fun _ _ _ => panic "error"; Argon2Params := None; SessionTokenType := EmptyString |}.
Definition ex_handler : Handler unit app ex_values := fun _ _ => ret tt.

(** The parts of the model that are parameters: values come from the query. *)
Definition ex_marshal (d : RawMessage) : res error string := Ok (default nullJSON d).
Definition ex_uuid (_ : Z) (_ : accounts_db) (n : nat) : uuid := N.of_nat (n + 2).
Definition ex_order (l : list string) : list string := l.
Definition ex_hash (pwd : string) (_ : unit) : go app (res error string) := ret (Ok pwd).
Definition ex_compare (pwd hash : string) : res error bool := Ok (String.eqb pwd hash).
Definition ex_path (_ : request ex_values) (_ : string) : string := EmptyString.
Definition ex_media (s : string) : string := s.
Definition ex_query (_ : request ex_values) : values :=
  list_to_map [("email", ["bob@example.com"]); ("password", ["secret"])]%string.
Definition ex_form (_ : request ex_values) : go ex_world (res error values) := ret (Ok ∅).
Definition value (vals : values) (key : string) : string :=
  match vals !! key with Some (v :: _) => v | _ => EmptyString end.
Definition ex_codec {I} (z : I) (f : values -> I) : codec unit app (PgModel.world ex_db) ex_db I :=
  {| zero := z; by_path := fun i _ => Ok i; by_form := fun _ vals => Ok (f vals);
     by_json := fun _ i => ret (Ok (i, false)) |}.
Definition ex_login_codec := ex_codec {| li_Email := EmptyString; li_Password := EmptyString; li_RememberMe := false |}
  (fun vals => {| li_Email := "ann@example.com"; li_Password := value vals "password"; li_RememberMe := false |}).
Definition ex_register_codec := ex_codec {| ri_Email := EmptyString; ri_Password := EmptyString; ri_Password2 := EmptyString |}
  (fun vals => {| ri_Email := value vals "email"; ri_Password := value vals "password"; ri_Password2 := value vals "password" |}).
Definition ex_delete_codec := ex_codec {| di_Password := EmptyString |} (fun vals => {| di_Password := value vals "password" |}).
Definition ex_empty_codec := ex_codec tt (fun _ => tt).
Notation ex_decode c v r := (decode ex_path ex_media ex_query ex_form c v r ex_world0).

(** A run that returned did not end in the error handler. *)
Lemma not_error {w e r} {w1 : ex_world} {L : outcome unit * ex_world} :
  fst L = Ret tt -> L = ErrorHandler ex_mw w r e w1 -> False.
Proof. intros H ->. discriminate H. Qed.

(** ** Login, and the request that follows *)

Notation TL0 := (model_TxLaws ex_db0).
Notation SL0 := (model_SqlLaws ex_db0).
Notation EL0 := (model_EnvLaws ex_db0).
Notation RL0 := (model_RandLaws ex_db0).

Definition ex_login_request := ex_request None 0.
Definition ex_login_input : loginInput :=
  {| li_Email := "ann@example.com"; li_Password := "secret"; li_RememberMe := false |}.
Definition ex_login_world : ex_world := snd (ex_decode ex_login_codec (Some login_Validate) ex_login_request).
Definition ex_login_run := Login ex_order model_rand ex_marshal ex_compare ex_path ex_media ex_query ex_form
  ex_login_codec ex_mw ex_handler conn_writer ex_login_request ex_world0.

Lemma ex_login_decodes :
  ex_decode ex_login_codec (Some login_Validate) ex_login_request = (Ret (Ok ex_login_input), ex_login_world).
Proof.
  assert (fst (ex_decode ex_login_codec (Some login_Validate) ex_login_request) = Ret (Ok ex_login_input)) as <-
    by (vm_compute; reflexivity).
  unfold ex_login_world. apply surjective_pairing.
Qed.

Example Login_sound_witness :
  fst ex_login_run = Ret tt /\
  exists acct w1, Email acct = "ann@example.com"%string /\
    logged_in (TL := TL0) ex_mw ex_order ex_compare ex_login_request ex_login_input ex_login_world acct w1.
Proof.
  assert (fst ex_login_run = Ret tt) as H by (vm_compute; reflexivity). split; [exact H|].
  destruct (Login_sound ex_mw (TL := TL0) (SL := SL0) model_rand (RL := RL0) ex_marshal ex_order ex_compare
    ex_path ex_media ex_query ex_form ex_login_codec eq_refl ex_handler ex_login_request (Ok ex_login_input)
    ex_world0 ex_login_world I ex_login_decodes) as [(acct & w1 & _ & _ & Hl & _)|(e & w1 & E & _)].
  - by eexists.
  - exists acct, w1. split; [|exact Hl]. unfold logged_in in Hl. simpl in Hl.
    destruct Hl as (new & data & t & s & s' & _ & _ & _ & He & _). exact He.
  - exfalso. exact (not_error H E).
Defined.

Definition ex_cookie (value : string) : header :=
  {["Cookie"%string := [sent_back (cookie_String (session_cookie value 0 None))]]}.
Definition ex_cookie_world : ex_world := ex_world_with (ex_cookie "abcdefghij").
Definition ex_plain_request := ex_request None 0.
Definition ex_session_run :=
  SessionMW ex_order model_env model_rand ex_marshal ex_mw ex_handler conn_writer ex_plain_request ex_cookie_world.

Example Session_sound_witness :
  fst ex_session_run = Ret tt /\
  exists ssnID ssnData acct (w1 : ex_world),
    loaded (TL := TL0) ex_mw ex_order ex_plain_request ex_cookie_world ssnID ssnData acct (db_of w1).
Proof.
  assert (fst ex_session_run = Ret tt) as H by (vm_compute; reflexivity). split; [exact H|].
  destruct (Session_sound ex_mw (TL := TL0) (SL := SL0) model_env (EL := EL0) model_rand ex_marshal ex_order
    eq_refl ex_handler ex_plain_request ex_cookie_world I)
    as [(i & d & acct & ctx & w1 & _ & Hl & _)|(e & w1 & E & _)].
  - exists i, d, acct, w1. exact Hl.
  - exfalso. exact (not_error H E).
Defined.

(** The world after ann logged in, and a later request with the new cookie. *)
Definition ex_after : ex_world := snd ex_login_run.
Definition ex_set_cookie : string := default EmptyString (last (default [] (res_header (hw_resp ex_after) !! "Set-Cookie"%string))).
Definition ex_next_world : ex_world :=
  {| hw_resp := ex_response; hw_req_header := {["Cookie"%string := [sent_back ex_set_cookie]]}; hw_body := RawBody;
     hw_vars := []; hw_kvs := ∅; hw_app := hw_app ex_after |}.
Definition ex_next_run :=
  SessionMW ex_order model_env model_rand ex_marshal ex_mw ex_handler conn_writer ex_plain_request ex_next_world.

Lemma ex_logged_in : logged_in (TL := TL0) ex_mw ex_order ex_compare ex_login_request ex_login_input
  ex_login_world ann_account ex_after.
Proof.
  unfold logged_in. simpl authenticatedSessionDurations. cbv iota zeta.
  exists (EncodeToString ((fun i => Z.of_nat i) <$> seq 0 32)), (Some "null"%string), 1, ex_db0,
    (w_db (app_db (hw_app ex_after))).
  split_and!.
  - vm_compute. split; discriminate.
  - reflexivity.
  - by exists ann.
  - reflexivity.
  - reflexivity.
  - reflexivity.
  - vm_compute. reflexivity.
  - exists ((fun i => Z.of_nat i) <$> seq 0 32). split_and!; [|reflexivity|reflexivity].
    apply Forall_fmap, Forall_forall. intros i Hi%elem_of_seq. simpl. lia.
  - split; [vm_compute; reflexivity|]. exists {| r_type := "session"; r_single_use := false; r_ref_id := 1%N;
      r_expiry := seconds 1 43200; r_idle := None; r_idle_duration := None; r_data := "null"; r_created := 1 |}.
    split; [by split_and!|vm_compute; reflexivity].
  - split; vm_compute; reflexivity.
  - vm_compute. reflexivity.
Qed.

Example Login_Session_witness :
  fst ex_next_run = Ret tt /\
  exists ctx : context ex_values, Acctctx.Account ctx = Some ann_account \/
    exists t, seconds 0 (12 * 3600) <= t.
Proof.
  assert (fst ex_next_run = Ret tt) as H by (vm_compute; reflexivity). split; [exact H|].
  destruct (Login_Session ex_mw (TL := TL0) (SL := SL0) model_env (EL := EL0) model_rand ex_marshal ex_order
    ex_compare eq_refl ex_handler ex_login_request ex_login_input ex_login_world ann_account ex_after
    ex_set_cookie ex_plain_request ex_next_world ex_logged_in) as [(ctx & w2 & _ & Hor)|(e & w2 & E & _)].
  - intros s _ _ Hold. destruct Hold. reflexivity.
  - discriminate.
  - vm_compute. reflexivity.
  - reflexivity.
  - exact I.
  - reflexivity.
  - exists ctx. destruct Hor as [Ha|(t0 & t & Ht0 & Ht & Hle)]; [by left|right].
    exists t. etransitivity; [|exact Hle]. unfold timed in Ht0. simpl in Ht0. unfold seconds.
    assert (w_now (app_db (hw_app ex_login_world)) = 0) as H0 by (vm_compute; reflexivity).
    unfold db_of in Ht0. simpl in Ht0. rewrite H0 in Ht0. simpl. lia.
  - exfalso. exact (not_error H E).
Defined.

(** ** The other handlers *)

Definition ex_auth_request := ex_request (Some ann_account) 1.
Definition ex_logout_world : ex_world := snd (ex_decode ex_empty_codec None ex_auth_request).
Definition ex_logout_run :=
  Logout ex_path ex_media ex_query ex_form ex_empty_codec ex_mw ex_handler conn_writer ex_auth_request ex_world0.
Lemma ex_logout_decodes : ex_decode ex_empty_codec None ex_auth_request = (Ret (Ok tt), ex_logout_world).
Proof.
  assert (fst (ex_decode ex_empty_codec None ex_auth_request) = Ret (Ok tt)) as <- by (vm_compute; reflexivity).
  unfold ex_logout_world. apply surjective_pairing.
Qed.


Definition ex_delete_input : deleteInput := {| di_Password := "secret" |}.
Definition ex_delete_world : ex_world := snd (ex_decode ex_delete_codec (Some delete_Validate) ex_auth_request).
Definition ex_delete_run := Acctmw.Delete model_env ex_compare ex_path ex_media ex_query ex_form ex_delete_codec
  ex_mw ex_handler conn_writer ex_auth_request ex_world0.
Lemma ex_delete_decodes :
  ex_decode ex_delete_codec (Some delete_Validate) ex_auth_request = (Ret (Ok ex_delete_input), ex_delete_world).
Proof.
  assert (fst (ex_decode ex_delete_codec (Some delete_Validate) ex_auth_request) = Ret (Ok ex_delete_input)) as <-
    by (vm_compute; reflexivity).
  unfold ex_delete_world. apply surjective_pairing.
Qed.

Example Delete_sound_witness :
  fst ex_delete_run = Ret tt /\
  exists s s' : ex_db, account_deleted ex_mw 1%N s s'.
Proof.
  assert (fst ex_delete_run = Ret tt) as H by (vm_compute; reflexivity). split; [exact H|].
  destruct (Delete_sound ex_mw (TL := TL0) (SL := SL0) model_env (EL := EL0) ex_compare ex_path ex_media ex_query
    ex_form eq_refl ex_delete_codec ex_handler ex_auth_request (Ok ex_delete_input) ex_world0 ex_delete_world I
    ex_delete_decodes) as [(ac & s & s' & w1 & _ & Hac & _ & _ & _ & _ & Hd & _)|(e & w1 & E & _)].
  - by eexists.
  - injection Hac as <-. exists s, s'. exact Hd.
  - exfalso. exact (not_error H E).
Defined.

Definition ex_register_input : registerInput :=
  {| ri_Email := "bob@example.com"; ri_Password := "secret"; ri_Password2 := "secret" |}.
Definition ex_register_world : ex_world := snd (ex_decode ex_register_codec (Some register_Validate) ex_plain_request).
Definition ex_register_run := Register ex_uuid ex_order ex_hash tt ex_path ex_media ex_query ex_form ex_register_codec
  ex_mw ex_handler conn_writer ex_plain_request ex_world0.
Lemma ex_register_decodes :
  ex_decode ex_register_codec (Some register_Validate) ex_plain_request = (Ret (Ok ex_register_input), ex_register_world).
Proof.
  assert (fst (ex_decode ex_register_codec (Some register_Validate) ex_plain_request) = Ret (Ok ex_register_input))
    as <- by (vm_compute; reflexivity).
  unfold ex_register_world. apply surjective_pairing.
Qed.

Example Register_sound_witness :
  fst ex_register_run = Ret tt /\
  exists id t (s1 : accounts_db), t_accounts s1 !! id =
    Some {| ar_email := "bob@example.com"; ar_password := "secret"; ar_verified := None; ar_created := t |}.
Proof.
  assert (fst ex_register_run = Ret tt) as H by (vm_compute; reflexivity). split; [exact H|].
  destruct (Register_sound ex_mw (TL := TL0) (SL := SL0) ex_uuid ex_order ex_hash tt ex_path ex_media ex_query
    ex_form eq_refl ex_register_codec ex_handler ex_plain_request (Ok ex_register_input) ex_world0 ex_register_world I)
    as [(i & hash & id & t & s & s1 & w1 & Hi & _ & _ & _ & _ & Hh & _ & _ & _ & _ & _ & Hacc)|(e & w1 & E & _)].
  - intros pwd p x. exists (Ok pwd), x. by split_and!.
  - by intros l.
  - exact ex_register_decodes.
  - injection Hi as <-. injection Hh as <-. exists id, t, s1. exact Hacc.
  - exfalso. exact (not_error H E).
Defined.

(** The data of an unsaved session goes to a new anonymous one. *)
Definition ex_save_request := ex_request None 2.
Definition ex_save_run := save_session model_rand ex_marshal ex_mw conn_writer ex_save_request ex_world0.
Example session_saved_exact_witness :
  fst ex_save_run = Ret tt /\
  exists t s tbl' new, session_saved ex_mw ex_marshal unsaved t new (view (s : ex_db)) tbl'.
Proof.
  assert (fst ex_save_run = Ret tt) as H by (vm_compute; reflexivity). split; [exact H|].
  assert (session_of (r_ctx ex_save_request) (hw_app ex_world0) = Some unsaved) as Hssn by reflexivity.
  destruct (session_saved_exact ex_mw (TL := TL0) (SL := SL0) model_rand (RL := RL0) ex_marshal ex_save_request
    unsaved ex_world0 I Hssn) as [(e & w1 & _ & E & _)|(w1 & _ & _ & _ & Hs)].
  - exfalso. exact (not_error H E).
  - destruct (Hs eq_refl) as (t & s & tbl' & new & _ & _ & Hsv & _). exists t, s, tbl', new. exact Hsv.
Defined.

(** ** The packages they use *)

Definition ex_empty : accounts_db := {| t_accounts := ∅; t_groups := ∅; t_members := ∅ |}.
Definition ex_ops : list (Z * accounts_op) :=
  [(1, OpCreate "ann@example.com" "secret"); (2, OpCreateGroups (Some ["admin"%string; "staff"%string]));
   (3, OpAddMember 2%N "admin"); (4, OpCreate "ann@example.com" "other"); (5, OpDeleteAccount 2%N)].

Example accounts_invariant_witness :
  size (t_members (apply_ops ex_uuid ex_empty (take 4 ex_ops))) = 1%nat /\ accounts_ok (apply_ops ex_uuid ex_empty ex_ops).
Proof.
  split; [vm_compute; reflexivity|]. apply (accounts_invariant ex_uuid ex_ops ex_empty).
  unfold accounts_ok, groups_ok, ex_empty. simpl. split_and!; intros *; by rewrite ?lookup_empty.
Defined.

(** The memberships of ann become those of staff; nil leaves them. *)
Definition ex_set_run groups := SetMembership model_env no_ctx model_btx 1%N groups (start ex_db0).
Example SetMembership_exact_witness :
  fst (ex_set_run (Some ["staff"%string])) = Ret (Ok tt) /\
  exists s s' : ex_db, membership_set 1%N (Some ["staff"%string]) (view s) (view s').
Proof.
  assert (fst (ex_set_run (Some ["staff"%string])) = Ret (Ok tt)) as H by (vm_compute; reflexivity).
  split; [exact H|].
  destruct (SetMembership_exact model_conn model_env (TL := TL0) (SL := SL0) (EL := EL0) no_ctx 1%N
    (Some ["staff"%string]) (start ex_db0) I) as (r & w' & E & Hr).
  unfold ex_set_run in H. simpl conn_beginTxer in E. rewrite E in H. injection H as ->.
  destruct Hr as (s & s' & _ & _ & _ & Hm). by exists s, s'.
Defined.

Example session_writes_witness :
  let c := r_ctx ex_plain_request in
  let ex_json (s : string) : res error string := Ok s in
  exists w1, ReplaceSessionData ex_json c "{}"%string ex_app = (Ret None, w1) /\
    sees (WithAccount c (Some ann_account)) w1 (EmptyString, Some "{}"%string, true).
Proof.
  intros c ex_json.
  exact (proj2 (proj2 (session_writes ex_json c (WithAccount c (Some ann_account)) EmptyString None "{}"%string
    ex_app eq_refl))).
Defined.

(** A struct with one string field, from the cookie "c". *)
Definition ex_field : struct_field string :=
  {| f_Name := "F"; f_Exported := true; f_path := EmptyString; f_cookie := "c";
     f_kind := KString (fun s _ => s); f_json := fun _ v => Ok (v, false) |}.
Definition ex_param_cookie : Cookie :=
  {| ck_Name := "c"; ck_Value := EncodeToString [104; 105]; ck_Path := EmptyString; ck_Expires := None;
     ck_MaxAge := 0; ck_Secure := false; ck_HttpOnly := false; ck_SameSiteLax := false |}.
Definition ex_param_header : header := {["Cookie"%string := [sent_back (cookie_String ex_param_cookie)]]}.

Example cookie_param_roundtrip_witness :
  decodeCookie ex_param_header EmptyString {| cookieName := "c"; raw := false; json := false; dst := ex_field |} =
  Ok "hi"%string.
Proof.
  refine (proj2 (cookie_param_roundtrip ex_field "c" [104; 105] ex_param_cookie ex_param_header EmptyString
    eq_refl eq_refl _ eq_refl eq_refl)).
  repeat (constructor; [lia|]). constructor.
Defined.

Definition ex_struct : struct_type unit app ex_values string :=
  {| st_fields := [ex_field]; d_path := fun v _ => Ok v; d_form := fun v _ => Ok v;
     body_json := fun _ v => ret (Ok (v, false));
     st_Validate := Some (fun v => ret (if String.eqb v EmptyString then Some (ErrorString "empty") else None)) |}.
Definition ex_decode_run :=
  Decode ex_path ex_media ex_query ex_form ex_struct ex_plain_request EmptyString (ex_world_with ex_param_header).
Lemma ex_decode_runs :
  Decode ex_path ex_media ex_query ex_form ex_struct ex_plain_request EmptyString (ex_world_with ex_param_header) =
  (Ret (Ok "hi"%string), snd ex_decode_run).
Proof.
  assert (fst ex_decode_run = Ret (Ok "hi"%string)) as <- by (vm_compute; reflexivity).
  unfold ex_decode_run. apply surjective_pairing.
Qed.

Example Decode_accepts_witness :
  fst ex_decode_run = Ret (Ok "hi"%string) /\ is_Some (DecodeString (EncodeToString [104; 105])).
Proof.
  split; [vm_compute; reflexivity|].
  destruct (Decode_accepts ex_path ex_media ex_query ex_form ex_struct ex_plain_request EmptyString
    (ex_world_with ex_param_header) "hi" _ ex_decode_runs) as (_ & Hck & _).
  apply (Hck ex_field {| cookieName := "c"; raw := false; json := false; dst := ex_field |});
    [by left|reflexivity|vm_compute; reflexivity|reflexivity].
Defined.
