(* ===== verification/AcctGuard.v ===== *)
(** * AcctGuard: the middleware of accounts together

    Authorize behind Session, on the cookie of the request; and what an attacker
    can learn from Login about the accounts that exist. *)

From Stdlib Require Import ZArith Ascii String Lia.
From S2P Require Import Prelude Errors Pgdb Sql PgModel Tokens Accounts Accept Http Cookies Params Acctctx Acctmw AcctAuth Inputs AcctFlows AcctExamples.

Section Guard.
Context {V X D DB P : Type}.
Context {LD : Lens X D} {LH : Lens X heap} {LS : Lens X (list session)}.
Context {LA : Lens DB accounts_db} {LT : Lens DB tokens_table}.
Context {A1 : Apart X D heap} {A2 : Apart X D (list session)} {A3 : Apart X heap (list session)}.
Context {A4 : Apart DB accounts_db tokens_table}.
Local Notation W := (hworld V X).
Local Notation values_ := (acct_values (Ctx D (Sql DB))).
Context (a : Acctmw.Accounts V X D DB P).
Local Notation conn := (Tokens.Conn (Tokens_ a)).
Context {TL : TxLaws (conn_beginTxer conn) DB} {SL : SqlLaws conn}.
Context (env : Env D) {EL : EnvLaws env (conn_beginTxer conn)}.
Context (rand_Read : Z -> go D (list Z)) {RL : RandLaws (conn_beginTxer conn) rand_Read}.
Context (marshal_raw : RawMessage -> res error string) (array_order : list string -> list string).
Context (one_conn : Acctmw.Conn a = conn).
Local Notation vis := (vis a).

(** The account has access: it is authenticated, verified or a member, as one of
    the groups asks. *)
Definition admitted (groups : list string) (ac : Accounts.Account) : Prop :=
  AccessAuthenticated ∈ groups \/ (is_Some (Verified ac) /\ AccessVerified ∈ groups) \/
  exists g, g ∈ Groups_ ac /\ g ∈ groups.

(** C10. A handler behind Session and Authorize, when the groups are not for
    anyone, runs only for a request whose cookie is the token of a session that
    is stored, valid when the call verifies it (neither expired nor idle for too
    long at a time between the call and the handler) and of an account that
    exists and is in one of the groups, and it sees that account.  Otherwise the
    error handler runs in its place, before anything of the response is begun:
    for a failure of the driver, or with the 403 of Authorize, and then what
    Session loaded was an account in none of the groups, or no account, because
    there is no cookie, the session is anonymous or not valid at the time of the
    call, or its account is gone. *)
Theorem Session_Authorize groups (h : Handler V X values_) r w :
  ctx_ok conn (pgctx r) -> Acctctx.Account (r_ctx r) = None -> AccessAnyone ∉ groups ->
  let guarded := SessionMW array_order env rand_Read marshal_raw a (Authorize a groups h) conn_writer r w in
  exists w1, hw_resp w1 = hw_resp w /\
  ((exists k t s row ac ctx,
      guarded = bind (h conn_writer (with_ctx r ctx))
        (fun _ => save_session rand_Read marshal_raw a conn_writer (with_ctx r ctx)) w1 /\
      cookie_of w = Some k /\ timed conn (pgctx r) t (db_of w) (db_of w1) /\
      vis r (db_of w) = Some s /\ token_live a (view s) t k row /\
      stored_account array_order s ac /\ ID ac = r_ref_id row /\ Acctctx.Account ctx = Some ac /\
      admitted groups ac) \/
   (exists e, guarded = ErrorHandler a conn_writer r e w1 /\ Sql.fault conn e) \/
   exists ssnID ssnData acct ctx e,
      guarded = bind (ErrorHandler a conn_writer (with_ctx r ctx) e)
        (fun _ => save_session rand_Read marshal_raw a conn_writer (with_ctx r ctx)) w1 /\
      loaded a array_order r w ssnID ssnData acct (db_of w1) /\
      (forall ac, acct = Some ac -> ~ admitted groups ac) /\
      reported (heap_of w1) e [("code", "403"); ("action", ActionAuthorize)]%string).
Proof.
  intros Hctx Hno Hany guarded.
  destruct (Session_cases a env rand_Read marshal_raw array_order one_conn (Authorize a groups h) r w Hctx)
    as [(i & d & acct & ctx & w1 & E & Hl & Hw & _ & Hacc & _)|(e & w1 & E & Hw & Hf)].
  2: { exists w1. split; [done|]. right. left. by exists e. }
  rewrite Hno in Hacc.
  destruct (authorize_cases a groups false h conn_writer (with_ctx r ctx) w1) as [[Hin Ea]|[Hnin Ea]]; simpl in Ea.
  - exists w1. split; [done|]. left. simpl in Hin. rewrite Hacc in Hin.
    destruct Hin as [?|(ac & Heq & Hadm)]; [done|]. destruct acct as [ac'|]; [|done]. injection Heq as ->.
    destruct Hl as (k & t & s & row & Hk & Ht & Hs & Hlive & _ & _ & Hid & _ & Hst).
    exists k, t, s, row, ac, ctx. split; [|by split_and!]. unfold guarded. rewrite E. unfold bind.
    unfold Authorize. by rewrite Ea.
  - destruct (fail_with_run a "permission denied" ["code"; "403"; "action"; ActionAuthorize]%string
      [("code", "403"); ("action", ActionAuthorize)]%string conn_writer (with_ctx r ctx) w1) as (e & h' & Ef & Hrep);
      [by repeat constructor|].
    exists (set_part h' w1). split; [done|]. do 2 right. exists i, d, acct, ctx, e.
    split; [unfold guarded; rewrite E; unfold bind, Authorize; by rewrite Ea, Ef|].
    rewrite db_of_set_heap. split; [done|]. split.
    + intros ac -> Hadm. apply Hnin. right. by exists ac.
    + unfold heap_of, set_part. simpl. by rewrite view_update.
Qed.
End Guard.

Section NoEnumeration.
Context {V X D DB P : Type}.
Context {LD : Lens X D} {LH : Lens X heap} {LS : Lens X (list session)}.
Context {LA : Lens DB accounts_db} {LT : Lens DB tokens_table}.
Context {A1 : Apart X D heap} {A2 : Apart X D (list session)} {A3 : Apart X heap (list session)}.
Context {A4 : Apart DB accounts_db tokens_table}.
Local Notation W := (hworld V X).
Local Notation values_ := (acct_values (Ctx D (Sql DB))).
Context (a : Acctmw.Accounts V X D DB P).
Local Notation conn := (Tokens.Conn (Tokens_ a)).
Context {TL : TxLaws (conn_beginTxer conn) DB} {SL : SqlLaws conn}.
Context (rand_Read : Z -> go D (list Z)) (marshal_raw : RawMessage -> res error string).
Context (array_order : list string -> list string) (ComparePasswordAndHash : string -> string -> res error bool).
Context (PathValue : request values_ -> string -> string) (ParseMediaType : string -> string).
Context (Query : request values_ -> values) (ParseForm : request values_ -> go W (res error values)).
Context (login_codec : codec V X D DB loginInput).
Context (one_conn : Acctmw.Conn a = conn).
Local Notation vis := (vis a).
Local Notation Login := (Login array_order rand_Read marshal_raw ComparePasswordAndHash
  PathValue ParseMediaType Query ParseForm login_codec a).
Local Notation decoded r w input w0 :=
  (decode PathValue ParseMediaType Query ParseForm login_codec (Some login_Validate) r w = (Ret input, w0)).

(** No account with the email has the password: whether there is none with the
    email, or it has another password. *)
Definition bad_credentials (s : DB) (email password : string) : Prop :=
  forall acct, stored_account array_order s acct -> Email acct = email ->
    ComparePasswordAndHash password (Password acct) = Ok false.

Definition credentials_error (h : heap) : error * heap :=
  new_tagged "invalid email or password" ["code"; "400"; "parameter"; "password"; "action"; ActionLogin]%string h.

Lemma login_refused r email password x s :
  ctx_ok conn (pgctx r) -> vis r (view x) = Some s -> bad_credentials s email password ->
  exists e x', login array_order ComparePasswordAndHash a r email password x = (Ret (Err e), x') /\
    keeps a r (view x) (view x') /\ (faulty e \/ (e, view x') = credentials_error (view x)).
Proof.
  intros Hctx Hs Hbad.
  destruct (ByEmail_run a array_order one_conn r email (view x) Hctx) as (res & d' & E & _ & Hr).
  unfold login. rewrite (bind_run _ _ _ _ _ (zoom_run _ _ _ _ E)).
  assert (Hrefuse : keeps a r (view x) d' -> exists e x', tag_new (A := Accounts.Account) "invalid email or password"
      ["code"; "400"; "parameter"; "password"; "action"; ActionLogin]%string (update d' x) = (Ret (Err e), x') /\
    keeps a r (view x) (view x') /\ (faulty e \/ (e, view x') = credentials_error (view x))).
  { intros Hk. eexists _, _. split; [reflexivity|].
    rewrite (view_apart (S := D) (T := heap)), view_update. split; [done|right].
    rewrite view_update, (view_apart' (S := D) (T := heap)). 
    symmetry. apply surjective_pairing. }
  destruct res as [acct|e].
  - destruct Hr as (s0 & Hs0 & Hs' & Hst & He). assert (s0 = s) as -> by congruence.
    rewrite (Hbad acct Hst He). simpl. apply Hrefuse. left. congruence.
  - destruct Hr as [(Hno & s0 & Hs0 & Hs' & _)|(Hno & Hf & Hk)]; rewrite Hno.
    + apply Hrefuse. left. congruence.
    + eexists e, _. split; [reflexivity|]. rewrite view_update. auto.
Qed.

(** C11. Login does not tell an unknown email from a wrong password: of two
    attempts that fail for either reason, the error handler gets one and the same
    error, code and metadata, with nothing of the response begun and nothing of
    the database changed, unless the driver itself failed. *)
Theorem Login_no_enumeration (h : Handler V X values_) r1 r2 i1 i2 w1 w2 v1 v2 s1 s2 :
  ctx_ok conn (pgctx r1) -> ctx_ok conn (pgctx r2) ->
  decoded r1 w1 (Ok i1) v1 -> decoded r2 w2 (Ok i2) v2 ->
  li_RememberMe i1 && negb (AllowRememberMe a) = false -> li_RememberMe i2 && negb (AllowRememberMe a) = false ->
  vis r1 (db_of v1) = Some s1 -> bad_credentials s1 (li_Email i1) (li_Password i1) ->
  vis r2 (db_of v2) = Some s2 -> bad_credentials s2 (li_Email i2) (li_Password i2) ->
  heap_of v1 = heap_of v2 ->
  exists e1 e2 u1 u2, Login h conn_writer r1 w1 = ErrorHandler a conn_writer r1 e1 u1 /\
    Login h conn_writer r2 w2 = ErrorHandler a conn_writer r2 e2 u2 /\
    hw_resp u1 = hw_resp v1 /\ hw_resp u2 = hw_resp v2 /\
    keeps a r1 (db_of v1) (db_of u1) /\ keeps a r2 (db_of v2) (db_of u2) /\
    (faulty e1 \/ faulty e2 \/
     (e1 = e2 /\ heap_of u1 = heap_of u2 /\
      reported (heap_of u1) e1 [("code", "400"); ("parameter", "password"); ("action", ActionLogin)]%string)).
Proof.
  intros Hc1 Hc2 Hd1 Hd2 Hm1 Hm2 Hs1 Hb1 Hs2 Hb2 Hheap.
  assert (Hone : forall r i w v s, ctx_ok conn (pgctx r) -> decoded r w (Ok i) v ->
    li_RememberMe i && negb (AllowRememberMe a) = false -> vis r (db_of v) = Some s ->
    bad_credentials s (li_Email i) (li_Password i) ->
    exists e u, Login h conn_writer r w = ErrorHandler a conn_writer r e u /\ hw_resp u = hw_resp v /\
      keeps a r (db_of v) (db_of u) /\ (faulty e \/ (e, heap_of u) = credentials_error (heap_of v))).
  { intros r i w v s Hc Hd Hm Hs Hb. unfold Acctmw.Login. rewrite (bind_run _ _ _ _ _ Hd), Hm.
    destruct (login_refused r _ _ (hw_app v) s Hc Hs Hb) as (e & x' & E & Hk & He).
    rewrite (bind_run _ _ _ _ _ (in_app_run _ _ _ _ E)). by exists e, (set_app (fun _ => x') v). }
  destruct (Hone r1 i1 w1 v1 s1) as (e1 & u1 & E1 & R1 & K1 & F1); [done..|].
  destruct (Hone r2 i2 w2 v2 s2) as (e2 & u2 & E2 & R2 & K2 & F2); [done..|].
  exists e1, e2, u1, u2. do 6 (split; [done|]).
  destruct F1 as [F1|F1]; [by left|]. destruct F2 as [F2|F2]; [by right; left|]. do 2 right.
  rewrite <- Hheap, <- F1 in F2. injection F2 as He Hh. split; [done|]. split; [done|].
  pose proof (new_tagged_reported "invalid email or password"
    ["code"; "400"; "parameter"; "password"; "action"; ActionLogin]%string (heap_of v1)
    [("code", "400"); ("parameter", "password"); ("action", ActionLogin)]%string) as Hrep.
  unfold credentials_error in F1. rewrite <- F1 in Hrep. apply Hrep. by repeat constructor.
Qed.
End NoEnumeration.

(** ** Witnesses *)

(** A page for the staff and the administrators, and a page for the staff only:
    ann is an administrator. *)
Definition ex_guarded groups (w : ex_world) :=
  SessionMW ex_order model_env model_rand ex_marshal ex_mw (Authorize ex_mw groups ex_handler) conn_writer
    ex_plain_request w.

Example Session_Authorize_witness :
  fst (ex_guarded ["staff"; "admin"]%string ex_cookie_world) = Ret tt /\
  fst (ex_guarded ["staff"]%string ex_cookie_world) = Panicked "error" /\
  fst (ex_guarded ["staff"; "admin"]%string ex_world0) = Panicked "error" /\
  exists ctx : context ex_values, exists ac, Acctctx.Account ctx = Some ac /\ admitted ["staff"; "admin"]%string ac.
Proof.
  assert (fst (ex_guarded ["staff"; "admin"]%string ex_cookie_world) = Ret tt) as H by (vm_compute; reflexivity).
  split; [exact H|]. split; [vm_compute; reflexivity|]. split; [vm_compute; reflexivity|].
  destruct (Session_Authorize ex_mw (TL := TL0) (SL := SL0) model_env (EL := EL0) model_rand ex_marshal ex_order
    eq_refl ["staff"; "admin"]%string ex_handler ex_plain_request ex_cookie_world I eq_refl)
    as (w1 & _ & [(k & t & s & row & ac & ctx & _ & _ & _ & _ & _ & _ & Hac & Hadm)|[(e & E)|(i & d & ac & ctx & e & E & _)]]).
  - intros Hin. apply list_elem_of_In in Hin. vm_compute in Hin. by decompose [or] Hin.
  - by exists ctx, ac.
  - exfalso. exact (not_error H (proj1 E)).
  - exfalso. change (fst (ex_guarded ["staff"; "admin"]%string ex_cookie_world) = Ret tt) in H.
    unfold ex_guarded in H. rewrite E in H. discriminate H.
Defined.

(** Two attempts: with the email of ann and a wrong password, and with an email
    that nobody has.  The email comes from the address of the request. *)
Definition ex_attempt (email : string) : request ex_values :=
  {| r_proto := "HTTP/1.1"; r_host := "example.com"; r_method := "POST"; r_uri := email; r_path := "/login";
     r_content_length := 0; r_remote_addr := "192.0.2.1:1234"; r_ctx := r_ctx ex_login_request |}.
Definition ex_attempt_query (r : request ex_values) : values :=
  list_to_map [("email", [r_uri r]); ("password", ["wrong"])]%string.
Definition ex_attempt_codec := ex_codec {| li_Email := EmptyString; li_Password := EmptyString; li_RememberMe := false |}
  (fun vals => {| li_Email := value vals "email"; li_Password := value vals "password"; li_RememberMe := false |}).
Definition ex_attempt_input (email : string) : loginInput :=
  {| li_Email := email; li_Password := "wrong"; li_RememberMe := false |}.
Definition ex_attempt_decode (email : string) :=
  decode ex_path ex_media ex_attempt_query ex_form ex_attempt_codec (Some login_Validate) (ex_attempt email) ex_world0.
Definition ex_attempt_login (email : string) :=
  Login ex_order model_rand ex_marshal ex_compare ex_path ex_media ex_attempt_query ex_form
    ex_attempt_codec ex_mw ex_handler conn_writer (ex_attempt email) ex_world0.

Lemma ex_attempt_bad email : bad_credentials ex_order ex_compare (ex_db0 : ex_db) email "wrong".
Proof.
  intros acct (row & Hrow & ->) _. simpl in Hrow. apply lookup_singleton_Some in Hrow as [_ <-]. reflexivity.
Qed.

Lemma ex_attempt_decodes email : fst (ex_attempt_decode email) = Ret (Ok (ex_attempt_input email)) ->
  ex_attempt_decode email = (Ret (Ok (ex_attempt_input email)), snd (ex_attempt_decode email)).
Proof. intros <-. apply surjective_pairing. Qed.

Example Login_no_enumeration_witness :
  exists e1 e2 u1 u2,
    ex_attempt_login "ann@example.com" = ErrorHandler ex_mw conn_writer (ex_attempt "ann@example.com") e1 u1 /\
    ex_attempt_login "bob@example.com" = ErrorHandler ex_mw conn_writer (ex_attempt "bob@example.com") e2 u2 /\
    (faulty (TxLaws := TL0) e1 \/ faulty (TxLaws := TL0) e2 \/ e1 = e2).
Proof.
  destruct (Login_no_enumeration ex_mw (TL := TL0) (SL := SL0) model_rand ex_marshal ex_order ex_compare
    ex_path ex_media ex_attempt_query ex_form ex_attempt_codec eq_refl ex_handler
    (ex_attempt "ann@example.com") (ex_attempt "bob@example.com")
    (ex_attempt_input "ann@example.com") (ex_attempt_input "bob@example.com") ex_world0 ex_world0
    (snd (ex_attempt_decode "ann@example.com")) (snd (ex_attempt_decode "bob@example.com")) ex_db0 ex_db0 I I)
    as (e1 & e2 & u1 & u2 & E1 & E2 & _ & _ & _ & _ & F).
  - apply (ex_attempt_decodes "ann@example.com"). vm_compute. reflexivity.
  - apply (ex_attempt_decodes "bob@example.com"). vm_compute. reflexivity.
  - reflexivity.
  - reflexivity.
  - vm_compute. reflexivity.
  - apply ex_attempt_bad.
  - vm_compute. reflexivity.
  - apply ex_attempt_bad.
  - vm_compute. reflexivity.
  - exists e1, e2, u1, u2. split; [exact E1|]. split; [exact E2|].
    destruct F as [F|[F|(F & _)]]; [by left|by right; left|by right; right].
Defined.
