(* ===== verification/AcctRevoke.v ===== *)
(** * AcctRevoke: a session that was ended stays ended

    After Logout, and after Delete for every session of the account, no later
    request is served with an account for the cookie of the session. *)

From Stdlib Require Import ZArith Ascii String Lia.
From S2P Require Import Prelude Errors Pgdb Sql PgModel Tokens Accounts Accept Http Cookies Params Acctctx Acctmw AcctAuth Inputs AcctFlows AcctExamples.

Section Revoked.
Context {V X D DB P : Type}.
Context {LD : Lens X D} {LH : Lens X heap} {LS : Lens X (list session)}.
Context {LA : Lens DB accounts_db} {LT : Lens DB tokens_table}.
Context {A1 : Apart X D heap} {A2 : Apart X D (list session)} {A3 : Apart X heap (list session)}.
Context {A4 : Apart DB accounts_db tokens_table}.
Local Notation W := (hworld V X).
Local Notation values_ := (acct_values (Ctx D (Sql DB))).
Context (a : Acctmw.Accounts V X D DB P).
Local Notation conn := (Tokens.Conn (Tokens_ a)).
Context {TL : TxLaws (conn_beginTxer conn) DB} {SL : SqlLaws conn}.
Context (env : Env D) {EL : EnvLaws env (conn_beginTxer conn)}.
Context (rand_Read : Z -> go D (list Z)) {RL : RandLaws (conn_beginTxer conn) rand_Read}.
Context (marshal_raw : RawMessage -> res error string) (array_order : list string -> list string).
Context (ComparePasswordAndHash : string -> string -> res error bool).
Context (PathValue : request values_ -> string -> string) (ParseMediaType : string -> string).
Context (Query : request values_ -> values) (ParseForm : request values_ -> go W (res error values)).
Context (one_conn : Acctmw.Conn a = conn).
Local Notation vis := (vis a).
Local Notation ty := (sessionTokenType a).
Local Notation SessionMW h r w := (SessionMW array_order env rand_Read marshal_raw a h conn_writer r w).
Local Notation served h r ctx := (bind (h conn_writer (with_ctx r ctx))
  (fun _ => save_session rand_Read marshal_raw a conn_writer (with_ctx r ctx))).
Local Notation decode c v r w := (decode PathValue ParseMediaType Query ParseForm c v r w).
Local Notation Logout c h r w := (Logout PathValue ParseMediaType Query ParseForm c a h conn_writer r w).
Local Notation Delete c h r w :=
  (Acctmw.Delete env ComparePasswordAndHash PathValue ParseMediaType Query ParseForm c a h conn_writer r w).

(** A request whose cookie is [k] is not served with an account. *)
Definition not_served (k : string) (s : DB) : Prop := forall (h : Handler V X values_) r w,
  ctx_ok conn (pgctx r) -> Acctctx.Account (r_ctx r) = None -> cookie_of w = Some k -> vis r (db_of w) = Some s ->
  (exists ctx w1, SessionMW h r w = served h r ctx w1 /\ Acctctx.Account ctx = None) \/
  exists e w1, SessionMW h r w = ErrorHandler a conn_writer r e w1.

Lemma absent_not_served k s : (view s : tokens_table) !! k = None -> not_served k s.
Proof.
  intros Hn h r w Hctx Hacc Hk Hs.
  destruct (Session_cases a env rand_Read marshal_raw array_order one_conn h r w Hctx)
    as [(i & d & acct & ctx & w1 & E & Hl & _ & _ & Ha & _)|(e & w1 & E & _)]; [left|right; by exists e, w1].
  exists ctx, w1. split; [exact E|]. rewrite Ha. destruct acct as [ac|]; [exfalso|done].
  destruct Hl as (k' & t & s' & row & Hk' & _ & Hs' & (Hrow & _) & _). same Hk Hk'. same Hs Hs'. congruence.
Qed.

(** The session of the token [k] is over in [s]: whatever statements on tokens
    follow that do not issue the token again, and whatever happens to the
    accounts. *)
Definition revoked (k : string) (s : DB) : Prop := forall (ops : list (Z * Tokens.table_op)) (s' : DB),
  Forall (fun o => Tokens.issues o.2 <> Some k) ops -> view s' = Tokens.apply_ops (view s : tokens_table) ops -> not_served k s'.

Lemma absent_revoked k s : (view s : tokens_table) !! k = None -> revoked k s.
Proof. intros Hn ops s' Hops Hs'. apply absent_not_served. rewrite Hs'. by apply apply_ops_absent. Qed.

(** C16. Logout and Delete end sessions for good.  When Logout runs the handler, the
    token of the session is deleted, the session of the context is a new anonymous
    one, the account is gone from the context and the cookie is cleared; from then
    on no request with the cookie of that session is served with an account.  When
    Delete runs the handler, the same holds for every session that the account
    had.  Otherwise each is rejected without an effect. *)
Theorem Session_revoked (c : codec V X D DB unit) (cd : codec V X D DB deleteInput) (h : Handler V X values_)
    r w input w0 inputd wd :
  ctx_ok conn (pgctx r) -> decode c None r w = (Ret input, w0) ->
  decode cd (Some delete_Validate) r w = (Ret inputd, wd) -> is_Some (session_of (r_ctx r) (hw_app wd)) ->
  ((exists ac ssn s s1 w1, Acctctx.Account (r_ctx r) = Some ac /\
      session_of (r_ctx r) (hw_app w0) = Some ssn /\ ssn_id ssn <> EmptyString /\
      Logout c h r w = h conn_writer (with_ctx r (WithAccount (r_ctx r) None)) w1 /\
      vis r (db_of w0) = Some s /\ vis r (db_of w1) = Some s1 /\
      s1 = update (delete (ssn_id ssn) (view s : tokens_table)) s /\ revoked (ssn_id ssn) s1 /\
      sees (r_ctx r) (hw_app w1) (EmptyString, Some nullJSON, false) /\
      hw_resp w1 = add_cookie (session_cookie EmptyString (-1) (Some epoch)) (hw_resp w0)) \/
   rejects a r w0 (Logout c h r w)) /\
  ((exists ac s s1 w1, Acctctx.Account (r_ctx r) = Some ac /\ Delete cd h r w = h conn_writer r w1 /\
      vis r (db_of wd) = Some s /\ vis r (db_of w1) = Some s1 /\
      forall k row, (view s : tokens_table) !! k = Some row -> r_ref_id row = ID ac -> r_type row = ty ->
        revoked k s1) \/
   rejects a r wd (Delete cd h r w)).
Proof.
  intros Hctx Hdec Hdecd Hssn. split.
  - destruct (Logout_sound a PathValue ParseMediaType Query ParseForm c h r input w w0 Hctx Hdec)
      as [(ac & ssn & s & w1 & Ha & Hs & Hid & E & Hv & Hv1 & Hsees & Hresp)|Hrej]; [left|by right].
    do 5 eexists. split_and!; [done..| |done|done]. apply absent_revoked. by rewrite view_update, lookup_delete_eq.
  - destruct (Delete_cases a env ComparePasswordAndHash PathValue ParseMediaType Query ParseForm one_conn cd h r
      inputd w wd Hctx Hdecd Hssn) as [Hok|Hrej]; [left|by right]. destruct inputd as [i|]; [|done].
    destruct Hok as (ac & s & s1 & w1 & _ & Ha & _ & E & Hv & Hv1 & (_ & _ & _ & Htok) & _).
    exists ac, s, s1, w1. split_and!; [done..|]. intros k row Hrow Href Hty. apply absent_revoked.
    destruct ((view s1 : tokens_table) !! k) as [row'|] eqn:Er; [|done]. apply Htok in Er as [Er Hno].
    same Hrow Er. by destruct Hno.
Qed.
End Revoked.

(** ** A witness

    ann logs out, or deletes her account; afterwards her old cookie is worth
    nothing. *)
Example Session_revoked_witness :
  fst ex_logout_run = Ret tt /\ fst ex_delete_run = Ret tt /\
  exists s1 s2 : ex_db, revoked (TL := TL0) ex_mw model_env model_rand ex_marshal ex_order "abcdefghij" s1 /\
    revoked (TL := TL0) ex_mw model_env model_rand ex_marshal ex_order "abcdefghij" s2.
Proof.
  assert (fst ex_logout_run = Ret tt) as H by (vm_compute; reflexivity). split; [exact H|].
  assert (fst ex_delete_run = Ret tt) as H2 by (vm_compute; reflexivity). split; [exact H2|].
  destruct (Session_revoked ex_mw (TL := TL0) (SL := SL0) model_env (EL := EL0) model_rand ex_marshal ex_order
    ex_compare ex_path ex_media ex_query ex_form eq_refl ex_empty_codec ex_delete_codec ex_handler ex_auth_request
    ex_world0 (Ok tt) ex_logout_world (Ok ex_delete_input) ex_delete_world I ex_logout_decodes ex_delete_decodes)
    as [[(ac & ssn & s & s1 & w1 & _ & Hssn & _ & _ & _ & _ & _ & Hr & _)|(e & w1 & E & _)] Hd].
  - by eexists.
  - injection Hssn as <-. exists s1.
    destruct Hd as [(ac' & s' & s2 & w2 & Ha & _ & Hv & _ & Hr2)|(e & w2 & E & _)].
    + exists s2. split; [exact Hr|]. injection Ha as <-. injection Hv as <-.
      apply (Hr2 "abcdefghij"%string ex_session_row); reflexivity.
    + exfalso. exact (not_error H2 E).
  - exfalso. exact (not_error H E).
Defined.
