(* ===== verification/Middleware.v ===== *)
(** * Middleware: src/server/middleware/middleware.go

    The middleware as functions from handlers to handlers on the world of Http.
    Those that hand the handler to another package are in Wrappers.  Packages
    that the others configure are parameters. *)

From Stdlib Require Import ZArith Ascii String Lia Floats.SpecFloat.
From S2P Require Import Prelude Errors Accept Http CtxVals.

Definition ErrTooManyBytes : error := ConstError "too many bytes written to the response".
Definition StatusInternalServerError : Z := 500.
Definition StatusNotAcceptable : Z := 406.
Definition StatusServiceUnavailable : Z := 503.
Definition Nanoseconds : Z := 1000000000.

Section Middleware.
Context {V X C : Type}.
Local Notation W := (hworld V X).
Local Notation ResponseWriter := (ResponseWriter V X).
Local Notation Handler := (Handler V X C).
Local Notation request := (request C).
Local Notation context := (context C).
Local Open Scope go_scope.

(** ** Hooks

    httpsnoop.Wrap replaces methods of a writer by what hooks make of them.
    [each_call] says when a hook runs: at each call of the method, or once when
    the writer is wrapped. *)
Context (each_call : bool).

Definition wrap_Write (hook : (string -> go W (Z * option error)) -> go W (string -> go W (Z * option error)))
    (w : ResponseWriter) : go W ResponseWriter :=
  let with_write f := {| Header := Header w; SetHeader := SetHeader w; AddHeader := AddHeader w;
     DelHeader := DelHeader w;
                         WriteHeader := WriteHeader w; Write := f |} in
  if each_call then ret (with_write (fun b => let! f := hook (Write w) in f b))
  else let! f := hook (Write w) in ret (with_write f).

(** ** Body limits *)

Definition LimitRequestBodyBytes (limit : Z) (h : Handler) : Handler := fun w r =>
  do! (if 0 <? limit then modify (set_body (MaxBytes limit)) else ret tt) in
  h w r.

(** The variable [size] of the closure is [x]. *)
Definition limited_write (x : nat) (w : ResponseWriter) (limit : Z)
    (fn : string -> go W (Z * option error)) (b : string) : go W (Z * option error) :=
  let! size := get_var x in
  let total := i64 (size + Z.of_nat (String.length b)) in
  let! eb :=
    (if limit <? total then
       let diff := i64 (total - limit) in
       do! WriteHeader w StatusInternalServerError in
       ret (Some ErrTooManyBytes, take_str (Z.to_nat (Z.of_nat (String.length b) - diff)) b)
     else ret (None, b)) in
  let! nw := fn eb.2 in
  let! size := get_var x in
  do! set_var x (i64 (size + nw.1)) in
  ret (nw.1, match nw.2 with Some werr => Some werr | None => eb.1 end).

Definition limitWrite (w : ResponseWriter) (limit : Z) (fn : string -> go W (Z * option error))
    : go W (string -> go W (Z * option error)) :=
  let! x := new_var 0 in
  ret (limited_write x w limit fn).

(** The hook's [w] is the variable that holds the wrapped writer by the time it
    runs at each call; its WriteHeader is that of the writer it wraps. *)
Definition LimitResponseBodyBytes (limit : Z) (h : Handler) : Handler := fun w r =>
  if 0 <? limit then
    let! w' := wrap_Write (limitWrite w limit) w in
    h w' r
  else h w r.

(** ** Content negotiation *)

Definition ResponseContentType (offeredTypes : list string) (quoted : string -> list string -> string)
    (h : Handler) : Handler := fun w r =>
  let! req := gets (fun w => hw_req_header w) in
  (* the parser always ends: the default is not used *)
  let ct := default "-"%string
    (negotiateContentType (default [] (req !! "Accept"%string)) offeredTypes "-") in
  if String.eqb ct "-" then
    http_Error w (quoted (hdr_Get req "Accept") offeredTypes) StatusNotAcceptable
  else
    do! SetHeader w "Content-Type" ct in
    h w r.

(** ** Request IDs *)

(** The new value: hex of random bytes, or the last digits of the time when
    there is no randomness. *)
Definition newRequestID (rand_Read : Z -> go W (option (list Z))) (testForceRandErr : bool)
    (UnixNano : go W Z) : go W string :=
  let length := 8%nat in
  let! b := rand_Read 4 in
  match b, testForceRandErr with
  | Some b, false => ret (hex_EncodeToString b)
  | _, _ =>
      let! ts := UnixNano in
      let v := Itoa ts in
      ret (if (length <? String.length v)%nat then drop_str (String.length v - length) v else v)
  end.

Definition RequestID (rand_Read : Z -> go W (option (list Z))) (testForceRandErr : bool)
    (UnixNano : go W Z) (hdr : string) (force : bool) (h : Handler) : Handler := fun w r =>
  let! req := gets (fun w => hw_req_header w) in
  let id := hdr_Get req hdr in
  if negb (String.eqb id EmptyString) && negb force then
    do! SetHeader w hdr id in
    h w r
  else
    let! val := newRequestID rand_Read testForceRandErr UnixNano in
    do! modify (set_req_header (hdr_Set hdr val)) in
    do! SetHeader w hdr val in
    h w r.

(** ** Rate limit *)

Record RequestLimitConfig := {
  Rate : spec_float; FillInterval : Z; Capacity : Z; Quantum : Z; MaxWait : Z;
}.

Section RequestLimit.
Context {Bucket : Type}.
Context (NewBucketWithQuantum : Z -> Z -> Z -> Bucket) (NewBucketWithRate : spec_float -> Z -> Bucket).
Context (WaitMaxDuration : Bucket -> Z -> Z -> go W bool).

Definition limit_bucket (config : RequestLimitConfig) : Bucket :=
  if 0 <? FillInterval config then
    let q := if Quantum config <=? 0 then 1 else Quantum config in
    NewBucketWithQuantum (FillInterval config) (Capacity config) q
  else NewBucketWithRate (Rate config) (Capacity config).

Definition RequestLimit (config : RequestLimitConfig) : Handler -> Handler :=
  let buck := limit_bucket config in
  fun h w r =>
    let! ok := WaitMaxDuration buck 1 (MaxWait config) in
    if negb ok then http_Error w "Service Unavailable" StatusServiceUnavailable
    else h w r.
End RequestLimit.

(** ** Panics *)

Definition PanicRecovery (recoverFn : ResponseWriter -> request -> string -> go W unit) (h : Handler)
    : Handler := fun w r => recover (h w r) (fun err => recoverFn w r err).

(** ** Logging *)

Section Logging.
Context (val_string : string -> V) (val_int : Z -> V).
Context (Now : go W Z) (CaptureMetrics : Handler -> ResponseWriter -> request -> go W (Z * Z)).

Definition predefined (reqIDHeader : string) (r : request) (req resp : header) (start end_ : Z)
    (metrics : Z * Z) : gmap string V :=
  let m : gmap string V := list_to_map [
    ("start"%string, val_int start); ("end"%string, val_int end_);
    ("duration"%string, val_int (i64 (end_ - start)));
    ("proto"%string, val_string (r_proto r)); ("host"%string, val_string (r_host r));
    ("method"%string, val_string (r_method r)); ("uri"%string, val_string (r_uri r));
    ("path"%string, val_string (r_path r)); ("origin"%string, val_string (hdr_Get req "Origin"));
    ("body_bytes_received"%string, val_int (r_content_length r));
    ("user_agent"%string, val_string (hdr_Get req "User-Agent"));
    ("remote_addr"%string, val_string (r_remote_addr r));
    ("body_bytes_sent"%string, val_int metrics.2); ("status"%string, val_int metrics.1)] in
  if String.eqb reqIDHeader EmptyString then m
  else <["request_id"%string := val_string (hdr_Get resp reqIDHeader)]> m.

(** for k, v := range mm: the fields already there are kept. *)
Definition merge_pairs (m mm : gmap string V) : gmap string V :=
  map_fold (fun k v m => match m !! k with Some _ => m | None => <[k := v]> m end) m mm.

Definition Logging (reqIDHeader : string) (logFn : ResponseWriter -> request -> gmap string V -> go W unit)
    (h : Handler) : Handler := fun w r =>
  let! ctx := WithKeyValue (r_ctx r) in
  let r := with_ctx r ctx in
  let! start := Now in
  let! metrics := CaptureMetrics h w r in
  let! end_ := Now in
  let! req := gets (fun w => hw_req_header w) in
  let! resp := Header w in
  let m := predefined reqIDHeader r req resp start end_ metrics in
  let! mm := ConsumeKeyValuePairs (r_ctx r) in
  logFn w r (merge_pairs m mm).
End Logging.

(** ** Deadlines *)

(** time.Time{} is [None]. *)
Definition deadline (Now : go W Z) (timeout : Z) : go W (option Z) :=
  if 0 <? timeout then let! now := Now in ret (Some (now + timeout)) else ret None.

Definition RequestTimeouts (Now : go W Z)
    (SetReadDeadline SetWriteDeadline : ResponseWriter -> option Z -> go W unit)
    (readTimeout writeTimeout : Z) (h : Handler) : Handler := fun w r =>
  do! (if 0 <=? readTimeout then let! dl := deadline Now readTimeout in SetReadDeadline w dl
       else ret tt) in
  do! (if 0 <=? writeTimeout then let! dl := deadline Now writeTimeout in SetWriteDeadline w dl
       else ret tt) in
  h w r.

(** ** Custom errors

    The writer that CustomErrors hands to the handler and, the closure's
    variable [w] being reassigned to it, to the error handler.  [noop] and
    [called] are its variables.  The error handler is called once at most, so
    two levels of the writer are enough: [n] bounds the calls from within. *)
Fixpoint custom_writer (n : nat) (noop called : nat)
    (errHandler : Z -> ResponseWriter -> request -> go W bool) (w : ResponseWriter) (r : request)
    : ResponseWriter :=
  {| Header := Header w; SetHeader := SetHeader w; AddHeader := AddHeader w;
     DelHeader := DelHeader w;
     WriteHeader := fun code =>
       let! no := get_bool noop in
       if (no : bool) then ret tt
       else
         let! ca := get_bool called in
         if (400 <=? code) && negb ca then
           do! set_bool called true in
           match n with
           | O => panic "unreachable"
           | S n' =>
               let! handled := errHandler code (custom_writer n' noop called errHandler w r) r in
               if (handled : bool) then set_bool noop true else WriteHeader w code
           end
         else WriteHeader w code;
     Write := fun b =>
       let! no := get_bool noop in
       if (no : bool) then ret (0, None) else Write w b |}.

Definition CustomErrors (errHandler : Z -> ResponseWriter -> request -> go W bool) (h : Handler)
    : Handler := fun w r =>
  let! noop := new_var 0 in
  let! called := new_var 0 in
  h (custom_writer 1 noop called errHandler w r) r.
End Middleware.

(** ** CORS *)

Record CORSConfig := {
  AllowCredentials : bool;
  AllowedOrigins : list string; AllowedMethods : list string;
  AllowedRequestHeaders : list string; ExposedResponseHeaders : list string;
  MaxAge : Z;
}.

(** The options of package fcors, as calls with their arguments. *)
Inductive cors_option :=
| FromAnyOrigin
| FromOrigins (one : string) (others : list string)
| WithAnyMethod
| WithMethods (one : string) (others : list string)
| WithAnyRequestHeaders
| WithRequestHeaders (one : string) (others : list string)
| ExposeAllResponseHeaders
| ExposeResponseHeaders (one : string) (others : list string)
| MaxAgeInSeconds (delta : Z).

Definition is_star (l : list string) : bool :=
  match l with [x] => String.eqb x "*" | _ => false end.

(** The locals opts, optsWithCreds and pendingErrs of CORS. *)
Definition cors_locals : Type := (list cors_option * list cors_option * list string)%type.
Definition both (o : cors_option) (l : cors_locals) : cors_locals :=
  let '(opts, creds, errs) := l in (opts ++ [o], creds ++ [o], errs).
Definition anon_only (o : cors_option) (err : string) (l : cors_locals) : cors_locals :=
  let '(opts, creds, errs) := l in (opts ++ [o], creds, errs ++ [err]).
Definition unless_empty (l : list string) (f : string -> list string -> cors_option) (c : cors_locals)
    : cors_locals := match l with x :: l' => both (f x l') c | [] => c end.

Definition cors_options (config : CORSConfig) : cors_locals :=
  let c := ([], [], []) in
  let c := if is_star (AllowedOrigins config)
           then anon_only FromAnyOrigin "cannot allow any origin with credentials" c
           else unless_empty (AllowedOrigins config) FromOrigins c in
  let c := if is_star (AllowedMethods config) then both WithAnyMethod c
           else unless_empty (AllowedMethods config) WithMethods c in
  let c := if is_star (AllowedRequestHeaders config) then both WithAnyRequestHeaders c
           else unless_empty (AllowedRequestHeaders config) WithRequestHeaders c in
  let c := if is_star (ExposedResponseHeaders config)
           then anon_only ExposeAllResponseHeaders
                  "cannot expose all response headers with credentials" c
           else unless_empty (ExposedResponseHeaders config) ExposeResponseHeaders c in
  if MaxAge config <? 0 then both (MaxAgeInSeconds 0) c
  else if 0 <? MaxAge config then both (MaxAgeInSeconds (Z.quot (MaxAge config) Nanoseconds)) c
  else c.

Section CORS.
Context {M : Type} (AllowAccess AllowAccessWithCredentials : cors_option -> list cors_option -> res string M).

Definition CORS (config : CORSConfig) : outcome M :=
  let '(opts, optsWithCreds, pendingErrs) := cors_options config in
  if AllowCredentials config then
    match pendingErrs, optsWithCreds with
    | _ :: _, _ => Panicked (join_strings (String "010" EmptyString) pendingErrs)
    | [], [] => Panicked "missing required allowed origin option"
    | [], o :: others =>
        match AllowAccessWithCredentials o others with
        | Err err => Panicked err
        | Ok mw => Ret mw
        end
    end
  else
    match opts with
    | [] => Panicked "missing required allowed origin option"
    | o :: others =>
        match AllowAccess o others with
        | Err err => Panicked err
        | Ok mw => Ret mw
        end
    end.
End CORS.

(** ** Limits on the response *)

Definition concat_str (l : list string) : string := foldr String.append EmptyString l.

Lemma take_str_app_le n s t :
  take_str n (s +:+ t) = (take_str n s +:+ take_str (n - String.length s) t).
Proof.
  revert n. induction s as [|c s IH]; intros n; simpl.
  - rewrite !str_app_nil_l, Nat.sub_0_r. by destruct n.
  - destruct n as [|n]; simpl; [by destruct t|]. by rewrite str_app_cons, IH.
Qed.

Lemma take_str_0 s : take_str 0 s = EmptyString.
Proof. by destruct s. Qed.

Section Limits.
Context {V X C : Type}.
Local Notation W := (hworld V X).

(** The state of the response after a limited write: the body grows by what
    the limit leaves, an excess sends status 500 if nothing was sent. *)
Lemma limited_write_run x limit b (w : W) size :
  hw_vars w !! x = Some size -> 0 <= size <= limit -> limit <= MaxInt64 ->
  size + Z.of_nat (String.length b) <= MaxInt64 ->
  let kept := take_str (Z.to_nat (limit - size)) b in
  exists w', limited_write x conn_writer limit (Write conn_writer) b w =
    (Ret (Z.of_nat (String.length kept),
          if limit <? size + Z.of_nat (String.length b) then Some ErrTooManyBytes else None), w') /\
    hw_vars w' = <[x := size + Z.of_nat (String.length kept)]> (hw_vars w) /\
    res_body (hw_resp w') = (res_body (hw_resp w) +:+ kept) /\
    res_sent (hw_resp w') = match res_sent (hw_resp w) with
      | Some s => Some s
      | None => Some (if limit <? size + Z.of_nat (String.length b) then 500 else 200,
                      res_header (hw_resp w))
      end.
Proof.
  intros Hx Hsize Hlim Hlen kept. unfold limited_write, get_var, gets, bind, ret, set_var, modify.
  rewrite Hx. simpl default. unfold MaxInt64 in *.
  rewrite (i64_id (size + _)) by (unfold MinInt64, MaxInt64; lia).
  destruct (Z.ltb_spec limit (size + Z.of_nat (String.length b))) as [Hgt|Hle].
  - rewrite (i64_id (_ - limit)) by (unfold MinInt64, MaxInt64; lia).
    replace (Z.of_nat (String.length b) - (size + Z.of_nat (String.length b) - limit))
      with (limit - size) by lia.
    fold kept. simpl. rewrite Hx. simpl default.
    assert (Z.of_nat (String.length kept) <= limit - size).
    { unfold kept. rewrite take_str_length. lia. }
    rewrite i64_id by (unfold MinInt64, MaxInt64; lia).
    eexists. split; [reflexivity|]. simpl. split; [done|].
    unfold res_Write, res_WriteHeader. destruct (res_sent (hw_resp w)) eqn:Es; simpl;
      rewrite ?Es; done.
  - assert (kept = b) as -> by (apply take_str_all; lia).
    simpl. rewrite Hx. simpl default. rewrite i64_id by (unfold MinInt64, MaxInt64; lia).
    eexists. split; [reflexivity|]. simpl. split; [done|].
    unfold res_Write, res_WriteHeader. by destruct (res_sent (hw_resp w)) eqn:Es.
Qed.

(** A handler that only writes its body. *)
Definition writes (bs : list string) : Handler V X C := fun w _ => do_calls w (CWrite <$> bs).

Definition total_len (bs : list string) : Z := Z.of_nat (String.length (concat_str bs)).

Definition with_Write (w : ResponseWriter V X) f : ResponseWriter V X :=
  {| Header := Header w; SetHeader := SetHeader w; AddHeader := AddHeader w;
     DelHeader := DelHeader w;
     WriteHeader := WriteHeader w; Write := f |}.

Lemma do_calls_write wr b bs (w : W) :
  do_calls wr (CWrite <$> b :: bs) w = bind (Write wr b) (fun _ => do_calls wr (CWrite <$> bs)) w.
Proof. simpl. unfold bind. by destruct (Write wr b w) as [[]]. Qed.

Lemma writes_once x limit bs (w : W) size :
  hw_vars w !! x = Some size -> 0 <= size <= limit -> limit + total_len bs <= MaxInt64 ->
  exists w', do_calls (with_Write conn_writer (limited_write x conn_writer limit (Write conn_writer)))
      (CWrite <$> bs) w = (Ret tt, w') /\
    res_body (hw_resp w') =
      (res_body (hw_resp w) +:+ take_str (Z.to_nat (limit - size)) (concat_str bs)).
Proof.
  unfold total_len. revert w size. induction bs as [|b bs IH]; intros w size Hx Hsize Hlen.
  { exists w. split; [done|]. simpl. destruct (Z.to_nat _); by rewrite str_app_nil_r. }
  simpl in Hlen. rewrite length_app_str in Hlen.
  destruct (limited_write_run x limit b w size) as (w1 & E & Hv & Hbody & _); [done|done|lia|lia|].
  set (kept := take_str (Z.to_nat (limit - size)) b) in *.
  assert (Z.of_nat (String.length kept) <= limit - size) as Hk
    by (unfold kept; rewrite take_str_length; lia).
  destruct (IH w1 (size + Z.of_nat (String.length kept))) as (w2 & E2 & Hb2); [|lia|lia|].
  { rewrite Hv. apply list_lookup_insert_eq. by apply (lookup_lt_Some _ _ size). }
  exists w2. rewrite do_calls_write, (bind_run _ _ _ _ _ E), E2. split; [done|].
  rewrite Hb2, Hbody. simpl concat_str. rewrite take_str_app_le, <- str_app_assoc. fold kept. do 3 f_equal.
  unfold kept. rewrite take_str_length. lia.
Qed.

Lemma writes_each limit bs (w : W) :
  0 <= limit -> limit + total_len bs <= MaxInt64 ->
  exists w', do_calls (with_Write conn_writer (fun b =>
      bind (limitWrite conn_writer limit (Write conn_writer)) (fun f => f b))) (CWrite <$> bs) w
      = (Ret tt, w') /\
    res_body (hw_resp w') =
      (res_body (hw_resp w) +:+ concat_str (take_str (Z.to_nat limit) <$> bs)).
Proof.
  unfold total_len. intros Hlim. revert w. induction bs as [|b bs IH]; intros w Hlen.
  { exists w. split; [done|]. by rewrite str_app_nil_r. }
  simpl in Hlen. rewrite length_app_str in Hlen.
  destruct (limited_write_run (length (hw_vars w)) limit b
    (set_vars (fun l => l ++ [0]) w) 0) as (w1 & E & _ & Hbody & _); [|lia|lia|lia|].
  { simpl. by rewrite lookup_app_r, Nat.sub_diag by lia. }
  destruct (IH w1) as (w2 & E2 & Hb2); [lia|].
  exists w2. split.
  - rewrite do_calls_write. simpl Write. unfold limitWrite at 1. rewrite !bind_assoc.
    unfold new_var at 1, bind at 1. rewrite bind_ret, (bind_run _ _ _ _ _ E). exact E2.
  - rewrite Hb2, Hbody, Z.sub_0_r, <- str_app_assoc. done.
Qed.

(** C29. The body that a handler behind LimitResponseBodyBytes can send: when the
    hook runs once, at most [limit] bytes in all, exactly the first [limit]
    bytes of what it writes; when the hook runs at each call, the count starts
    over at each Write, and the limit holds for each of them only. *)
Theorem LimitResponseBodyBytes_body each_call limit bs r (w : W) :
  0 < limit -> limit + total_len bs <= MaxInt64 ->
  exists w', LimitResponseBodyBytes each_call limit (writes bs) conn_writer r w = (Ret tt, w') /\
    res_body (hw_resp w') = (res_body (hw_resp w) +:+
      if (each_call : bool) then concat_str (take_str (Z.to_nat limit) <$> bs)
      else take_str (Z.to_nat limit) (concat_str bs)).
Proof.
  intros Hlim Hlen. unfold LimitResponseBodyBytes, wrap_Write.
  destruct (Z.ltb_spec 0 limit); [|lia]. destruct each_call.
  - rewrite bind_ret. apply writes_each; [lia|done].
  - unfold limitWrite. rewrite !bind_assoc. unfold new_var, bind at 1. rewrite !bind_ret.
    destruct (writes_once (length (hw_vars w)) limit bs (set_vars (fun l => l ++ [0]) w) 0)
      as (w' & E & Hb); [|lia|lia|].
    { simpl. by rewrite lookup_app_r, Nat.sub_diag by lia. }
    exists w'. split; [exact E|]. by rewrite Hb, Z.sub_0_r.
Qed.
End Limits.

(** ** Custom errors *)

Section CustomErrors.
Context {V X C : Type}.
Local Notation W := (hworld V X).
Context (script : Z -> list call) (handled : Z -> bool) (r : request C).
Local Open Scope go_scope.

(** An error handler that does the calls [script code] and reports [handled code]. *)
Definition script_handler (code : Z) (w : ResponseWriter V X) (_ : request C) : go W bool :=
  do! do_calls w (script code) in ret (handled code).

(** What reaches the connection: the calls of the handler up to its first error
    status; then those of the error handler; then, unless it handled the
    error, the rest as it is. *)
Fixpoint custom_calls (l : list call) : list call :=
  match l with
  | [] => []
  | CWriteHeader code :: post =>
      if 400 <=? code then script code ++ (if handled code then [] else l)
      else CWriteHeader code :: custom_calls post
  | c :: post => c :: custom_calls post
  end.

Definition vars_at (noop called : nat) (a b : Z) (w : W) : Prop :=
  hw_vars w !! noop = Some a /\ hw_vars w !! called = Some b.

Local Notation writer n noop called := (custom_writer n noop called script_handler conn_writer r).

Lemma get_bool_run x v (w : W) :
  hw_vars w !! x = Some v -> get_bool x w = (Ret (negb (v =? 0)), w).
Proof. intros E. unfold get_bool, gets. by rewrite E. Qed.

(** Once an error was handled every call is dropped. *)
Lemma dropped n noop called l (w : W) :
  hw_vars w !! noop = Some 1 -> do_calls (writer n noop called) l w = (Ret tt, w).
Proof.
  intros Hn. induction l as [|c l IH]; [done|]. simpl. rewrite (bind_run _ _ w tt w); [done|].
  destruct c; destruct n; simpl; unfold bind; by rewrite (get_bool_run noop 1).
Qed.

(** One call that is passed on. *)
Lemma pass_call n noop called c b (w : W) :
  vars_at noop called 0 b w ->
  match c with CWriteHeader code => b = 1 \/ code < 400 | CWrite _ => True end ->
  do_call (writer n noop called) c w = (Ret tt, set_resp (fun r => res_call r c) w).
Proof.
  intros [Hn Hc] Hp. destruct c as [code|s]; destruct n; simpl; unfold bind;
    rewrite (get_bool_run noop 0) by done; simpl; try done;
    rewrite Hc; simpl default; destruct Hp as [->|Hp]; rewrite ?andb_false_r; try done;
    (destruct (Z.leb_spec 400 code); [lia|done]).
Qed.

(** After an unhandled error every call is passed on. *)
Lemma passed n noop called l (w : W) :
  vars_at noop called 0 1 w ->
  do_calls (writer n noop called) l w = (Ret tt, set_resp (fun r => res_calls r l) w).
Proof.
  revert w. induction l as [|c l IH]; intros w Hv; [by destruct w|].
  simpl. rewrite (bind_run _ _ _ _ _ (pass_call n noop called c 1 w Hv ltac:(destruct c; auto))).
  by rewrite IH.
Qed.

Lemma error_call noop called code (w : W) :
  vars_at noop called 0 0 w -> noop <> called -> 400 <= code ->
  exists w', do_call (writer 1 noop called) (CWriteHeader code) w = (Ret tt, w') /\
    hw_resp w' = res_calls (hw_resp w)
      (script code ++ if handled code then [] else [CWriteHeader code]) /\
    vars_at noop called (if handled code then 1 else 0) 1 w'.
Proof.
  intros [Hn Hc] Hne Hcode. simpl. unfold bind at 1. rewrite (get_bool_run noop 0) by done. simpl.
  unfold bind at 1. rewrite (get_bool_run called 0) by done. simpl.
  destruct (Z.leb_spec 400 code); [simpl|lia].
  set (w1 := set_vars (<[called := 1]>) w).
  assert (Hv1 : vars_at noop called 0 1 w1).
  { split; simpl; [by rewrite list_lookup_insert_ne|].
    apply list_lookup_insert_eq. by apply (lookup_lt_Some _ _ 0). }
  unfold set_bool, set_var. rewrite (bind_run _ _ w tt w1) by done.
  unfold script_handler. rewrite bind_assoc, (bind_run _ _ _ _ _ (passed 0 noop called (script code) w1 Hv1)).
  rewrite bind_ret. destruct (handled code).
  - eexists. split; [reflexivity|]. simpl. rewrite app_nil_r. split; [done|]. split; simpl.
    + apply list_lookup_insert_eq. rewrite length_insert. by apply (lookup_lt_Some _ _ 0).
    + rewrite list_lookup_insert_ne by done. apply (proj2 Hv1).
  - eexists. split; [reflexivity|]. split; [|done]. simpl.
    unfold res_calls. by rewrite foldl_app.
Qed.

(** C28. CustomErrors: a handler that makes a sequence of calls produces, call for
    call, the same response as without the middleware up to its first status of
    at least 400; there the error handler runs, once, and its calls reach the
    connection; if it handled the error nothing else the handler does has
    any effect, and otherwise the rest passes through unchanged, later
    errors included. *)
Theorem CustomErrors_calls l (w : W) :
  exists w', CustomErrors script_handler (fun wr _ => do_calls wr l) conn_writer r w = (Ret tt, w') /\
    hw_resp w' = res_calls (hw_resp w) (custom_calls l).
Proof.
  unfold CustomErrors.
  rewrite (bind_run (new_var 0) _ w (length (hw_vars w)) (set_vars (fun l => l ++ [0]) w)) by done.
  set (w1 := set_vars (fun l => l ++ [0]) w).
  rewrite (bind_run (new_var 0) _ w1 (length (hw_vars w1)) (set_vars (fun l => l ++ [0]) w1)) by done.
  set (w0 := set_vars (fun l => l ++ [0]) w1).
  set (noop := length (hw_vars w)). set (called := length (hw_vars w1)).
  assert (Hne : noop <> called) by (unfold called; simpl; rewrite length_app; simpl; lia).
  assert (Hv : vars_at noop called 0 0 w0).
  { split; simpl.
    - rewrite lookup_app_l by (rewrite length_app; simpl; unfold noop; lia).
      by rewrite lookup_app_r, Nat.sub_diag by done.
    - by rewrite lookup_app_r, Nat.sub_diag by done. }
  change (hw_resp w) with (hw_resp w0). clearbody noop called w0. clear w1. revert w0 Hv.
  induction l as [|c l IH]; intros w0 Hv; [by exists w0|]. cbn [do_calls custom_calls].
  destruct c as [code|s]; [destruct (Z.leb_spec 400 code) as [Hcode|Hcode]|].
  - destruct (error_call noop called code w0 Hv Hne Hcode) as (w1 & E & Hr & Hv1).
    rewrite (bind_run _ _ _ _ _ E). destruct (handled code).
    + rewrite dropped by apply Hv1. exists w1. split; [done|exact Hr].
    + rewrite passed by done. eexists. split; [reflexivity|]. simpl. rewrite Hr.
      unfold res_calls. by rewrite !foldl_app.
  - rewrite (bind_run _ _ _ _ _ (pass_call 1 noop called (CWriteHeader code) 0 w0 Hv
      ltac:(by right))).
    exact (IH (set_resp (fun r => res_call r (CWriteHeader code)) w0) Hv).
  - rewrite (bind_run _ _ _ _ _ (pass_call 1 noop called (CWrite s) 0 w0 Hv I)).
    exact (IH (set_resp (fun r => res_call r (CWrite s)) w0) Hv).
Qed.
End CustomErrors.

(** ** Content type of the response *)

Lemma consider_in offer b spec :
  bestOffer (consider offer b spec) = bestOffer b \/ bestOffer (consider offer b spec) = offer.
Proof. unfold consider. repeat case_goal; auto. Qed.

Lemma negotiate_in specs offers d : negotiate specs offers d ∈ d :: offers.
Proof.
  unfold negotiate. set (b0 := {| bestOffer := d |}).
  assert (H : forall l b, bestOffer b ∈ d :: offers -> (forall o, o ∈ l -> o ∈ offers) ->
    bestOffer (foldl (fun b offer => foldl (consider offer) b specs) b l) ∈ d :: offers).
  { intros l. induction l as [|o l IH]; intros b Hb Hl; [done|]. simpl. apply IH;
      [|intros; apply Hl; by right]. clear IH. revert b Hb.
    induction specs as [|s specs IHs]; intros b Hb; [done|]. simpl. apply IHs.
    destruct (consider_in o b s) as [->| ->]; [done|right; apply Hl; by left]. }
  apply H; [by left|done].
Qed.

Section Requests.
Context {V X C : Type}.
Local Notation W := (hworld V X).
Local Open Scope go_scope.

(** ResponseContentType either runs the handler with the Content-Type of the
    response set to one of the offered types, negotiated from the Accept
    header, or answers 406 (when nothing was sent yet) without running it. *)
Theorem ResponseContentType_offered offered quoted (h : Handler V X C) r (w : W) :
  "-"%string ∉ offered ->
  (exists ct w1, ct ∈ offered /\
     ResponseContentType offered quoted h conn_writer r w = h conn_writer r w1 /\
     hdr_Get (res_header (hw_resp w1)) "Content-Type" = ct /\
     res_sent (hw_resp w1) = res_sent (hw_resp w) /\ res_body (hw_resp w1) = res_body (hw_resp w)) \/
  (exists w1, ResponseContentType offered quoted h conn_writer r w = (Ret tt, w1) /\
     (res_sent (hw_resp w) = None -> fst <$> res_sent (hw_resp w1) = Some 406) /\
     hw_app w1 = hw_app w).
Proof.
  intros Hdash.
  set (ct := default "-"%string
    (negotiateContentType (default [] (hw_req_header w !! "Accept"%string)) offered "-")).
  assert (ResponseContentType offered quoted h conn_writer r w =
    (if String.eqb ct "-"
     then http_Error conn_writer (quoted (hdr_Get (hw_req_header w) "Accept") offered) 406
     else do! SetHeader conn_writer "Content-Type" ct in h conn_writer r) w) as -> by done.
  destruct (String.eqb_spec ct "-") as [E|E].
  - right. eexists. split; [reflexivity|]. split; [|done].
    intros Hs. simpl. unfold res_Write, res_WriteHeader. simpl. by rewrite Hs.
  - left. exists ct. eexists. split; [|split; [reflexivity|]].
    + subst ct. unfold negotiateContentType in *. destruct (parseAccept _) as [specs|]; [|done].
      simpl in *. pose proof (negotiate_in specs offered "-") as Hin.
      apply elem_of_cons in Hin as [?|?]; done.
    + simpl. split; [apply hdr_Get_Set|done].
Qed.

(** ** Request IDs *)

(** RequestID runs the handler with the same identifier in the header of the
    request and of the response: the one the request came with, unless there
    is none or a new one is forced; a new one has 8 characters, or at most 8
    (the end of the time) when there is no randomness. *)
Theorem RequestID_same rand_Read force_err UnixNano hdr force (h : Handler V X C) r (w : W) :
  (forall n w, exists b, rand_Read n w = (Ret b, w) /\ forall l, b = Some l -> Z.of_nat (length l) = n) ->
  (forall w, exists ts, UnixNano w = (Ret ts, w)) ->
  exists id w1, RequestID rand_Read force_err UnixNano hdr force h conn_writer r w = h conn_writer r w1 /\
    hdr_Get (hw_req_header w1) hdr = id /\ hdr_Get (res_header (hw_resp w1)) hdr = id /\
    let old := hdr_Get (hw_req_header w) hdr in
    if negb (String.eqb old EmptyString) && negb force then id = old
    else (String.length id <= 8)%nat /\
      ((exists b, rand_Read 4 w = (Ret (Some b), w)) -> force_err = false -> String.length id = 8%nat).
Proof.
  intros Hrand Htime. set (old := hdr_Get (hw_req_header w) hdr).
  assert (RequestID rand_Read force_err UnixNano hdr force h conn_writer r w =
    (if negb (String.eqb old EmptyString) && negb force
     then do! SetHeader conn_writer hdr old in h conn_writer r
     else let! val := newRequestID rand_Read force_err UnixNano in
          do! modify (set_req_header (hdr_Set hdr val)) in
          do! SetHeader conn_writer hdr val in
          h conn_writer r) w) as -> by done.
  cbv zeta. destruct (negb _ && negb force) eqn:Ec.
  - do 2 eexists. split; [reflexivity|]. simpl. split; [reflexivity|]. by split; [apply hdr_Get_Set|].
  - assert (exists id, newRequestID rand_Read force_err UnixNano w = (Ret id, w) /\
      (String.length id <= 8)%nat /\
      ((exists b, rand_Read 4 w = (Ret (Some b), w)) -> force_err = false -> String.length id = 8%nat))
      as (id & Eid & Hlen & Hexact).
    { unfold newRequestID. destruct (Hrand 4 w) as (b & Eb & Hb). rewrite (bind_run _ _ _ _ _ Eb).
      destruct (Htime w) as (ts & Et).
      assert (Hv : forall v, (String.length (if (8 <? String.length v)%nat
        then drop_str (String.length v - 8) v else v) <= 8)%nat).
      { intros v. destruct (Nat.ltb_spec 8 (String.length v)); [rewrite drop_str_length_eq|]; lia. }
      destruct b as [l|]; [destruct force_err|].
      - rewrite (bind_run _ _ _ _ _ Et). eexists. split; [reflexivity|]. split; [apply Hv|done].
      - eexists. split; [reflexivity|]. specialize (Hb l eq_refl). rewrite hex_length. split; lia.
      - rewrite (bind_run _ _ _ _ _ Et). eexists. split; [reflexivity|]. split; [apply Hv|].
        intros [b Hb']. congruence. }
    rewrite (bind_run _ _ _ _ _ Eid). exists id. eexists. split; [reflexivity|]. simpl.
    split; [apply hdr_Get_Set|]. by split; [apply hdr_Get_Set|].
Qed.

(** ** Logging *)

Lemma merge_pairs_lookup (m mm : gmap string V) k :
  merge_pairs m mm !! k = match m !! k with Some v => Some v | None => mm !! k end.
Proof.
  unfold merge_pairs. revert k.
  apply (map_fold_weak_ind (fun r mm => forall k,
    r !! k = match m !! k with Some v => Some v | None => mm !! k end)).
  - intros k. rewrite lookup_empty. by destruct (m !! k).
  - intros k' v mm' r' Hnone IH k. destruct (r' !! k') as [v'|] eqn:Er.
    + rewrite IH. destruct (m !! k) eqn:Em; [done|].
      destruct (decide (k' = k)) as [->|Hne]; [|by rewrite lookup_insert_ne].
      rewrite IH, Em, Hnone in Er. done.
    + destruct (decide (k' = k)) as [->|Hne].
      * rewrite !lookup_insert_eq. rewrite IH in Er. by destruct (m !! k).
      * rewrite !lookup_insert_ne by done. apply IH.
Qed.

(** What Logging reports: after the handler ran, the log function gets, for
    each field that the middleware defines, the middleware's own value, whatever
    pairs the handler stored under the same keys, and otherwise the last value
    that was stored in the request's container, which is then empty. *)
Theorem Logging_fields val_string val_int Now CaptureMetrics reqIDHeader logFn (h : Handler V X C) wr r (w : W)
    start end_ metrics req resp w1 w2 w3 w4 ctx :
  WithKeyValue (r_ctx r) w = (Ret ctx, w1) -> Now w1 = (Ret start, w2) ->
  CaptureMetrics h wr (with_ctx r ctx) w2 = (Ret metrics, w3) -> Now w3 = (Ret end_, w4) ->
  hw_req_header w4 = req -> Header wr w4 = (Ret resp, w4) ->
  exists m w5, Logging val_string val_int Now CaptureMetrics reqIDHeader logFn h wr r w
      = logFn wr (with_ctx r ctx) m w5 /\
    (forall k, m !! k =
      match predefined val_string val_int reqIDHeader (with_ctx r ctx) req resp start end_ metrics !! k with
      | Some v => Some v
      | None => match cx_kvs ctx with
                | Some x => default ∅ (hw_kvs w4 !! x) !! k
                | None => None
                end
      end) /\
    (forall x, cx_kvs ctx = Some x -> default ∅ (hw_kvs w5 !! x) = ∅).
Proof.
  intros E1 E2 E3 E4 Hreq Hresp. unfold Logging.
  rewrite (bind_run _ _ _ _ _ E1), (bind_run _ _ _ _ _ E2), (bind_run _ _ _ _ _ E3),
    (bind_run _ _ _ _ _ E4).
  rewrite (bind_run (gets hw_req_header) _ w4 req w4) by (unfold gets; by rewrite Hreq).
  rewrite (bind_run _ _ _ _ _ Hresp).
  unfold ConsumeKeyValuePairs, bind. simpl r_ctx. unfold with_ctx at 1. simpl.
  destruct (cx_kvs ctx) as [x|] eqn:Ex.
  - do 2 eexists. split; [reflexivity|]. split; [intros k; by rewrite merge_pairs_lookup|].
    intros y [= <-]. simpl. rewrite lookup_alter_eq. by destruct (hw_kvs w4 !! x).
  - do 2 eexists. split; [reflexivity|]. split; [|done].
    intros k. rewrite merge_pairs_lookup, lookup_empty. done.
Qed.
End Requests.

(** ** CORS *)

Lemma cors_options_creds config :
  let '(opts, creds, errs) := cors_options config in
  (errs = [] <-> is_star (AllowedOrigins config) = false /\
                 is_star (ExposedResponseHeaders config) = false) /\
  FromAnyOrigin ∉ creds /\ ExposeAllResponseHeaders ∉ creds /\ (errs = [] -> opts = creds).
Proof.
  unfold cors_options.
  destruct (is_star (AllowedOrigins config)), (is_star (AllowedMethods config)),
    (is_star (AllowedRequestHeaders config)), (is_star (ExposedResponseHeaders config)),
    (AllowedOrigins config), (AllowedMethods config), (AllowedRequestHeaders config),
    (ExposedResponseHeaders config), (MaxAge config <? 0), (0 <? MaxAge config);
    cbn; (split; [naive_solver|]); split_and!; try done; set_solver.
Qed.

(** CORS never grants credentials to any origin: with AllowCredentials, the
    middleware is made of options that neither accept every origin nor expose
    every header, and a configuration that asks for either panics, as does one
    without options or one that package fcors rejects. *)
Theorem CORS_credentials {M} (AllowAccess AllowAccessWithCredentials : cors_option -> list cors_option -> res string M)
    config :
  AllowCredentials config = true ->
  match CORS AllowAccess AllowAccessWithCredentials config with
  | Ret mw => exists o others, AllowAccessWithCredentials o others = Ok mw /\
      FromAnyOrigin ∉ o :: others /\ ExposeAllResponseHeaders ∉ o :: others /\
      is_star (AllowedOrigins config) = false /\ is_star (ExposedResponseHeaders config) = false
  | Panicked _ =>
      is_star (AllowedOrigins config) = true \/ is_star (ExposedResponseHeaders config) = true \/
      (cors_options config).1.2 = [] \/
      exists o others e, (cors_options config).1.2 = o :: others /\
        AllowAccessWithCredentials o others = Err e
  end.
Proof.
  intros Hc. unfold CORS. pose proof (cors_options_creds config) as H.
  destruct (cors_options config) as [[opts creds] errs]. rewrite Hc.
  destruct H as (He & Ha & Hx & _). destruct errs as [|e errs].
  - destruct creds as [|o others]; [by right; right; left|].
    destruct (AllowAccessWithCredentials o others) as [mw|err] eqn:Em.
    + exists o, others. naive_solver.
    + right; right; right. by exists o, others, err.
  - destruct (is_star (AllowedOrigins config)); [by left|].
    destruct (is_star (ExposedResponseHeaders config)); [by right; left|].
    exfalso. destruct He as [_ He]. by specialize (He (conj eq_refl eq_refl)).
Qed.

(** ** Witnesses *)

Definition ex_w : hworld Z unit :=
  {| hw_resp := {| res_header := ∅; res_sent := None; res_body := EmptyString |};
     hw_req_header := {["Accept"%string := ["text/html"%string]]}; hw_body := RawBody; hw_vars := [];
     hw_kvs := ∅; hw_app := tt |}.
Definition ex_ctx : context unit :=
  {| cx_logger := None; cx_kvs := None; cx_server := None; cx_addr := None; cx_app := tt |}.
Definition ex_r : request unit :=
  {| r_proto := "HTTP/1.1"; r_host := "example.com"; r_method := "GET"; r_uri := "/"; r_path := "/";
     r_content_length := 0; r_remote_addr := "127.0.0.1"; r_ctx := ex_ctx |}.

(** With a limit of 2, the writes "ab" and "cd" send "ab" when the hook runs
    once, and "abcd" when it runs at each call. *)
Example LimitResponseBodyBytes_body_witness :
  exists w1 w2,
    LimitResponseBodyBytes false 2 (writes ["ab"; "cd"]%string) conn_writer ex_r ex_w = (Ret tt, w1) /\
    res_body (hw_resp w1) = "ab"%string /\
    LimitResponseBodyBytes true 2 (writes ["ab"; "cd"]%string) conn_writer ex_r ex_w = (Ret tt, w2) /\
    res_body (hw_resp w2) = "abcd"%string.
Proof.
  destruct (LimitResponseBodyBytes_body false 2 ["ab"; "cd"]%string ex_r ex_w) as (w1 & E1 & B1);
    [reflexivity|vm_compute; discriminate|].
  destruct (LimitResponseBodyBytes_body true 2 ["ab"; "cd"]%string ex_r ex_w) as (w2 & E2 & B2);
    [reflexivity|vm_compute; discriminate|].
  exists w1, w2. split; [exact E1|]. split; [exact B1|]. split; [exact E2|exact B2].
Defined.

Example ResponseContentType_offered_witness :
  let h := fun (wr : ResponseWriter Z unit) (_ : request unit) => do_calls wr [CWriteHeader 204] in
  "-"%string ∉ ["text/html"%string] /\
  ((exists ct w1, ct ∈ ["text/html"%string] /\
     ResponseContentType ["text/html"%string] (fun s _ => s) h conn_writer ex_r ex_w
       = h conn_writer ex_r w1 /\
     hdr_Get (res_header (hw_resp w1)) "Content-Type" = ct /\
     res_sent (hw_resp w1) = res_sent (hw_resp ex_w) /\
     res_body (hw_resp w1) = res_body (hw_resp ex_w)) \/
   (exists w1, ResponseContentType ["text/html"%string] (fun s _ => s) h conn_writer ex_r ex_w
       = (Ret tt, w1) /\
     (res_sent (hw_resp ex_w) = None -> fst <$> res_sent (hw_resp w1) = Some 406) /\
     hw_app w1 = hw_app ex_w)).
Proof.
  assert ("-"%string ∉ ["text/html"%string]) as H by set_solver.
  split; [exact H|].
  exact (ResponseContentType_offered ["text/html"%string] (fun s _ => s)
    (fun wr _ => do_calls wr [CWriteHeader 204]) ex_r ex_w H).
Defined.

Example RequestID_same_witness :
  let rand := fun n (w : hworld Z unit) => (Ret (Some (repeat 171 (Z.to_nat n))), w) in
  let time := fun (w : hworld Z unit) => (Ret 1700000000000000000, w) in
  let h := fun (wr : ResponseWriter Z unit) (_ : request unit) => ret tt in
  exists id w1, RequestID (fun n w => if 0 <=? n then rand n w else (Ret None, w)) false time
      "X-Request-Id" false h conn_writer ex_r ex_w = h conn_writer ex_r w1 /\
    hdr_Get (hw_req_header w1) "X-Request-Id" = id /\
    hdr_Get (res_header (hw_resp w1)) "X-Request-Id" = id /\
    (String.length id <= 8)%nat.
Proof.
  intros rand time h.
  destruct (RequestID_same (fun n w => if 0 <=? n then rand n w else (Ret None, w)) false time
    "X-Request-Id" false h ex_r ex_w) as (id & w1 & E & H1 & H2 & H3).
  - intros n w. destruct (Z.leb_spec 0 n); [|by exists None].
    eexists. split; [reflexivity|]. intros l [= <-]. rewrite repeat_length. lia.
  - intros w. by exists 1700000000000000000.
  - exists id, w1. split; [exact E|]. split; [exact H1|]. split; [exact H2|]. exact (proj1 H3).
Defined.

Example Logging_fields_witness :
  let h := fun (wr : ResponseWriter Z unit) (_ : request unit) => ret tt in
  let now := fun (w : hworld Z unit) => (Ret 5, w) in
  let capture := fun (h : Handler Z unit unit) wr r (w : hworld Z unit) =>
    bind (h wr r) (fun _ => ret (200, 0)) w in
  let log := fun (_ : ResponseWriter Z unit) (_ : request unit) (m : gmap string Z) =>
    modify (set_kvs (<[99%nat := m]>)) in
  exists ctx w1 (m : gmap string Z) w5,
    WithKeyValue (r_ctx ex_r) ex_w = (Ret ctx, w1) /\
    Logging (fun s => Z.of_nat (String.length s)) (fun z => z) now capture EmptyString log h
      conn_writer ex_r ex_w = log conn_writer (with_ctx ex_r ctx) m w5 /\
    m !! "status"%string = Some 200.
Proof.
  intros h now capture log.
  destruct (WithKeyValue (r_ctx ex_r) ex_w) as [[ctx|v] w1] eqn:E1; [|vm_compute in E1; discriminate].
  destruct (Logging_fields (fun s => Z.of_nat (String.length s)) (fun z => z) now capture EmptyString
    log h conn_writer ex_r ex_w 5 5 (200, 0) (hw_req_header w1)
    (res_header (hw_resp w1)) w1 w1 w1 w1 ctx E1 eq_refl eq_refl eq_refl eq_refl eq_refl)
    as (m & w5 & E & Hm & _).
  exists ctx, w1, m, w5. split; [reflexivity|]. split; [exact E|]. rewrite (Hm "status"%string).
  reflexivity.
Defined.

Example CORS_credentials_witness :
  let config := {| AllowCredentials := true; AllowedOrigins := ["*"%string]; AllowedMethods := [];
    AllowedRequestHeaders := []; ExposedResponseHeaders := []; MaxAge := 0 |} in
  AllowCredentials config = true /\
  match CORS (fun _ _ => Ok tt) (fun _ _ => Ok tt) config with Ret _ => False | Panicked _ => True end.
Proof.
  intros config. split; [reflexivity|].
  pose proof (CORS_credentials (fun _ _ => Ok tt) (fun _ _ => Ok tt) config eq_refl) as H.
  destruct (CORS _ _ config) as [mw|v]; [|exact I].
  destruct H as (o & others & _ & _ & _ & Hstar & _). vm_compute in Hstar. discriminate.
Defined.
