(* ===== verification/Wrappers.v ===== *)
(** * Wrappers: the rest of src/server/middleware/middleware.go

    The middleware that hand a handler to another package (gorilla/handlers,
    httpcompression, net/http's TimeoutHandler), which are parameters, with what
    the code configures; http.StripPrefix; and the log function that Logging uses
    when it is given none. *)

From Stdlib Require Import ZArith Ascii String Lia.
From stdpp Require Import gmap sorting.
From S2P Require Import Prelude Errors Http CtxVals Middleware.

Section Wrappers.
Context {V X C : Type}.
Local Notation W := (hworld V X).
Local Notation ResponseWriter := (ResponseWriter V X).
Local Notation Handler := (Handler V X C).
Local Notation request := (request C).
Local Open Scope go_scope.

(** ** Handlers of other packages *)

(** handlers.ContentTypeHandler, http.TimeoutHandler, handlers.ProxyHeaders,
    handlers.HTTPMethodOverrideHandler and handlers.CanonicalHost. *)
Context (ContentTypeHandler : Handler -> list string -> Handler).
Context (http_TimeoutHandler : Handler -> Z -> string -> Handler).
Context (ProxyHeaders HTTPMethodOverrideHandler : Handler -> Handler).
Context (handlers_CanonicalHost : string -> Z -> Handler -> Handler).

Definition RequestContentType (contentTypes : list string) (h : Handler) : Handler :=
  ContentTypeHandler h contentTypes.
Definition TimeoutHandler (timeout : Z) (h : Handler) : Handler := http_TimeoutHandler h timeout "".
Definition TrustProxyHeaders : Handler -> Handler := ProxyHeaders.
Definition AllowMethodOverride : Handler -> Handler := HTTPMethodOverrideHandler.
Definition CanonicalHost (domain : string) (code : Z) : Handler -> Handler := handlers_CanonicalHost domain code.

(** ** Prefixes *)

(** strings.TrimPrefix. *)
Definition TrimPrefix (s prefix : string) : string :=
  if has_prefix prefix s then drop_str (String.length prefix) s else s.

(** The URL's Path and RawPath of a request, which the handler of a copy of it
    gets. *)
Context (RawPath : request -> string) (with_path : string -> string -> request -> request).

(** http.StripPrefix. *)
Definition http_StripPrefix (prefix : string) (h : Handler) : Handler :=
  if String.eqb prefix "" then h
  else fun w r =>
    let p := TrimPrefix (r_path r) prefix in
    let rp := TrimPrefix (RawPath r) prefix in
    if (String.length p <? String.length (r_path r))%nat &&
       (String.eqb (RawPath r) "" || (String.length rp <? String.length (RawPath r))%nat)
    then h w (with_path p rp r)
    else http_Error w "404 page not found" 404.
Definition StripPrefix (prefix : string) (h : Handler) : Handler := http_StripPrefix prefix h.

(** ** Compression *)

Record CompressConfig := { ContentTypes : list string; MinSize : Z }.
(** The options of httpcompression, as calls with their arguments. *)
Inductive compress_option :=
| OContentTypes (types : list string) (blacklist : bool)
| OMinSize (size : Z).
Context (DefaultAdapter : list compress_option -> res string (Handler -> Handler)).

Definition compress_options (config : CompressConfig) : list compress_option :=
  (match ContentTypes config with [] => [] | types => [OContentTypes types false] end) ++
  (if 0 <? MinSize config then [OMinSize (MinSize config)] else []).
Definition Compress (config : CompressConfig) : outcome (Handler -> Handler) :=
  match DefaultAdapter (compress_options config) with
  | Err err => Panicked err
  | Ok mw => Ret mw
  end.

(** ** The default log function *)

Context (slog_Default : Z) (keys_of : gmap string V -> list string).
(** logger.Info(msg, k1, v1, ...). *)
Context (Info : Z -> string -> list (string * V) -> go W unit).

Definition log_pairs (m : gmap string V) (keys : list string) : list (string * V) :=
  keys ≫= fun k => match m !! k with Some v => [(k, v)] | None => [] end.
Definition default_logFn (w : ResponseWriter) (r : request) (m : gmap string V) : go W unit :=
  let logger := LoggerOr slog_Default (r_ctx r) in
  let keys := merge_sort String.le (keys_of m) in
  Info logger "http request" (log_pairs m keys).
End Wrappers.

(** ** What they do *)

Section WrappersFacts.
Context {V X C : Type}.
Local Notation W := (hworld V X).
Local Notation Handler := (Handler V X C).
Local Notation request := (request C).

Lemma TrimPrefix_spec s prefix :
  (exists t, s = (prefix +:+ t) /\ TrimPrefix s prefix = t) \/
  (has_prefix prefix s = false /\ TrimPrefix s prefix = s).
Proof.
  unfold TrimPrefix. destruct (has_prefix prefix s) eqn:E; [left|by right].
  apply has_prefix_spec in E as [t ->]. exists t. split; [done|]. apply drop_str_app.
Qed.

(** StripPrefix gives the handler the path without a non-empty prefix, or answers
    404 without running it; the encoded path, if there is one, has to have the
    prefix too. *)
Lemma StripPrefix_exact (RawPath : request -> string) with_path prefix (h : Handler) wr r (w : W) :
  prefix <> ""%string ->
  (exists p rp, r_path r = (prefix +:+ p) /\ (RawPath r = "" /\ rp = "" \/ RawPath r = (prefix +:+ rp)) /\
    StripPrefix RawPath with_path prefix h wr r w = h wr (with_path p rp r) w)%string \/
  ((has_prefix prefix (r_path r) = false \/ RawPath r <> ""%string /\ has_prefix prefix (RawPath r) = false) /\
    StripPrefix RawPath with_path prefix h wr r w = http_Error wr "404 page not found" 404 w).
Proof.
  intros Hp. unfold StripPrefix, http_StripPrefix. destruct (String.eqb_spec prefix "") as [|_]; [done|].
  assert (Hlen : forall t, (String.length t <? String.length (prefix +:+ t))%nat = true).
  { intros t. apply Nat.ltb_lt. rewrite length_app_str. destruct prefix; [done|simpl; lia]. }
  destruct (TrimPrefix_spec (r_path r) prefix) as [(p & E & ->)|[E ->]].
  2: { right. split; [by left|]. by rewrite Nat.ltb_irrefl. }
  assert (String.length p <? String.length (r_path r) = true)%nat as -> by (rewrite E; apply Hlen).
  simpl andb. destruct (String.eqb_spec (RawPath r) "") as [Er|Er].
  - left. exists p, ""%string. do 2 (split; [auto|]). rewrite Er. unfold TrimPrefix.
    by destruct (has_prefix prefix "") eqn:F; [destruct prefix|].
  - destruct (TrimPrefix_spec (RawPath r) prefix) as [(rp & E2 & ->)|[E2 ->]].
    + left. exists p, rp. do 2 (split; [auto|]).
      assert (String.length rp <? String.length (RawPath r) = true)%nat as -> by (rewrite E2; apply Hlen). done.
    + right. split; [by right|]. by rewrite Nat.ltb_irrefl.
Qed.

(** Compress asks for the types and the size that are set, and panics on what
    httpcompression rejects. *)
Lemma Compress_spec (DefaultAdapter : list compress_option -> res string (Handler -> Handler)) config :
  exists opts, (forall o, o ∈ opts <->
      (ContentTypes config <> [] /\ o = OContentTypes (ContentTypes config) false) \/
      (0 < MinSize config /\ o = OMinSize (MinSize config))) /\
    match Compress DefaultAdapter config with
    | Ret mw => DefaultAdapter opts = Ok mw
    | Panicked v => DefaultAdapter opts = Err v
    end.
Proof.
  exists (compress_options config). split.
  - intros o. unfold compress_options. rewrite elem_of_app. destruct (ContentTypes config) as [|t ts];
      destruct (Z.ltb_spec 0 (MinSize config)); set_unfold; intuition (congruence || lia).
  - unfold Compress. by destruct (DefaultAdapter _).
Qed.

(** The default log line has every field once, by key. *)
Lemma default_logFn_sorted slog_Default (keys_of : gmap string V -> list string) Info wr (r : request) m (w : W) :
  keys_of m ≡ₚ (map_to_list m).*1 ->
  exists kvs, default_logFn slog_Default keys_of Info wr r m w = Info (LoggerOr slog_Default (r_ctx r)) "http request"%string kvs w /\
    kvs ≡ₚ map_to_list m /\ Sorted String.le kvs.*1.
Proof.
  intros Hk. unfold default_logFn. eexists. split; [reflexivity|].
  set (keys := merge_sort String.le (keys_of m)).
  assert (Hp : keys ≡ₚ (map_to_list m).*1) by (unfold keys; by rewrite merge_sort_Permutation).
  assert (E : forall l, (forall k, k ∈ l -> is_Some (m !! k)) ->
    (log_pairs m l).*1 = l).
  { induction l as [|k l IH]; intros Hl; [done|]. simpl. destruct (Hl k) as [v Hv]; [by left|].
    rewrite Hv. simpl. f_equal. apply IH. intros k' Hk'. apply Hl. by right. }
  assert (Hin : forall k, k ∈ keys -> is_Some (m !! k)).
  { intros k. rewrite Hp, list_elem_of_fmap. intros ([k' v] & -> & H). apply elem_of_map_to_list in H. eauto. }
  split; [|rewrite E by done; apply Sorted_merge_sort, _].
  apply NoDup_Permutation.
  - apply (NoDup_fmap_1 fst). rewrite E by done. rewrite Hp. apply NoDup_fst_map_to_list.
  - apply NoDup_map_to_list.
  - intros [k v]. rewrite elem_of_map_to_list. unfold log_pairs. rewrite list_elem_of_bind. split.
    + intros (k' & H & _). destruct (m !! k') eqn:F; set_unfold in H; naive_solver.
    + intros H. exists k. rewrite H. split; [set_solver|]. rewrite Hp. apply list_elem_of_fmap.
      exists (k, v). by rewrite elem_of_map_to_list.
Qed.
End WrappersFacts.
