(* ===== verification/Server.v ===== *)
(** * Server: src/server/server.go

    Building the http.Server, and ListenAndServe as a transition system of two
    goroutines: the caller and the one that serves.  Each transit is two steps,
    the store of the state and the call of the hook, so that every interleaving
    of the two goroutines is a run.  The http.Server is what its documentation
    says: serving ends with ErrServerClosed once Shutdown or Close was called,
    also when they were called first, and may fail at any time; Close returns at
    once, while Shutdown waits, indefinitely if need be, until no connection is
    busy or its context is done.  Time passes, and connections become busy and
    idle, by steps of the environment; a context is the time after which it is
    done, if ever.  Function values, pointers to configuration and file contents
    are numbers. *)

From Stdlib Require Import ZArith String Lia.
From stdpp Require Import relations.
From S2P Require Import Prelude Errors.

(** ** Building *)

Record Certs := {
  AutoCert : bool; AutoCertCacheDir : string; AutoCertExactHosts : list string;
  AutoCertContactEmail : string; CertFile : string; KeyFile : string;
}.

Record GracefulShutdownConfig := { Timeout : Z; ShutdownContext : option Z; Signals : list Z }.

Inductive ServerState := StateNew | StateListening | StateShutdown | StateClosed.
#[export] Instance ServerState_eq_dec : EqDecision ServerState.
Proof. solve_decision. Defined.

Definition ServerState_String (s : ServerState) : string :=
  match s with
  | StateNew => "StateNew"
  | StateListening => "StateListening"
  | StateShutdown => "StateShutdown"
  | StateClosed => "StateClosed"
  end.

(** tls.Config, as far as it is set: the manager of automatic certificates, or a
    certificate. *)
Inductive tls_Config :=
| AutoTLS (cacheDir : string) (hosts : list string) (email : string)
| CertTLS (certificate : Z).

Record http_Server := {
  hs_Addr : string; hs_Handler : Z; hs_TLSConfig : option tls_Config;
  hs_ReadTimeout : Z; hs_ReadHeaderTimeout : Z; hs_WriteTimeout : Z; hs_IdleTimeout : Z;
  hs_MaxHeaderBytes : Z; hs_ConnState : option Z; hs_ErrorLog : option Z;
  hs_BaseContext : option Z; hs_ConnContext : option Z; hs_HTTP2 : option Z; hs_Protocols : option Z;
}.

Record Server := {
  Addr : string;
  ReadTimeout : Z; ReadHeaderTimeout : Z; WriteTimeout : Z; IdleTimeout : Z;
  MaxHeaderBytes : Z; Protocols : option Z; Handler_ : Z; HTTP2Config : option Z;
  s_Certs : option Certs; GracefulShutdown : option GracefulShutdownConfig;
  ConnStateHook : option Z; ServerStateHook : option Z;
  BaseContext : option Z; ConnContext : option Z; ErrorLog : option Z;
  srv : option http_Server; built : bool; state : ServerState;
}.

Definition set_built (s : Server) (b : bool) (h : option http_Server) (st : ServerState) : Server :=
  {| Addr := Addr s; ReadTimeout := ReadTimeout s; ReadHeaderTimeout := ReadHeaderTimeout s;
     WriteTimeout := WriteTimeout s; IdleTimeout := IdleTimeout s; MaxHeaderBytes := MaxHeaderBytes s;
     Protocols := Protocols s; Handler_ := Handler_ s; HTTP2Config := HTTP2Config s;
     s_Certs := s_Certs s; GracefulShutdown := GracefulShutdown s; ConnStateHook := ConnStateHook s;
     ServerStateHook := ServerStateHook s; BaseContext := BaseContext s; ConnContext := ConnContext s;
     ErrorLog := ErrorLog s; srv := h; built := b; state := st |}.

Definition ErrServerClosed : error := Sentinel "http: Server closed".

Section Build.
(** tls.LoadX509KeyPair *)
Context (LoadX509KeyPair : string -> string -> res error Z).

Definition configureTLSAutoCert (config : Certs) : tls_Config :=
  AutoTLS (AutoCertCacheDir config) (AutoCertExactHosts config) (AutoCertContactEmail config).

Definition configureTLSCertificate (certFile keyFile : string) : res error tls_Config :=
  if String.eqb certFile EmptyString || String.eqb keyFile EmptyString then
    Err (ErrorString "tls: certificate and key files must be set")
  else
    match LoadX509KeyPair certFile keyFile with
    | Ok c => Ok (CertTLS c)
    | Err e => Err e
    end.

Definition buildTLS (s : Server) : res error (option tls_Config) :=
  match s_Certs s with
  | None => Ok None
  | Some c =>
      if AutoCert c then Ok (Some (configureTLSAutoCert c))
      else
        match configureTLSCertificate (CertFile c) (KeyFile c) with
        | Err e => Err e
        | Ok tc => Ok (Some tc)
        end
  end.

Definition buildHTTPServer (s : Server) (tc : option tls_Config) : http_Server :=
  {| hs_Addr := Addr s; hs_Handler := Handler_ s; hs_TLSConfig := tc;
     hs_ReadTimeout := ReadTimeout s; hs_ReadHeaderTimeout := ReadHeaderTimeout s;
     hs_WriteTimeout := WriteTimeout s; hs_IdleTimeout := IdleTimeout s;
     hs_MaxHeaderBytes := MaxHeaderBytes s; hs_ConnState := ConnStateHook s;
     hs_ErrorLog := ErrorLog s; hs_BaseContext := BaseContext s; hs_ConnContext := ConnContext s;
     hs_HTTP2 := HTTP2Config s; hs_Protocols := Protocols s |}.

Definition build (s : Server) : option error * Server :=
  let s := set_built s true (srv s) (state s) in
  match buildTLS s with
  | Err err => (Some err, s)
  | Ok tc => (None, set_built s true (Some (buildHTTPServer s tc)) (state s))
  end.

Definition Build (s : Server) : option error * Server :=
  if built s then (Some (ErrorString "server already built"), s) else build s.

Definition HTTPServer (s : Server) : res error (option http_Server) * Server :=
  if built s then (Ok (srv s), s)
  else
    match build s with
    | (Some err, s') => (Err err, s')
    | (None, s') => (Ok (srv s'), s')
    end.

(** ListenAndServe up to its first transition: the error it returns at once, or
    the server it goes on with. *)
Definition listen_entry (s : Server) : option error * Server :=
  let '(err, s) := if built s then (None, s) else build s in
  match err with
  | Some e => (Some e, s)
  | None => if decide (state s = StateClosed) then (Some ErrServerClosed, s) else (None, s)
  end.

(** A server is built once: a first Build either transfers every field to the
    http.Server or fails; in both cases every later Build fails and changes
    nothing.  After a failed Build, HTTPServer no longer fails: it returns no
    error and no server, and ListenAndServe goes on without one. *)
Theorem Build_once s :
  built s = false -> srv s = None -> state s = StateNew ->
  let '(err, s1) := Build s in
  built s1 = true /\ fst (Build s1) <> None /\ snd (Build s1) = s1 /\
  match buildTLS s with
  | Ok tc => err = None /\ srv s1 = Some (buildHTTPServer s tc) /\ HTTPServer s1 = (Ok (srv s1), s1)
  | Err e => err = Some e /\ HTTPServer s1 = (Ok None, s1) /\ listen_entry s1 = (None, s1)
  end.
Proof.
  intros Hb Hs Hst. unfold Build. rewrite Hb. unfold build.
  change (buildTLS (set_built s true (srv s) (state s))) with (buildTLS s).
  destruct (buildTLS s) as [tc|e]; unfold HTTPServer, listen_entry; simpl; [by split_and!|].
  rewrite Hs, Hst. by split_and!.
Qed.
End Build.

(** ** ListenAndServe *)

(** The caller: after the checks, [MStore]/[MHook] are the two halves of a
    transit and what follows it. *)
Inductive main_pc :=
| MStoreNew | MHookNew | MSpawn
| MSelect
| MStoreShutdown | MHookShutdown
| MStop                                  (* calls srv.Shutdown or srv.Close *)
| MStopping                              (* in that call *)
| MWait (err : option error)             (* <-ch *)
| MReturn (by_ctx : bool) (r : error)
| MHookClosed (by_ctx : bool) (r : error)
| MDone (by_ctx : bool) (r : error).

(** The serving goroutine. *)
Inductive serve_pc :=
| GNone | GStoreListening | GHookListening
| GServe                                 (* calls ListenAndServe[TLS] *)
| GServing
| GReturned                              (* lasErr is set, close(ch) is next *)
| GDone.

Record sys := {
  st : ServerState;             (* s.state *)
  hooks : list ServerState;     (* the calls of the hook so far *)
  main : main_pc;
  serve : serve_pc;
  closing : bool;               (* Shutdown or Close was called *)
  ctx_done : bool;
  lasErr : option error;
  busy : nat;                   (* the connections that are not idle *)
  elapsed : Z;                  (* the time since Shutdown was called *)
}.

Section ListenAndServe.
(** GracefulShutdown, ctx.Err(), and sdctx.Err() once that is done *)
Context (conf : option GracefulShutdownConfig) (ctxErr sdErr : error).
(** The ShutdownContext functions: when the context that is returned is done,
    given when the argument is. *)
Context (run_ctx : Z -> option Z -> option Z).

Definition graceful : bool := match conf with Some _ => true | None => false end.

(** sdctx: when the context of Shutdown is done. *)
Definition shutdown_deadline (c : GracefulShutdownConfig) : option Z :=
  let sdctx := None in
  let sdctx := if negb (Timeout c =? 0) then Some (Timeout c) else sdctx in
  match ShutdownContext c with Some f => run_ctx f sdctx | None => sdctx end.

Definition with_main (s : sys) (m : main_pc) : sys :=
  {| st := st s; hooks := hooks s; main := m; serve := serve s; closing := closing s;
     ctx_done := ctx_done s; lasErr := lasErr s; busy := busy s; elapsed := elapsed s |}.
Definition with_serve (s : sys) (g : serve_pc) : sys :=
  {| st := st s; hooks := hooks s; main := main s; serve := g; closing := closing s;
     ctx_done := ctx_done s; lasErr := lasErr s; busy := busy s; elapsed := elapsed s |}.
Definition store (s : sys) (to : ServerState) : sys :=
  {| st := to; hooks := hooks s; main := main s; serve := serve s; closing := closing s;
     ctx_done := ctx_done s; lasErr := lasErr s; busy := busy s; elapsed := elapsed s |}.
Definition hook (s : sys) (to : ServerState) : sys :=
  {| st := st s; hooks := hooks s ++ [to]; main := main s; serve := serve s; closing := closing s;
     ctx_done := ctx_done s; lasErr := lasErr s; busy := busy s; elapsed := elapsed s |}.
Definition with_closing (s : sys) : sys :=
  {| st := st s; hooks := hooks s; main := main s; serve := serve s; closing := true;
     ctx_done := ctx_done s; lasErr := lasErr s; busy := busy s; elapsed := 0 |}.
Definition with_lasErr (s : sys) (e : error) : sys :=
  {| st := st s; hooks := hooks s; main := main s; serve := serve s; closing := closing s;
     ctx_done := ctx_done s; lasErr := Some e; busy := busy s; elapsed := elapsed s |}.
Definition cancel (s : sys) : sys :=
  {| st := st s; hooks := hooks s; main := main s; serve := serve s; closing := closing s;
     ctx_done := true; lasErr := lasErr s; busy := busy s; elapsed := elapsed s |}.
Definition with_busy (s : sys) (n : nat) : sys :=
  {| st := st s; hooks := hooks s; main := main s; serve := serve s; closing := closing s;
     ctx_done := ctx_done s; lasErr := lasErr s; busy := n; elapsed := elapsed s |}.
Definition tick (d : Z) (s : sys) : sys :=
  {| st := st s; hooks := hooks s; main := main s; serve := serve s; closing := closing s;
     ctx_done := ctx_done s; lasErr := lasErr s; busy := busy s; elapsed := elapsed s + d |}.

(** Steps of the two goroutines. *)
Inductive own_step (s : sys) : sys -> Prop :=
| main_new : main s = MStoreNew -> own_step s (with_main (store s StateNew) MHookNew)
| main_new_hook : main s = MHookNew -> own_step s (with_main (hook s StateNew) MSpawn)
| main_spawn : main s = MSpawn -> own_step s (with_serve (with_main s MSelect) GStoreListening)
| main_select_ctx : main s = MSelect -> ctx_done s = true ->
    own_step s (with_main s (if graceful then MStoreShutdown else MStop))
| main_select_ch r : main s = MSelect -> serve s = GDone -> lasErr s = Some r ->
    own_step s (with_main s (MReturn false r))
| main_shutdown : main s = MStoreShutdown ->
    own_step s (with_main (store s StateShutdown) MHookShutdown)
| main_shutdown_hook : main s = MHookShutdown ->
    own_step s (with_main (hook s StateShutdown) MStop)
| main_stop : main s = MStop -> own_step s (with_main (with_closing s) MStopping)
| main_closed err : main s = MStopping -> conf = None -> own_step s (with_main s (MWait err))
| main_shutdown_idle c err : main s = MStopping -> conf = Some c -> busy s = O ->
    own_step s (with_main s (MWait err))
| main_shutdown_expired c d : main s = MStopping -> conf = Some c ->
    shutdown_deadline c = Some d -> d <= elapsed s -> own_step s (with_main s (MWait (Some sdErr)))
| main_wait err : main s = MWait err -> serve s = GDone ->
    own_step s (with_main s (MReturn true (default ctxErr err)))
| main_close b r : main s = MReturn b r -> own_step s (with_main (store s StateClosed) (MHookClosed b r))
| main_close_hook b r : main s = MHookClosed b r ->
    own_step s (with_main (hook s StateClosed) (MDone b r))
| serve_listening : serve s = GStoreListening ->
    own_step s (with_serve (store s StateListening) GHookListening)
| serve_listening_hook : serve s = GHookListening ->
    own_step s (with_serve (hook s StateListening) GServe)
| serve_start : serve s = GServe -> closing s = false -> own_step s (with_serve s GServing)
| serve_refused : serve s = GServe -> closing s = true ->
    own_step s (with_serve (with_lasErr s ErrServerClosed) GReturned)
| serve_closed : serve s = GServing -> closing s = true ->
    own_step s (with_serve (with_lasErr s ErrServerClosed) GReturned)
| serve_done : serve s = GReturned -> own_step s (with_serve s GDone).

(** What the environment does: it cancels the context, sends a signal, or makes
    the http.Server fail; time passes; a connection gets busy, or idle. *)
Inductive env_step (s : sys) : sys -> Prop :=
| env_cancel : env_step s (cancel s)
| env_fail e : serve s = GServe \/ serve s = GServing ->
    env_step s (with_serve (with_lasErr s e) GReturned)
| env_tick d : 0 <= d -> env_step s (tick d s)
| env_busy : serve s = GServing -> closing s = false -> env_step s (with_busy s (S (busy s)))
| env_idle n : busy s = S n -> env_step s (with_busy s n).

Definition step (s s' : sys) : Prop := own_step s s' \/ env_step s s'.

Definition init (done : bool) : sys :=
  {| st := StateNew; hooks := []; main := MStoreNew; serve := GNone; closing := false;
     ctx_done := done; lasErr := None; busy := 0; elapsed := 0 |}.

Definition reachable (s : sys) : Prop := exists done, rtc step (init done) s.

(** ** What holds of every interleaving *)

Definition not_started (m : main_pc) : bool :=
  match m with MStoreNew | MHookNew | MSpawn => true | _ => false end.
Definition returning (m : main_pc) : option (bool * error) :=
  match m with MReturn b r | MHookClosed b r | MDone b r => Some (b, r) | _ => None end.
Definition new_sent (m : main_pc) : bool :=
  match m with MStoreNew | MHookNew => false | _ => true end.
Definition closed_sent (m : main_pc) : bool := match m with MDone _ _ => true | _ => false end.
Definition listening_sent (g : serve_pc) : bool :=
  match g with GNone | GStoreListening | GHookListening => false | _ => true end.
(** On the way out because the context is done. *)
Definition ctx_path (m : main_pc) : bool :=
  match m with
  | MStoreShutdown | MHookShutdown | MStop | MStopping | MWait _
  | MReturn true _ | MHookClosed true _ | MDone true _ => true
  | _ => false
  end.
Definition shutdown_sent (m : main_pc) : bool :=
  graceful && ctx_path m && match m with MStoreShutdown | MHookShutdown => false | _ => true end.

(** The calls of the hook in between, for what was sent. *)
Definition middle (listening shutdown : bool) (l : list ServerState) : Prop :=
  match listening, shutdown with
  | false, false => l = []
  | true, false => l = [StateListening]
  | false, true => l = [StateShutdown]
  | true, true => l = [StateListening; StateShutdown] \/ l = [StateShutdown; StateListening]
  end.

Definition hooks_ok (s : sys) : Prop := exists l,
  middle (listening_sent (serve s)) (shutdown_sent (main s)) l /\
  hooks s = (if new_sent (main s) then [StateNew] else []) ++ l ++
            (if closed_sent (main s) then [StateClosed] else []).

Definition inv (s : sys) : Prop :=
  hooks_ok s /\
  (not_started (main s) = true <-> serve s = GNone) /\
  (is_Some (returning (main s)) -> serve s = GDone) /\
  (ctx_path (main s) = true -> ctx_done s = true) /\
  (forall r, returning (main s) = Some (false, r) -> lasErr s = Some r) /\
  (serve s = GReturned \/ serve s = GDone -> is_Some (lasErr s)) /\
  (match main s with MHookClosed _ _ | MDone _ _ => st s = StateClosed | _ => True end) /\
  (match main s with
   | MStopping | MWait _ | MReturn true _ | MHookClosed true _ | MDone true _ => closing s = true
   | _ => True end) /\
  (graceful = false -> match main s with MStoreShutdown | MHookShutdown => False | _ => True end).

Lemma inv_init done : inv (init done).
Proof.
  unfold inv, is_Some. simpl. split_and!; try done; try naive_solver.
  exists []. unfold shutdown_sent. simpl. by rewrite andb_false_r.
Qed.

(** The hooks part, by the way a step changes what was sent. *)
Lemma hooks_ok_same s s' :
  hooks s' = hooks s -> listening_sent (serve s') = listening_sent (serve s) ->
  shutdown_sent (main s') = shutdown_sent (main s) -> new_sent (main s') = new_sent (main s) ->
  closed_sent (main s') = closed_sent (main s) -> hooks_ok s -> hooks_ok s'.
Proof. unfold hooks_ok. by intros -> -> -> -> ->. Qed.

Lemma hooks_ok_send s s' x :
  hooks s' = hooks s ++ [x] -> hooks_ok s -> closed_sent (main s) = false ->
  (x = StateNew /\ new_sent (main s) = false /\ new_sent (main s') = true /\
     listening_sent (serve s) = false /\ listening_sent (serve s') = false /\
     shutdown_sent (main s) = false /\ shutdown_sent (main s') = false /\ closed_sent (main s') = false) \/
  (x = StateListening /\ listening_sent (serve s) = false /\ listening_sent (serve s') = true /\
     main s' = main s) \/
  (x = StateShutdown /\ shutdown_sent (main s) = false /\ shutdown_sent (main s') = true /\
     new_sent (main s') = new_sent (main s) /\ closed_sent (main s') = false /\ serve s' = serve s) \/
  (x = StateClosed /\ closed_sent (main s') = true /\ new_sent (main s') = new_sent (main s) /\
     shutdown_sent (main s') = shutdown_sent (main s) /\ serve s' = serve s) ->
  hooks_ok s'.
Proof.
  unfold hooks_ok. intros Eh (l & Hm & El) Hc H. rewrite Hc, app_nil_r in El. rewrite Eh, El.
  destruct H as [(-> & H1 & H2 & H3 & H4 & H5 & H6 & H7)|[(-> & H1 & H2 & H3)|
    [(-> & H1 & H2 & H3 & H4 & H5)|(-> & H1 & H2 & H3 & H4)]]].
  - rewrite H3, H5 in Hm. simpl in Hm. subst l. exists []. by rewrite H1, H2, H4, H6, H7.
  - exists (l ++ [StateListening]). rewrite H2, H3, Hc, app_nil_r, app_assoc. split; [|done].
    rewrite H1 in Hm. destruct (shutdown_sent (main s)); simpl in Hm; subst l; simpl; auto.
  - exists (l ++ [StateShutdown]). rewrite H2, H3, H4, H5, app_nil_r, app_assoc. split; [|done].
    rewrite H1 in Hm. destruct (listening_sent (serve s)); simpl in Hm; subst l; simpl; auto.
  - exists l. rewrite H1, H2, H3, H4, app_assoc. by split.
Qed.

Lemma inv_step s s' : inv s -> step s s' -> inv s'.
Proof.
  intros (Hh & Hns & Hret & Hctx & Hlas & Hler & Hst & Hcl & Hconf) Hstep.
  destruct s as [t hk m g c d le bs el]. simpl in *.
  destruct Hstep as [Hstep|Hstep]; inversion Hstep; subst; simpl in *; subst; simpl in *;
    unfold inv, store, hook, with_main, with_serve, with_closing, with_lasErr, cancel, with_busy, tick; simpl.
  all: try (match type of Hns with true = true <-> _ =>
    let H := fresh in pose proof (proj1 Hns eq_refl) as H; subst g end).
  all: try match goal with H : _ = GServe \/ _ = GServing |- _ => destruct H; subst g end.
  all: try (assert (Hnd : closed_sent m = false)
    by (destruct m; try done; specialize (Hret (ex_intro _ _ eq_refl)); congruence)).
  all: destruct graceful eqn:Econf; try (by destruct (Hconf eq_refl)).
  all: split; [|split_and!; try done; try (by intros [? ?]); try (intros; congruence);
    try (by intros [?|?]); try (by split; intros); try (by destruct b);
    try (by apply Hctx); try (by intros ? [= -> ->]; apply Hlas);
    try (split; [intros H; apply Hns in H; congruence|congruence]);
    try (intros H; apply Hret in H; congruence);
    try (intros r H; rewrite H in Hret; specialize (Hret (ex_intro _ _ eq_refl)); congruence);
    try (by intros _; apply Hler; left);
    try (destruct m; try done; specialize (Hret (ex_intro _ _ eq_refl)); congruence)].
  all: clear Hstep Hconf Hns Hret Hctx Hlas Hler Hst Hcl; try destruct b.
  all: first
    [ by (eapply hooks_ok_same; [..|exact Hh]; simpl; unfold shutdown_sent; simpl; rewrite ?Econf)
    | refine (hooks_ok_send _ _ _ _ Hh _ _); [reflexivity|done|];
      simpl; unfold shutdown_sent; simpl; rewrite ?Econf; simpl;
      first [left; by split_and!|right; left; by split_and!|right; right; left; by split_and!
            |right; right; right; by split_and!]
    | idtac ].
Qed.

Lemma reachable_inv s : reachable s -> inv s.
Proof.
  intros [done H]. assert (inv (init done)) as Hi by apply inv_init. revert Hi.
  induction H as [s|s s1 s2 H1 _ IH]; [done|]. intros Hi. apply IH. by eapply inv_step.
Qed.

(** C26. Whatever the interleaving of the two goroutines, the cancellation, the
    signals and the failures of the http.Server: when ListenAndServe returns,
    the serving goroutine has ended, the state is StateClosed, and the hook was
    called exactly once for each of StateNew (first), StateListening, and
    StateClosed (last), with StateShutdown in between exactly when the
    server was stopped through the context with GracefulShutdown set, before or
    after StateListening.  Returning through the context means that it is done
    and that the http.Server was shut down or closed; returning otherwise gives
    the error of the http.Server. *)
Theorem hooks_at_return s by_ctx r :
  reachable s -> main s = MDone by_ctx r ->
  serve s = GDone /\ st s = StateClosed /\
  (if graceful && by_ctx then
     hooks s = [StateNew; StateListening; StateShutdown; StateClosed] \/
     hooks s = [StateNew; StateShutdown; StateListening; StateClosed]
   else hooks s = [StateNew; StateListening; StateClosed]) /\
  (if by_ctx then ctx_done s = true /\ closing s = true else lasErr s = Some r).
Proof.
  intros Hr Hm. destruct (reachable_inv s Hr) as (Hh & _ & Hret & Hctx & Hlas & _ & Hst & Hcl & _).
  rewrite Hm in *. assert (serve s = GDone) as Hg by (apply Hret; by eexists).
  split; [done|]. split; [done|].
  assert (if by_ctx then ctx_done s = true /\ closing s = true else lasErr s = Some r) as Hres
    by (destruct by_ctx; [by split; [apply Hctx|]|by apply Hlas]).
  split; [clear Hres|exact Hres]. destruct Hh as (l & Hmid & ->).
  rewrite Hg, Hm in Hmid. rewrite Hm. simpl in *. unfold shutdown_sent in Hmid. simpl in Hmid.
  rewrite andb_true_r in Hmid. destruct graceful; simpl in *; [|by subst l].
  destruct by_ctx; simpl in *; [destruct Hmid as [->| ->]; auto|by subst l].
Qed.

(** ** Termination *)

Definition main_rank (m : main_pc) : nat :=
  match m with
  | MStoreNew => 11 | MHookNew => 10 | MSpawn => 9 | MSelect => 8
  | MStoreShutdown => 7 | MHookShutdown => 6 | MStop => 5 | MStopping => 4 | MWait _ => 3
  | MReturn _ _ => 2 | MHookClosed _ _ => 1 | MDone _ _ => 0
  end.
Definition serve_rank (g : serve_pc) : nat :=
  match g with
  | GNone => 6 | GStoreListening => 5 | GHookListening => 4 | GServe => 3 | GServing => 2
  | GReturned => 1 | GDone => 0
  end.
Definition rank (s : sys) : nat := (main_rank (main s) + serve_rank (serve s))%nat.

Lemma own_step_rank s s' : reachable s -> own_step s s' -> (rank s' < rank s)%nat.
Proof.
  intros Hr Hstep. pose proof (reachable_inv s Hr) as (_ & Hns & _).
  destruct s as [t hk m g c d le bs el]. unfold rank.
  inversion Hstep; simpl in *; subst; simpl in *; try lia.
  - rewrite (proj1 Hns eq_refl). simpl. lia.
  - destruct graceful; simpl; lia.
Qed.

(** Shutdown has not returned: a connection is busy, and its context is not done. *)
Definition waiting (s : sys) : Prop :=
  main s = MStopping /\ (0 < busy s)%nat /\
  exists c, conf = Some c /\ forall d, shutdown_deadline c = Some d -> elapsed s < d.

Lemma stopping_progress s : main s = MStopping -> (exists s', own_step s s') \/ waiting s.
Proof.
  intros Hm. destruct conf as [c|] eqn:Ec; [|left; eexists; by apply (main_closed s None)].
  destruct (busy s) as [|n] eqn:Eb; [left; eexists; by apply (main_shutdown_idle s c None)|].
  destruct (shutdown_deadline c) as [d|] eqn:Ed.
  - destruct (Z.le_gt_cases d (elapsed s)); [left; eexists; by apply (main_shutdown_expired s c d)|right].
    split_and!; [done|lia|]. exists c. split; [done|]. intros d'. rewrite Ed. by intros [= <-].
  - right. split_and!; [done|lia|]. exists c. split; [done|]. by rewrite Ed.
Qed.

(** A goroutine can move as long as the call has not returned and does not wait
    in Shutdown, once the context is done or the http.Server has returned. *)
Lemma own_step_progress s :
  reachable s -> ctx_done s = true \/ serve s = GDone ->
  (exists b r, main s = MDone b r) \/ (exists s', own_step s s') \/ waiting s.
Proof.
  intros Hr Hd. pose proof (reachable_inv s Hr) as (_ & Hns & Hret & _ & _ & Hler & _ & Hcl & _).
  destruct (main s) eqn:Em; try (right; left; eexists; econstructor; by rewrite ?Em).
  all: try (assert (serve s <> GNone) as Hg by (intros H; by apply Hns in H)).
  - destruct Hd as [Hd|Hd]; [right; left; eexists; by apply main_select_ctx|].
    destruct Hler as [e He]; [by right|]. right; left. eexists. by apply (main_select_ch s e).
  - right. by apply stopping_progress.
  - right. left. destruct (serve s) eqn:Eg; [done|..].
    + eexists. by apply serve_listening.
    + eexists. by apply serve_listening_hook.
    + eexists. by apply serve_refused.
    + eexists. by apply serve_closed.
    + eexists. by apply serve_done.
    + eexists. by apply (main_wait s err).
  - left. by do 2 eexists.
Qed.

Lemma own_step_ctx s s' :
  reachable s -> own_step s s' -> ctx_done s = true \/ serve s = GDone ->
  ctx_done s' = true \/ serve s' = GDone.
Proof.
  intros Hr Hstep [Hd|Hd]; [left; by destruct Hstep|].
  pose proof (reachable_inv s Hr) as (_ & Hns & _).
  destruct Hstep as [| |Hm|? ?| | | | | | | | | | | | | | | |]; simpl; try (by right); try congruence.
  rewrite Hm in Hns. by rewrite (proj1 Hns eq_refl) in Hd.
Qed.

Lemma reachable_step s s' : reachable s -> step s s' -> reachable s'.
Proof. intros [d H] Hs. exists d. by eapply rtc_r. Qed.

(** The call is on its way out, or its time has come. *)
Definition live (s : sys) : Prop := reachable s /\ (ctx_done s = true \/ serve s = GDone).

Lemma live_run s s' : live s -> rtc own_step s s' -> live s'.
Proof.
  intros Hl H. induction H as [|x y z Hxy _ IH]; [done|]. apply IH. destruct Hl as [Hr Hd].
  split; [eapply reachable_step; [done|by left]|by eapply own_step_ctx].
Qed.

Lemma own_steps_bound n s s' : reachable s -> nsteps own_step n s s' -> (n + rank s' <= rank s)%nat.
Proof.
  revert s. induction n as [|n IH]; intros s Hr Hn; inversion Hn; subst; [done|].
  match goal with H1 : own_step s ?y, H2 : nsteps _ n ?y s' |- _ =>
    pose proof (own_step_rank s y Hr H1); pose proof (IH y (reachable_step s y Hr (or_introl H1)) H2) end. lia.
Qed.

(** No goroutine can move. *)
Definition stuck (s : sys) : Prop := forall s', ~ own_step s s'.

Lemma stuck_cases s : live s -> stuck s -> (exists b r, main s = MDone b r) \/ waiting s.
Proof.
  intros [Hr Hd] Hs. destruct (own_step_progress s Hr Hd) as [?|[[s' H]|?]]; [by left|by destruct (Hs s')|by right].
Qed.

(** Once Shutdown or Close was called. *)
Definition stopped (m : main_pc) : bool :=
  match m with MStopping | MWait _ | MReturn _ _ | MHookClosed _ _ | MDone _ _ => true | _ => false end.

Lemma own_step_kept s s' :
  own_step s s' -> busy s' = busy s /\
  (stopped (main s) = true -> stopped (main s') = true /\ elapsed s' = elapsed s).
Proof.
  destruct 1 as [H|H|H|H|? H|H|H|H|? H|? ? H|? ? H|? H|? ? H|? ? H| | | | | |]; simpl; try done; by rewrite H.
Qed.

Lemma own_steps_kept s s' :
  rtc own_step s s' -> busy s' = busy s /\
  (stopped (main s) = true -> stopped (main s') = true /\ elapsed s' = elapsed s).
Proof.
  induction 1 as [|x y z Hxy _ [IHb IHe]]; [done|]. destruct (own_step_kept _ _ Hxy) as [Hb He].
  split; [congruence|]. intros Hs. destruct (He Hs) as [Hs' He']. destruct (IHe Hs'). split; congruence.
Qed.

Lemma waiting_main s s' : waiting s -> own_step s s' -> main s' = MStopping.
Proof.
  intros (Hm & Hb & c & Hc & Hd) Hstep. inversion Hstep; subst; simpl; try congruence; try lia.
  simplify_eq. match goal with H : shutdown_deadline _ = Some _ |- _ => apply Hd in H end. lia.
Qed.

Lemma all_idle s : reachable s -> reachable (with_busy s 0).
Proof.
  intros [d H]. exists d. etransitivity; [exact H|]. clear H.
  remember (busy s) as n eqn:En. revert s En. induction n as [|n IH]; intros s En.
  - destruct s. simpl in *. subst. apply rtc_refl.
  - eapply rtc_l; [right; by apply (env_idle s n)|]. by apply (IH (with_busy s n)).
Qed.

(** When the time that the configuration allows for the shutdown ends. *)
Definition allowed (c : GracefulShutdownConfig) (d : Z) : Prop :=
  match ShutdownContext c with
  | None => Timeout c <> 0 /\ d = Timeout c
  | Some f => run_ctx f (if Timeout c =? 0 then None else Some (Timeout c)) = Some d
  end.

Lemma allowed_deadline c d : allowed c d <-> shutdown_deadline c = Some d.
Proof.
  unfold allowed, shutdown_deadline. destruct (ShutdownContext c), (Z.eqb_spec (Timeout c) 0); simpl; naive_solver.
Qed.

(** C27. ListenAndServe returns, as far as Shutdown does.  Once the context is
    done, or the http.Server has returned, every run of the two goroutines is
    finite (at most 17 steps) and ends in one of two ways only: the call has
    returned, or it waits in Shutdown, which happens with GracefulShutdown set,
    while a connection is busy and the context of the shutdown is not done.
    When it waits, it stays in Shutdown until one of two events: all
    connections are idle, or the time allowed (the Timeout, or what the
    ShutdownContext makes of it) has passed since the shutdown began; after
    either, every run of the goroutines ends with the return of the call.
    With neither Timeout nor ShutdownContext, no passing of time ends the wait. *)
Theorem ListenAndServe_returns s :
  reachable s -> ctx_done s = true \/ serve s = GDone ->
  (forall n s', nsteps own_step n s s' -> (n <= 17)%nat) /\
  (forall s', rtc own_step s s' -> stuck s' -> (exists b r, main s' = MDone b r) \/ waiting s') /\
  (forall s', rtc own_step s s' -> waiting s' ->
     (forall s2, own_step s' s2 -> main s2 = MStopping) /\
     (forall s2 s3, rtc own_step s2 s3 -> stuck s3 ->
        s2 = with_busy s' 0 \/
        (exists c d n, conf = Some c /\ allowed c d /\ 0 <= n /\ d <= elapsed s' + n /\ s2 = tick n s') ->
        exists b r, main s3 = MDone b r) /\
     (forall c, conf = Some c -> Timeout c = 0 -> ShutdownContext c = None -> forall n, waiting (tick n s'))).
Proof.
  intros Hr Hd. assert (Hl : live s) by done. split_and!.
  - intros n s' Hn. pose proof (own_steps_bound n s s' Hr Hn) as H.
    assert (rank s <= 17)%nat by (unfold rank; destruct (main s), (serve s); simpl; lia). lia.
  - intros s' Hs. by apply stuck_cases, (live_run s).
  - intros s' Hs Hw. pose proof (live_run s s' Hl Hs) as [Hr' Hd']. split_and!.
    + intros s2. by apply waiting_main.
    + intros s2 s3 H3 Hstuck Hor. destruct (own_steps_kept s2 s3 H3) as [Hb He].
      destruct (stuck_cases s3) as [?|(_ & Hb3 & c' & Hc' & Hd3)]; [|done|done|exfalso].
      * eapply live_run; [|exact H3]. destruct Hor as [->|(c & d & n & _ & _ & Hn & _ & ->)]; [split; [by apply all_idle|done]|].
        split; [eapply reachable_step; [exact Hr'|right; by apply env_tick]|done].
      * destruct Hor as [->|(c & d & n & Hc & Ha%allowed_deadline & Hn & Hle & ->)]; [simpl in Hb; lia|].
        simplify_eq. apply Hd3 in Ha. destruct Hw as (Hm & _). simpl in He. rewrite Hm in He.
        destruct (He eq_refl). lia.
    + intros c Hc Ht Hsc n. destruct Hw as (Hm & Hb & _). split_and!; [done|done|]. exists c. split; [done|].
      unfold shutdown_deadline. by rewrite Ht, Hsc.
Qed.
End ListenAndServe.

(** ** Witnesses *)

Definition ex_server : Server :=
  {| Addr := ":443"; ReadTimeout := 1; ReadHeaderTimeout := 1; WriteTimeout := 1; IdleTimeout := 1;
     MaxHeaderBytes := 4096; Protocols := None; Handler_ := 1; HTTP2Config := None;
     s_Certs := Some {| AutoCert := false; AutoCertCacheDir := EmptyString; AutoCertExactHosts := [];
                        AutoCertContactEmail := EmptyString; CertFile := EmptyString; KeyFile := EmptyString |};
     GracefulShutdown := None; ConnStateHook := None; ServerStateHook := None; BaseContext := None;
     ConnContext := None; ErrorLog := None; srv := None; built := false; state := StateNew |}.

(** Without certificate files Build fails, and HTTPServer then returns neither a
    server nor an error. *)
Example Build_once_witness :
  let s1 := snd (Build (fun _ _ => Ok 0) ex_server) in
  fst (Build (fun _ _ => Ok 0) ex_server) = Some (ErrorString "tls: certificate and key files must be set") /\
  HTTPServer (fun _ _ => Ok 0) s1 = (Ok None, s1).
Proof.
  pose proof (Build_once (fun _ _ => Ok 0) ex_server eq_refl eq_refl eq_refl) as H.
  split; [reflexivity|]. exact (proj1 (proj2 (proj2 (proj2 (proj2 H))))).
Defined.

Definition ex_ctxErr : error := Sentinel "context canceled".
Definition ex_sdErr : error := Sentinel "context deadline exceeded".
Definition ex_run_ctx (_ : Z) (deadline : option Z) : option Z := deadline.
Definition ex_conf (timeout : Z) : option GracefulShutdownConfig :=
  Some {| Timeout := timeout; ShutdownContext := None; Signals := [] |}.
Notation ex_step t := (step (ex_conf t) ex_ctxErr ex_sdErr ex_run_ctx).
Notation ex_own t := (own_step (ex_conf t) ex_ctxErr ex_sdErr ex_run_ctx).
Notation ex_reaches t := (reachable (ex_conf t) ex_ctxErr ex_sdErr ex_run_ctx).

(** A run with a context that is done from the start, in which the shutdown is
    announced before the serving goroutine announces that it listens. *)
Definition ex_final : sys :=
  {| st := StateClosed; hooks := [StateNew; StateShutdown; StateListening; StateClosed];
     main := MDone true ex_ctxErr; serve := GDone; closing := true; ctx_done := true;
     lasErr := Some ErrServerClosed; busy := 0; elapsed := 0 |}.

Lemma ex_run : rtc (ex_step 10) (init true) ex_final.
Proof.
  eapply rtc_l; [left; by apply main_new|]. eapply rtc_l; [left; by apply main_new_hook|].
  eapply rtc_l; [left; by apply main_spawn|]. eapply rtc_l; [left; by apply main_select_ctx|].
  eapply rtc_l; [left; by apply main_shutdown|]. eapply rtc_l; [left; by apply main_shutdown_hook|].
  eapply rtc_l; [left; by apply serve_listening|]. eapply rtc_l; [left; by apply serve_listening_hook|].
  eapply rtc_l; [left; by apply main_stop|]. eapply rtc_l; [left; by eapply (main_shutdown_idle _ _ _ _ _ _ None)|].
  eapply rtc_l; [left; by apply serve_refused|]. eapply rtc_l; [left; by apply serve_done|].
  eapply rtc_l; [left; by eapply main_wait|]. eapply rtc_l; [left; by eapply main_close|].
  eapply rtc_l; [left; by eapply main_close_hook|]. apply rtc_refl.
Qed.

Lemma ex_reachable : ex_reaches 10 ex_final.
Proof. exists true. apply ex_run. Qed.

Example hooks_at_return_witness :
  ex_reaches 10 ex_final /\ main ex_final = MDone true ex_ctxErr /\
  (hooks ex_final = [StateNew; StateListening; StateShutdown; StateClosed] \/
   hooks ex_final = [StateNew; StateShutdown; StateListening; StateClosed]).
Proof.
  split; [exact ex_reachable|]. split; [reflexivity|].
  exact (proj1 (proj2 (proj2 (hooks_at_return (ex_conf 10) ex_ctxErr ex_sdErr ex_run_ctx ex_final true ex_ctxErr
    ex_reachable eq_refl)))).
Defined.

(** A connection is busy when the context is cancelled, and stays so: Shutdown
    waits; after its ten seconds the call returns the error of the shutdown. *)
Definition ex_waiting : sys :=
  {| st := StateShutdown; hooks := [StateNew; StateListening; StateShutdown]; main := MStopping;
     serve := GDone; closing := true; ctx_done := true; lasErr := Some ErrServerClosed; busy := 1; elapsed := 0 |}.
Definition ex_timed_out : sys :=
  {| st := StateClosed; hooks := [StateNew; StateListening; StateShutdown; StateClosed];
     main := MDone true ex_sdErr; serve := GDone; closing := true; ctx_done := true;
     lasErr := Some ErrServerClosed; busy := 1; elapsed := 10 |}.

Lemma ex_waiting_reachable t : ex_reaches t ex_waiting.
Proof.
  exists false.
  eapply rtc_l; [left; by apply main_new|]. eapply rtc_l; [left; by apply main_new_hook|].
  eapply rtc_l; [left; by apply main_spawn|]. eapply rtc_l; [left; by apply serve_listening|].
  eapply rtc_l; [left; by apply serve_listening_hook|]. eapply rtc_l; [left; by apply serve_start|].
  eapply rtc_l; [right; by apply env_busy|]. eapply rtc_l; [right; apply env_cancel|].
  eapply rtc_l; [left; by apply main_select_ctx|]. eapply rtc_l; [left; by apply main_shutdown|].
  eapply rtc_l; [left; by apply main_shutdown_hook|]. eapply rtc_l; [left; by apply main_stop|].
  eapply rtc_l; [left; by apply serve_closed|]. eapply rtc_l; [left; by apply serve_done|]. apply rtc_refl.
Qed.

Lemma ex_times_out : rtc (ex_own 10) (tick 10 ex_waiting) ex_timed_out.
Proof.
  eapply rtc_l; [by eapply (main_shutdown_expired _ _ _ _ _ _ 10)|]. eapply rtc_l; [by eapply main_wait|].
  eapply rtc_l; [by eapply main_close|]. eapply rtc_l; [by eapply main_close_hook|]. apply rtc_refl.
Qed.

(** With a timeout of zero, the same state waits for ever. *)
Example ListenAndServe_returns_witness :
  (ex_reaches 10 ex_waiting /\ exists b r, main ex_timed_out = MDone b r) /\
  (ex_reaches 0 ex_waiting /\ forall n, waiting (ex_conf 0) ex_run_ctx (tick n ex_waiting)).
Proof.
  assert (Hw : forall t, 0 <= t -> waiting (ex_conf t) ex_run_ctx ex_waiting).
  { intros t Ht. split; [reflexivity|]. split; [repeat constructor|]. eexists. split; [reflexivity|].
    intros d. unfold shutdown_deadline. simpl. destruct (Z.eqb_spec t 0); [done|]. intros [= <-]. simpl. lia. }
  split; (split; [apply ex_waiting_reachable|]).
  - destruct (ListenAndServe_returns (ex_conf 10) ex_ctxErr ex_sdErr ex_run_ctx ex_waiting
      (ex_waiting_reachable 10) (or_introl eq_refl)) as (_ & _ & H).
    destruct (H ex_waiting) as (_ & H2 & _); [apply rtc_refl|apply Hw; lia|].
    apply (H2 (tick 10 ex_waiting) ex_timed_out ex_times_out).
    + intros s' Hs'. inversion Hs'; discriminate.
    + right. eexists _, 10, 10. split_and!; [reflexivity|by split|lia|simpl; lia|reflexivity].
  - destruct (ListenAndServe_returns (ex_conf 0) ex_ctxErr ex_sdErr ex_run_ctx ex_waiting
      (ex_waiting_reachable 0) (or_introl eq_refl)) as (_ & _ & H).
    destruct (H ex_waiting) as (_ & _ & H3); [apply rtc_refl|apply Hw; lia|].
    exact (H3 _ eq_refl eq_refl eq_refl).
Defined.
