(* ===== verification/Webpages.v ===== *)
(** * Webpages: src/server/webpages/webpages.go

    The renderer of template pages: the walk of the two directories, the common
    templates, a page on its own copy of them.  A file system is what its calls
    answer; io/fs's WalkDir is written out, with the depth of the directories as
    fuel.  html/template is a parameter: a template is its set and the name it
    has in it. *)

From Stdlib Require Import ZArith Ascii String Lia.
From S2P Require Import Prelude Errors.

(** ** io/fs and path *)

Inductive file_type := Regular | Dir | Irregular.
Record DirEntry := { d_Name : string; d_Type : file_type }.
Definition IsRegular (d : DirEntry) : bool := match d_Type d with Regular => true | _ => false end.
Definition IsDir (d : DirEntry) : bool := match d_Type d with Dir => true | _ => false end.

(** fs.Stat, fs.ReadDir, whose entries can come with an error, and fs.ReadFile. *)
Record FS := {
  Stat : string -> res error DirEntry;
  ReadDir : string -> list DirEntry * option error;
  ReadFile : string -> res error string;
}.

Definition ErrNotExist : error := Sentinel "file does not exist".
Definition SkipDir : error := Sentinel "skip this directory".
Definition SkipAll : error := Sentinel "skip everything and stop the walk".

(** [err == target]. *)
Definition is_var (target err : error) : bool := bool_decide (is_Some (same_target target err)).

(** path.Join of a path and the name of an entry, which has neither a slash nor
    a dot alone. *)
Definition path_Join (p name : string) : string := p +:+ "/" +:+ name.

(** path.Ext: from the last dot of the last element. *)
Fixpoint Ext (p : string) : string :=
  match p with
  | EmptyString => EmptyString
  | String c p' =>
      match Ext p' with
      | EmptyString => if Ascii.eqb c "." && negb (contains_byte "/" p') then p else EmptyString
      | e => e
      end
  end.

Definition TrimPrefix (s prefix : string) : string :=
  if has_prefix prefix s then drop_str (String.length prefix) s else s.

Definition out_of_fuel : string := "directories deeper than the fuel".

Section Walk.
Context {W : Type} (fsys : FS).
Local Open Scope go_scope.

Definition WalkDirFunc : Type := string -> option DirEntry -> option error -> go W (option error).

(** What a call of the function on a directory makes of its error. *)
Definition skip_dir (d : DirEntry) (err : error) : option error :=
  if is_var SkipDir err && IsDir d then None else Some err.

Fixpoint walkDir (fuel : nat) (name : string) (d : DirEntry) (fn : WalkDirFunc) {struct fuel}
    : go W (option error) :=
  match fuel with
  | O => panic out_of_fuel
  | S fuel =>
      let! err := fn name (Some d) None in
      match err with
      | Some err => ret (skip_dir d err)
      | None =>
          if negb (IsDir d) then ret None else
          let '(dirs, rerr) := ReadDir fsys name in
          let! err := match rerr with None => ret None | Some _ => fn name (Some d) rerr end in
          match err with
          | Some err => ret (skip_dir d err)
          | None =>
              (fix each (l : list DirEntry) : go W (option error) :=
                 match l with
                 | [] => ret None
                 | d1 :: l =>
                     let! err := walkDir fuel (path_Join name (d_Name d1)) d1 fn in
                     match err with
                     | Some err => if is_var SkipDir err then ret None else ret (Some err)
                     | None => each l
                     end
                 end) dirs
          end
      end
  end.

Definition WalkDir (fuel : nat) (root : string) (fn : WalkDirFunc) : go W (option error) :=
  let! err := match Stat fsys root with
    | Err err => fn root None (Some err)
    | Ok d => walkDir fuel root d fn
    end in
  match err with
  | Some err => if is_var SkipDir err || is_var SkipAll err then ret None else ret (Some err)
  | None => ret None
  end.

(** ** webpages.go *)

Definition readFileFS (file strip : string) : string * res error string :=
  (TrimPrefix file strip, ReadFile fsys file).

Definition is_template (d : DirEntry) : bool := IsRegular d && String.eqb (Ext (d_Name d)) ".tpl".

(** The function that walkSubDir gives to fs.WalkDir. *)
Definition visit (subDir : string) (readFile : string -> string -> string * res error string)
    (parseTemplate : string -> string -> go W (option error)) : WalkDirFunc := fun p d err =>
  if String.eqb p subDir && Is err ErrNotExist then ret None else
  match err, d with
  | Some err, _ => ret (Some err)
  | None, None => panic "invalid memory address or nil pointer dereference"
  | None, Some d =>
      if negb (is_template d) then ret None else
      match readFile p (subDir +:+ "/") with
      | (_, Err err) => ret (Some err)
      | (name, Ok s) => parseTemplate name s
      end
  end.

Definition walkSubDir (fuel : nat) (subDir : string)
    (readFile : string -> string -> string * res error string)
    (parseTemplate : string -> string -> go W (option error)) : go W (option error) :=
  WalkDir fuel subDir (visit subDir readFile parseTemplate).
End Walk.

(** ** html/template *)

(** A set of templates: made with a first name, given functions, extended with a
    name, parsing the text of one of its templates, copied, and executed from one
    of its templates on a writer. *)
Record Engine (T FuncMap Any W : Type) := {
  tpl_New : string -> T;
  Funcs : FuncMap -> T -> T;
  tpl_Add : string -> T -> T;
  tpl_Parse : string -> string -> T -> T * option error;
  tpl_Clone : T -> res error T;
  tpl_Execute : string -> T -> Any -> go W (option error);
}.
Arguments tpl_New {T FuncMap Any W}.
Arguments Funcs {T FuncMap Any W}.
Arguments tpl_Add {T FuncMap Any W}.
Arguments tpl_Parse {T FuncMap Any W}.
Arguments tpl_Clone {T FuncMap Any W}.
Arguments tpl_Execute {T FuncMap Any W}.

Section Renderer.
Context {T FuncMap Any W : Type} (html : Engine T FuncMap Any W).
(** the text of an error, and of a string with %q *)
Context (err_text : error -> string) (Quote : string -> string).
Local Open Scope go_scope.

Record Renderer := { pages : gmap string T }.

(** The function for the files of common/, on the variable commonT. *)
Definition parse_common (funcs : FuncMap) (name content : string) : go (option T) (option error) :=
  let! commonT := get in
  let t := match commonT with
           | None => Funcs html funcs (tpl_New html name)
           | Some c => tpl_Add html name c
           end in
  let '(t, err) := tpl_Parse html name content t in
  do! put (Some t) in ret err.

(** The function for the files of pages/, on the variable pages. *)
Definition parse_page (funcs : FuncMap) (commonT : option T) (name content : string)
    : go (gmap string T) (option error) :=
  let t := match commonT with
           | Some c =>
               match tpl_Clone html c with
               | Err err => Err (Errorf ("webpages: clone common templates: " +:+ err_text err) (Some err))
               | Ok cloneT => Ok (tpl_Add html name cloneT)
               end
           | None => Ok (Funcs html funcs (tpl_New html name))
           end in
  match t with
  | Err err => ret (Some err)
  | Ok t =>
      do! modify (insert name t) in
      let '(t, err) := tpl_Parse html name content t in
      do! modify (insert name t) in ret err
  end.

Definition New (fuel : nat) (tpls : FS) (funcs : FuncMap) : outcome (res error Renderer) :=
  match walkSubDir tpls fuel "common" (readFileFS tpls) (parse_common funcs) None with
  | (Panicked v, _) => Panicked v
  | (Ret (Some err), _) => Ret (Err err)
  | (Ret None, commonT) =>
      match walkSubDir tpls fuel "pages" (readFileFS tpls) (parse_page funcs commonT) ∅ with
      | (Panicked v, _) => Panicked v
      | (Ret (Some err), _) => Ret (Err err)
      | (Ret None, pages) => Ret (Ok {| pages := pages |})
      end
  end.

Definition Render (r : Renderer) (page : string) (data : Any) : go W (option error) :=
  match pages r !! page with
  | None => ret (Some (Errorf ("webpages: no such page: " +:+ Quote page) None))
  | Some t => tpl_Execute html page t data
  end.

Definition Exists (r : Renderer) (page : string) : bool := bool_decide (is_Some (pages r !! page)).

(** ** Reference: the common templates in order, each page on its own *)

(** The set of one file: [t] with the text of the file. *)
Definition parsed (name content : string) (t : T) : res error T :=
  match tpl_Parse html name content t with (t, None) => Ok t | (_, Some err) => Err err end.

Definition compile_common (funcs : FuncMap) (commonT : option T) (name content : string) : res error T :=
  parsed name content match commonT with
    | None => Funcs html funcs (tpl_New html name)
    | Some c => tpl_Add html name c
    end.
Definition compile_page (funcs : FuncMap) (commonT : option T) (name content : string) : res error T :=
  match commonT with
  | None => parsed name content (Funcs html funcs (tpl_New html name))
  | Some c =>
      match tpl_Clone html c with
      | Err err => Err (Errorf ("webpages: clone common templates: " +:+ err_text err) (Some err))
      | Ok t => parsed name content (tpl_Add html name t)
      end
  end.
End Renderer.

(** ** Reference definitions *)

Section Spec.
Context (fsys : FS).

(** What a walk finds, in the order of the walk. *)
Inductive event := Found (p : string) | Failed (err : error) | Cut.

Fixpoint listing (fuel : nat) (root p : string) (d : DirEntry) : list event :=
  match fuel with
  | O => [Cut]
  | S fuel =>
      if IsDir d then
        match (ReadDir fsys p).2 with
        | Some err => if String.eqb p root && Is (Some err) ErrNotExist then [] else [Failed err]
        | None => []
        end ++ flat_map (fun d1 => listing fuel root (path_Join p (d_Name d1)) d1) (ReadDir fsys p).1
      else if is_template d then [Found p] else []
  end.

(** From a root; a missing directory is empty. *)
Definition list_sub (fuel : nat) (root : string) : list event :=
  match Stat fsys root with
  | Ok d => listing fuel root root d
  | Err err => if Is (Some err) ErrNotExist then [] else [Failed err]
  end.

(** The directories are at most [n] deep from here. *)
Fixpoint finite (n : nat) (p : string) (d : DirEntry) : Prop :=
  match n with
  | O => False
  | S n => IsDir d = true -> Forall (fun d1 => finite n (path_Join p (d_Name d1)) d1) (ReadDir fsys p).1
  end.
Definition finite_sub (n : nat) (root : string) : Prop :=
  forall d, Stat fsys root = Ok d -> finite n root d.

(** The files below an entry. *)
Inductive below : string -> DirEntry -> string -> DirEntry -> Prop :=
| below_here p d : below p d p d
| below_entry p d d1 q e : IsDir d = true -> d1 ∈ (ReadDir fsys p).1 ->
    below (path_Join p (d_Name d1)) d1 q e -> below p d q e.

(** The template files under a sub-directory, by their names. *)
Definition template_file (root name : string) : Prop := exists d e,
  Stat fsys root = Ok d /\ below root d (path_Join root name) e /\ is_template e = true.

(** What a file system documents: the entry of a root has its name, and no call
    fails with the errors that end a walk. *)
Definition skips (err : error) : bool := is_var SkipDir err || is_var SkipAll err.
Class FSLaws := {
  stat_name root d : Stat fsys root = Ok d -> d_Name d = root;
  stat_err root err : Stat fsys root = Err err -> skips err = false;
  read_dir_err p err : (ReadDir fsys p).2 = Some err -> skips err = false;
  read_file_err p err : ReadFile fsys p = Err err -> skips err = false;
}.

(** ** A walk is a loop over what it finds *)

Section Loop.
Context {W : Type} (parse : string -> string -> go W (option error)).
Local Open Scope go_scope.

Definition parse_file (root p : string) : go W (option error) :=
  match ReadFile fsys p with
  | Err err => ret (Some err)
  | Ok s => parse (TrimPrefix p (root +:+ "/")) s
  end.

Fixpoint loop (root : string) (l : list event) : go W (option error) :=
  match l with
  | [] => ret None
  | Found p :: l =>
      let! err := parse_file root p in
      match err with Some err => ret (Some err) | None => loop root l end
  | Failed err :: _ => ret (Some err)
  | Cut :: _ => panic out_of_fuel
  end.

Lemma loop_app root l1 l2 w : loop root (l1 ++ l2) w =
  bind (loop root l1) (fun err => match err with Some err => ret (Some err) | None => loop root l2 end) w.
Proof.
  revert w. induction l1 as [|[p|err|] l1 IH]; intros w; [done| |done|done].
  simpl. unfold bind. destruct (parse_file root p w) as [[[err|]|v] w1]; [done| |done].
  rewrite IH. unfold bind. by destruct (loop root l1 w1) as [[[err|]|v] w2].
Qed.

#[local] Arguments Is : simpl never.
Context {laws : FSLaws}.
(** Parsing a template does not fail with them either. *)
Hypothesis parse_err : forall name s w err w', parse name s w = (Ret (Some err), w') -> skips err = false.

Lemma parse_file_err root p w err w' : parse_file root p w = (Ret (Some err), w') -> skips err = false.
Proof.
  unfold parse_file. destruct (ReadFile fsys p) eqn:E; [by eauto|].
  intros [= <- <-]. by eapply read_file_err.
Qed.

Lemma listing_err fuel root p d err : Failed err ∈ listing fuel root p d -> skips err = false.
Proof.
  revert p d. induction fuel as [|fuel IH]; intros p d; simpl; [set_solver|].
  destruct (IsDir d); [|destruct (is_template d); set_solver].
  intros [H|H]%elem_of_app.
  - destruct (ReadDir fsys p).2 as [e|] eqn:E; [|set_solver].
    destruct (_ && _); [by apply elem_of_nil in H|].
    apply list_elem_of_singleton in H as [= ->]. by eapply read_dir_err.
  - apply list_elem_of_In, in_flat_map in H as (d1 & _ & H'). apply list_elem_of_In in H'. eauto.
Qed.

Lemma loop_err root l w err w' : (forall err, Failed err ∈ l -> skips err = false) ->
  loop root l w = (Ret (Some err), w') -> skips err = false.
Proof.
  revert w. induction l as [|[p|e|] l IH]; intros w Hl; [done| | |done]; simpl.
  - unfold bind. destruct (parse_file root p w) as [[[e|]|v] w1] eqn:E; [| |done].
    + intros [= <- <-]. by eapply parse_file_err.
    + apply IH. intros. apply Hl. by right.
  - intros [= <- <-]. apply Hl. by left.
Qed.

Lemma not_skips err : skips err = false -> is_var SkipDir err = false.
Proof. by intros [-> _]%orb_false_iff. Qed.

Lemma visit_entry root p d w :
  visit root (readFileFS fsys) parse p (Some d) None w =
  (if is_template d then parse_file root p w else (Ret None, w)).
Proof.
  unfold visit, parse_file, readFileFS. simpl. rewrite andb_false_r.
  destruct (is_template d); simpl; [|done]. by destruct (ReadFile fsys p).
Qed.

Lemma visit_error root p d err w :
  visit root (readFileFS fsys) parse p d (Some err) w =
  (Ret (if String.eqb p root && Is (Some err) ErrNotExist then None else Some err), w).
Proof. unfold visit. by destruct (String.eqb p root && Is (Some err) ErrNotExist). Qed.

Lemma dir_not_template d : IsDir d = true -> is_template d = false.
Proof. unfold IsDir, is_template, IsRegular. by destruct (d_Type d). Qed.

(** The walk of an entry. *)
Lemma walkDir_loop fuel root p d w :
  walkDir fsys fuel p d (visit root (readFileFS fsys) parse) w = loop root (listing fuel root p d) w.
Proof.
  revert p d w. induction fuel as [|fuel IH]; intros p d w; [done|]. simpl.
  unfold bind at 1. rewrite visit_entry. destruct (IsDir d) eqn:Hd; simpl.
  - rewrite dir_not_template by done. destruct (ReadDir fsys p) as [dirs rerr] eqn:Hr. simpl.
    assert (Heach : forall w, (fix each (l : list DirEntry) : go W (option error) :=
      match l with
      | [] => ret None
      | d1 :: l => let! err := walkDir fsys fuel (path_Join p (d_Name d1)) d1 (visit root (readFileFS fsys) parse) in
          match err with Some err => if is_var SkipDir err then ret None else ret (Some err) | None => each l end
      end) dirs w = loop root (flat_map (fun d1 => listing fuel root (path_Join p (d_Name d1)) d1) dirs) w).
    { clear Hr. induction dirs as [|d1 dirs IHd]; intros w1; [done|]. cbn [flat_map]. rewrite loop_app.
      unfold bind. rewrite IH. destruct (loop root (listing fuel root _ d1) w1) as [[[e|]|v] w2] eqn:E; [|apply IHd|done].
      rewrite not_skips; [done|]. eapply loop_err; [|exact E]. apply listing_err. }
    rewrite loop_app. destruct rerr as [e|]; [|apply Heach].
    rewrite (bind_run _ _ _ _ _ (visit_error _ _ _ _ _)).
    destruct (String.eqb p root && Is (Some e) ErrNotExist); [apply Heach|].
    simpl. unfold skip_dir. rewrite not_skips; [done|]. apply (read_dir_err p). by rewrite Hr.
  - destruct (is_template d); [|done]. simpl. unfold bind.
    destruct (parse_file root p w) as [[[e|]|v] w1] eqn:E; [|done..].
    unfold skip_dir. by rewrite Hd, andb_false_r.
Qed.

Lemma walkSubDir_loop fuel root w :
  walkSubDir fsys fuel root (readFileFS fsys) parse w = loop root (list_sub fuel root) w.
Proof.
  unfold walkSubDir, WalkDir, list_sub. unfold bind. destruct (Stat fsys root) as [d|e] eqn:Es.
  - rewrite walkDir_loop. destruct (loop root _ w) as [[[e|]|v] w1] eqn:E; [|done..].
    assert (skips e = false) as Hs by (eapply loop_err; [|exact E]; apply listing_err).
    unfold skips in Hs. by rewrite Hs.
  - rewrite visit_error, String.eqb_refl. simpl. destruct (Is (Some e) ErrNotExist); [done|]. simpl.
    pose proof (stat_err root e Es) as Hs. unfold skips in Hs. by rewrite Hs.
Qed.
End Loop.

(** ** The listing *)

Lemma finite_listing n root p d : finite n p d -> Cut ∉ listing n root p d.
Proof.
  revert p d. induction n as [|n IH]; intros p d; simpl; [done|]. intros Hf.
  destruct (IsDir d); [|destruct (is_template d); set_solver].
  rewrite not_elem_of_app. split.
  - destruct (ReadDir fsys p).2; [|set_solver]. destruct (_ && _); set_solver.
  - rewrite list_elem_of_In, in_flat_map. intros (d1 & Hd1 & H). apply list_elem_of_In in H, Hd1.
    by apply (IH _ _ (proj1 (Forall_forall _ _) (Hf eq_refl) d1 Hd1)).
Qed.

Lemma listing_found n root p d q : finite n p d ->
  Found q ∈ listing n root p d <-> exists e, below p d q e /\ is_template e = true.
Proof.
  revert p d. induction n as [|n IH]; intros p d; simpl; [done|]. intros Hf. destruct (IsDir d) eqn:Hd.
  - specialize (Hf eq_refl). rewrite Forall_forall in Hf. rewrite elem_of_app, (list_elem_of_In (flat_map _ _)), in_flat_map.
    split.
    + intros [H|(d1 & Hd1 & H)].
      * destruct (ReadDir fsys p).2; [|set_solver]. destruct (_ && _); set_solver.
      * apply list_elem_of_In in H, Hd1. apply IH in H as (e & Hb & He); [|by apply Hf].
        exists e. split; [by eapply below_entry|done].
    + intros (e & Hb & He). right. inversion Hb; subst.
      * by rewrite dir_not_template in He.
      * exists d1. rewrite <- !list_elem_of_In. split; [done|]. apply IH; [by apply Hf|eauto].
  - split.
    + destruct (is_template d) eqn:Ht; [|set_solver]. intros [= ->]%list_elem_of_singleton. exists d. split; [constructor|done].
    + intros (e & Hb & He). inversion Hb; subst; [|congruence]. rewrite He. set_solver.
Qed.

Lemma below_prefix p d q e : below p d q e -> (q = p /\ e = d) \/ exists rest, q = path_Join p rest.
Proof.
  induction 1 as [p d|p d d1 q e _ _ _ [[-> _]|[rest ->]]]; [by left|right..].
  - by eexists.
  - exists (path_Join (d_Name d1) rest). unfold path_Join. by rewrite <- !str_app_assoc.
Qed.

Lemma TrimPrefix_Join root name : TrimPrefix (path_Join root name) (root +:+ "/") = name.
Proof.
  unfold TrimPrefix, path_Join. rewrite str_app_assoc.
  assert (has_prefix (root +:+ "/") ((root +:+ "/") +:+ name) = true) as -> by (apply has_prefix_spec; eauto).
  apply drop_str_app.
Qed.

Context {laws : FSLaws}.

Lemma path_Join_inj root a b : path_Join root a = path_Join root b -> a = b.
Proof. intros H. apply (f_equal (fun q => TrimPrefix q (root +:+ "/"))) in H. by rewrite !TrimPrefix_Join in H. Qed.

(** What is found under a root that is not a template itself. *)
Lemma found_file n root q : finite_sub n root -> Ext root <> ".tpl"%string -> Found q ∈ list_sub n root ->
  exists name, q = path_Join root name /\ template_file root name.
Proof.
  unfold finite_sub, list_sub, template_file. intros Hf Hx. destruct (Stat fsys root) as [d|e] eqn:Es.
  - rewrite listing_found by auto. intros (e & Hb & He). destruct (below_prefix _ _ _ _ Hb) as [[-> ->]|[name ->]]; [|exists name; split; [done|by exists d, e]].
    unfold is_template in He. rewrite (stat_name root d Es) in He. exfalso. apply Hx.
    apply andb_true_iff in He as [_ He]. by apply String.eqb_eq in He.
  - destruct (Is (Some e) ErrNotExist); set_solver.
Qed.

Lemma file_found n root name : finite_sub n root -> template_file root name ->
  Found (path_Join root name) ∈ list_sub n root.
Proof.
  unfold finite_sub, list_sub. intros Hf (d & e & Es & Hb & He). rewrite Es. apply listing_found; eauto.
Qed.

(** ** The loop, without effects *)

Fixpoint compiled {S} (step : S -> string -> string -> res error S) (root : string) (s : S) (l : list event)
    : res error S :=
  match l with
  | [] => Ok s
  | Found p :: l =>
      match ReadFile fsys p with
      | Err err => Err err
      | Ok content =>
          match step s (TrimPrefix p (root +:+ "/")) content with
          | Err err => Err err
          | Ok s => compiled step root s l
          end
      end
  | Failed err :: _ => Err err
  | Cut :: l => compiled step root s l
  end.

(** A function that parses as [step] says, whatever it leaves with an error. *)
Definition parses {S} (parse : string -> string -> go S (option error)) (step : S -> string -> string -> res error S) : Prop :=
  forall name content s, match step s name content with
  | Ok s' => parse name content s = (Ret None, s')
  | Err err => skips err = false /\ exists s', parse name content s = (Ret (Some err), s')
  end.

Lemma loop_compiled {S} parse (step : S -> _) root l s : parses parse step -> Cut ∉ l ->
  match compiled step root s l with
  | Ok s' => loop parse root l s = (Ret None, s')
  | Err err => exists s', loop parse root l s = (Ret (Some err), s')
  end.
Proof.
  intros Hp. revert s. induction l as [|[p|err|] l IH]; intros s Hc; simpl; [done| |by eexists|set_solver].
  unfold parse_file, bind. destruct (ReadFile fsys p) as [content|err]; [|by eexists].
  specialize (Hp (TrimPrefix p (root +:+ "/")) content s). destruct (step s _ content) as [s'|err].
  - rewrite Hp. apply IH. set_solver.
  - destruct Hp as (_ & s' & ->). by eexists.
Qed.

Lemma finite_sub_listing n root : finite_sub n root -> Cut ∉ list_sub n root.
Proof.
  unfold list_sub. intros Hf. destruct (Stat fsys root) as [d|e] eqn:E.
  - by apply finite_listing, Hf.
  - destruct (Is (Some e) ErrNotExist); set_solver.
Qed.

Lemma walkSubDir_compiled {S} n parse (step : S -> _) root s : parses parse step -> finite_sub n root ->
  match compiled step root s (list_sub n root) with
  | Ok s' => walkSubDir fsys n root (readFileFS fsys) parse s = (Ret None, s')
  | Err err => exists s', walkSubDir fsys n root (readFileFS fsys) parse s = (Ret (Some err), s')
  end.
Proof.
  intros Hp Hf. rewrite walkSubDir_loop.
  - apply loop_compiled; [done|]. by apply finite_sub_listing.
  - done.
  - intros name content w err w' E. specialize (Hp name content w). destruct (step w name content) as [s'|e].
    + rewrite Hp in E. done.
    + destruct Hp as (Hs & s' & Hp). rewrite Hp in E. by injection E as <- _.
Qed.
End Spec.

(** ** The renderer *)

Section New.
Context {T FuncMap Any W : Type} (html : Engine T FuncMap Any W).
Context (err_text : error -> string) (Quote : string -> string).
Context (tpls : FS) {laws : FSLaws tpls} (funcs : FuncMap).

(** Neither do the errors of html/template end a walk. *)
Class EngineLaws := {
  parse_err name content t t' err : tpl_Parse html name content t = (t', Some err) -> skips err = false;
}.
Context {elaws : EngineLaws}.

Definition common_step (commonT : option T) (name content : string) : res error (option T) :=
  match compile_common html funcs commonT name content with Ok t => Ok (Some t) | Err err => Err err end.
Definition page_step (commonT : option T) (m : gmap string T) (name content : string) : res error (gmap string T) :=
  match compile_page html err_text funcs commonT name content with Ok t => Ok (<[name := t]> m) | Err err => Err err end.

(** The common templates in the order of the walk, then each page on its own. *)
Definition common_set (n : nat) : res error (option T) :=
  compiled tpls common_step "common" None (list_sub tpls n "common").
Definition New_ref (n : nat) : res error (Renderer (T := T)) :=
  match common_set n with
  | Err err => Err err
  | Ok commonT =>
      match compiled tpls (page_step commonT) "pages" ∅ (list_sub tpls n "pages") with
      | Err err => Err err
      | Ok pages => Ok {| pages := pages |}
      end
  end.

Lemma parsed_err name content t err : parsed html name content t = Err err -> skips err = false.
Proof.
  unfold parsed. destruct (tpl_Parse html name content t) as [t' [e|]] eqn:E; [|done].
  intros [= <-]. by eapply parse_err.
Qed.

Lemma parse_common_step : parses (parse_common html funcs) common_step.
Proof.
  intros name content C. unfold common_step, compile_common, parse_common, bind, get, put, ret.
  set (t := match C with None => _ | Some c => _ end).
  destruct (parsed html name content t) as [t'|err] eqn:E.
  - unfold parsed in E. by destruct (tpl_Parse html name content t) as [? []]; simplify_eq.
  - split; [by eapply parsed_err|]. unfold parsed in E.
    destruct (tpl_Parse html name content t) as [? []]; simplify_eq. by eexists.
Qed.

(** The variable pages once the text is parsed. *)
Lemma parse_page_in name content t (m : gmap string T) :
  let run := bind (modify (insert name t)) (fun _ => let '(t, err) := tpl_Parse html name content t in
    bind (modify (insert name t)) (fun _ => ret err)) in
  match parsed html name content t with
  | Ok t' => run m = (Ret None, <[name := t']> m)
  | Err err => skips err = false /\ exists s', run m = (Ret (Some err), s')
  end.
Proof.
  intros run. destruct (parsed html name content t) as [t'|err] eqn:E; [|split; [by eapply parsed_err|]];
    unfold run, bind, modify; unfold parsed in E;
    destruct (tpl_Parse html name content t) as [? []]; simplify_eq.
  - unfold ret. by rewrite insert_insert_eq.
  - by eexists.
Qed.

Lemma parse_page_step C : parses (parse_page html err_text funcs C) (page_step C).
Proof.
  intros name content m. unfold page_step, compile_page, parse_page.
  destruct C as [c|]; [destruct (tpl_Clone html c) as [t|e]|].
  - pose proof (parse_page_in name content (tpl_Add html name t) m) as H. by destruct (parsed _ _ _ _).
  - split; [done|by eexists].
  - pose proof (parse_page_in name content (Funcs html funcs (tpl_New html name)) m) as H. by destruct (parsed _ _ _ _).
Qed.

(** New is its reference, on every file system of a depth within the fuel. *)
Lemma New_is_ref n : finite_sub tpls n "common" -> finite_sub tpls n "pages" ->
  New html err_text n tpls funcs = Ret (New_ref n).
Proof.
  intros Hc Hp. unfold New, New_ref, common_set.
  pose proof (walkSubDir_compiled tpls n _ _ "common" None parse_common_step Hc) as H1.
  destruct (compiled tpls common_step "common" None _) as [C|e]; [rewrite H1|by destruct H1 as [s' ->]].
  pose proof (walkSubDir_compiled tpls n _ _ "pages" ∅ (parse_page_step C) Hp) as H2.
  destruct (compiled tpls (page_step C) "pages" ∅ _) as [m|e]; [by rewrite H2|by destruct H2 as [s' ->]].
Qed.

(** The page [t] is what its file compiles to. *)
Definition page_of (C : option T) (page : string) (t : T) : Prop := exists content,
  ReadFile tpls (path_Join "pages" page) = Ok content /\ compile_page html err_text funcs C page content = Ok t.
Definition compiled_in (C : option T) (m : gmap string T) (page : string) : Prop :=
  exists t, m !! page = Some t /\ page_of C page t.

Lemma compiled_pages C l m m' :
  (forall q, Found q ∈ l -> exists name, q = path_Join "pages" name) -> Cut ∉ l ->
  compiled tpls (page_step C) "pages" m l = Ok m' ->
  forall page, (Found (path_Join "pages" page) ∈ l \/ compiled_in C m page -> compiled_in C m' page) /\
    (is_Some (m' !! page) -> Found (path_Join "pages" page) ∈ l \/ is_Some (m !! page)).
Proof.
  revert m. induction l as [|[p|err|] l IH]; intros m Hl Hcut H page; simpl in H; [|..| |set_solver].
  - injection H as <-. split; [|by right]. intros [Hin|]; [by apply elem_of_nil in Hin|done].
  - destruct (Hl p) as [name ->]; [by left|]. rewrite TrimPrefix_Join in H.
    destruct (ReadFile tpls (path_Join "pages" name)) as [content|] eqn:Er; [|done].
    unfold page_step at 1 in H. destruct (compile_page html err_text funcs C name content) as [t|] eqn:Ec; [|done].
    destruct (IH (<[name := t]> m)) with (page := page) as [IH1 IH2]; [intros; apply Hl; by right|set_solver|done|].
    assert (Hname : page = name -> compiled_in C (<[name := t]> m) page).
    { intros ->. exists t. rewrite lookup_insert_eq. split; [done|]. by exists content. }
    split.
    + intros [[Heq|Hin]%elem_of_cons|(t' & Ht & Hp)].
      * apply IH1. right. apply Hname. apply (path_Join_inj "pages"). congruence.
      * auto.
      * apply IH1. right. destruct (decide (page = name)) as [|Hne]; [auto|]. exists t'. by rewrite lookup_insert_ne.
    + intros [Hin|Hs]%IH2; [left; by right|]. destruct (decide (page = name)) as [->|]; [left; by left|].
      right. by rewrite lookup_insert_ne in Hs.
  - done.
Qed.

(** C37. On a file system of a depth within the fuel, New ends without a panic with
    what its reference gives: the files with the extension .tpl under common/ parsed
    into one set in the order of the walk, then those under pages/, each in a copy
    of that set, or the first error on the way (a missing directory is none).  The
    pages that exist are exactly the regular .tpl files below pages/, by their path
    there; a page is rendered from the common templates and its own text, whatever
    the other pages define, and another page is an error. *)
Theorem New_exact n : finite_sub tpls n "common" -> finite_sub tpls n "pages" ->
  New html err_text n tpls funcs = Ret (New_ref n) /\
  forall r, New_ref n = Ok r -> exists commonT, common_set n = Ok commonT /\ forall page,
    (Exists r page = true <-> template_file tpls "pages" page) /\
    (template_file tpls "pages" page -> exists t, page_of commonT page t /\
       forall data w, Render html Quote r page data w = tpl_Execute html page t data w) /\
    (Exists r page = false -> forall data w,
       Render html Quote r page data w = (Ret (Some (Errorf ("webpages: no such page: " +:+ Quote page) None)), w)).
Proof.
  intros Hc Hp. split; [by apply New_is_ref|]. intros r Hr. unfold New_ref in Hr.
  destruct (common_set n) as [C|]; [|done]. exists C. split; [done|].
  destruct (compiled tpls (page_step C) "pages" ∅ _) as [m|] eqn:Em; [|done]. injection Hr as <-. intros page.
  assert (Hl : forall q, Found q ∈ list_sub tpls n "pages" -> exists name, q = path_Join "pages" name /\ template_file tpls "pages" name)
    by (intros; by apply (found_file tpls n)).
  destruct (compiled_pages C (list_sub tpls n "pages") ∅ m) with (page := page) as [H1 H2];
    [intros q Hq; destruct (Hl q Hq) as [name [-> _]]; by exists name|by apply finite_sub_listing|done|].
  assert (Hin : template_file tpls "pages" page -> compiled_in C m page) by (intros; apply H1; left; by apply file_found).
  unfold Exists, Render. simpl. rewrite bool_decide_eq_true, bool_decide_eq_false. split; [split|split].
  - intros [Hf|Hs]%H2; [|by rewrite lookup_empty in Hs; destruct Hs].
    destruct (Hl _ Hf) as (name & ->%path_Join_inj & Hname). done.
  - intros (t & -> & _)%Hin. by eexists.
  - intros (t & -> & Ht)%Hin. by exists t.
  - intros Hn data w. by destruct (m !! page); [destruct Hn; eexists|].
Qed.
End New.

(** ** An application: the pages of testdata/both *)

Definition ex_entries (p : string) : list DirEntry :=
  if String.eqb p "common" then [{| d_Name := "layout.tpl"; d_Type := Regular |}; {| d_Name := "partials"; d_Type := Dir |}]
  else if String.eqb p "common/partials" then [{| d_Name := "messages.tpl"; d_Type := Regular |}]
  else if String.eqb p "pages" then [{| d_Name := "README"; d_Type := Regular |};
    {| d_Name := "page.tpl"; d_Type := Regular |}; {| d_Name := "sub"; d_Type := Dir |}]
  else if String.eqb p "pages/sub" then [{| d_Name := "other.tpl"; d_Type := Regular |}]
  else [].
Definition ex_tpls : FS := {|
  Stat := fun p => if String.eqb p "common" || String.eqb p "pages" then Ok {| d_Name := p; d_Type := Dir |} else Err ErrNotExist;
  ReadDir := fun p => (ex_entries p, None);
  ReadFile := fun p => Ok ("text of " +:+ p)%string;
|}.

#[local] Instance ex_tpls_laws : FSLaws ex_tpls.
Proof.
  split; simpl.
  - intros root d. destruct (_ || _); [|done]. by intros [= <-].
  - intros root err. destruct (_ || _); [done|]. by intros [= <-].
  - done.
  - done.
Qed.

(** A set is the texts it was given; an empty one does not parse, and a page prints
    the names of its set. *)
Definition ex_html : Engine (list (string * string)) unit unit (list string) := {|
  tpl_New := fun _ => [];
  Funcs := fun _ t => t;
  tpl_Add := fun _ t => t;
  tpl_Parse := fun name content t =>
    if String.eqb content "" then (t, Some (ErrorString "empty")) else (t ++ [(name, content)], None);
  tpl_Clone := fun t => Ok t;
  tpl_Execute := fun _ t _ w => (Ret None, w ++ t.*1);
|}.

#[local] Instance ex_html_laws : EngineLaws ex_html.
Proof. split. intros name content t t' err. simpl. destruct (String.eqb content ""); by intros [= <- <-]. Qed.

Example New_pages :
  match New_ref ex_html (fun _ => EmptyString) ex_tpls tt 4 with
  | Ok r => (map_to_list (pages r)).*1 = ["sub/other.tpl"; "page.tpl"]%string /\
      Render ex_html id r "sub/other.tpl" tt [] = (Ret None, ["layout.tpl"; "partials/messages.tpl"; "sub/other.tpl"]%string)
  | Err _ => False
  end.
Proof. vm_compute. done. Qed.

Example New_exact_witness :
  finite_sub ex_tpls 4 "common" /\ finite_sub ex_tpls 4 "pages" /\
  New ex_html (fun _ => EmptyString) 4 ex_tpls tt = Ret (New_ref ex_html (fun _ => EmptyString) ex_tpls tt 4).
Proof.
  assert (H : forall root, root = "common"%string \/ root = "pages"%string -> finite_sub ex_tpls 4 root).
  { intros root [-> | ->] d [= <-]; simpl; intros _; repeat (constructor; simpl; try done); intros _;
      repeat (constructor; simpl; try done). }
  split_and!; [auto..|]. apply (New_exact ex_html (fun _ => EmptyString) id ex_tpls tt 4); auto.
Defined.
