(* ===== verification/Testdb.v ===== *)
(** * Testdb: src/pgdb/testdb/testdb.go

    Temporary databases for tests: how one is named, created, configured and
    removed, on any way out of the test, and the mock of pg_cron.  A test is a
    computation that can register cleanups; testing.TB's Fatal ends it, and the
    cleanups then run, the last one first.  The drivers and the server are
    parameters: the statements are sent as the strings that the code builds. *)

From Stdlib Require Import ZArith Ascii String Lia.
From stdpp Require Import gmap.
From S2P Require Import Prelude Errors.

(** strings.ToLower, on ASCII. *)
Definition lower_char (c : ascii) : ascii :=
  if (65 <=? byte_val c) && (byte_val c <=? 90) then ascii_of_N (Z.to_N (byte_val c + 32)) else c.
Fixpoint ToLower (s : string) : string :=
  match s with EmptyString => EmptyString | String c s' => String (lower_char c) (ToLower s') end.

(** The fields of pgx.ConnConfig that the code sets. *)
Record ConnConfig := {
  Database : string; User : string; Password : string; RuntimeParams : option (gmap string string);
}.

(** ** The drivers *)

Section Testdb.
(** sql.DB, sql.Conn, pgx.Conn, pgxpool.Pool, pgxpool.Conn and pgxpool.Config,
    whose ConnConfig field is a pgx.ConnConfig. *)
Context {W DB SqlConn PgxConn Pool PoolConn PoolConfig : Type}.
Local Open Scope go_scope.

Record Api := {
  sql_Open : string -> string -> go W (res error DB);
  db_ExecContext : DB -> string -> go W (option error);
  db_Close : DB -> go W (option error);
  db_PingContext : DB -> go W (option error);
  db_Conn : DB -> go W (res error SqlConn);
  sqlconn_ExecContext : SqlConn -> string -> go W (option error);
  sqlconn_Close : SqlConn -> go W (option error);
  pgx_ParseConfig : string -> res error ConnConfig;
  RegisterConnConfig : ConnConfig -> go W string;
  pgx_Connect : string -> go W (res error PgxConn);
  pgxconn_Exec : PgxConn -> string -> go W (option error);
  pgxconn_Close : PgxConn -> go W (option error);
  pool_ParseConfig : string -> res error PoolConfig;
  pool_ConnConfig : PoolConfig -> ConnConfig;
  pool_with : ConnConfig -> PoolConfig -> PoolConfig;
  NewWithConfig : PoolConfig -> go W (res error Pool);
  pool_Close : Pool -> go W unit;
  AcquireFunc : Pool -> (PoolConn -> go W (option error)) -> go W (option error);
  poolconn_Conn : PoolConn -> PgxConn;
  rand_Read : Z -> go W (res error (list Z));
  Getenv : string -> string;
}.
Context (api : Api).

(** ** Tests *)

(** The functions that the code gives to t.Cleanup, with their variables. *)
Inductive cleanup :=
| CleanSql (db : DB) (tempDB : string)
| CleanTemp (tdb : DB)
| CleanPgx (conn : PgxConn) (tempDB : string)
| CleanPool (db : Pool).

Record test := { t_world : W; t_cleanups : list cleanup }.

Definition call {A} (m : go W A) : go test A := fun t =>
  let '(o, w) := m (t_world t) in (o, {| t_world := w; t_cleanups := t_cleanups t |}).
Definition t_Cleanup (c : cleanup) : go test unit := fun t =>
  (Ret tt, {| t_world := t_world t; t_cleanups := c :: t_cleanups t |}).
(** runtime.Goexit, which no recover stops. *)
Definition Fatal {A} : go test A := panic "the test failed".

(** [if err != nil { t.Fatal(err) }] *)
Definition must {A} (m : go W (res error A)) : go test A :=
  let! r := call m in match r with Ok a => ret a | Err _ => Fatal end.
Definition must_ok (m : go W (option error)) : go test unit :=
  let! err := call m in match err with None => ret tt | Some _ => Fatal end.

(** ** Names and configurations *)

Definition randHex (rawBytes : Z) : go test string :=
  let! b := must (rand_Read api rawBytes) in ret (hex_EncodeToString b).

(** The interface execer. *)
Definition execer : Type := string -> go W (option error).
Definition sqlDBExecer (db : DB) : execer := db_ExecContext api db.
Definition sqlConnExecer (conn : SqlConn) : execer := sqlconn_ExecContext api conn.
Definition pgxExecer (conn : PgxConn) : execer := pgxconn_Exec api conn.

(** A name of at most 63 bytes: its end. *)
Definition temp_name (prefix rnd : string) : string :=
  let tempDB := ToLower prefix +:+ rnd in
  if (63 <? String.length tempDB)%nat then drop_str (String.length tempDB - 63) tempDB else tempDB.

Definition createTestDBAndUser (ex : execer) (prefix : string) : go test string :=
  let! rnd := randHex 8 in
  let tempDB := temp_name prefix rnd in
  do! must_ok (ex ("CREATE DATABASE " +:+ tempDB)) in
  do! must_ok (ex ("CREATE USER " +:+ tempDB +:+ " WITH PASSWORD'" +:+ tempDB +:+ "'")) in
  do! must_ok (ex ("GRANT ALL PRIVILEGES ON DATABASE " +:+ tempDB +:+ " TO " +:+ tempDB)) in
  do! must_ok (ex ("ALTER DATABASE " +:+ tempDB +:+ " OWNER TO " +:+ tempDB)) in
  ret tempDB.

Definition temp_config (tempDB : string) (conf : ConnConfig) : ConnConfig :=
  let m := default ∅ (RuntimeParams conf) in
  {| Database := tempDB; User := tempDB; Password := tempDB;
     RuntimeParams := Some (<["application_name"%string := "testdb"%string]> m) |}.

Definition connConfig (original tempDB : string) : go test ConnConfig :=
  match pgx_ParseConfig api original with
  | Err _ => Fatal
  | Ok conf => ret (temp_config tempDB conf)
  end.
Definition poolConnConfig (original tempDB : string) : go test PoolConfig :=
  match pool_ParseConfig api original with
  | Err _ => Fatal
  | Ok conf => ret (pool_with api (temp_config tempDB (pool_ConnConfig api conf)) conf)
  end.

(** ** The databases *)

(** [for _, fn := range fns { if err := fn(conn); err != nil ... }] *)
Fixpoint run_fns {X} (fns : list (X -> go W (option error))) (conn : X) : go W (option error) :=
  match fns with
  | [] => ret None
  | fn :: fns =>
      let! err := fn conn in
      match err with Some err => ret (Some err) | None => run_fns fns conn end
  end.

Definition newSQL (driver connStr prefix : string) (fns : list (SqlConn -> go W (option error))) : go test DB :=
  let prefix := if String.eqb prefix "" then "test"%string else prefix in
  let! db := must (sql_Open api driver connStr) in
  let! tempDB := createTestDBAndUser (sqlDBExecer db) prefix in
  do! t_Cleanup (CleanSql db tempDB) in
  let! conf := connConfig connStr tempDB in
  let! connStrTemp := call (RegisterConnConfig api conf) in
  let! tdb := must (sql_Open api "pgx" connStrTemp) in
  do! t_Cleanup (CleanTemp tdb) in
  do! must_ok (db_PingContext api tdb) in
  match fns with
  | [] => ret tdb
  | _ =>
      let! conn := must (db_Conn api tdb) in
      defer (do! call (sqlconn_Close api conn) in ret tt)
        (do! must_ok (run_fns fns conn) in ret tdb)
  end.
Definition NewSQL := newSQL "pgx".
Definition NewPqSQL := newSQL "postgres".

Definition NewPgx (connStr prefix : string) (fns : list (PgxConn -> go W (option error))) : go test Pool :=
  let prefix := if String.eqb prefix "" then "test"%string else prefix in
  let! conn := must (pgx_Connect api connStr) in
  let! tempDB := createTestDBAndUser (pgxExecer conn) prefix in
  do! t_Cleanup (CleanPgx conn tempDB) in
  let! conf := poolConnConfig connStr tempDB in
  let! db := must (NewWithConfig api conf) in
  do! t_Cleanup (CleanPool db) in
  match fns with
  | [] => ret db
  | _ => do! must_ok (AcquireFunc api db (fun conn => run_fns fns (poolconn_Conn api conn))) in ret db
  end.

(** The statements that remove a database, whose errors are ignored. *)
Definition drop_temp (ex : execer) (tempDB : string) : go W unit :=
  if String.eqb (Getenv api "PGDB_KEEP_TESTDB") "" then
    do! ex ("DROP DATABASE IF EXISTS " +:+ tempDB +:+ " WITH (FORCE)") in
    do! ex ("DROP USER IF EXISTS " +:+ tempDB) in
    ret tt
  else ret tt.

Definition run_cleanup (c : cleanup) : go W unit :=
  match c with
  | CleanSql db tempDB => do! drop_temp (sqlDBExecer db) tempDB in do! db_Close api db in ret tt
  | CleanTemp tdb => do! db_Close api tdb in ret tt
  | CleanPgx conn tempDB => do! drop_temp (pgxExecer conn) tempDB in do! pgxconn_Close api conn in ret tt
  | CleanPool db => pool_Close api db
  end.

(** The cleanups of a test, the last one registered first; one that panics does
    not keep the others from running. *)
Fixpoint run_cleanups (l : list cleanup) (w : W) : W :=
  match l with
  | [] => w
  | c :: l => run_cleanups l (run_cleanup c w).2
  end.

(** A test from its start to the end of its cleanups. *)
Definition run_test {A} (m : go test A) (w : W) : outcome A * W :=
  let '(o, t) := m {| t_world := w; t_cleanups := [] |} in (o, run_cleanups (t_cleanups t) (t_world t)).
End Testdb.
Arguments Api : clear implicits.
Arguments cleanup : clear implicits.
Arguments test : clear implicits.

(** ** Names *)

Lemma ToLower_length s : String.length (ToLower s) = String.length s.
Proof. induction s as [|c s IH]; simpl; congruence. Qed.

(** A name fits an identifier of PostgreSQL. *)
Lemma temp_name_length prefix rnd : (String.length (temp_name prefix rnd) <= 63)%nat.
Proof.
  unfold temp_name. destruct (Nat.ltb_spec 63 (String.length (ToLower prefix +:+ rnd))); [|done].
  rewrite drop_str_length_eq. lia.
Qed.

(** It ends with the random digits, so two names are different when these are. *)
Lemma temp_name_suffix prefix rnd : (String.length rnd <= 63)%nat -> exists s, temp_name prefix rnd = s +:+ rnd.
Proof.
  intros Hr. unfold temp_name. destruct (Nat.ltb_spec 63 (String.length (ToLower prefix +:+ rnd))); [|by eexists].
  assert (Hd : forall n s, (n <= String.length s)%nat -> drop_str n (s +:+ rnd) = drop_str n s +:+ rnd).
  { intros n. induction n as [|n IH]; intros [|c s] Hn; [done..|simpl in Hn; lia|]. apply IH. simpl in Hn. lia. }
  eexists. apply Hd. rewrite length_app_str in *. lia.
Qed.

Lemma temp_name_inj p p' rnd rnd' : String.length rnd = String.length rnd' -> (String.length rnd <= 63)%nat ->
  temp_name p rnd = temp_name p' rnd' -> rnd = rnd'.
Proof.
  intros Hlen Hle H. destruct (temp_name_suffix p rnd Hle) as [s Hs].
  destruct (temp_name_suffix p' rnd') as [s' Hs']; [lia|]. rewrite Hs, Hs' in H.
  assert (Hl : String.length s = String.length s').
  { apply (f_equal String.length) in H. rewrite !length_app_str in H. lia. }
  clear Hs Hs'. revert s' Hl H. induction s as [|c s IH]; intros [|c' s'] Hl H; try done.
  injection H as _ H. apply (IH s'); [by injection Hl|done].
Qed.

(** What needs no quotes in a statement: lower-case letters, digits and _,
    starting with no digit. *)
Definition plain_char (c : ascii) : bool :=
  ((97 <=? byte_val c) && (byte_val c <=? 122)) || ((48 <=? byte_val c) && (byte_val c <=? 57)) || (byte_val c =? 95).
Fixpoint plain_chars (s : string) : bool :=
  match s with EmptyString => true | String c s' => plain_char c && plain_chars s' end.
Definition plain (s : string) : bool :=
  match s with
  | EmptyString => false
  | String c _ => negb ((48 <=? byte_val c) && (byte_val c <=? 57)) && plain_chars s
  end.

(** And fits an identifier. *)
Definition usable (n : string) : Prop := plain n = true /\ (String.length n <= 63)%nat.

Lemma plain_chars_app s t : plain_chars (s +:+ t) = plain_chars s && plain_chars t.
Proof. induction s as [|c s IH]; [done|]. simpl. by rewrite IH, andb_assoc. Qed.

Lemma hex_plain b : Forall (fun x => 0 <= x < 256) b -> plain_chars (hex_EncodeToString b) = true.
Proof.
  induction 1 as [|x b Hx _ IH]; [done|]. simpl. rewrite IH.
  assert (Hd : forall n, 0 <= n < 16 -> plain_char (hex_digit n) = true).
  { apply (every_below 16 (fun n => plain_char (hex_digit n) = true)). by vm_compute. }
  rewrite !Hd; [done|apply Z.mod_pos_bound; lia|]. split; [apply Z.div_pos; lia|apply Z.div_lt_upper_bound; lia].
Qed.

(** With a short plain prefix, or a long one whose end starts with no digit, the
    name is plain. *)
Lemma temp_name_plain prefix b : Forall (fun x => 0 <= x < 256) b -> length b = 8%nat ->
  (String.length prefix <= 47)%nat -> plain (ToLower prefix) = true ->
  plain (temp_name prefix (hex_EncodeToString b)) = true.
Proof.
  intros Hb Hl Hp Hpl. unfold temp_name.
  destruct (Nat.ltb_spec 63 (String.length (ToLower prefix +:+ hex_EncodeToString b))) as [H|_].
  { rewrite length_app_str, ToLower_length, hex_length in H. lia. }
  destruct (ToLower prefix) as [|c s] eqn:E; [done|]. simpl in *. apply andb_true_iff in Hpl as [-> Hpl].
  apply andb_true_iff in Hpl as [-> Hpl]. by rewrite plain_chars_app, Hpl, hex_plain.
Qed.

(** ** The server

    What the statements do to the databases and the roles of a PostgreSQL
    server, as its documentation says: who owns a database, the roles that have
    privileges on it, and the roles. *)

Record database := { owner : string; acl : gset string }.
Record cluster := { databases : gmap string database; users : gset string; admin : string }.

Inductive stmt :=
| CreateDatabase (n : string)
| CreateUser (n pass : string)
| GrantAll (n u : string)
| AlterOwner (n u : string)
| DropDatabase (n : string)
| DropUser (n : string).

Definition text (s : stmt) : string :=
  match s with
  | CreateDatabase n => "CREATE DATABASE " +:+ n
  | CreateUser n p => "CREATE USER " +:+ n +:+ " WITH PASSWORD'" +:+ p +:+ "'"
  | GrantAll n u => "GRANT ALL PRIVILEGES ON DATABASE " +:+ n +:+ " TO " +:+ u
  | AlterOwner n u => "ALTER DATABASE " +:+ n +:+ " OWNER TO " +:+ u
  | DropDatabase n => "DROP DATABASE IF EXISTS " +:+ n +:+ " WITH (FORCE)"
  | DropUser n => "DROP USER IF EXISTS " +:+ n
  end.
Definition names (s : stmt) : list string :=
  match s with
  | CreateDatabase n | DropDatabase n | DropUser n => [n]
  | CreateUser n u | GrantAll n u | AlterOwner n u => [n; u]
  end.

(** A role that owns a database or has privileges on one cannot be dropped. *)
Definition depends (u : string) (d : database) : Prop := u = owner d \/ u ∈ acl d.
#[export] Instance depends_dec u d : Decision (depends u d).
Proof. unfold depends. apply _. Defined.

Definition with_databases (f : gmap string database -> gmap string database) (c : cluster) : cluster :=
  {| databases := f (databases c); users := users c; admin := admin c |}.
Definition with_users (f : gset string -> gset string) (c : cluster) : cluster :=
  {| databases := databases c; users := f (users c); admin := admin c |}.

Definition exec_stmt (s : stmt) (c : cluster) : option cluster :=
  match s with
  | CreateDatabase n =>
      match databases c !! n with
      | Some _ => None
      | None => Some (with_databases <[n := {| owner := admin c; acl := ∅ |}]> c)
      end
  | CreateUser n _ => if decide (n ∈ users c) then None else Some (with_users (union {[n]}) c)
  | GrantAll n u =>
      d ← databases c !! n;
      if decide (u ∈ users c)
      then Some (with_databases <[n := {| owner := owner d; acl := {[u]} ∪ acl d |}]> c) else None
  | AlterOwner n u =>
      d ← databases c !! n;
      if decide (u ∈ users c) then Some (with_databases <[n := {| owner := u; acl := acl d |}]> c) else None
  | DropDatabase n => Some (with_databases (delete n) c)
  | DropUser n =>
      if decide (map_Forall (fun _ d => ~ depends n d) (databases c))
      then Some (with_users (fun us => us ∖ {[n]}) c) else None
  end.

(** Whoever a database depends on is a role. *)
Definition wf (c : cluster) : Prop :=
  admin c ∈ users c /\ map_Forall (fun _ d => owner d ∈ users c /\ acl d ⊆ users c) (databases c).

Lemma exec_stmt_wf s c c' : s <> DropUser (admin c) -> wf c -> exec_stmt s c = Some c' -> wf c'.
Proof.
  intros Hs [Ha Hd] H. destruct s as [n|n p|n u|n u|n|n]; simpl in H; simplify_option_eq.
  - destruct (databases c !! n); simplify_eq. split; [done|]. apply map_Forall_insert_2; [|done]. simpl. set_solver.
  - split; simpl; [set_solver|]. intros k d Hk. apply Hd in Hk. set_solver.
  - split; [done|]. apply map_Forall_insert_2; [|done]. simpl.
    match goal with E : databases c !! n = Some _ |- _ => apply Hd in E end. set_solver.
  - split; [done|]. apply map_Forall_insert_2; [|done]. simpl.
    match goal with E : databases c !! n = Some _ |- _ => apply Hd in E end. set_solver.
  - split; [done|]. by apply map_Forall_delete.
  - split; simpl; [apply elem_of_difference; split; [done|]; rewrite elem_of_singleton; congruence|].
    intros k d Hk. pose proof (Hd k d Hk). match goal with F : map_Forall _ _ |- _ => apply F in Hk end.
    unfold depends in Hk. set_solver.
Qed.

(** A cluster with a temporary database, and its remains when the statements
    that make one stop before the end. *)
Definition temp_made (n : string) : list stmt :=
  [CreateDatabase n; CreateUser n n; GrantAll n n; AlterOwner n n].
Fixpoint steps (l : list stmt) (c : cluster) : option cluster :=
  match l with [] => Some c | s :: l => c' ← exec_stmt s c; steps l c' end.
Definition left_over (c c' : cluster) : Prop :=
  exists n k, usable n /\ (1 <= k < 4)%nat /\ steps (take k (temp_made n)) c = Some c'.

Lemma steps_app l1 l2 c : steps (l1 ++ l2) c = steps l1 c ≫= steps l2.
Proof. revert c. induction l1 as [|s l1 IH]; intros c; [done|]. simpl. destruct (exec_stmt s c); simpl; auto. Qed.

Lemma steps_wf l c c' : Forall (fun s => forall u, s <> DropUser u) l -> wf c -> steps l c = Some c' -> wf c'.
Proof.
  intros Hl. revert c. induction Hl as [|s l Hs _ IH]; intros c Hwf H; [by injection H as <-|].
  apply bind_Some in H as (c1 & E & H). apply (IH c1); [|done]. by apply (exec_stmt_wf s c).
Qed.

(** The statements that drop a temporary database undo those that make it. *)
Lemma drop_made n c c' : wf c -> steps (temp_made n) c = Some c' ->
  steps [DropDatabase n; DropUser n] c' = Some c.
Proof.
  intros [Ha Hd] H. unfold temp_made in H. simpl in H.
  destruct (databases c !! n) eqn:En; simpl in H; [done|].
  destruct (decide (n ∈ users c)) as [|Hn]; simpl in H; [done|].
  rewrite lookup_insert_eq in H. simpl in H.
  rewrite !decide_True in H by set_solver. simpl in H. rewrite lookup_insert_eq in H. simpl in H.
  rewrite decide_True in H by set_solver. simpl in H. injection H as <-. simpl.
  rewrite !delete_insert_eq, (delete_id _ n) by done.
  rewrite decide_True.
  - simpl. f_equal. destruct c as [ds us a]. unfold with_users. simpl in *.
    f_equal; [|set_solver]. by rewrite !delete_insert_eq, (delete_id ds).
  - intros k d Hk [->|Hx]; apply Hd in Hk; set_solver.
Qed.

(** ** What a test leaves

    The drivers run a statement of an administrator as the server does, when no
    name in it needs quotes or is cut at 63 bytes; a statement that fails
    changes nothing, and the two that drop a database and its role are not
    refused.  Nothing else makes or drops a database or a role. *)

Section Leaves.
Context {W DB SqlConn PgxConn Pool PoolConn PoolConfig : Type}.
Context (api : Api W DB SqlConn PgxConn Pool PoolConn PoolConfig).
Local Open Scope go_scope.
Notation test := (test W DB PgxConn Pool).

Definition speaks (srv : W -> cluster) (ex : execer) : Prop := forall s w,
  Forall usable (names s) ->
  match ex (text s) w with
  | (Ret None, w') => exec_stmt s (srv w) = Some (srv w')
  | (_, w') => srv w' = srv w
  end.
Definition answers (srv : W -> cluster) (ex : execer) : Prop := forall n s w,
  usable n -> s = DropDatabase n \/ s = DropUser n -> exec_stmt s (srv w) <> None -> (ex (text s) w).1 = Ret None.
Definition keeps {A} (srv : W -> cluster) (m : go W A) : Prop := forall w, srv (m w).2 = srv w.

Class ServerLaws (srv : W -> cluster) (connStr : string) := {
  open_speaks : forall driver w db w', sql_Open api driver connStr w = (Ret (Ok db), w') ->
    speaks srv (sqlDBExecer api db) /\ answers srv (sqlDBExecer api db);
  connect_speaks : forall w conn w', pgx_Connect api connStr w = (Ret (Ok conn), w') ->
    speaks srv (pgxExecer api conn) /\ answers srv (pgxExecer api conn);
  open_keeps : forall driver s, keeps srv (sql_Open api driver s);
  db_close_keeps : forall db, keeps srv (db_Close api db);
  ping_keeps : forall db, keeps srv (db_PingContext api db);
  conn_keeps : forall db, keeps srv (db_Conn api db);
  sqlconn_close_keeps : forall conn, keeps srv (sqlconn_Close api conn);
  register_keeps : forall conf, keeps srv (RegisterConnConfig api conf);
  connect_keeps : forall s, keeps srv (pgx_Connect api s);
  pgxconn_close_keeps : forall conn, keeps srv (pgxconn_Close api conn);
  pool_keeps : forall conf, keeps srv (NewWithConfig api conf);
  pool_close_keeps : forall p, keeps srv (pool_Close api p);
  acquire_keeps : forall p f, (forall c, keeps srv (f c)) -> keeps srv (AcquireFunc api p f);
  read_keeps : forall n, keeps srv (rand_Read api n);
  read_bytes : forall n w b w', rand_Read api n w = (Ret (Ok b), w') ->
    Z.of_nat (length b) = n /\ Forall (fun x => 0 <= x < 256) b;
}.

Section Restores.
Context (srv : W -> cluster).

(** A part of a test whose cleanups bring the server back to where it was. *)
Definition restores {A} (m : go test A) : Prop := forall t o t',
  m t = (o, t') -> wf (srv (t_world t)) ->
  exists l, t_cleanups t' = l ++ t_cleanups t /\ wf (srv (t_world t')) /\
    forall w, srv w = srv (t_world t') -> srv (run_cleanups api l w) = srv (t_world t).

Lemma run_cleanups_app l1 l2 w : run_cleanups api (l1 ++ l2) w = run_cleanups api l2 (run_cleanups api l1 w).
Proof. revert w. induction l1 as [|c l1 IH]; intros w; [done|]. apply IH. Qed.

Lemma restores_then {A B} (m : go test A) (k : outcome A -> go test B) :
  restores m -> (forall o, restores (k o)) -> restores (fun t => let '(o, t') := m t in k o t').
Proof.
  intros Hm Hk t o t' H Hwf. destruct (m t) as [o1 t1] eqn:E1.
  destruct (Hm _ _ _ E1 Hwf) as (l1 & Hl1 & Hwf1 & H1).
  destruct (Hk _ _ _ _ H Hwf1) as (l2 & Hl2 & Hwf2 & H2).
  exists (l2 ++ l1). split; [by rewrite Hl2, Hl1, app_assoc|]. split; [done|].
  intros w Hw. rewrite run_cleanups_app. by apply H1, H2.
Qed.

Lemma restores_ext {A} (m m' : go test A) : (forall t, m t = m' t) -> restores m -> restores m'.
Proof. intros H Hm t o t' E. rewrite <- H in E. exact (Hm _ _ _ E). Qed.

Lemma restores_out {A} (o : outcome A) : restores (fun t => (o, t)).
Proof. intros t ?? [= <- <-] Hwf. by exists []. Qed.

Lemma restores_ret {A} (a : A) : restores (ret a).
Proof. apply restores_out. Qed.

Lemma restores_Fatal {A} : restores (Fatal (A := A)).
Proof. apply restores_out. Qed.

Lemma restores_bind {A B} (m : go test A) (k : A -> go test B) :
  restores m -> (forall a, restores (k a)) -> restores (bind m k).
Proof.
  intros Hm Hk. eapply restores_ext; [|apply (restores_then m
    (fun o => match o with Ret a => k a | Panicked v => fun t => (Panicked v, t) end)); [done|]].
  - intros t. unfold bind. by destruct (m t) as [[] ?].
  - intros [a|v]; [done|apply restores_out].
Qed.

Lemma restores_defer {A} (d : go test unit) (m : go test A) : restores d -> restores m -> restores (defer d m).
Proof.
  intros Hd Hm. eapply restores_ext; [|apply (restores_then m (fun o => bind d (fun _ t => (o, t))));
    [done|intros o; apply restores_bind; [done|intros _; apply restores_out]]].
  intros t. unfold defer, bind. destruct (m t) as [o t1]. by destruct (d t1) as [[[]|] ?].
Qed.

Lemma restores_call {A} (m : go W A) : keeps srv m -> restores (call m : go test A).
Proof.
  intros Hm t o t' H Hwf. unfold call in H. specialize (Hm (t_world t)).
  destruct (m (t_world t)) as [o1 w1]. injection H as <- <-. simpl in *. exists [].
  rewrite Hm. split; [done|]. split; [done|]. intros w Hw. simpl. congruence.
Qed.

Lemma restores_Cleanup c : keeps srv (run_cleanup api c) -> restores (t_Cleanup c).
Proof.
  intros Hc t o t' [= <- <-] Hwf. exists [c]. split; [done|]. split; [done|].
  intros w Hw. simpl. by rewrite Hc.
Qed.

Lemma restores_must {A} (m : go W (res error A)) : keeps srv m -> restores (must m : go test A).
Proof.
  intros Hm. apply restores_bind; [by apply restores_call|].
  intros [a|e]; [apply restores_ret|apply restores_Fatal].
Qed.

Lemma restores_must_ok (m : go W (option error)) : keeps srv m -> restores (must_ok m : go test unit).
Proof.
  intros Hm. apply restores_bind; [by apply restores_call|].
  intros [e|]; [apply restores_Fatal|apply restores_ret].
Qed.

Lemma keeps_bind {A B} (m : go W A) (k : A -> go W B) :
  keeps srv m -> (forall a, keeps srv (k a)) -> keeps srv (bind m k).
Proof.
  intros Hm Hk w. unfold bind. specialize (Hm w). destruct (m w) as [[a|v] w1]; simpl in *; [|done].
  by rewrite Hk.
Qed.

Lemma keeps_ret {A} (a : A) : keeps srv (ret a).
Proof. done. Qed.

Lemma keeps_run_fns {X} (fns : list (X -> go W (option error))) x :
  Forall (fun f => forall x, keeps srv (f x)) fns -> keeps srv (run_fns fns x).
Proof.
  induction 1 as [|f fns Hf _ IH]; [apply keeps_ret|].
  apply keeps_bind; [apply Hf|]. intros [e|]; [apply keeps_ret|done].
Qed.
End Restores.

(** The prefixes whose names need no quotes. *)
Definition good_prefix (prefix : string) : Prop :=
  prefix = ""%string \/ (plain (ToLower prefix) = true /\ (String.length prefix <= 47)%nat).

Section Made.
Context (srv : W -> cluster) (connStr : string) `{!ServerLaws srv connStr}.

Lemma must_ok_text ex s (t : test) o t' : speaks srv ex -> Forall usable (names s) ->
  must_ok (ex (text s)) t = (o, t') -> t_cleanups t' = t_cleanups t /\
  match o with
  | Ret _ => exec_stmt s (srv (t_world t)) = Some (srv (t_world t'))
  | Panicked _ => srv (t_world t') = srv (t_world t)
  end.
Proof.
  intros Hex Hs H. specialize (Hex s (t_world t) Hs). unfold must_ok, bind, call in H.
  destruct (ex (text s) (t_world t)) as [[[e|]|v] w1]; by injection H as <- <-.
Qed.

Lemma randHex_spec (t : test) o t' : randHex api 8 t = (o, t') ->
  t_cleanups t' = t_cleanups t /\ srv (t_world t') = srv (t_world t) /\
  forall s, o = Ret s -> exists b, s = hex_EncodeToString b /\ length b = 8%nat /\ Forall (fun x => 0 <= x < 256) b.
Proof.
  unfold randHex, must, bind, call. intros H. pose proof (read_keeps 8 (t_world t)) as Hk.
  destruct (rand_Read api 8 (t_world t)) as [[[b|e]|v] w1] eqn:E; injection H as <- <-; simpl in *;
    (split; [done|]; split; [done|]; intros s Hs; simplify_eq).
  apply read_bytes in E as [Hl Hb]. exists b. split; [done|]. split; [lia|done].
Qed.

(** One more statement of those that make a database. *)
Lemma made_step {A} ex n k s c (m : go test A) t o t' : speaks srv ex -> usable n -> temp_made n !! k = Some s ->
  steps (take k (temp_made n)) c = Some (srv (t_world t)) ->
  bind (must_ok (ex (text s))) (fun _ => m) t = (o, t') ->
  (exists t1, t_cleanups t1 = t_cleanups t /\ steps (take (S k) (temp_made n)) c = Some (srv (t_world t1)) /\ m t1 = (o, t')) \/
  (t_cleanups t' = t_cleanups t /\ exists v, o = Panicked v /\ (srv (t_world t') = c \/ left_over c (srv (t_world t')))).
Proof.
  intros Hex Hn Hks Hk E. unfold bind in E. destruct (must_ok _ t) as [o1 t1] eqn:E1.
  eapply must_ok_text in E1 as [Hc1 H1]; [|done|].
  2: { apply list_elem_of_lookup_2 in Hks. unfold temp_made in Hks. set_unfold in Hks.
    destruct Hks as [->|[->|[->|[->|[]]]]]; unfold names; auto. }
  destruct o1 as [[]|v1]; [left|right].
  - exists t1. split; [done|]. split; [|done]. by rewrite (take_S_r _ _ _ Hks), steps_app, Hk; simpl; rewrite H1.
  - injection E as <- <-. split; [done|]. exists v1. split; [done|]. rewrite H1.
    destruct k as [|k]; [left; simpl in Hk; congruence|right]. exists n, (S k).
    apply lookup_lt_Some in Hks. simpl in Hks. split; [done|]. split; [lia|done].
Qed.

Lemma create_spec ex prefix (t : test) o t' :
  speaks srv ex -> plain (ToLower prefix) = true -> (String.length prefix <= 47)%nat ->
  createTestDBAndUser api ex prefix t = (o, t') -> t_cleanups t' = t_cleanups t /\
  match o with
  | Ret n => usable n /\ steps (temp_made n) (srv (t_world t)) = Some (srv (t_world t'))
  | Panicked _ => srv (t_world t') = srv (t_world t) \/ left_over (srv (t_world t)) (srv (t_world t'))
  end.
Proof.
  intros Hex Hp Hl H. unfold createTestDBAndUser, bind at 1 in H.
  destruct (randHex api 8 t) as [[rnd|v] t0] eqn:E0;
    apply randHex_spec in E0 as (Hc0 & Hw0 & Hb); [|injection H as <- <-; auto].
  destruct (Hb rnd eq_refl) as (b & -> & Hlb & Hrb). set (n := temp_name prefix (hex_EncodeToString b)) in H.
  assert (Hn : usable n) by (split; [by apply temp_name_plain|apply temp_name_length]).
  rewrite <- Hw0, <- Hc0. clear Hw0 Hc0 Hb.
  destruct (made_step _ _ 0 _ _ _ _ _ _ Hex Hn eq_refl eq_refl H) as [(t1 & Hc1 & Hk1 & H1)|(? & v & -> & ?)];
    [clear H|done].
  destruct (made_step _ _ 1 _ _ _ _ _ _ Hex Hn eq_refl Hk1 H1) as [(t2 & Hc2 & Hk2 & H2)|(? & v & -> & ?)];
    [clear H1|split; [congruence|done]].
  destruct (made_step _ _ 2 _ _ _ _ _ _ Hex Hn eq_refl Hk2 H2) as [(t3 & Hc3 & Hk3 & H3)|(? & v & -> & ?)];
    [clear H2|split; [congruence|done]].
  destruct (made_step _ _ 3 _ _ _ _ _ _ Hex Hn eq_refl Hk3 H3) as [(t4 & Hc4 & Hk4 & H4)|(? & v & -> & ?)];
    [clear H3|split; [congruence|done]].
  injection H4 as <- <-. split; [congruence|done].
Qed.

Lemma drop_temp_run ex n w c : speaks srv ex -> answers srv ex -> usable n -> Getenv api "PGDB_KEEP_TESTDB" = ""%string ->
  steps [DropDatabase n; DropUser n] (srv w) = Some c ->
  exists w', drop_temp api ex n w = (Ret tt, w') /\ srv w' = c.
Proof.
  intros Hex Han Hn Hk H. unfold drop_temp. rewrite Hk, String.eqb_refl.
  assert (Hdo : forall s w1 c1, s = DropDatabase n \/ s = DropUser n -> exec_stmt s (srv w1) = Some c1 ->
    exists w2, ex (text s) w1 = (Ret None, w2) /\ srv w2 = c1).
  { intros s w1 c1 Hs E. assert (Hu : Forall usable (names s)) by (destruct Hs as [->| ->]; simpl; auto).
    pose proof (Han n s w1 Hn Hs ltac:(congruence)) as H1. specialize (Hex s w1 Hu).
    destruct (ex (text s) w1) as [[[e|]|v] w2]; simplify_eq/=. exists w2. split; [done|]. congruence. }
  unfold steps in H. destruct (exec_stmt (DropDatabase n) (srv w)) as [c1|] eqn:E1; [|done].
  simpl in H. apply bind_Some in H as (c2 & E2 & [= <-]).
  destruct (Hdo _ _ _ (or_introl eq_refl) E1) as (w1 & H1 & Hw1). subst c1.
  destruct (Hdo _ _ _ (or_intror eq_refl) E2) as (w2 & H2 & Hw2).
  exists w2. split; [|done]. unfold bind. simpl text in H1, H2. rewrite H1, H2. done.
Qed.

(** The test that makes a database with [ex] and registers the function that
    drops it. *)
Lemma made_restores {A} ex (clean : string -> cleanup DB PgxConn Pool) (close : go W (option error)) prefix
    (k : string -> go test A) (t : test) o t' :
  speaks srv ex -> answers srv ex -> keeps srv close -> Getenv api "PGDB_KEEP_TESTDB" = ""%string ->
  (forall n, run_cleanup api (clean n) = (do! drop_temp api ex n in do! close in ret tt)) ->
  plain (ToLower prefix) = true -> (String.length prefix <= 47)%nat -> (forall n, restores srv (k n)) ->
  wf (srv (t_world t)) -> t_cleanups t = [] ->
  (let! n := createTestDBAndUser api ex prefix in do! t_Cleanup (clean n) in k n) t = (o, t') ->
  let c := srv (run_cleanups api (t_cleanups t') (t_world t')) in
  c = srv (t_world t) \/ ((exists v, o = Panicked v) /\ left_over (srv (t_world t)) c).
Proof.
  intros Hex Han Hcl Hkeep Hclean Hp Hl Hk Hwf Ht H. unfold bind at 1 in H.
  destruct (createTestDBAndUser api ex prefix t) as [[n|v] t1] eqn:E1;
    apply (create_spec ex) in E1 as [Hc1 H1]; try done; rewrite Ht in Hc1.
  2: { injection H as <- <-. rewrite Hc1. simpl. destruct H1 as [->|?]; eauto. }
  destruct H1 as [Hn Hs]. cbv [bind t_Cleanup] in H.
  assert (Hwf1 : wf (srv (t_world t1))).
  { revert Hs. apply steps_wf; [by repeat constructor|done]. }
  destruct (Hk n _ _ _ H Hwf1) as (l & Hlc & _ & Hrun). left.
  rewrite Hlc, Hc1. simpl. rewrite run_cleanups_app. simpl.
  specialize (Hrun (t_world t') eq_refl). simpl in Hrun.
  destruct (drop_temp_run ex n (run_cleanups api l (t_world t')) (srv (t_world t))) as (w2 & H2 & Hw2); try done.
  { rewrite Hrun. by apply drop_made. }
  rewrite Hclean. unfold bind. rewrite H2. specialize (Hcl w2).
  destruct (close w2) as [[]?]; simpl in *; congruence.
Qed.

Lemma prefix_or_test prefix : good_prefix prefix ->
  let p := if String.eqb prefix "" then "test"%string else prefix in
  plain (ToLower p) = true /\ (String.length p <= 47)%nat.
Proof.
  intros [->|[Hp Hl]]; [by split; [|simpl; lia]|]. simpl.
  destruct (String.eqb_spec prefix "") as [->|_]; [by split; [|simpl; lia]|done].
Qed.

Hint Extern 1 (keeps _ _) => first [apply open_keeps | apply db_close_keeps | apply ping_keeps | apply conn_keeps |
  apply sqlconn_close_keeps | apply register_keeps | apply connect_keeps | apply pgxconn_close_keeps |
  apply pool_keeps | apply pool_close_keeps | apply acquire_keeps | apply read_keeps | apply keeps_ret |
  apply keeps_run_fns | apply keeps_bind] : keeps.
Hint Resolve restores_ret restores_Fatal : keeps.

Ltac restoring := repeat (intros; first
  [ apply restores_must; auto with keeps; done | apply restores_must_ok; auto 6 with keeps; done
  | apply restores_call; auto with keeps; done
  | apply restores_Cleanup; unfold run_cleanup; auto 6 with keeps; done | apply restores_defer
  | apply restores_bind | match goal with |- context [match ?x with _ => _ end] => destruct x end; auto with keeps; done
  | progress auto with keeps ]).

(** The tests: with the configuration of the database, with its connections, and
    with what is run on them. *)
Lemma connConfig_restores n : restores srv (connConfig api connStr n).
Proof. unfold connConfig. destruct (pgx_ParseConfig api connStr); auto with keeps. Qed.
Lemma poolConnConfig_restores n : restores srv (poolConnConfig api connStr n).
Proof. unfold poolConnConfig. destruct (pool_ParseConfig api connStr); auto with keeps. Qed.

Definition restored (c : cluster) {A} (r : outcome A * W) : Prop :=
  srv r.2 = c \/ ((exists v, r.1 = Panicked v) /\ left_over c (srv r.2)).

Lemma run_test_restored {A} (m : go test A) w :
  (forall t o t', t_world t = w -> t_cleanups t = [] -> m t = (o, t') ->
    let c := srv (run_cleanups api (t_cleanups t') (t_world t')) in
    c = srv w \/ ((exists v, o = Panicked v) /\ left_over (srv w) c)) ->
  restored (srv w) (run_test api m w).
Proof.
  intros H. unfold run_test. destruct (m _) as [o t'] eqn:E. exact (H {| t_world := w; t_cleanups := [] |} o t' eq_refl eq_refl E).
Qed.

Lemma run_test_bind {A B} (m : go W (res error A)) (k : A -> go test B) w :
  keeps srv m ->
  (forall a w1 t, m w = (Ret (Ok a), w1) -> t_world t = w1 -> t_cleanups t = [] -> srv w1 = srv w ->
    forall o t', k a t = (o, t') ->
    let c := srv (run_cleanups api (t_cleanups t') (t_world t')) in
    c = srv w1 \/ ((exists v, o = Panicked v) /\ left_over (srv w1) c)) ->
  restored (srv w) (run_test api (bind (must m) k) w).
Proof.
  intros Hm Hk. apply run_test_restored. intros [w0 l] o t' Hw Hl H. simpl in Hw, Hl. subst w0 l.
  specialize (Hm w). unfold bind at 1, must, bind, call in H. simpl in H.
  destruct (m w) as [[[a|e]|v] w1] eqn:E; simpl in Hm.
  - specialize (Hk a w1 {| t_world := w1; t_cleanups := [] |} eq_refl eq_refl eq_refl Hm o t' H).
    by rewrite Hm in Hk.
  - injection H as <- <-. by left.
  - injection H as <- <-. by left.
Qed.

(** A test that opens an administrator's connection, makes the database,
    registers the function that drops it and goes on. *)
Lemma opened_restored {A B C} (m : go W (res error A)) (ex : A -> execer)
    (clean : A -> string -> cleanup DB PgxConn Pool) (close : A -> go W (option error)) prefix
    (k : A -> string -> go test B) (body : B -> go test C) w :
  keeps srv m -> (forall a w', m w = (Ret (Ok a), w') -> speaks srv (ex a) /\ answers srv (ex a)) ->
  (forall a, keeps srv (close a)) -> Getenv api "PGDB_KEEP_TESTDB" = ""%string ->
  (forall a n, run_cleanup api (clean a n) = (do! drop_temp api (ex a) n in do! close a in ret tt)) ->
  plain (ToLower prefix) = true -> (String.length prefix <= 47)%nat ->
  (forall a n, restores srv (k a n)) -> (forall b, restores srv (body b)) -> wf (srv w) ->
  restored (srv w) (run_test api (let! b := (let! a := must m in
    let! n := createTestDBAndUser api (ex a) prefix in do! t_Cleanup (clean a n) in k a n) in body b) w).
Proof.
  intros Hm Hopen Hclose Hkeep Hclean Hp Hl Hk Hbody Hwf. unfold run_test. rewrite bind_assoc.
  apply (run_test_bind m (fun a => bind _ body)); [done|].
  intros a w1 t Ha Ht Hc Hw1 o t' H. destruct (Hopen _ _ Ha) as [Hex Han].
  rewrite bind_assoc in H. subst w1.
  eapply (made_restores (ex a) (clean a) (close a) prefix (fun n => bind (k a n) body));
    eauto using restores_bind. by rewrite Hw1.
Qed.

(** C38. A test with a temporary database, whatever way it ends, leaves the
    databases and the roles of the server as they were, when PGDB_KEEP_TESTDB is
    not set: or else the database or its role could not be made, the test failed,
    and what was made before remains. *)
Theorem temp_database {A} driver prefix sqlfns pgxfns (body : DB -> go test A) (pbody : Pool -> go test A) w :
  Getenv api "PGDB_KEEP_TESTDB" = ""%string -> good_prefix prefix -> wf (srv w) ->
  Forall (fun f => forall x, keeps srv (f x)) sqlfns -> Forall (fun f => forall x, keeps srv (f x)) pgxfns ->
  (forall db, restores srv (body db)) -> (forall db, restores srv (pbody db)) ->
  restored (srv w) (run_test api (let! db := newSQL api driver connStr prefix sqlfns in body db) w) /\
  restored (srv w) (run_test api (let! db := NewPgx api connStr prefix pgxfns in pbody db) w).
Proof.
  intros Hkeep Hp Hwf Hsql Hpgx Hbody Hpbody. apply prefix_or_test in Hp as [Hp Hl].
  split.
  - apply (opened_restored _ (sqlDBExecer api) CleanSql (db_Close api)); auto with keeps.
    + intros db w' E. by apply open_speaks in E.
    + intros db n. restoring; [apply connConfig_restores|]. destruct sqlfns; restoring.
  - apply (opened_restored _ (pgxExecer api) CleanPgx (pgxconn_Close api)); auto with keeps.
    + intros conn w' E. by apply connect_speaks in E.
    + intros conn n. restoring; [apply poolConnConfig_restores|]. destruct pgxfns; restoring.
Qed.
End Made.
End Leaves.

(** ** A server *)

Fixpoint words (s : string) : list string :=
  match s with
  | EmptyString => [EmptyString]
  | String c s' =>
      match words s' with
      | w :: ws => if Ascii.eqb c " " then EmptyString :: w :: ws else String c w :: ws
      | [] => []
      end
  end.
Definition parse (s : string) : option stmt :=
  match words s with
  | ["CREATE"; "DATABASE"; n] => Some (CreateDatabase n)
  | ["CREATE"; "USER"; n; "WITH"; p] => Some (CreateUser n p)
  | ["GRANT"; "ALL"; "PRIVILEGES"; "ON"; "DATABASE"; n; "TO"; u] => Some (GrantAll n u)
  | ["ALTER"; "DATABASE"; n; "OWNER"; "TO"; u] => Some (AlterOwner n u)
  | ["DROP"; "DATABASE"; "IF"; "EXISTS"; n; "WITH"; "(FORCE)"] => Some (DropDatabase n)
  | ["DROP"; "USER"; "IF"; "EXISTS"; n] => Some (DropUser n)
  | _ => None
  end%string.

Lemma words_cons s : exists w ws, words s = w :: ws.
Proof.
  induction s as [|c s (w & ws & IH)]; simpl; [by do 2 eexists|]. rewrite IH.
  destruct (Ascii.eqb c " "); by do 2 eexists.
Qed.

Fixpoint one_word (s : string) : bool :=
  match s with EmptyString => true | String c s' => negb (Ascii.eqb c " ") && one_word s' end.

Lemma words_one w : one_word w = true -> words w = [w].
Proof.
  induction w as [|c w IH]; simpl; [done|]. intros [Hc Hw]%andb_true_iff. rewrite (IH Hw).
  by destruct (Ascii.eqb c " ").
Qed.

Lemma words_more w s : one_word w = true -> words (w +:+ String " " s) = w :: words s.
Proof.
  induction w as [|c w IH]; simpl.
  - by destruct (words_cons s) as (w & ws & ->).
  - intros [Hc Hw]%andb_true_iff. rewrite (IH Hw). by destruct (Ascii.eqb c " ").
Qed.

Fixpoint join_words (l : list string) : string :=
  match l with [] => "" | [w] => w | w :: l => w +:+ String " " (join_words l) end.

Lemma words_join l : l <> [] -> forallb one_word l = true -> words (join_words l) = l.
Proof.
  induction l as [|w l IH]; [done|]. intros _ [Hw Hl]%andb_true_iff. destruct l as [|v l]; [by apply words_one|].
  change (join_words (w :: v :: l)) with (w +:+ String " " (join_words (v :: l))).
  by rewrite words_more, IH.
Qed.

Lemma one_word_app s t : one_word (s +:+ t) = one_word s && one_word t.
Proof. induction s as [|c s IH]; [done|]. simpl. by rewrite IH, andb_assoc. Qed.

Lemma usable_one n : usable n -> one_word n = true.
Proof.
  intros [Hn _]. assert (H : plain_chars n = true).
  { destruct n as [|c n]; [done|]. by apply andb_true_iff in Hn as [_ ?]. }
  clear Hn. induction n as [|c n IH]; simpl in *; [done|]. apply andb_true_iff in H as [Hc H].
  rewrite (IH H), andb_true_r. by destruct (Ascii.eqb_spec c " ") as [->|].
Qed.

(** The words of a statement, and so a statement can be read back, but for the
    quotes of its password. *)
Definition text_words (s : stmt) : list string :=
  match s with
  | CreateDatabase n => ["CREATE"; "DATABASE"; n]
  | CreateUser n p => ["CREATE"; "USER"; n; "WITH"; "PASSWORD'" +:+ p +:+ "'"]
  | GrantAll n u => ["GRANT"; "ALL"; "PRIVILEGES"; "ON"; "DATABASE"; n; "TO"; u]
  | AlterOwner n u => ["ALTER"; "DATABASE"; n; "OWNER"; "TO"; u]
  | DropDatabase n => ["DROP"; "DATABASE"; "IF"; "EXISTS"; n; "WITH"; "(FORCE)"]
  | DropUser n => ["DROP"; "USER"; "IF"; "EXISTS"; n]
  end%string.

Lemma parse_text s : Forall usable (names s) ->
  parse (text s) = Some match s with CreateUser n p => CreateUser n ("PASSWORD'" +:+ p +:+ "'") | _ => s end.
Proof.
  intros Hs. unfold parse. assert (E : words (text s) = text_words s); [|rewrite E; by destruct s].
  replace (text s) with (join_words (text_words s)) by (by destruct s).
  apply words_join; [by destruct s|].
  destruct s; simpl in Hs; repeat (apply Forall_cons in Hs as [?%usable_one Hs]); simpl;
    rewrite ?one_word_app; by repeat match goal with H : one_word _ = true |- _ => rewrite H; clear H end.
Qed.

(** A server with one administrator, whose drivers read the statements. *)
Definition ex_exec (s : string) : go cluster (option error) := fun c =>
  match parse s ≫= fun st => exec_stmt st c with
  | Some c' => (Ret None, c')
  | None => (Ret (Some (ConstError "refused")), c)
  end.
Definition ex_conf : ConnConfig := {| Database := "postgres"; User := "postgres"; Password := ""; RuntimeParams := None |}.
Definition ex_api : Api cluster unit unit unit unit unit ConnConfig := {|
  sql_Open _ _ := ret (Ok tt); db_ExecContext _ := ex_exec; db_Close _ := ret None; db_PingContext _ := ret None;
  db_Conn _ := ret (Ok tt); sqlconn_ExecContext _ _ := ret None; sqlconn_Close _ := ret None;
  pgx_ParseConfig _ := Ok ex_conf; RegisterConnConfig conf := ret (Database conf);
  pgx_Connect _ := ret (Ok tt); pgxconn_Exec _ := ex_exec; pgxconn_Close _ := ret None;
  pool_ParseConfig _ := Ok ex_conf; pool_ConnConfig conf := conf; pool_with conf _ := conf;
  NewWithConfig _ := ret (Ok tt); pool_Close _ := ret tt; AcquireFunc _ f := f tt; poolconn_Conn _ := tt;
  rand_Read n := ret (if n <? 0 then Err (ConstError "bad size") else Ok (repeat 171 (Z.to_nat n)));
  Getenv _ := ""%string |}.

Lemma ex_exec_speaks : speaks id ex_exec.
Proof.
  intros s w Hs. unfold ex_exec. rewrite parse_text by done. simpl.
  destruct s; simpl; repeat case_match; simplify_eq/=; done.
Qed.
Lemma ex_exec_answers : answers id ex_exec.
Proof.
  intros n s w Hn Hs H. unfold ex_exec.
  rewrite parse_text by (destruct Hs as [->| ->]; simpl; auto). unfold id in H.
  destruct Hs as [->| ->]; simpl in *; [done|]. by case_match.
Qed.
#[local] Instance ex_laws connStr : ServerLaws ex_api id connStr.
Proof.
  split; try done.
  - intros. split; [apply ex_exec_speaks|apply ex_exec_answers].
  - intros. split; [apply ex_exec_speaks|apply ex_exec_answers].
  - intros p f Hf w. apply Hf.
  - intros n w b w' H. injection H as H <-. destruct (Z.ltb_spec n 0); [done|]. injection H as <-.
    split; [rewrite repeat_length; lia|]. apply Forall_forall. intros x Hx%list_elem_of_In%repeat_spec. lia.
Qed.

Definition ex_cluster : cluster :=
  {| databases := {["postgres" := {| owner := "postgres"; acl := ∅ |}]}; users := {["postgres"]}; admin := "postgres" |}%string.

Lemma ex_wf : wf ex_cluster.
Proof. split; [set_solver|]. intros k d Hk. simpl in Hk. apply lookup_singleton_Some in Hk as [<- <-]. simpl. set_solver. Qed.

(** A test whose body fails, on each kind of connection, and a name already taken. *)
Lemma temp_database_witness :
  (run_test ex_api (let! _ := newSQL ex_api "pgx" "" "Acct" [fun _ => ret None] in Fatal (A := unit))%go ex_cluster).2 = ex_cluster /\
  restored id (id ex_cluster) (run_test ex_api (let! _ := newSQL ex_api "pgx" "" "Acct" [fun _ => ret None] in Fatal (A := unit))%go ex_cluster) /\
  restored id (id ex_cluster) (run_test ex_api (let! _ := NewPgx ex_api "" "Acct" [] in ret tt)%go ex_cluster).
Proof.
  split; [by vm_compute|].
  apply (temp_database ex_api id ""); [done|right; split; [done|simpl; lia]|exact ex_wf|..].
  - repeat constructor.
  - constructor.
  - intros _. apply restores_Fatal.
  - intros _. apply restores_ret.
Defined.

(** A role that another test left makes CREATE USER fail after CREATE DATABASE:
    the test has no cleanup yet, and the database remains. *)
Definition ex_crowded : cluster := with_users (union {["acct" +:+ hex_EncodeToString (repeat 171 8)]}) ex_cluster.

Example createTestDBAndUser_leaves :
  let '(o, c) := run_test ex_api (newSQL ex_api "pgx" "" "Acct" []) ex_crowded in
  o = Panicked "the test failed" /\ size (databases ex_crowded) = 1%nat /\ size (databases c) = 2%nat.
Proof. by vm_compute. Qed.
