(* ===== verification/Pgcron.v ===== *)
(** * Pgcron: the mock of pg_cron of src/pgdb/testdb/testdb.go

    The statements that mockPgcron executes, and what its SQL functions do to the
    table of the jobs: cron.schedule with its ON CONFLICT clause, and the two
    cron.unschedule.  A session gives the defaults of the columns.  The policies
    that the statements make have no effect, as they do not enable row security. *)

From Stdlib Require Import ZArith String Lia.
From stdpp Require Import gmap.
From S2P Require Import Prelude Errors Testdb.

(** ** The statements *)

(** The statements of mockPgcron: their text is SQL, given with the functions
    below. *)
Inductive cron_stmt :=
| CreateSchema_cron
| CreateTable_job
| CreateUniqueIndex_jobname_username
| CreatePolicy_job
| CreateTable_job_run_details
| CreatePolicy_job_run_details
| CreateFunction_schedule
| CreateFunction_schedule_unnamed
| CreateFunction_unschedule_name
| CreateFunction_unschedule_id.

Definition stmts : list cron_stmt :=
  [CreateSchema_cron; CreateTable_job; CreateUniqueIndex_jobname_username; CreatePolicy_job;
   CreateTable_job_run_details; CreatePolicy_job_run_details; CreateFunction_schedule;
   CreateFunction_schedule_unnamed; CreateFunction_unschedule_name; CreateFunction_unschedule_id].

Section Mock.
Context {W : Type} (Exec : cron_stmt -> go W (option error)).
Local Open Scope go_scope.

(** [for _, stmt := range stmts] *)
Fixpoint exec_all (l : list cron_stmt) : go W (option error) :=
  match l with
  | [] => ret None
  | s :: l => let! err := Exec s in match err with Some e => ret (Some e) | None => exec_all l end
  end.
Definition mockPgcron : go W (option error) := exec_all stmts.
End Mock.

Section MockPgcron.
Context {W DB SqlConn PgxConn Pool PoolConn PoolConfig : Type}.
Context (api : Api W DB SqlConn PgxConn Pool PoolConn PoolConfig).
(** the texts of the statements *)
Context (sql_text : cron_stmt -> string).

Definition MockPgcronPgx (conn : PgxConn) : go W (option error) :=
  mockPgcron (fun s => pgxExecer api conn (sql_text s)).
Definition MockPgcronSQL (conn : SqlConn) : go W (option error) :=
  mockPgcron (fun s => sqlConnExecer api conn (sql_text s)).
End MockPgcron.

(** ** The table *)

(** A row of cron.job. *)
Record job := {
  jobid : Z; schedule : string; command : string; nodename : string; nodeport : Z; database : string;
  username : string; active : bool; jobname : option string;
}.
#[export] Instance job_eq_dec : EqDecision job.
Proof. solve_decision. Defined.
Record cron := { jobs : gmap Z job; next_jobid : Z }.

(** What the functions of a session give: inet_server_port is NULL when the
    session is on a Unix socket. *)
Record cron_session := { current_user : string; current_database : string; inet_server_port : option Z }.

(** A text as a NAME: its first 63 bytes (of a text whose characters have one
    byte). *)
Definition as_name (s : string) : string := take_str 63 s.

Definition conflicts (name user : string) (j : job) : bool :=
  bool_decide (jobname j = Some name) && String.eqb (username j) user.
Definition find_job (p : job -> bool) (t : gmap Z job) : option job :=
  snd <$> List.find (fun kj => p kj.2) (map_to_list t).

(** The job that a name and a role already have. *)
Definition job_of (name : option string) (user : string) (t : cron) : option job :=
  n ← name; find_job (conflicts (as_name n) user) (jobs t).

(** cron.schedule(job_name, schedule, command) in a session; a NULL name is one
    that no row has.  The row is checked before its conflict is looked for, and
    it has taken its number by then. *)
Definition Schedule (se : cron_session) (name : option string) (sched cmd : string) (t : cron) : res string Z * cron :=
  let id := next_jobid t in
  match inet_server_port se with
  | None => (Err "null value in column nodeport violates not-null constraint"%string,
             {| jobs := jobs t; next_jobid := id + 1 |})
  | Some port =>
      match job_of name (current_user se) t with
      | Some j =>
          (Ok (jobid j),
           {| jobs := <[jobid j := {| jobid := jobid j; schedule := sched; command := cmd; nodename := nodename j;
                nodeport := nodeport j; database := database j; username := username j; active := active j;
                jobname := jobname j |}]> (jobs t);
              next_jobid := id + 1 |})
      | None =>
          (Ok id,
           {| jobs := <[id := {| jobid := id; schedule := sched; command := cmd; nodename := "localhost";
                nodeport := port; database := current_database se; username := current_user se; active := true;
                jobname := as_name <$> name |}]> (jobs t);
              next_jobid := id + 1 |})
      end
  end.

(** cron.schedule(schedule, command). *)
Definition Schedule_unnamed (se : cron_session) (sched cmd : string) (t : cron) : res string Z * cron :=
  Schedule se None sched cmd t.

(** The rows that a DELETE removes, and IF NOT FOUND. *)
Definition delete_found (p : job -> bool) (missing : string) (t : cron) : res string bool * cron :=
  let kept := filter (fun kj => p kj.2 = false) (jobs t) in
  if decide (kept = jobs t) then (Err ("could not find valid entry for job " +:+ missing), t)
  else (Ok true, {| jobs := kept; next_jobid := next_jobid t |}).

(** cron.unschedule(job_name), which compares the whole text, and
    cron.unschedule(job_id). *)
Definition named (name : string) (j : job) : bool := bool_decide (jobname j = Some name).
Definition Unschedule_name (name : string) (t : cron) : res string bool * cron :=
  delete_found (named name) name t.
Definition Unschedule_id (id : Z) (t : cron) : res string bool * cron :=
  delete_found (fun j => jobid j =? id) (Itoa id) t.

(** ** Names *)

Lemma as_name_short s : (String.length s <= 63)%nat -> as_name s = s.
Proof. apply take_str_all. Qed.

Lemma as_name_length s : (String.length (as_name s) <= 63)%nat.
Proof. unfold as_name. rewrite take_str_length. lia. Qed.

(** ** The invariant of the table *)

(** What the primary key, the sequence, the unique index and the type of the
    names keep. *)
Record cron_ok (t : cron) : Prop := {
  key_jobid : forall id j, jobs t !! id = Some j -> jobid j = id /\ id < next_jobid t;
  uniq_name : forall id id' j j' n, jobs t !! id = Some j -> jobs t !! id' = Some j' ->
    jobname j = Some n -> jobname j' = Some n -> username j = username j' -> id = id';
  short_name : forall id j n, jobs t !! id = Some j -> jobname j = Some n -> (String.length n <= 63)%nat;
}.

Lemma find_job_spec p (t : gmap Z job) :
  match find_job p t with
  | Some j => exists id, t !! id = Some j /\ p j = true
  | None => forall id j, t !! id = Some j -> p j = false
  end.
Proof.
  unfold find_job. destruct (List.find _ _) as [[id j]|] eqn:E; simpl.
  - apply find_some in E as [Hin Hp]. exists id. split; [|done].
    by apply elem_of_map_to_list, list_elem_of_In.
  - intros id j Hj. apply (find_none _ _ E (id, j)). by apply list_elem_of_In, elem_of_map_to_list.
Qed.

Lemma conflicts_spec n u j : conflicts n u j = true <-> jobname j = Some n /\ username j = u.
Proof. unfold conflicts. by rewrite andb_true_iff, bool_decide_eq_true, String.eqb_eq. Qed.

Lemma job_of_Some name user t j : job_of name user t = Some j ->
  exists n id, name = Some n /\ jobs t !! id = Some j /\ jobname j = Some (as_name n) /\ username j = user.
Proof.
  intros (n & -> & H)%bind_Some. pose proof (find_job_spec (conflicts (as_name n) user) (jobs t)) as F.
  rewrite H in F. destruct F as (id & Hid & Hc%conflicts_spec). exists n, id. naive_solver.
Qed.

Lemma job_of_None n user t id j : job_of (Some n) user t = None -> jobs t !! id = Some j ->
  jobname j = Some (as_name n) -> username j <> user.
Proof.
  intros H Hj Hn Hu. pose proof (find_job_spec (conflicts (as_name n) user) (jobs t)) as F.
  unfold job_of in H. simpl in H. rewrite H in F. apply F in Hj.
  assert (conflicts (as_name n) user j = true) by (by apply conflicts_spec). congruence.
Qed.

(** ** The functions *)

Lemma Schedule_ok se name sched cmd t : cron_ok t -> cron_ok (Schedule se name sched cmd t).2.
Proof.
  intros [Hk Hu Hs]. unfold Schedule. destruct (inet_server_port se) as [port|]; simpl.
  2: { split; simpl; [intros id j H; apply Hk in H as [? ?]; split; [done|lia]|done..]. }
  destruct (job_of name (current_user se) t) as [j0|] eqn:E; simpl.
  - apply job_of_Some in E as (n & i0 & -> & Hi0 & Hn0 & Hu0). destruct (Hk _ _ Hi0) as [Hid Hlt].
    split; simpl.
    + intros id j [[<- <-]|[? H]]%lookup_insert_Some; simpl; [lia|]. apply Hk in H. lia.
    + intros id id' j j' n' [[<- <-]|[? H]]%lookup_insert_Some [[<- <-]|[? H']]%lookup_insert_Some; simpl; intros;
        try done; eapply Hu; rewrite ?Hid; eauto.
    + intros id j n' [[<- <-]|[? H]]%lookup_insert_Some; simpl; eauto.
  - assert (Hnew : jobs t !! next_jobid t = None).
    { destruct (jobs t !! next_jobid t) eqn:F; [|done]. apply Hk in F. lia. }
    split; simpl.
    + intros id j [[<- <-]|[? H]]%lookup_insert_Some; simpl; [lia|]. apply Hk in H. lia.
    + intros id id' j j' n' [[<- <-]|[? H]]%lookup_insert_Some [[<- <-]|[? H']]%lookup_insert_Some; simpl;
        [done| | |by eauto]; destruct name as [n|]; simpl; intros Hn Hn' Huser; simplify_eq.
      * by destruct (job_of_None _ _ _ _ _ E H' Hn').
      * by destruct (job_of_None _ _ _ _ _ E H Hn).
    + intros id j n' [[<- <-]|[? H]]%lookup_insert_Some; simpl; [|eauto].
      destruct name as [n|]; simpl; [|done]. intros [= <-]. apply as_name_length.
Qed.

Lemma delete_found_ok p m t : cron_ok t -> cron_ok (delete_found p m t).2.
Proof.
  intros [Hk Hu Hs]. unfold delete_found. case_decide; [done|]. simpl.
  split; simpl; intros *; rewrite ?map_lookup_filter_Some; naive_solver.
Qed.

(** What a DELETE leaves, and when it finds nothing. *)
Lemma delete_found_spec p m t :
  ((exists id j, jobs t !! id = Some j /\ p j = true) ->
   delete_found p m t = (Ok true, {| jobs := filter (fun kj => p kj.2 = false) (jobs t); next_jobid := next_jobid t |})) /\
  ((forall id j, jobs t !! id = Some j -> p j = false) ->
   delete_found p m t = (Err ("could not find valid entry for job " +:+ m), t)).
Proof.
  unfold delete_found. split.
  - intros (id & j & Hj & Hp). case_decide as E; [|done]. rewrite <- E in Hj.
    apply map_lookup_filter_Some in Hj as [_ H]. simpl in H. congruence.
  - intros H. rewrite decide_True; [done|]. apply map_filter_id. intros i x Hx. by apply (H i).
Qed.

(** A name and a role have one job, whose schedule and command are the last
    ones given to cron.schedule. *)
Lemma Schedule_run se n sched cmd t port : cron_ok t -> inet_server_port se = Some port ->
  exists id t' j, Schedule se (Some n) sched cmd t = (Ok id, t') /\
    jobs t' = <[id := j]> (jobs t) /\ schedule j = sched /\ command j = cmd /\
    jobname j = Some (as_name n) /\ username j = current_user se /\
    (forall j0, jobs t !! id = Some j0 -> jobname j0 = Some (as_name n)) /\
    (forall id' j', jobs t !! id' = Some j' -> jobname j' = Some (as_name n) -> username j' = current_user se -> id' = id).
Proof.
  intros [Hk Hu Hs] Hport. unfold Schedule. rewrite Hport.
  destruct (job_of (Some n) (current_user se) t) as [j0|] eqn:E.
  - apply job_of_Some in E as (? & i0 & [= <-] & Hi0 & Hn0 & Hu0). destruct (Hk _ _ Hi0) as [Hid Hlt].
    do 3 eexists. split; [reflexivity|]. split; [reflexivity|]. simpl. do 4 (split; [done|]). rewrite Hid.
    split; [naive_solver|]. intros id' j' H Hn Hus. by apply (Hu _ _ _ _ _ H Hi0 Hn Hn0); rewrite Hus.
  - do 3 eexists. split; [reflexivity|]. split; [reflexivity|]. simpl. do 4 (split; [done|]). split.
    + intros j0 Hj. apply Hk in Hj. lia.
    + intros id' j' H Hn Hus. by destruct (job_of_None _ _ _ _ _ E H Hn).
Qed.

(** cron.schedule gives a name and a role one job, replacing the schedule and
    the command of the one they had, and keeps the other jobs; cron.unschedule
    then removes the jobs of that name, of any role, but for a name of more than
    63 bytes, which the table has cut: it fails and removes nothing. *)
Theorem Schedule_Unschedule se n sched cmd t port :
  cron_ok t -> inet_server_port se = Some port ->
  exists id t' j, Schedule se (Some n) sched cmd t = (Ok id, t') /\ cron_ok t' /\
    jobs t' = <[id := j]> (jobs t) /\ schedule j = sched /\ command j = cmd /\ username j = current_user se /\
    (forall sched' cmd', (Schedule se (Some n) sched' cmd' t').1 = Ok id) /\
    if (String.length n <=? 63)%nat
    then exists t'', Unschedule_name n t' = (Ok true, t'') /\ jobs t'' = filter (fun kj => named n kj.2 = false) (jobs t)
    else Unschedule_name n t' = (Err ("could not find valid entry for job " +:+ n), t').
Proof.
  intros Hok Hport. pose proof (Schedule_ok se (Some n) sched cmd t Hok) as Hok'.
  destruct (Schedule_run se n sched cmd t port Hok Hport) as (id & t' & j & E & Hj & Hsch & Hcmd & Hn & Hus & Hsame & _).
  rewrite E in Hok'. simpl in Hok'. exists id, t', j. do 6 (split; [done|]).
  assert (Hid : jobs t' !! id = Some j) by (rewrite Hj; apply lookup_insert_eq). split.
  - intros sched' cmd'. destruct (Schedule_run se n sched' cmd' t' port Hok' Hport) as (id' & ? & ? & E' & _ & _ & _ & _ & _ & _ & Huniq).
    rewrite E'. simpl. f_equal. symmetry. by apply (Huniq id j).
  - destruct (Nat.leb_spec (String.length n) 63) as [Hl|Hl].
    + rewrite (as_name_short n Hl) in *. eexists. split.
      { apply delete_found_spec. exists id, j. split; [done|]. by apply bool_decide_eq_true. }
      simpl. rewrite Hj. apply map_eq. intros k. apply option_eq. intros x.
      rewrite !map_lookup_filter_Some, lookup_insert_Some. simpl. unfold named. rewrite !bool_decide_eq_false. split.
      * intros [[[<- <-]|[_ ?]] ?]; [by rewrite Hn in *|done].
      * intros [Hx Hne]. split; [right|done]. split; [|done]. intros <-. by apply Hsame in Hx.
    + apply delete_found_spec. intros id' j' H. apply bool_decide_eq_false. intros Hn'.
      pose proof (short_name _ Hok' _ _ _ H Hn'). lia.
Qed.

(** Two jobs and a long name. *)
Definition ex_session : cron_session := {| current_user := "app"; current_database := "app"; inet_server_port := Some 5432 |}.
Definition ex_cron : cron := {| jobs := ∅; next_jobid := 1 |}.
Definition long_name : string := hex_EncodeToString (repeat 171 32).

Example Schedule_example :
  let '(r1, t1) := Schedule ex_session (Some "purge"%string) "* * * * *" "CALL p()" ex_cron in
  let '(r2, t2) := Schedule ex_session (Some "purge"%string) "@daily" "CALL p()" t1 in
  let '(r3, t3) := Unschedule_name "purge" t2 in
  let '(r4, t4) := Schedule ex_session (Some long_name) "@daily" "CALL p()" t3 in
  r1 = Ok 1 /\ r2 = Ok 1 /\ r3 = Ok true /\ r4 = Ok 3 /\ (Unschedule_name long_name t4).2 = t4 /\
  (Unschedule_id 3 t4).1 = Ok true.
Proof. by vm_compute. Qed.

Lemma ex_cron_ok : cron_ok ex_cron.
Proof. by split. Qed.

Lemma Schedule_Unschedule_witness :
  exists id t' j, Schedule ex_session (Some long_name) "@daily" "CALL p()" ex_cron = (Ok id, t') /\ cron_ok t' /\
    jobs t' = <[id := j]> (jobs ex_cron) /\ schedule j = "@daily"%string /\ command j = "CALL p()"%string /\
    username j = "app"%string /\
    (forall sched' cmd', (Schedule ex_session (Some long_name) sched' cmd' t').1 = Ok id) /\
    Unschedule_name long_name t' = (Err ("could not find valid entry for job " +:+ long_name), t').
Proof. exact (Schedule_Unschedule ex_session long_name "@daily" "CALL p()" ex_cron 5432 ex_cron_ok eq_refl). Defined.

(** A session on a Unix socket schedules nothing. *)
Lemma Schedule_socket se name sched cmd t : inet_server_port se = None ->
  (exists e, (Schedule se name sched cmd t).1 = Err e) /\ jobs (Schedule se name sched cmd t).2 = jobs t.
Proof. intros H. unfold Schedule. rewrite H. simpl. eauto. Qed.

(** The other two functions keep the invariant too. *)
Lemma Unschedule_ok t : cron_ok t ->
  (forall n, cron_ok (Unschedule_name n t).2) /\ (forall id, cron_ok (Unschedule_id id t).2) /\
  (forall se sched cmd, cron_ok (Schedule_unnamed se sched cmd t).2).
Proof. intros H. split; [|split]; intros; [by apply delete_found_ok..|by apply Schedule_ok]. Qed.
